(* ===== verification/_CoqProject ===== *)
-Q . S2P
Prelude.v
Effects.v
AsyncLog.v
DList.v
Lru.v
GoStrings.v
GoConv.v
GoPem.v
GoJson.v
GoRegexp.v
GoUrl.v
GoPath.v
ListLoader.v
GoNetip.v
Dns.v
GoMime.v
DomainTrie.v
DomainRules.v
Http.v
Access.v
LeafCache.v
Ca.v
Schedule.v
TimeBands.v
UpstreamPool.v
Limiter.v
PolicyRules.v
UrlRules.v
Policy.v
PolicyTheorems.v
PolicyEffects.v
Rules.v
Framing.v
SemanticFilter.v
AhoCorasick.v
SemanticTheorems.v
FilterEngine.v
InspectReader.v
Antivirus.v
Encoded.v
HtmlFilter.v
MaskingFilter.v
BodyFilters.v
BodyTheorems.v
Config.v
ContentFilter.v
ContentTheorems.v
AuditScope.v
Relay.v
Exchange.v
Dump.v
Streaming.v
WebSocket.v
Pump.v
RelayLoop.v
Upstream.v
Server.v
Quiet.v
Custody.v
Mediation.v
Faults.v
Returns.v
Replies.v
Dialling.v
Redaction.v
Dumper.v
Runtime.v
Stealth.v
Listeners.v
Lifecycle.v
Startup.v
EndToEnd.v
RelayTheorems.v
