(* ===== verification/Prelude.v ===== *)
(** * LucidGate: a verification development

    LucidGate (src/) is a filtering HTTP/HTTPS proxy.  A client connects, an
    access profile is chosen from its address, the policy decides on each
    request from lists of domains, addresses, URLs, files, headers, cookies
    and referers, and the relay writes the request upstream and the response
    back, pulling the bodies through content filters.  HTTPS is intercepted
    with certificates of a root of its own.  Connections, certificates and
    rate limiters are kept in bounded caches.  The settings come from a TOML
    file, the environment and the command line, the lists of the policy from
    directories of rule files, and both can be reloaded.

    ** Files and what they model

    The parts of Go's library the proxy computes with are functions on byte
    strings: [GoStrings] (strings, strconv, net.SplitHostPort, path),
    [GoConv] (strconv and time conversions, with binary64 floats), [GoPem]
    (base64 and PEM), [GoJson] (json.Valid), [GoPath] (path/filepath, files
    and bufio.Scanner), [GoUrl] (net/url), [GoNetip] (net/netip), [GoMime]
    (mime), [Http] (net/http headers and messages).  What the sources only
    call is a class with its documented laws and a closed instance:
    [GoRegexp.Regexp] (regexp), [GoNetip.PrefixTable] (the third-party
    longest-prefix table), [BodyFilters.ContentSniffer]
    (http.DetectContentType), [GoStrings.UnicodeTables] (lower case beyond
    ASCII), [Dump.Digests] (HMAC, SHA-256 and the decoders of dumps),
    [Limiter.Weighted] (the third-party semaphore), [Encoded.Codecs]
    (compressors) and [Ca.Crypto] (keys, signatures and DER).

    - Host and client rules: [DomainTrie] and [DomainRules]
      (proxy/domain_rules.go, proxy/matchers.go), [Access]
      (proxy/access_rules.go), [Schedule] (proxy/schedule_rules.go).
    - The policy (proxy/policy.go): [PolicyRules] and [UrlRules] are the rule
      sets, [Policy] asks them in turn and rewrites headers; [PolicyTheorems]
      and [PolicyEffects] hold the theorems.
    - Body filters: [FilterEngine] is the interface [StreamFilter] and the
      loop [drain] that runs a filter over a body; its instances are the
      phrase filter ([SemanticFilter], [AhoCorasick], [SemanticTheorems];
      proxy/semantic_filter.go), the HTML text filter ([HtmlFilter]), the
      masking filter ([MaskingFilter]), magic numbers, banner injection and
      substitution ([BodyFilters], [BodyTheorems]) and the chains of them
      ([ContentFilter], [ContentTheorems]; proxy/masking_filter.go,
      proxy/relay.go).
    - Bodies on the wire (proxy/relay.go): [InspectReader], [Encoded] (bodies
      that are compressed), [Framing], [Relay], [RelayTheorems].
    - Exchanges (proxy/relay.go): [Exchange] has the errors, the options and
      the calls a handler makes, [Streaming] the streaming of a request or a
      response with its errors, [RelayLoop] the loop over the requests of an
      intercepted connection.
    - The server (proxy/server.go): [Upstream] (destinations, leases and
      dials, with proxy/breaker.go), [Server] ([ServeHTTP] and the handlers
      below it), [WebSocket] and [Pump] (proxy/websocket.go: the handshake and
      the two copies), [Limiter] (connection limits), [Lifecycle] ([Serve] and
      [drainHijacked]).
    - Dumps (proxy/relay.go): [Dump] is a record with its redaction, [Dumper]
      the queue, the writer and its files, and the creation of the dumper.
    - Settings and lists: [ListLoader] (list_loader.go: list files with
      includes), [TimeBands] and [Rules] (rules.go: time lists, rule files,
      client groups), [Config] (config.go: [parseConfig] and [validate]).
    - The process (main.go): [Runtime] (the setters of the server,
      [applyRuntimeConfig], reloads, log sinks, readiness), [Startup]
      ([main]), [Listeners] (proxy/upgrader.go, proxy/upgrader_unix.go),
      [Stealth] (stealth/dial.go: TLS to upstreams), [Ca] (pki/ca.go: the root
      certificate).
    - Scanning: [Antivirus] (proxy/antivirus.go), the scanner's protocol and
      the two goroutines that download and trickle a response.
    - Shared state: [DList] and [Lru] (proxy/rate_limiter.go, pki/leaf.go),
      [LeafCache] (pki/leaf.go: concurrent requests for certificates),
      [UpstreamPool] (proxy/upstream_pool.go), [AuditScope]
      (proxy/audit_scope.go), [Dns] (proxy/dns.go), [AsyncLog]
      (proxy/async_logger.go).
    - Theorems about the handlers as a whole: [Mediation], [Custody],
      [Faults], [Returns], [Replies], [Dialling], [Redaction], with [Quiet] for
      the calls they ignore, and [EndToEnd], from a ban file to the answer of
      a request.

    ** How code is rendered

    A struct is a record with the fields of the source, an enum an inductive
    type, a method that changes its receiver returns the new receiver, a
    [(T, error)] result is [result E T], a nil pointer is [None].  Integers
    that may wrap are [Z] with [wrapU] and [wrapS] written where the code
    converts; a [time.Time] is its nanoseconds and durations saturate
    ([time_Sub]).  A [range] over a map is a list of its entries in an
    arbitrary order.  Goroutines are steps between their synchronisation
    points, and a theorem is about every interleaving.  Where slices share an
    array and the code depends on it ([TimeBands.subtractIntervals]), the
    array is part of the state.  A TOML decoder, a file system without links,
    the answers of the scanner and of the resolver are arguments.

    Code that talks to sockets, clocks and other goroutines is a program
    ([Effects]): a tree of calls with a continuation for every answer.  The
    calls are those of the code (read a request, write these bytes, set a
    deadline, lease a connection), the decisions between them are computed by
    the definitions of the other files, and an oracle answers the calls.  A
    theorem about a handler is about every oracle, so that every failure of
    every call is covered.  Properties of the order of calls are monitors:
    automata over calls and answers that must never object ([safe],
    [safe_run]).

    ** What the theorems show

    Whatever the environment answers, a handler reaches an upstream only for
    an admitted client and a request the policy admits (Mediation), uses each
    upstream connection alone and gives it back once (Custody), stops at the
    first failure and reports it (Faults), dials only what the policy allows
    (Dialling, Stealth), answers once (Replies), returns when the client hangs
    up (Returns), and queues only redacted records for the dumps (Redaction).
    A reload puts the rules of the files in force, or says what stays as it
    was (Runtime); a ban file of a loaded configuration refuses the requests
    it covers (EndToEnd); the server shuts down in bounded time and closes what
    it opened (Lifecycle), the program serves only once everything it needs is
    in place (Startup), and the root certificate survives restarts (Ca).

    Rule sets refine declarative descriptions of their lists: a trie answers
    by suffixes of labels, every rule set by the first of its levels that
    covers the input, the whole policy by the first rule set that blocks.
    Filters are compared with functions of the whole body, for every way to
    cut it into chunks: the automaton with a naive scan, masking and
    injection with their one-shot definitions, the readers, plain and
    compressed, with [drain].  The wire format of the relay is decoded by
    reference decoders.  Caches, pools, limits and dump files satisfy
    invariants over every sequence of operations, and the LRU lists refine
    lists ordered by recency.  Reading list files ends for every set of
    includes; settings come from the first source that has them and an
    accepted configuration is well formed.  Requests for certificates share
    one generation and all end; a scanned response reaches its end at the
    client only when it was found clean; the two copies of a tunnel deliver
    prefixes and are never stuck.

    Where the code does not do what it means to, a lemma exhibits the input:
    [exfiltration_straddle], [block_reorders], [url_exception_no_boundary],
    [rewrite_can_frame], [html_script_space], [html_comment_gt],
    [head_response_has_body], [blocked_request_completes],
    [Compile_Add_compiled], [subtract_loses_window], [time_bands_fail_open],
    [leaf_expired_regenerates], [clamav_error_is_clean], [trickle_leaks],
    [single_dash_config_not_loaded], [nan_rate_limit_accepted],
    [derived_attributes_lost], [record_lost_after_close],
    [dns_cache_only_grows], [sink_closed_in_use], [shutdown_skips_drain],
    [missing_key_replaces_root], [mismatched_key_loads].

    ** Fuel and bounds

    Loops that are not structural take fuel that the callers bound: the
    length of the string for the scanners of [GoStrings], [GoPem] and
    [GoUrl], the number of nodes for the breadth-first construction of the
    automaton, the width of the search interval for the binary search, the
    number of entries for the eviction loop of [AuditScope], the number of
    files for nested includes, one read more than there are bytes for the
    copies of [InspectReader] and [Encoded].  The theorems are about these
    callers, so that running out of fuel would show.  The loops of a handler
    ([iterate]) end with [None] when they run out; the safety theorems hold
    for every fuel, [serve_returns] shows that as many rounds as there are
    calls until the client hangs up, and one, are enough, and
    [serve_lifecycle] that 302 rounds are enough for the 30 seconds of the
    drain.  A trie is limited to 2^32 labels,
    as its uint32 indices are.

    ** Not modelled

    The HTTP, TLS, HTTP/2 and HTTP/3 libraries, with the loops that accept
    connections, are calls with arbitrary answers; so are the state machine
    of the circuit breakers, the hand-over of sockets between processes,
    signals, and the delivery of traces.  The streams of an HTTP/2 client are
    served one after the other.  Declarations of metrics and tracing
    (proxy/metrics.go, proxy/otel.go), socket options and build tags, the text
    of the configuration log, attributes of error lines, and failures to
    create the temporary file of a scan are left out.  The benchmarks and load
    scripts (bench/, scripts/) are not part of the proxy. *)

From Stdlib.Strings Require Byte.
From stdpp Require Export base numbers strings gmap fin_maps sorting list.
Export Byte.ByteNotations.
Delimit Scope byte_scope with byte.
Bind Scope byte_scope with Byte.byte.

#[global] Set Default Goal Selector "!".
#[global] Set Warnings "-register-all,-clear-no-such-hyp".

(** ** Bytes and byte strings

    A Go [string] or [[]byte] is a sequence of arbitrary bytes; both are
    modelled as [list Byte.byte].  A byte literal is written ["a"%byte], a
    string literal [str "text"]. *)

Abbreviation byte := Byte.byte.
Abbreviation bytes := (list Byte.byte).

Definition str (s : string) : bytes := String.list_byte_of_string s.

Definition byte_val (b : byte) : N := Byte.to_N b.

Definition byte_ltb (a b : byte) : bool := N.ltb (byte_val a) (byte_val b).

(** Go's [<] on strings: bytewise lexicographic order. *)
Fixpoint bytes_ltb (a b : bytes) : bool :=
  match a, b with
  | _, [] => false
  | [], _ :: _ => true
  | x :: a', y :: b' =>
      byte_ltb x y || (bool_decide (byte_val x = byte_val y) && bytes_ltb a' b')
  end.

#[global] Instance byte_eq_decision : EqDecision byte := Byte.byte_eq_dec.

#[global] Program Instance byte_countable : Countable byte :=
  inj_countable Byte.to_N Byte.of_N _.
Next Obligation. intros x. apply Byte.of_to_N. Qed.

Definition bytes_eqb (a b : bytes) : bool := bool_decide (a = b).

(** ** Machine integers *)

Definition wrapU (w : Z) (z : Z) : Z := z mod 2 ^ w.
Definition wrapS (w : Z) (z : Z) : Z := (z + 2 ^ (w - 1)) mod 2 ^ w - 2 ^ (w - 1).

Abbreviation u32 := (wrapU 32).
Abbreviation i32 := (wrapS 32).

(** ** Fallible code

    A Go function that returns [(T, error)] is a function into
    [result E T]; stdpp's [x ← m ; k] is its early return. *)

Inductive result (E A : Type) : Type :=
| Ok (a : A)
| Err (e : E).
Arguments Ok {E A} a.
Arguments Err {E A} e.

#[global] Instance result_ret E : MRet (result E) := fun A a => Ok a.
#[global] Instance result_bind E : MBind (result E) := fun A B f m =>
  match m with Ok a => f a | Err e => Err e end.
#[global] Instance result_fmap E : FMap (result E) := fun A B f m =>
  match m with Ok a => Ok (f a) | Err e => Err e end.

#[global] Instance Ok_inj E A : Inj (=) (=) (@Ok E A).
Proof. by intros a b [=]. Qed.

Definition is_ok {E A} (r : result E A) : bool :=
  match r with Ok _ => true | Err _ => false end.

(** The Go loop [for _, x := range l { s, err = f(s, x); if err != nil
    { return err } }]. *)
Fixpoint foldM {E A S} (f : S -> A -> result E S) (l : list A) (s : S) : result E S :=
  match l with
  | [] => Ok s
  | x :: l' => match f s x with Ok s' => foldM f l' s' | Err e => Err e end
  end.

(** An instant is a count of nanoseconds; [t.Sub(u)] is a [time.Duration], a
    64-bit count that saturates. *)
Definition time_Sub (t u : Z) : Z := Z.max (- 2 ^ 63) (Z.min (2 ^ 63 - 1) (t - u)).

(** ** Tactics *)

(** Case analysis on every [if] or [match] of the goal. *)
Ltac split_ifs :=
  repeat match goal with
  | |- context [if ?c then _ else _] => destruct c eqn:?
  end.

Ltac destr_match :=
  match goal with
  | |- context [match ?x with _ => _ end] => destruct x eqn:?
  | H : context [match ?x with _ => _ end] |- _ => destruct x eqn:?
  end.

Create HintDb lucid discriminated.
Create Rewrite HintDb lucid.

(** ** Lemmas on bytes *)

Lemma byte_val_inj (a b : byte) : byte_val a = byte_val b -> a = b.
Proof.
  unfold byte_val. intros H. pose proof (Byte.of_to_N a) as Ha.
  pose proof (Byte.of_to_N b) as Hb. rewrite H in Ha. congruence.
Qed.

Lemma byte_val_bound (b : byte) : (byte_val b < 256)%N.
Proof. pose proof (Byte.to_N_bounded b). unfold byte_val. lia. Qed.

Lemma byte_ltb_lt a b : byte_ltb a b = true <-> (byte_val a < byte_val b)%N.
Proof. unfold byte_ltb. apply N.ltb_lt. Qed.

Lemma bytes_eqb_eq a b : bytes_eqb a b = true <-> a = b.
Proof. unfold bytes_eqb. apply bool_decide_eq_true. Qed.

Lemma bytes_ltb_cons x a y b :
  bytes_ltb (x :: a) (y :: b) = true <->
  (byte_val x < byte_val y)%N \/ (x = y /\ bytes_ltb a b = true).
Proof.
  simpl. rewrite orb_true_iff, andb_true_iff, bool_decide_eq_true, byte_ltb_lt.
  split; intros [H|[H1 H2]]; auto.
  - right. auto using byte_val_inj.
  - right. subst. auto.
Qed.

Lemma bytes_ltb_irrefl a : bytes_ltb a a = false.
Proof.
  induction a as [|x a IH]; [done|]. apply not_true_is_false.
  rewrite bytes_ltb_cons. intros [H|[_ H]]; [lia|congruence].
Qed.

Lemma bytes_ltb_trans a b c :
  bytes_ltb a b = true -> bytes_ltb b c = true -> bytes_ltb a c = true.
Proof.
  revert b c. induction a as [|x a IH]; intros [|y b] [|z c]; try done.
  rewrite !bytes_ltb_cons. intros [H1|[-> H1]] [H2|[-> H2]].
  - left; lia.
  - left; lia.
  - left; lia.
  - right. eauto.
Qed.

Lemma bytes_ltb_total a b : a <> b -> bytes_ltb a b = false -> bytes_ltb b a = true.
Proof.
  revert b. induction a as [|x a IH]; intros [|y b] Hne Hlt; try done.
  apply bytes_ltb_cons. rewrite <- not_true_iff_false, bytes_ltb_cons in Hlt.
  destruct (decide (byte_val y < byte_val x)%N) as [|Hge]; [by left|right].
  assert (x = y) as -> by (apply byte_val_inj; destruct (decide (byte_val x < byte_val y)%N); [tauto|lia]).
  split; [done|]. apply IH; [congruence|]. apply not_true_iff_false. tauto.
Qed.

#[export] Hint Rewrite bytes_ltb_irrefl : lucid.

(** ** Lemmas on results *)

Lemma is_ok_not_Err {E A} (r : result E A) e : is_ok r = true -> r <> Err e.
Proof. by intros H ->. Qed.

Lemma is_ok_Ok {E A} (r : result E A) : is_ok r = true -> exists a, r = Ok a.
Proof. destruct r as [a|e]; [by exists a|done]. Qed.

(** ** Lemmas on lists *)

Lemma foldM_app {E A S} (f : S -> A -> result E S) l1 l2 s :
  foldM f (l1 ++ l2) s = foldM f l1 s ≫= foldM f l2.
Proof.
  revert s. induction l1 as [|x l1 IH]; intros s; [done|].
  simpl. by destruct (f s x).
Qed.

(** A boolean with the proposition it decides, for [destruct]. *)
Lemma bool_spec_iff (P : Prop) b : (b = true <-> P) -> BoolSpec P (~ P) b.
Proof.
  intros HP. destruct b; constructor; [by apply HP|]. rewrite <- HP. congruence.
Qed.

Lemma suffix_cons_cases {A} (v u : list A) x : v `suffix_of` x :: u -> v = x :: u \/ v `suffix_of` u.
Proof. intros [[|y k] Hk]; simplify_eq/=; [by left|right; by exists k]. Qed.

Lemma find_none_intro {A} (P : A -> bool) l : (forall x, x ∈ l -> P x = false) -> find P l = None.
Proof.
  induction l as [|x l IH]; intros HP; [done|]. simpl. rewrite HP by left.
  apply IH. intros; apply HP; set_solver.
Qed.

Lemma find_none_elim {A} (P : A -> bool) l x : find P l = None -> x ∈ l -> P x = false.
Proof.
  induction l as [|y l IH]; simpl; [set_solver|]. destruct (P y) eqn:E; [done|].
  intros Hf [->|Hx]%elem_of_cons; auto.
Qed.
