(* ===== verification/Effects.v ===== *)
(** * Programs with effects

    The handlers of the proxy talk to sockets, logs and shared tables.  Such
    a handler is a program: a tree whose nodes are the calls it makes, each
    with a continuation for every answer.  [E X] is the type of the calls that
    answer with an [X].  An execution is fixed by an oracle, which answers the
    [n]-th call; a theorem about a handler holds for every oracle.

    A monitor watches the calls and the answers and may object.  [safe] is
    the weakest precondition of a program for "no objection, and [Q] at the
    end"; [safe_run] relates it to executions. *)

From S2P Require Import Prelude.

(** ** Programs *)

Inductive prog (E : Type -> Type) (A : Type) : Type :=
| Return (a : A)
| Call (X : Type) (e : E X) (k : X -> prog E A).
Arguments Return {E A} a.
Arguments Call {E A X} e k.

Fixpoint prog_bind {E A B} (f : A -> prog E B) (p : prog E A) : prog E B :=
  match p with
  | Return a => f a
  | Call e k => Call e (fun x => prog_bind f (k x))
  end.

#[global] Instance prog_mret E : MRet (prog E) := fun A a => Return a.
#[global] Instance prog_mbind E : MBind (prog E) := fun A B f p => prog_bind f p.

Definition call {E X} (e : E X) : prog E X := Call e Return.

(** [if c { p }]. *)
Definition when {E} (c : bool) (p : prog E unit) : prog E unit := if c then p else Return tt.

(** [defer cleanup()] in front of [p]. *)
Definition deferring {E A} (p : prog E A) (cleanup : prog E unit) : prog E A :=
  a ← p; cleanup ;; Return a.

(** The same around a loop that may still be running ([None]): the cleanup
    waits for it. *)
Definition finally {E A} (p : prog E (option A)) (cleanup : prog E unit) : prog E (option A) :=
  a ← p; match a with Some _ => cleanup ;; Return a | None => Return None end.

(** A program that always returns. *)
Definition returning {E A} (p : prog E A) : prog E (option A) := a ← p; Return (Some a).

(** [for { ... }]: a round continues with a new state or returns; [None] when
    [fuel] rounds did not return. *)
Fixpoint iterate {E S A} (fuel : nat) (round : S -> prog E (S + A)) (s : S) : prog E (option A) :=
  match fuel with
  | O => Return None
  | S fuel => r ← round s; match r with inl s' => iterate fuel round s' | inr a => Return (Some a) end
  end.

(** ** Executions *)

Record observation (E : Type -> Type) := Observe { o_type : Type; o_call : E o_type; o_answer : o_type }.
Arguments Observe {E o_type} o_call o_answer.

Abbreviation oracle E := (nat -> forall X, E X -> X).

Fixpoint run {E A} (o : oracle E) (n : nat) (p : prog E A) : list (observation E) * A :=
  match p with
  | Return a => ([], a)
  | @Call _ _ X e k =>
      let x := o n X e in
      let '(tr, a) := run o (S n) (k x) in (Observe e x :: tr, a)
  end.

(** ** Monitors *)

Section monitor.
Context {E : Type -> Type} {M : Type} (watch : M -> forall X, E X -> X -> option M).

Fixpoint accept (m : M) (tr : list (observation E)) : option M :=
  match tr with
  | [] => Some m
  | ob :: tr => match watch m (o_type E ob) (o_call E ob) (o_answer E ob) with
                | Some m' => accept m' tr
                | None => None
                end
  end.

Fixpoint safe {A} (p : prog E A) (m : M) (Q : M -> A -> Prop) : Prop :=
  match p with
  | Return a => Q m a
  | @Call _ _ X e k =>
      forall x, match watch m X e x with Some m' => safe (k x) m' Q | None => False end
  end.

Lemma safe_run {A} (p : prog E A) (Q : M -> A -> Prop) (o : oracle E) : forall m n,
  safe p m Q ->
  exists m', accept m (run o n p).1 = Some m' /\ Q m' (run o n p).2.
Proof.
  induction p as [a|X e k IH]; simpl; intros m n H.
  - eauto.
  - specialize (H (o n X e)).
    destruct (run o (S n) (k (o n X e))) as [tr a] eqn:Er. simpl.
    destruct (watch m X e (o n X e)) as [m'|]; [|done].
    apply (IH _ _ (S n)) in H. by rewrite Er in H.
Qed.

Lemma safe_mono {A} (p : prog E A) (Q R : M -> A -> Prop) : forall m,
  safe p m Q -> (forall m a, Q m a -> R m a) -> safe p m R.
Proof.
  induction p as [a|X e k IH]; simpl; intros m HQ HR; [auto|].
  intros x. specialize (HQ x). destruct (watch m X e x); [eauto|done].
Qed.

Lemma safe_bind {A B} (p : prog E A) (f : A -> prog E B) (Q : M -> B -> Prop) : forall m,
  safe p m (fun m a => safe (f a) m Q) -> safe (p ≫= f) m Q.
Proof.
  unfold mbind, prog_mbind.
  induction p as [a|X e k IH]; simpl; intros m HQ; [done|].
  intros x. specialize (HQ x). destruct (watch m X e x); [eauto|done].
Qed.

(** A stage with its own postcondition, then the rest. *)
Lemma safe_cut {A B} (P : M -> A -> Prop) (p : prog E A) (f : A -> prog E B) (Q : M -> B -> Prop) m :
  safe p m P -> (forall m a, P m a -> safe (f a) m Q) -> safe (p ≫= f) m Q.
Proof. intros Hp Hf. apply safe_bind. by apply (safe_mono _ _ _ _ Hp). Qed.

Lemma safe_call {A X} (e : E X) (f : X -> prog E A) (Q : M -> A -> Prop) m :
  (forall x, match watch m X e x with Some m' => safe (f x) m' Q | None => False end) ->
  safe (call e ≫= f) m Q.
Proof. done. Qed.

(** A call the monitor always allows and that does not change its state. *)
Lemma safe_skip {A X} (e : E X) (f : X -> prog E A) (Q : M -> A -> Prop) m :
  (forall x, watch m X e x = Some m) -> (forall x, safe (f x) m Q) -> safe (call e ≫= f) m Q.
Proof. intros Hw Hf x. rewrite Hw. apply Hf. Qed.

Lemma safe_if {A} (c : bool) (p q : prog E A) (Q : M -> A -> Prop) m :
  (c = true -> safe p m Q) -> (c = false -> safe q m Q) -> safe (if c then p else q) m Q.
Proof. destruct c; auto. Qed.

Lemma safe_iterate {S A} (round : S -> prog E (S + A)) (I : M -> S -> Prop) (Q : M -> A -> Prop) :
  (forall m s, I m s -> safe (round s) m (fun m r => match r with inl s => I m s | inr a => Q m a end)) ->
  forall fuel m s, I m s ->
  safe (iterate fuel round s) m (fun m r => match r with Some a => Q m a | None => True end).
Proof.
  intros Hround. induction fuel as [|fuel IH]; intros m s HI; [done|].
  apply (safe_cut _ _ _ _ _ (Hround m s HI)). intros m' [s'|a] H'; [by apply IH|done].
Qed.

End monitor.

(** ** Programs restricted to some calls *)

Section only.
Context {E : Type -> Type} (P : forall X, E X -> bool).

Fixpoint only {A} (p : prog E A) : Prop :=
  match p with
  | Return _ => True
  | @Call _ _ X e k => P X e = true /\ forall x, only (k x)
  end.

Lemma only_bind {A B} (p : prog E A) (f : A -> prog E B) : only p -> (forall a, only (f a)) -> only (p ≫= f).
Proof.
  unfold mbind, prog_mbind. induction p as [a|X e k IH]; simpl; [auto|].
  intros [He Hk] Hf. split; [done|]. intros x. by apply IH.
Qed.

Lemma only_call {X} (e : E X) : P X e = true -> only (call e).
Proof. done. Qed.

Lemma only_when c (p : prog E unit) : only p -> only (when c p).
Proof. by destruct c. Qed.

Lemma only_if {A} (c : bool) (p q : prog E A) : only p -> only q -> only (if c then p else q).
Proof. by destruct c. Qed.

(** Calls that a monitor ignores do not change its state. *)
Lemma safe_only {M A} (watch : M -> forall X, E X -> X -> option M) (p : prog E A) (Q : M -> A -> Prop) m :
  (forall m X e x, P X e = true -> watch m X e x = Some m) ->
  only p -> (forall a, Q m a) -> safe watch p m Q.
Proof.
  intros Hw Hp HQ. induction p as [a|X e k IH]; simpl in *; [auto|].
  intros x. destruct Hp as [He Hk]. rewrite Hw by done. auto.
Qed.

(** Every call of an execution is one of them. *)
Lemma run_only {A} (p : prog E A) (o : oracle E) : forall n,
  only p -> Forall (fun ob => P (o_type E ob) (o_call E ob) = true) (run o n p).1.
Proof.
  induction p as [a|X e k IH]; simpl; intros n Hp; [constructor|]. destruct Hp as [He Hk].
  specialize (IH (o n X e) (S n) (Hk _)). destruct (run o (S n) (k (o n X e))). by constructor.
Qed.

End only.

Lemma only_weaken {E : Type -> Type} (P P' : forall X, E X -> bool) {A} (p : prog E A) :
  (forall X e, P X e = true -> P' X e = true) -> only P p -> only P' p.
Proof. intros HP. induction p as [a|X e k IH]; simpl; [done|]. intros [He Hk]. auto. Qed.

(** Opens one construct of a program in a goal [only P p]. *)
Ltac only_step :=
  match goal with
  | |- only _ (_ ≫= _) => apply only_bind; [|intros ?]
  | |- only _ (call _) => apply only_call
  | |- only _ (Return _) => exact I
  | |- only _ (when _ _) => unfold when
  | |- only _ (deferring _ _) => unfold deferring
  | |- only _ (returning _) => unfold returning
  | |- only _ (match ?x with _ => _ end) => destruct x
  end.

(** Opens one construct of a program in a goal [safe watch p m Q]. *)
Ltac safe_step :=
  match goal with
  | |- safe _ (_ ≫= _) _ _ => apply safe_bind
  | |- safe _ (Return _) _ _ => cbn [safe]
  | |- safe _ (call _) _ _ => intros ?
  | |- safe _ (when _ _) _ _ => unfold when
  | |- safe _ (deferring _ _) _ _ => unfold deferring
  | |- safe _ (finally _ _) _ _ => unfold finally
  | |- safe _ (returning _) _ _ => unfold returning
  | |- safe _ (match ?x with _ => _ end) _ _ => destruct x eqn:?; try discriminate
  | |- match (match ?x with _ => _ end) with _ => _ end => destruct x eqn:?; try discriminate
  end.

(** ** Executions of a sequence *)

Lemma run_bind {E A B} (o : oracle E) (p : prog E A) (f : A -> prog E B) : forall n,
  run o n (p ≫= f) =
  let '(tr, a) := run o n p in
  let '(tr', b) := run o (n + length tr) (f a) in (tr ++ tr', b).
Proof.
  unfold mbind, prog_mbind.
  induction p as [a|X e k IH]; intros n; simpl.
  - rewrite Nat.add_0_r. by destruct (run o n (f a)).
  - rewrite IH. destruct (run o (S n) (k (o n X e))) as [tr a]. simpl.
    rewrite Nat.add_succ_r. simpl. by destruct (run o (S (n + length tr)) (f a)).
Qed.

(** ** Programs that return *)

Section returns.
Context {E : Type -> Type} (o : oracle E).

(** In every execution with the oracle [o], from its call [n] on. *)
Definition returns {A} (n : nat) (p : prog E (option A)) : Prop := forall k, n <= k -> is_Some (run o k p).2.

Lemma returns_Some {A} n (a : A) : returns n (Return (Some a)).
Proof. by intros k _; eexists. Qed.

Lemma returns_bind {A B} n (p : prog E A) (f : A -> prog E (option B)) :
  (forall a, returns n (f a)) -> returns n (p ≫= f).
Proof.
  intros Hf k Hk. rewrite run_bind. destruct (run o k p) as [tr a].
  specialize (Hf a (k + length tr) ltac:(lia)). by destruct (run o (k + length tr) (f a)).
Qed.

Lemma returns_returning {A} n (p : prog E A) : returns n (returning p).
Proof. apply returns_bind. intros a. apply returns_Some. Qed.

(** A part that returns, then a part that needs its result. *)
Lemma run_cut {A B} k (p : prog E (option A)) (f : option A -> prog E (option B)) :
  is_Some (run o k p).2 -> (forall a, returns k (f (Some a))) -> is_Some (run o k (p ≫= f)).2.
Proof.
  intros Hp Hf. rewrite run_bind. destruct (run o k p) as [tr [a|]]; [|by destruct Hp].
  specialize (Hf a (k + length tr) ltac:(lia)). by destruct (run o (k + length tr) (f (Some a))).
Qed.

Lemma returns_cut {A B} n (p : prog E (option A)) (f : option A -> prog E (option B)) :
  returns n p -> (forall a, returns n (f (Some a))) -> returns n (p ≫= f).
Proof. intros Hp Hf k Hk. apply run_cut; [by apply Hp|]. intros a j Hj. apply Hf. lia. Qed.

Lemma returns_finally {A} n (p : prog E (option A)) cleanup : returns n p -> returns n (finally p cleanup).
Proof. intros Hp. apply returns_cut; [done|]. intros a. apply returns_bind. intros _. apply returns_Some. Qed.

(** A loop whose rounds call something, and return from call [N] on. *)
Lemma returns_iterate {S A} (round : S -> prog E (S + A)) (N : nat) :
  (forall k s, 1 <= length (run o k (round s)).1) ->
  (forall k s, N <= k -> exists a, (run o k (round s)).2 = inr a) ->
  forall fuel n s, N - n < fuel -> returns n (iterate fuel round s).
Proof.
  intros Hcalls Hend. induction fuel as [|fuel IH]; intros n s Hfuel k Hk; [lia|]. cbn [iterate].
  rewrite run_bind. pose proof (Hcalls k s). pose proof (Hend k s) as He.
  destruct (run o k (round s)) as [tr [s'|a]]; cbn [fst snd] in *; [|by eexists].
  assert (k < N). { destruct (decide (N <= k)) as [Hle|]; [|lia]. by destruct (He Hle). }
  destruct (IH (k + length tr) s' ltac:(lia) (k + length tr) ltac:(lia)) as [a Ha].
  destruct (run o (k + length tr) (iterate fuel round s')). cbn [snd] in *. subst. by eexists.
Qed.

(** What every execution of a program ends with. *)
Lemma run_always {A} (p : prog E A) (Q : A -> Prop) k :
  safe (fun _ _ _ _ => Some ()) p () (fun _ a => Q a) -> Q (run o k p).2.
Proof. intros Hp. by destruct (safe_run _ _ _ o () k Hp) as (m & _ & HQ). Qed.

End returns.
