(* ===== verification/AsyncLog.v ===== *)
(** The asynchronous log handler ([proxy/async_logger.go]): calls of [Handle],
    the worker and [Close] as steps over a bounded queue.  A handler is known
    by the attributes it adds; [select] picks any case that is ready. *)

From stdpp Require Import base list.
From S2P Require Import Prelude.
Set Default Goal Selector "!".

(** The counters of dropped records of a handler and of those derived from it
    are added up. *)
Record asyncRecord := MkRecord { ar_level : Z; ar_msg : bytes; ar_attrs : list bytes }.

(** The worker: before its outer select, draining after [quit], or ended. *)
Inductive worker := Serving | Draining | Stopped.

Record logState := MkLog {
  queue : list asyncRecord;
  quit : bool;
  wk : worker;
  written : list (list bytes * asyncRecord);   (* the handler's attributes, the record *)
  accepted : list asyncRecord;
  dropped : nat;
  ignored : nat;                               (* calls that saw [quit] *)
  calls : nat;
}.

Section handler.
Context (cap : nat) (base : list bytes).

Definition NewAsyncHandler : logState := MkLog [] false Serving [] [] 0 0 0.

(** A call of [Handle] of the handler with the attributes [derived]; the two
    selects see [quit] as [early] and [late] say. *)
Definition Handle (derived : list bytes) (rec : asyncRecord) (early late : bool) (s : logState) : option logState :=
  let ignore := MkLog (queue s) (quit s) (wk s) (written s) (accepted s) (dropped s) (S (ignored s)) (S (calls s)) in
  if early then if quit s then Some ignore else None
  else if late then if quit s then Some ignore else None
  else if length (queue s) <? cap then
    Some (MkLog (queue s ++ [rec]) (quit s) (wk s) (written s) (accepted s ++ [rec]) (dropped s) (ignored s) (S (calls s)))
  else if quit s then None
  else Some (MkLog (queue s) (quit s) (wk s) (written s) (accepted s) (S (dropped s)) (ignored s) (S (calls s))).

(** One step of [worker]: the record goes to the handler it was started with. *)
Definition workerStep (seeQuit : bool) (s : logState) : option logState :=
  let take1 :=
    match queue s with
    | rec :: q => Some (MkLog q (quit s) (wk s) (written s ++ [(base, rec)]) (accepted s) (dropped s) (ignored s) (calls s))
    | [] => None
    end in
  let become w := Some (MkLog (queue s) (quit s) w (written s) (accepted s) (dropped s) (ignored s) (calls s)) in
  match wk s with
  | Serving => if seeQuit then if quit s then become Draining else None else take1
  | Draining => match queue s with [] => become Stopped | _ => take1 end
  | Stopped => None
  end.

(** [Close]; a second call panics. *)
Definition Close (s : logState) : option logState :=
  if quit s then None else Some (MkLog (queue s) true (wk s) (written s) (accepted s) (dropped s) (ignored s) (calls s)).

Inductive log_step : logState -> logState -> Prop :=
| step_handle derived rec early late s s' : Handle derived rec early late s = Some s' -> log_step s s'
| step_worker seeQuit s s' : workerStep seeQuit s = Some s' -> log_step s s'
| step_close s s' : Close s = Some s' -> log_step s s'.

(** ** Properties *)

Record log_ok (s : logState) : Prop := MkLogOk {
  lk_order : accepted s = map snd (written s) ++ queue s;
  lk_cap : length (queue s) <= cap;
  lk_count : calls s = length (accepted s) + dropped s + ignored s;
  lk_base : Forall (fun e => e.1 = base) (written s);
  lk_stop : wk s <> Serving -> quit s = true;
}.

Lemma log_step_ok s s' : log_step s s' -> log_ok s -> log_ok s'.
Proof.
  intros Hs [Ho Hc Hn Hb Hq]. destruct Hs as [derived rec early late s s' H|seeQuit s s' H|s s' H].
  - unfold Handle in H. destruct early; [destruct (quit s); [|done]; injection H as <-; split; cbn; auto; lia|].
    destruct late; [destruct (quit s); [|done]; injection H as <-; split; cbn; auto; lia|].
    destruct (Nat.ltb_spec (length (queue s)) cap).
    + injection H as <-. split; cbn; [by rewrite Ho, app_assoc|rewrite length_app; cbn; lia|rewrite length_app; cbn; lia|done|done].
    + destruct (quit s) eqn:Eq; [done|]. injection H as <-. split; cbn; auto; lia.
  - unfold workerStep in H.
    assert (Htake : forall rec q, queue s = rec :: q ->
      log_ok (MkLog q (quit s) (wk s) (written s ++ [(base, rec)]) (accepted s) (dropped s) (ignored s) (calls s))).
    { intros rec q Eq. rewrite Eq in Ho, Hc. split; cbn in *; [by rewrite map_app, <- app_assoc|lia|done| |done].
      apply Forall_app. split; [done|by repeat constructor]. }
    destruct (wk s) eqn:Ew; [| |done].
    + destruct seeQuit.
      * destruct (quit s) eqn:Eq; [|done]. injection H as <-. by split.
      * destruct (queue s) as [|rec q] eqn:Eq; [done|]. injection H as <-. by apply Htake.
    + destruct (queue s) as [|rec q] eqn:Eq; injection H as <-; [|by apply Htake].
      split; cbn; [done|done|done|done|]. intros _. by apply Hq.
  - unfold Close in H. destruct (quit s); [done|]. injection H as <-. by split.
Qed.

Lemma log_reachable_ok s : rtc log_step NewAsyncHandler s -> log_ok s.
Proof.
  assert (Hgo : forall s1 s2, rtc log_step s1 s2 -> log_ok s1 -> log_ok s2).
  { induction 1 as [|s1 s2 s3 H12 _ IH]; [done|]. intros Hok. by eapply IH, log_step_ok. }
  intros Hs. eapply Hgo; [exact Hs|]. by split; cbn; [|lia|..].
Qed.

(** Whatever the interleaving of callers, worker and [Close]: the records
    are written in the order in which they were accepted, each once, and the
    accepted ones that are not written are those in the queue; the queue keeps
    its capacity; and every call was accepted, counted as dropped, or saw that
    the handler was closed. *)
Theorem async_log_accounts s :
  rtc log_step NewAsyncHandler s ->
  accepted s = map snd (written s) ++ queue s /\ length (queue s) <= cap /\
  calls s = length (accepted s) + dropped s + ignored s.
Proof.
  intros [Ho Hc Hn _ _]%log_reachable_ok. by split_and!.
Qed.

(** The attributes of a derived handler ([WithAttrs], [WithGroup]) are never
    written: the records of all handlers go to the one of the worker. *)
Lemma derived_attributes_lost s : rtc log_step NewAsyncHandler s -> Forall (fun e => e.1 = base) (written s).
Proof.
  intros Hs. by apply lk_base, log_reachable_ok.
Qed.

End handler.

Definition sample_record (n : Z) : asyncRecord := MkRecord n [] [].

(** Two records in a queue of one: the second is dropped; the first is written
    after [Close]. *)
Definition sample_run : option logState :=
  s ← Handle 1 [] (sample_record 1) false false NewAsyncHandler;
  s ← Handle 1 [] (sample_record 2) false false s;
  s ← Close s;
  s ← workerStep [] true s;
  workerStep [] false s.

Lemma async_log_accounts_witness : exists s, sample_run = Some s /\ map snd (written s) = [sample_record 1] /\ dropped s = 1 /\
  accepted s = map snd (written s) ++ queue s /\ length (queue s) <= 1 /\
  calls s = length (accepted s) + dropped s + ignored s.
Proof.
  destruct sample_run as [s|] eqn:E; [|discriminate]. exists s. split; [done|].
  split; [unfold sample_run in E; cbn in E; by injection E as <-|]. split; [unfold sample_run in E; cbn in E; by injection E as <-|].
  apply (async_log_accounts 1 []). unfold sample_run in E. cbn in E. injection E as <-.
  eapply rtc_l; [eapply (step_handle 1 [] [] (sample_record 1) false false); reflexivity|].
  eapply rtc_l; [eapply (step_handle 1 [] [] (sample_record 2) false false); reflexivity|].
  eapply rtc_l; [eapply step_close; reflexivity|].
  eapply rtc_l; [eapply (step_worker 1 [] true); reflexivity|].
  eapply rtc_l; [eapply (step_worker 1 [] false); reflexivity|]. apply rtc_refl.
Defined.

(** A call that had not seen [Close] yet can leave its record in the queue
    after the worker has ended: it is neither written nor counted. *)
Lemma record_lost_after_close :
  (fun s => (queue s, wk s, written s, dropped s)) <$>
  (s ← Close NewAsyncHandler; s ← workerStep [] true s; s ← workerStep [] true s;
   Handle 1 [] (sample_record 1) false false s) = Some ([sample_record 1], Stopped, [], 0).
Proof. reflexivity. Qed.
