(* ===== verification/DList.v ===== *)
(** * Doubly linked lists on a heap (proxy/rate_limiter.go, pki/leaf.go)

    [rateList] and [list] are the same code: nodes with [prev] and [next]
    pointers, a [head] and a [tail].  A pointer is a location of a heap; the
    operations update the heap as the code updates the nodes. *)

From S2P Require Import Prelude.

Abbreviation loc := positive.

Section dlist.
Context {V : Type}.

Record lnode := MkNode {
  prev : option loc;
  next : option loc;
  key : bytes;
  val : V;
}.

Record dlist := MkDList { head : option loc; tail : option loc }.

Abbreviation heap := (gmap loc lnode).

Definition set_prev (p : option loc) (n : lnode) : lnode := MkNode p (next n) (key n) (val n).
Definition set_next (q : option loc) (n : lnode) : lnode := MkNode (prev n) q (key n) (val n).

Definition pushFront (h : heap) (l : dlist) (n : loc) : heap * dlist :=
  let h := alter (set_next (head l)) n h in
  let h := alter (set_prev None) n h in
  let h := match head l with Some x => alter (set_prev (Some n)) x h | None => h end in
  (h, MkDList (Some n) (match tail l with None => Some n | t => t end)).

Definition remove (h : heap) (l : dlist) (n : loc) : heap * dlist :=
  match h !! n with
  | None => (h, l)
  | Some nd =>
      let '(h, hd) := match prev nd with
                      | Some p => (alter (set_next (next nd)) p h, head l)
                      | None => (h, next nd)
                      end in
      let '(h, tl) := match next nd with
                      | Some q => (alter (set_prev (prev nd)) q h, tail l)
                      | None => (h, prev nd)
                      end in
      (alter (set_next None) n (alter (set_prev None) n h), MkDList hd tl)
  end.

Definition moveFront (h : heap) (l : dlist) (n : loc) : heap * dlist :=
  if decide (head l = Some n) then (h, l)
  else let '(h, l) := remove h l n in pushFront h l n.

(** ** Representation

    [linked h p xs q]: the nodes [xs] are linked in order, after the node [p]
    and before the node [q]. *)

Definition first (xs : list loc) (q : option loc) : option loc :=
  match xs with [] => q | x :: _ => Some x end.

Definition final (p : option loc) (xs : list loc) : option loc :=
  match last xs with Some x => Some x | None => p end.

Fixpoint linked (h : heap) (p : option loc) (xs : list loc) (q : option loc) : Prop :=
  match xs with
  | [] => True
  | x :: xs' =>
      (exists k v, h !! x = Some (MkNode p (first xs' q) k v)) /\ linked h (Some x) xs' q
  end.

(** The list [l] is the nodes [xs], all different. *)
Definition rep (h : heap) (l : dlist) (xs : list loc) : Prop :=
  NoDup xs /\ linked h None xs None /\ head l = first xs None /\ tail l = final None xs.

(** What the nodes hold. *)
Definition entry (h : heap) (x : loc) : option (bytes * V) := (fun n => (key n, val n)) <$> h !! x.

(** ** Lemmas *)

Lemma final_app p xs x ys : final p (xs ++ x :: ys) = final (Some x) ys.
Proof.
  unfold final. rewrite last_app_cons, last_cons. by destruct (last ys).
Qed.

Lemma linked_app h p xs ys q :
  linked h p (xs ++ ys) q <-> linked h p xs (first ys q) /\ linked h (final p xs) ys q.
Proof.
  revert p. induction xs as [|x xs IH]; intros p; simpl; [tauto|].
  rewrite IH. replace (final p (x :: xs)) with (final (Some x) xs).
  2:{ unfold final. rewrite last_cons. by destruct (last xs). }
  replace (first (xs ++ ys) q) with (first xs (first ys q)) by (by destruct xs). tauto.
Qed.

Lemma linked_frame h h' p xs q : (forall x, x ∈ xs -> h' !! x = h !! x) -> linked h p xs q -> linked h' p xs q.
Proof.
  revert p. induction xs as [|x xs IH]; intros p Hf; simpl; [done|].
  intros [(k & v & Hx) Hl]. split; [exists k, v; rewrite Hf by left; done|].
  apply IH; [|done]. intros y Hy. apply Hf. by right.
Qed.

Lemma entry_set_prev h p y x : entry (alter (set_prev p) y h) x = entry h x.
Proof.
  unfold entry. destruct (decide (x = y)) as [->|]; [|by rewrite lookup_alter_ne].
  rewrite lookup_alter_eq. by destruct (h !! y).
Qed.

Lemma entry_set_next h p y x : entry (alter (set_next p) y h) x = entry h x.
Proof.
  unfold entry. destruct (decide (x = y)) as [->|]; [|by rewrite lookup_alter_ne].
  rewrite lookup_alter_eq. by destruct (h !! y).
Qed.

(** The next pointer of the last node, and the previous one of the first. *)
Lemma relink_next h a q q' :
  NoDup a -> linked h None a q ->
  linked (match last a with Some x => alter (set_next q') x h | None => h end) None a q'.
Proof.
  destruct a as [|x a _] using rev_ind; [done|]. rewrite last_snoc.
  intros (Ha & Hx & _)%NoDup_app. rewrite !linked_app. simpl. intros [Hl [(k & v & Hxv) _]]. split.
  - eapply linked_frame; [|exact Hl]. intros y Hy. apply lookup_alter_ne. intros ->. by apply (Hx y Hy), list_elem_of_singleton.
  - split; [|done]. exists k, v. by rewrite lookup_alter_eq, Hxv.
Qed.

Lemma relink_prev h p p' b :
  NoDup b -> linked h p b None ->
  linked (match b with y :: _ => alter (set_prev p') y h | [] => h end) p' b None.
Proof.
  destruct b as [|y b]; [done|]. intros [Hy Hb]%NoDup_cons. simpl. intros [(k & v & Hyv) Hl]. split.
  - exists k, v. by rewrite lookup_alter_eq, Hyv.
  - eapply linked_frame; [|exact Hl]. intros x Hx. apply lookup_alter_ne. by intros ->.
Qed.

(** A node in front. *)
Lemma pushFront_rep h l xs n k v :
  rep h l xs -> n ∉ xs -> entry h n = Some (k, v) ->
  let '(h', l') := pushFront h l n in rep h' l' (n :: xs) /\ (forall x, entry h' x = entry h x).
Proof.
  intros (Hnd & Hl & Hhd & Htl) Hn He. unfold pushFront. rewrite Hhd, Htl.
  unfold entry in He. destruct (h !! n) as [nd|] eqn:En; [|done]. injection He as <- <-.
  set (h1 := alter (set_prev None) n (alter (set_next (first xs None)) n h)).
  assert (Hn1 : h1 !! n = Some (MkNode None (first xs None) (key nd) (val nd))).
  { unfold h1. by rewrite !lookup_alter_eq, En. }
  assert (Hl1 : linked h1 None xs None).
  { eapply linked_frame; [|exact Hl]. intros x Hx. unfold h1. rewrite !lookup_alter_ne; [done|by intros ->..]. }
  apply relink_prev with (p' := Some n) in Hl1; [|done].
  assert (Hn2 : match xs with y :: _ => alter (set_prev (Some n)) y h1 | [] => h1 end !! n = h1 !! n).
  { destruct xs as [|y xs]; [done|]. apply lookup_alter_ne. set_solver. }
  split.
  - destruct xs as [|y xs]; simpl in *; (split_and!; [by constructor| |done|]).
    + cbn. rewrite Hn1. eauto.
    + done.
    + cbn [linked first]. split; [rewrite Hn2, Hn1; eauto|exact Hl1].
    + unfold final. simpl tail. rewrite !last_cons. by destruct (last xs).
  - intros x. destruct xs; simpl; rewrite ?entry_set_prev; unfold h1; by rewrite entry_set_prev, entry_set_next.
Qed.

(** A node taken out. *)
Lemma remove_rep h l a n b :
  rep h l (a ++ n :: b) ->
  let '(h', l') := remove h l n in rep h' l' (a ++ b) /\ (forall x, entry h' x = entry h x).
Proof.
  intros (Hnd & Hl & Hhd & Htl). apply linked_app in Hl as [Ha [(k & v & Hn) Hb]].
  apply NoDup_app in Hnd as (Hda & Hdisj & [Hnb Hdb]%NoDup_cons).
  assert (Hna : n ∉ a) by (intros Hin; by apply (Hdisj n Hin); left).
  unfold remove. rewrite Hn. cbn [prev next].
  set (h1 := match last a with Some x => alter (set_next (first b None)) x h | None => h end).
  set (h2 := match b with y :: _ => alter (set_prev (final None a)) y h1 | [] => h1 end).
  set (h3 := alter (set_next None) n (alter (set_prev None) n h2)).
  assert (Hh1 : (if final None a is Some p then (alter (set_next (first b None)) p h, head l) else (h, first b None))
    = (h1, first (a ++ b) None)).
  { unfold h1, final. destruct a as [|x a]; [done|]. rewrite last_cons. rewrite Hhd. by destruct (last a). }
  assert (Hh2 : (if first b None is Some q then (alter (set_prev (final None a)) q h1, tail l) else (h1, final None a))
    = (h2, final None (a ++ b))).
  { unfold h2. rewrite Htl, final_app. destruct b as [|y b]; simpl; [by rewrite app_nil_r|].
    rewrite final_app. unfold final. rewrite last_cons. by destruct (last b). }
  rewrite Hh1, Hh2. fold h3. split.
  - split_and!; [apply NoDup_app; split_and!; [done| |done]; intros x Hx Hx'; apply (Hdisj x Hx); by right| |done|done].
    apply linked_app. split.
    + apply (relink_next h a (Some n) (first b None)) in Ha; [|done]. fold h1 in Ha.
      apply (linked_frame h2); [intros x Hx; unfold h3; rewrite !lookup_alter_ne; [done|by intros ->..]|].
      apply (linked_frame h1); [|done]. intros x Hx. unfold h2. destruct b as [|y b]; [done|].
      apply lookup_alter_ne. intros ->. apply (Hdisj x Hx). right. left.
    + apply (linked_frame h2); [intros x Hx; unfold h3; rewrite !lookup_alter_ne; [done|by intros ->..]|].
      unfold h2. apply relink_prev with (p := Some n); [done|].
      apply (linked_frame h); [|done]. intros x Hx. unfold h1. destruct (last a) as [z|] eqn:Ez; [|done].
      apply lookup_alter_ne. intros ->. apply last_Some_elem_of in Ez. apply (Hdisj _ Ez). by right.
  - intros x. unfold h3. rewrite entry_set_next, entry_set_prev. unfold h2.
    destruct b; rewrite ?entry_set_prev; unfold h1; destruct (last a); by rewrite ?entry_set_next.
Qed.

Lemma moveFront_rep h l a n b k v :
  rep h l (a ++ n :: b) -> entry h n = Some (k, v) ->
  let '(h', l') := moveFront h l n in rep h' l' (n :: a ++ b) /\ (forall x, entry h' x = entry h x).
Proof.
  intros Hr He. unfold moveFront. case_decide as Hh.
  - destruct a as [|x a]; [done|]. exfalso. destruct Hr as (Hnd & _ & Hhd & _). rewrite Hh in Hhd.
    injection Hhd as <-. apply NoDup_cons in Hnd as [Hn _]. apply Hn. apply elem_of_app. right. left.
  - pose proof (remove_rep h l a n b Hr) as Hrm. destruct (remove h l n) as [h1 l1]. destruct Hrm as [Hr1 He1].
    assert (Hn : n ∉ a ++ b).
    { destruct Hr as (Hnd & _). apply NoDup_app in Hnd as (_ & Hd & [Hnb _]%NoDup_cons).
      rewrite elem_of_app. intros [Hx|Hx]; [|done]. apply (Hd n Hx). left. }
    pose proof (pushFront_rep h1 l1 (a ++ b) n k v Hr1 Hn ltac:(by rewrite He1)) as Hp.
    destruct (pushFront h1 l1 n) as [h2 l2]. destruct Hp as [Hr2 He2]. split; [done|].
    intros x. by rewrite He2, He1.
Qed.

End dlist.
