(* ===== verification/Lru.v ===== *)
(** * Bounded LRU caches (proxy/rate_limiter.go, pki/leaf.go)

    [ipRateLimiter] keeps a rate limiter per client address, [lruCache] a
    certificate per host: a map from keys to nodes and a list of the nodes by
    recency.  Both refine a list of entries, most recent first, of bounded
    length. *)

From S2P Require Import Prelude DList.

Section lru.
Context {V : Type}.

Record lru := MkLru {
  cap : nat;
  lheap : gmap loc (@lnode V);
  ll : dlist;
  idx : gmap bytes loc;
}.

Definition newLRUCache (cap : nat) : lru := MkLru cap ∅ (MkDList None None) ∅.

(** [n := &node{key, val}; pushFront(n); idx[key] = n], and the eviction of
    the tail when the map is over its capacity. *)
Definition insertNode (c : lru) (k : bytes) (v : V) : lru :=
  let n := fresh (dom (lheap c)) in
  let '(h, l) := pushFront (<[n := MkNode None None k v]> (lheap c)) (ll c) n in
  let idx := <[k := n]> (idx c) in
  if cap c <? size idx then
    match tail l with
    | Some victim =>
        let '(h', l) := remove h l victim in
        MkLru (cap c) h' l
          (match h !! victim with Some nd => delete (key nd) idx | None => idx end)
    | None => MkLru (cap c) h l idx
    end
  else MkLru (cap c) h l idx.

(** [ipRateLimiter.getOrCreate]; [new] is [rate.NewLimiter(r, burst)]. *)
Definition getOrCreate (c : lru) (ip : bytes) (new : V) : lru * V :=
  match idx c !! ip with
  | Some n =>
      let '(h, l) := moveFront (lheap c) (ll c) n in
      (MkLru (cap c) h l (idx c), match h !! n with Some nd => val nd | None => new end)
  | None => (insertNode c ip new, new)
  end.

(** [ipRateLimiter.reset]. *)
Definition reset (c : lru) : lru := MkLru (cap c) (lheap c) (MkDList None None) ∅.

(** [lruCache.get], [put] and [remove]. *)
Definition lru_get (c : lru) (k : bytes) : lru * option V :=
  match idx c !! k with
  | Some n =>
      let '(h, l) := moveFront (lheap c) (ll c) n in
      (MkLru (cap c) h l (idx c), val <$> h !! n)
  | None => (c, None)
  end.

Definition lru_put (c : lru) (k : bytes) (v : V) : lru :=
  match idx c !! k with
  | Some n =>
      let h := alter (fun nd => MkNode (prev nd) (next nd) (key nd) v) n (lheap c) in
      let '(h, l) := moveFront h (ll c) n in MkLru (cap c) h l (idx c)
  | None => insertNode c k v
  end.

Definition lru_remove (c : lru) (k : bytes) : lru :=
  match idx c !! k with
  | Some n =>
      let '(h, l) := remove (lheap c) (ll c) n in MkLru (cap c) h l (delete k (idx c))
  | None => c
  end.

Definition lru_len (c : lru) : nat := size (idx c).

(** ** Specification: a list of entries, most recent first *)

Definition others (k : bytes) (l : list (bytes * V)) : list (bytes * V) := filter (fun e => e.1 <> k) l.

Definition valueOf (k : bytes) (l : list (bytes * V)) : option V :=
  snd <$> find (fun e => bytes_eqb e.1 k) l.

Definition spec_getOrCreate (cap : nat) (k : bytes) (new : V) (l : list (bytes * V)) : list (bytes * V) * V :=
  match valueOf k l with
  | Some v => ((k, v) :: others k l, v)
  | None => (take cap ((k, new) :: l), new)
  end.

Definition spec_put (cap : nat) (k : bytes) (v : V) (l : list (bytes * V)) : list (bytes * V) :=
  match valueOf k l with
  | Some _ => (k, v) :: others k l
  | None => take cap ((k, v) :: l)
  end.

(** The cache [c] holds the entries [l], at most [cap] of them, at least one
    being possible. *)
Definition holds_at (c : lru) (ents : list (loc * (bytes * V))) : Prop :=
  rep (lheap c) (ll c) ents.*1 /\
  (forall x e, (x, e) ∈ ents -> entry (lheap c) x = Some e) /\
  NoDup (map (fun e => e.2.1) ents) /\
  (forall k n, idx c !! k = Some n <-> exists v, (n, (k, v)) ∈ ents).

Definition holds (c : lru) (l : list (bytes * V)) : Prop :=
  exists ents, l = ents.*2 /\ holds_at c ents /\ length l <= cap c /\ 0 < cap c.

(** The operations of the two caches; [Reset] only of the rate limiters. *)
Inductive op := GetOrCreate (k : bytes) (new : V) | Reset | Get (k : bytes) | Put (k : bytes) (v : V) | Remove (k : bytes).

(** One operation: the cache after it, and the value it returned. *)
Definition run_op (c : lru) (o : op) : lru * option V :=
  match o with
  | GetOrCreate k new => let '(c, v) := getOrCreate c k new in (c, Some v)
  | Reset => (reset c, None)
  | Get k => lru_get c k
  | Put k v => (lru_put c k v, None)
  | Remove k => (lru_remove c k, None)
  end.

Definition spec_op (cap : nat) (l : list (bytes * V)) (o : op) : list (bytes * V) * option V :=
  match o with
  | GetOrCreate k new => let '(l, v) := spec_getOrCreate cap k new l in (l, Some v)
  | Reset => ([], None)
  | Get k => match valueOf k l with Some v => ((k, v) :: others k l, Some v) | None => (l, None) end
  | Put k v => (spec_put cap k v l, None)
  | Remove k => (others k l, None)
  end.

(** A sequence of operations and what they returned. *)
Fixpoint trace {S} (step : S -> op -> S * option V) (s : S) (ops : list op) : S * list (option V) :=
  match ops with
  | [] => (s, [])
  | o :: ops' => let '(s, r) := step s o in let '(s, rs) := trace step s ops' in (s, r :: rs)
  end.

(** ** Lemmas *)

Lemma holds_size c ents : holds_at c ents -> size (idx c) = length ents.
Proof.
  intros (_ & _ & Hnd & Hidx).
  assert (idx c = list_to_map (map (fun e => (e.2.1, e.1)) ents)) as ->.
  { assert (Hnd' : NoDup (map (fun e => (e.2.1, e.1)) ents).*1).
    { rewrite <- list_fmap_compose. exact Hnd. }
    apply map_eq. intros k. destruct (idx c !! k) as [n|] eqn:E; symmetry.
    - apply Hidx in E as [v Hin]. apply elem_of_list_to_map_1; [done|].
      apply list_elem_of_fmap. by exists (n, (k, v)).
    - apply not_elem_of_list_to_map_1. intros Hin. rewrite <- list_fmap_compose in Hin.
      apply list_elem_of_fmap in Hin as ((n & k' & v) & -> & Hin). cbn in *.
      assert (idx c !! k' = Some n) by (apply Hidx; eauto). congruence. }
  rewrite map_size_list_to_map; [by rewrite length_fmap|]. rewrite <- list_fmap_compose. exact Hnd.
Qed.

Lemma keys_NoDup (ents : list (loc * (bytes * V))) : map (fun e => e.2.1) ents = ents.*2.*1.
Proof. by rewrite <- !list_fmap_compose. Qed.

Lemma valueOf_elem k v l : NoDup l.*1 -> (k, v) ∈ l -> valueOf k l = Some v.
Proof.
  unfold valueOf. induction l as [|[k' v'] l IH]; simpl; [set_solver|].
  intros [Hn Hnd]%NoDup_cons [[= <- <-]|Hin]%elem_of_cons.
  - by rewrite (proj2 (bytes_eqb_eq k k) eq_refl).
  - destruct (bytes_eqb k' k) eqn:E; [|by apply IH]. apply bytes_eqb_eq in E as ->. exfalso. apply Hn.
    apply list_elem_of_fmap. by exists (k, v).
Qed.

Lemma valueOf_in k v l : valueOf k l = Some v -> (k, v) ∈ l.
Proof.
  unfold valueOf. induction l as [|[k' v'] l IH]; cbn; [done|]. destruct (bytes_eqb k' k) eqn:E; cbn.
  - apply bytes_eqb_eq in E as ->. intros [= ->]. left.
  - intros Hv. right. by apply IH.
Qed.

Lemma valueOf_none k l : k ∉ l.*1 -> valueOf k l = None.
Proof.
  intros Hn. unfold valueOf. rewrite find_none_intro; [done|]. intros [k' v'] Hin.
  destruct (bytes_eqb k' k) eqn:E; [|done]. apply bytes_eqb_eq in E. cbn in E. subst. exfalso. apply Hn.
  apply list_elem_of_fmap. by exists (k, v').
Qed.

Lemma others_split k v (a b : list (bytes * V)) :
  NoDup (a ++ (k, v) :: b).*1 -> others k (a ++ (k, v) :: b) = a ++ b.
Proof.
  rewrite fmap_app. cbn. intros (_ & Hd & [Hb _]%NoDup_cons)%NoDup_app.
  unfold others. rewrite filter_app, filter_cons_False by (cbn; tauto).
  assert (Hid : forall l : list (bytes * V), k ∉ l.*1 -> filter (fun e => e.1 <> k) l = l).
  { intros l Hl. induction l as [|[k' v'] l IH]; [done|]. rewrite filter_cons_True; [f_equal; apply IH; set_solver|].
    cbn. set_solver. }
  rewrite !Hid; [done|done|]. intros Hin. apply (Hd k Hin). left.
Qed.

Lemma touch_at c a n k v b :
  holds_at c (a ++ (n, (k, v)) :: b) ->
  let '(h, l) := moveFront (lheap c) (ll c) n in
  holds_at (MkLru (cap c) h l (idx c)) ((n, (k, v)) :: a ++ b) /\ entry h n = Some (k, v).
Proof.
  intros (Hr & He & Hnd & Hidx). rewrite fmap_app in Hr. cbn in Hr.
  assert (Hn : entry (lheap c) n = Some (k, v)) by (apply He; set_solver).
  pose proof (moveFront_rep _ _ _ _ _ _ _ Hr Hn) as Hm. destruct (moveFront _ _ n) as [h l]. destruct Hm as [Hr' He'].
  split; [|by rewrite He']. split_and!; cbn [lheap ll idx].
  - cbn. by rewrite fmap_app.
  - intros x e Hin. rewrite He'. apply He. set_solver.
  - eapply (NoDup_Permutation_proper _ _); [|exact Hnd]. cbn. rewrite !map_app. cbn.
    apply Permutation_middle.
  - intros k' n'. rewrite Hidx. set_solver.
Qed.

Lemma push_at c ents k v :
  holds_at c ents -> idx c !! k = None ->
  let n := fresh (dom (lheap c)) in
  let '(h, l) := pushFront (<[n := MkNode None None k v]> (lheap c)) (ll c) n in
  holds_at (MkLru (cap c) h l (<[k := n]> (idx c))) ((n, (k, v)) :: ents).
Proof.
  intros (Hr & He & Hnd & Hidx) Hk n.
  assert (Hfresh : lheap c !! n = None) by (apply not_elem_of_dom, is_fresh).
  assert (Hn : n ∉ ents.*1).
  { intros ((x & e) & -> & Hin)%list_elem_of_fmap. apply He in Hin. unfold entry in Hin. cbn in Hfresh.
    by rewrite Hfresh in Hin. }
  assert (Hold : forall x e, (x, e) ∈ ents -> x <> n).
  { intros x e Hin ->. apply Hn, list_elem_of_fmap. by exists (n, e). }
  set (h0 := <[n := MkNode None None k v]> (lheap c)).
  assert (Hr0 : rep h0 (ll c) ents.*1).
  { destruct Hr as (Hd & Hl & Hh & Ht). split_and!; try done. eapply linked_frame; [|exact Hl].
    intros x Hx. apply lookup_insert_ne. by intros ->. }
  assert (He0 : entry h0 n = Some (k, v)) by (unfold entry, h0; by rewrite lookup_insert_eq).
  pose proof (pushFront_rep h0 (ll c) ents.*1 n k v Hr0 Hn He0) as Hp.
  destruct (pushFront h0 (ll c) n) as [h l]. destruct Hp as [Hr' He'].
  assert (Hknew : forall x v', (x, (k, v')) ∉ ents).
  { intros x v' Hin. assert (idx c !! k = Some x) by (apply Hidx; eauto). congruence. }
  split_and!; cbn [lheap ll idx]; [done| | |].
  - intros x e [[= -> ->]|Hin]%elem_of_cons; rewrite He'; [done|].
    unfold entry, h0. rewrite lookup_insert_ne by (intros ->; by apply (Hold _ _ Hin)). by apply He.
  - cbn. apply NoDup_cons. split; [|done]. intros ((x & k' & v') & Heq & Hin)%list_elem_of_fmap. cbn in Heq. subst.
    by apply (Hknew x v').
  - intros k' n'. destruct (decide (k = k')) as [<-|Hne].
    + rewrite lookup_insert_eq. split; [intros [= <-]; exists v; left|]. intros [v' [[= <- <-]|Hin]%elem_of_cons]; [done|].
      by apply Hknew in Hin.
    + rewrite lookup_insert_ne, Hidx by done. set_solver.
Qed.

Lemma remove_at c a n k v b :
  holds_at c (a ++ (n, (k, v)) :: b) ->
  let '(h, l) := remove (lheap c) (ll c) n in holds_at (MkLru (cap c) h l (delete k (idx c))) (a ++ b).
Proof.
  intros (Hr & He & Hnd & Hidx). rewrite fmap_app in Hr. cbn in Hr.
  pose proof (remove_rep _ _ _ _ _ Hr) as Hm. destruct (remove _ _ n) as [h l]. destruct Hm as [Hr' He'].
  rewrite map_app in Hnd. cbn in Hnd. apply NoDup_app in Hnd as (Ha & Hd & [Hkb Hb]%NoDup_cons).
  assert (Hka : k ∉ map (fun e => e.2.1) a) by (intros Hin; apply (Hd k Hin); left).
  split_and!; cbn [lheap ll idx].
  - by rewrite fmap_app.
  - intros x e Hin. rewrite He'. apply He. set_solver.
  - rewrite map_app. apply NoDup_app. split_and!; [done| |done]. intros x Hx Hx'. apply (Hd x Hx). by right.
  - intros k' n'. destruct (decide (k = k')) as [<-|Hne].
    + rewrite lookup_delete_eq. split; [done|]. intros [v' [Hin|Hin]%elem_of_app]; exfalso;
        [apply Hka|apply Hkb]; apply list_elem_of_fmap; by exists (n', (k, v')).
    + rewrite lookup_delete_ne, Hidx by done. set_solver.
Qed.

Lemma tail_at c ents n e : holds_at c (ents ++ [(n, e)]) -> tail (ll c) = Some n.
Proof. intros ((_ & _ & _ & ->) & _). rewrite fmap_app. cbn. by rewrite final_app. Qed.

Lemma insertNode_at c ents k v :
  holds_at c ents -> idx c !! k = None -> length ents <= cap c -> 0 < cap c ->
  exists ents', holds_at (insertNode c k v) ents' /\ ents'.*2 = take (cap c) ((k, v) :: ents.*2) /\
    cap (insertNode c k v) = cap c.
Proof.
  intros Hh Hk Hlen Hcap. unfold insertNode. pose proof (push_at c ents k v Hh Hk) as Hp. cbv zeta in Hp.
  set (n := fresh (dom (lheap c))) in *. destruct (pushFront _ _ n) as [h l].
  pose proof (holds_size _ _ Hp) as Hsz. cbn [idx] in Hsz. rewrite Hsz.
  destruct (Nat.ltb_spec (cap c) (length ((n, (k, v)) :: ents))) as [Hover|Hfit].
  - assert (Hs : exists e0 m e, (n, (k, v)) :: ents = e0 ++ [(m, e)]).
    { destruct ents as [|[m e] ents _] using rev_ind; [by exists [], n, (k, v)|].
      by exists ((n, (k, v)) :: ents), m, e. }
    destruct Hs as (e0 & m & [k' v'] & Hs). rewrite Hs in Hp.
    pose proof (tail_at _ _ _ _ Hp) as Ht. cbn [ll] in Ht. rewrite Ht.
    pose proof (remove_at _ _ _ _ _ [] Hp) as Hrm. cbn [lheap ll idx cap] in Hrm.
    assert (Hm : entry h m = Some (k', v')) by (apply Hp; set_solver). unfold entry in Hm.
    destruct (remove h l m) as [h' l']. destruct (h !! m) as [nd|]; [|done]. injection Hm as <- _.
    exists e0. rewrite app_nil_r in Hrm. split; [done|]. split; [|done].
    assert (Hl0 : length e0 = cap c). { apply (f_equal length) in Hs. rewrite length_app in Hs. simpl in Hs, Hover. lia. }
    change ((k, v) :: ents.*2) with ((n, (k, v)) :: ents).*2. rewrite Hs, fmap_app, take_app_le by (rewrite length_fmap; lia).
    rewrite take_ge; [done|]. rewrite length_fmap. lia.
  - exists ((n, (k, v)) :: ents). split; [done|]. split; [|done]. rewrite take_ge; [done|].
    cbn [length] in *. rewrite length_fmap. lia.
Qed.

Lemma hit_split c ents k n :
  holds_at c ents -> idx c !! k = Some n -> exists a v b, ents = a ++ (n, (k, v)) :: b.
Proof.
  intros (_ & _ & _ & Hidx) Hk. apply Hidx in Hk as [v Hin]. apply list_elem_of_split in Hin as (a & b & ->). eauto.
Qed.

Lemma miss_valueOf c ents k : holds_at c ents -> idx c !! k = None -> valueOf k ents.*2 = None.
Proof.
  intros (_ & _ & _ & Hidx) Hk. apply valueOf_none. intros ((k' & v) & -> & Hin)%list_elem_of_fmap.
  apply list_elem_of_fmap in Hin as ((n & e) & Heq & Hin). cbn in Heq. subst e.
  assert (idx c !! k' = Some n) by (apply Hidx; eauto). cbn in *. congruence.
Qed.

Lemma hit_spec c a n k v b :
  holds_at c (a ++ (n, (k, v)) :: b) ->
  valueOf k (a ++ (n, (k, v)) :: b).*2 = Some v /\ others k (a ++ (n, (k, v)) :: b).*2 = (a ++ b).*2.
Proof.
  intros (_ & _ & Hnd & _). rewrite keys_NoDup in Hnd. rewrite !fmap_app in *. cbn in *. split.
  - apply valueOf_elem; [by rewrite fmap_app|set_solver].
  - apply others_split. by rewrite fmap_app.
Qed.

Lemma others_none k l : valueOf k l = None -> others k l = l.
Proof.
  unfold valueOf, others. intros Hf. induction l as [|[k' v'] l IH]; [done|]. cbn in Hf.
  destruct (bytes_eqb k' k) eqn:E; [done|]. rewrite filter_cons_True; [by rewrite IH|].
  cbn. intros ->. by rewrite (proj2 (bytes_eqb_eq k k) eq_refl) in E.
Qed.

Lemma linked_set_val (h : gmap loc (@lnode V)) n v p xs q :
  linked h p xs q -> linked (alter (fun nd => MkNode (prev nd) (next nd) (key nd) v) n h) p xs q.
Proof.
  revert p. induction xs as [|x xs IH]; intros p; simpl; [done|]. intros [(k & v0 & Hx) Hl]. split; [|by apply IH].
  destruct (decide (n = x)) as [->|Hne].
  - rewrite lookup_alter_eq, Hx. eexists _, _. done.
  - rewrite lookup_alter_ne by done. eauto.
Qed.

Lemma set_val_at c a n k v0 b v :
  holds_at c (a ++ (n, (k, v0)) :: b) ->
  holds_at (MkLru (cap c) (alter (fun nd => MkNode (prev nd) (next nd) (key nd) v) n (lheap c)) (ll c) (idx c))
    (a ++ (n, (k, v)) :: b).
Proof.
  intros ((Hd & Hl & Hh & Ht) & He & Hnd & Hidx). split_and!; cbn [lheap ll idx].
  - rewrite fmap_app in *. cbn in *. split_and!; try done. by apply linked_set_val.
  - assert (Hother : forall x e, (x, e) ∈ a ++ b -> x <> n).
    { intros x e Hin ->. rewrite fmap_app in Hd. cbn in Hd. apply NoDup_app in Hd as (_ & Hdis & [Hb _]%NoDup_cons).
      apply elem_of_app in Hin as [Hin|Hin].
      - apply (Hdis n); [apply list_elem_of_fmap; by exists (n, e)|left].
      - apply Hb, list_elem_of_fmap. by exists (n, e). }
    intros x e Hin. assert (Hcase : (x, e) = (n, (k, v)) \/ (x, e) ∈ a ++ b) by set_solver.
    destruct Hcase as [[= -> ->]|Hin'].
    + assert (Hn : entry (lheap c) n = Some (k, v0)) by (apply He; set_solver). unfold entry in *.
      rewrite lookup_alter_eq. destruct (lheap c !! n); [|done]. cbn in *. congruence.
    + unfold entry. rewrite lookup_alter_ne by (intros ->; by apply (Hother _ _ Hin')). apply He. set_solver.
  - rewrite map_app in *. done.
  - intros k' n'. rewrite Hidx. split; intros [v' Hin].
    + assert (Hc : (n', (k', v')) = (n, (k, v0)) \/ (n', (k', v')) ∈ a ++ b) by set_solver.
      destruct Hc as [[= -> -> ->]|]; set_solver.
    + assert (Hc : (n', (k', v')) = (n, (k, v)) \/ (n', (k', v')) ∈ a ++ b) by set_solver.
      destruct Hc as [[= -> -> ->]|]; set_solver.
Qed.

Lemma perm_length {A} (a b : list A) x n : length (a ++ x :: b) <= n -> length (x :: a ++ b) <= n.
Proof. rewrite !length_app. simpl. rewrite length_app. lia. Qed.

Lemma hit_holds c a n k v b :
  holds_at c (a ++ (n, (k, v)) :: b) -> length (a ++ (n, (k, v)) :: b) <= cap c -> 0 < cap c ->
  let '(h, l) := moveFront (lheap c) (ll c) n in
  holds (MkLru (cap c) h l (idx c)) ((k, v) :: (a ++ b).*2) /\ val <$> h !! n = Some v.
Proof.
  intros Hh Hlen Hcap. pose proof (touch_at _ _ _ _ _ _ Hh) as Ht.
  destruct (moveFront _ _ n) as [h l]. destruct Ht as [Ht He]. split.
  - exists ((n, (k, v)) :: a ++ b). split_and!; [done|done| |done].
    apply perm_length in Hlen. cbn [length cap] in *. by rewrite length_fmap.
  - unfold entry in He. destruct (h !! n); [|done]. cbn in *. congruence.
Qed.

Lemma insert_holds c ents k v :
  holds_at c ents -> idx c !! k = None -> length ents <= cap c -> 0 < cap c ->
  holds (insertNode c k v) (take (cap c) ((k, v) :: ents.*2)) /\ cap (insertNode c k v) = cap c.
Proof.
  intros Hh Ek Hlen Hcap. destruct (insertNode_at c ents k v Hh Ek Hlen Hcap) as (ents' & Hh' & He' & Hc').
  split; [|done]. exists ents'. rewrite He', Hc'. split_and!; [done|done| |done]. rewrite length_take. lia.
Qed.

Lemma empty_holds n h : 0 < n -> holds (MkLru n h (MkDList None None) ∅) [].
Proof.
  intros Hn. exists []. split; [done|]. split; [|cbn; lia]. split_and!; cbn.
  - split_and!; [constructor|done|done|done].
  - set_solver.
  - constructor.
  - intros k x. rewrite lookup_empty. split; [done|]. set_solver.
Qed.

Lemma run_op_holds c l o :
  holds c l ->
  let '(c', r) := run_op c o in let '(l', r') := spec_op (cap c) l o in
  holds c' l' /\ r = r' /\ cap c' = cap c.
Proof.
  intros (ents & -> & Hh & Hlen & Hcap). rewrite length_fmap in Hlen.
  assert (Hc : holds c ents.*2) by (exists ents; by rewrite length_fmap).
  destruct o as [k new| |k|k v|k]; cbn [run_op spec_op];
    [unfold getOrCreate, spec_getOrCreate| |unfold lru_get|unfold lru_put, spec_put|unfold lru_remove];
    try (destruct (idx c !! k) as [n|] eqn:Ek;
      [destruct (hit_split _ _ _ _ Hh Ek) as (a & v0 & b & ->); destruct (hit_spec _ _ _ _ _ _ Hh) as [Hv Ho]
      |pose proof (miss_valueOf _ _ _ Hh Ek)]); simplify_option_eq.
  - pose proof (hit_holds _ _ _ _ _ _ Hh Hlen Hcap) as Ht. destruct (moveFront _ _ n) as [h l]. destruct Ht as [Ht He].
    destruct (h !! n); [|done]. cbn in He. split; [|split; [congruence|done]]. congruence.
  - destruct (insert_holds c ents k new Hh Ek Hlen Hcap). done.
  - split; [|done]. by apply empty_holds.
  - pose proof (hit_holds _ _ _ _ _ _ Hh Hlen Hcap) as Ht. destruct (moveFront _ _ n) as [h l]. destruct Ht as [Ht He].
    destruct (h !! n); [|done]. cbn in *. split; [congruence|split; [congruence|done]].
  - done.
  - apply set_val_at with (v := v) in Hh. pose proof (hit_holds _ _ _ _ _ _ Hh) as Ht. cbn [lheap ll idx cap] in Ht.
    destruct (moveFront _ _ n) as [h l]. destruct Ht as [Ht _]; [by rewrite length_app in *|done|]. split; [congruence|done].
  - destruct (insert_holds c ents k v Hh Ek Hlen Hcap). done.
  - pose proof (remove_at _ _ _ _ _ _ Hh) as Ht. destruct (remove _ _ n) as [h l]. split; [|done].
    exists (a ++ b). split_and!; [done|done| |done]. apply perm_length in Hlen. rewrite Ho, length_fmap. cbn [length cap] in *. lia.
  - rewrite others_none by done. done.
Qed.

Lemma trace_holds c l ops :
  holds c l ->
  let '(c', rs) := trace run_op c ops in let '(l', rs') := trace (spec_op (cap c)) l ops in
  holds c' l' /\ rs = rs' /\ lru_len c' <= cap c.
Proof.
  revert c l. induction ops as [|o ops IH]; intros c l Hh; cbn [trace].
  { destruct Hh as (ents & -> & Hat & Hlen & Hcap). split; [by exists ents|]. split; [done|].
    unfold lru_len. rewrite (holds_size _ _ Hat). by rewrite length_fmap in Hlen. }
  pose proof (run_op_holds c l o Hh) as Ho. destruct (run_op c o) as [c1 r], (spec_op (cap c) l o) as [l1 r'].
  destruct Ho as (Hh1 & -> & Hc1). specialize (IH c1 l1 Hh1). rewrite Hc1 in IH.
  destruct (trace run_op c1 ops) as [c2 rs], (trace (spec_op (cap c)) l1 ops) as [l2 rs'].
  destruct IH as (? & -> & ?). done.
Qed.

End lru.

(** C30.  The rate-limiter cache and the certificate cache, pointers and all,
    behave as a list of at most [cap] entries ordered by recency: for every
    sequence of operations each one returns what the list gives, a new entry
    over the capacity evicts the entry used longest ago, and the map never has
    more than [cap] entries. *)
Theorem lru_refinement (V : Type) n (ops : list (@op V)) :
  0 < n ->
  let '(c, rs) := trace run_op (newLRUCache n) ops in
  let '(l, rs') := trace (spec_op n) [] ops in
  holds c l /\ rs = rs' /\ lru_len c <= n.
Proof. intros Hn. apply (trace_holds (newLRUCache n) [] ops). by apply empty_holds. Qed.

Lemma lru_refinement_witness :
  let ops := [GetOrCreate (str "a") 1; GetOrCreate (str "b") 2; GetOrCreate (str "a") 9; Put (str "c") 3;
              Get (str "b"); Remove (str "a")] in
  let '(c, rs) := trace run_op (newLRUCache 2) ops in
  let '(l, rs') := trace (spec_op 2) [] ops in
  holds c l /\ rs = rs' /\ lru_len c <= 2.
Proof. cbv zeta. apply (lru_refinement nat 2). lia. Defined.
