(* ===== verification/GoStrings.v ===== *)
(** * The parts of Go's standard library the proxy leans on

    [strings], [strconv], [net.SplitHostPort]/[JoinHostPort], [path.Base] and
    [filepath.Ext], as functions on byte strings.  Everything here is
    executable; the only parameter is the Unicode lower-case table
    ([UnicodeTables]), which matters for strings with a byte >= 0x80 only.
    [lowerASCII] is the proxy's own helper (proxy/semantic_filter.go). *)

From S2P Require Import Prelude.

Definition ascii_byte (b : byte) : bool := N.ltb (byte_val b) 128.

(** ** Case *)

Definition byte_of (n : N) : byte := match Byte.of_N n with Some b => b | None => Byte.x00 end.

Definition lowerASCII (b : byte) : byte :=
  if N.leb 65 (byte_val b) && N.leb (byte_val b) 90
  then byte_of (byte_val b + 32) else b.

(** [utf8.DecodeRuneInString]: the first rune and its width; an invalid
    encoding is [RuneError] (0xFFFD) of width 1, the empty string has width
    0. *)
Definition cont_byte (b : byte) : bool := N.leb 128 (byte_val b) && N.leb (byte_val b) 191.

Definition RuneError : N := 65533%N.

Definition DecodeRune (s : bytes) : N * nat :=
  match s with
  | [] => (RuneError, 0)
  | b0 :: t =>
      let v0 := byte_val b0 in
      if N.ltb v0 128 then (v0, 1)
      else if N.leb 194 v0 && N.leb v0 223 then
        match t with
        | b1 :: _ => if cont_byte b1 then (((v0 - 192) * 64 + (byte_val b1 - 128))%N, 2)
                     else (RuneError, 1)
        | [] => (RuneError, 1)
        end
      else if N.leb 224 v0 && N.leb v0 239 then
        match t with
        | b1 :: b2 :: _ =>
            let lo := if N.eqb v0 224 then 160%N else 128%N in
            let hi := if N.eqb v0 237 then 159%N else 191%N in
            if N.leb lo (byte_val b1) && N.leb (byte_val b1) hi && cont_byte b2
            then (((v0 - 224) * 4096 + (byte_val b1 - 128) * 64 + (byte_val b2 - 128))%N, 3)
            else (RuneError, 1)
        | _ => (RuneError, 1)
        end
      else if N.leb 240 v0 && N.leb v0 244 then
        match t with
        | b1 :: b2 :: b3 :: _ =>
            let lo := if N.eqb v0 240 then 144%N else 128%N in
            let hi := if N.eqb v0 244 then 143%N else 191%N in
            if N.leb lo (byte_val b1) && N.leb (byte_val b1) hi && cont_byte b2 && cont_byte b3
            then (((v0 - 240) * 262144 + (byte_val b1 - 128) * 4096
                  + (byte_val b2 - 128) * 64 + (byte_val b3 - 128))%N, 4)
            else (RuneError, 1)
        | _ => (RuneError, 1)
        end
      else (RuneError, 1)
  end.

(** [utf8.AppendRune] for a valid rune; anything else is [RuneError]. *)
Definition EncodeRune (r : N) : bytes :=
  let r := if N.ltb 1114111 r || (N.leb 55296 r && N.leb r 57343) then RuneError else r in
  if N.ltb r 128 then [byte_of r]
  else if N.ltb r 2048 then [byte_of (192 + r / 64); byte_of (128 + r mod 64)]%N
  else if N.ltb r 65536 then
    [byte_of (224 + r / 4096); byte_of (128 + (r / 64) mod 64); byte_of (128 + r mod 64)]%N
  else
    [byte_of (240 + r / 262144); byte_of (128 + (r / 4096) mod 64);
     byte_of (128 + (r / 64) mod 64); byte_of (128 + r mod 64)]%N.

(** The runes of [for _, c := range s]; every step consumes a byte, so the
    length of the string is enough fuel. *)
Fixpoint runes_fuel (fuel : nat) (s : bytes) : list N :=
  match fuel, s with
  | S fuel', _ :: _ => let '(r, w) := DecodeRune s in r :: runes_fuel fuel' (drop w s)
  | _, _ => []
  end.
Definition runes (s : bytes) : list N := runes_fuel (length s) s.

(** [unicode.ToLower] is a table of the Unicode data base. *)
Class UnicodeTables : Type := { unicode_ToLower : N -> N }.

(** The part of the table for ASCII, for closed examples. *)
Definition ascii_tables : UnicodeTables :=
  {| unicode_ToLower r := if N.leb 65 r && N.leb r 90 then (r + 32)%N else r |}.

Definition ToLower `{UnicodeTables} (s : bytes) : bytes :=
  if forallb ascii_byte s then map lowerASCII s
  else concat (map (fun r => EncodeRune (unicode_ToLower r)) (runes s)).

(** ** Prefixes, suffixes, search *)

Fixpoint HasPrefix (s p : bytes) : bool :=
  match p, s with
  | [], _ => true
  | b :: p', a :: s' => bool_decide (a = b) && HasPrefix s' p'
  | _ :: _, [] => false
  end.

Definition HasSuffix (s p : bytes) : bool :=
  (length p <=? length s) && bytes_eqb (drop (length s - length p) s) p.

Definition TrimPrefix (s p : bytes) : bytes :=
  if HasPrefix s p then drop (length p) s else s.

Definition TrimSuffix (s p : bytes) : bytes :=
  if HasSuffix s p then take (length s - length p) s else s.

(** [strings.Index] / [bytes.Index]: [None] is Go's -1. *)
Fixpoint Index (s sub : bytes) : option nat :=
  if HasPrefix s sub then Some 0
  else match s with [] => None | _ :: s' => S <$> Index s' sub end.

Definition Contains (s sub : bytes) : bool :=
  match Index s sub with Some _ => true | None => false end.

Fixpoint IndexByte (s : bytes) (c : byte) : option nat :=
  match s with
  | [] => None
  | b :: s' => if decide (b = c) then Some 0 else S <$> IndexByte s' c
  end.

Fixpoint LastIndexByte (s : bytes) (c : byte) : option nat :=
  match s with
  | [] => None
  | b :: s' =>
      match LastIndexByte s' c with
      | Some i => Some (S i)
      | None => if decide (b = c) then Some 0 else None
      end
  end.

Fixpoint LastIndex (s sub : bytes) : option nat :=
  match s with
  | [] => if decide (sub = []) then Some 0 else None
  | _ :: s' =>
      match LastIndex s' sub with
      | Some i => Some (S i)
      | None => if HasPrefix s sub then Some 0 else None
      end
  end.

(** [strings.Cut(s, sep)]: [None] is [ok = false]. *)
Definition Cut (s sep : bytes) : option (bytes * bytes) :=
  i ← Index s sep; Some (take i s, drop (i + length sep) s).

(** [strings.Split(s, sep)] with [sep] one byte. *)
Fixpoint SplitByte (s : bytes) (c : byte) : list bytes :=
  match s with
  | [] => [[]]
  | b :: s' =>
      if decide (b = c) then [] :: SplitByte s' c
      else match SplitByte s' c with
           | w :: ws => (b :: w) :: ws
           | [] => [[b]]
           end
  end.

(** [strings.SplitN(s, sep, 2)[0]] with [sep] one byte. *)
Definition before_byte (s : bytes) (c : byte) : bytes :=
  match IndexByte s c with Some i => take i s | None => s end.

(** [strings.FieldsFunc(s, func(r) { return r == c })]: the maximal runs of
    other bytes. *)
Definition FieldsByte (s : bytes) (c : byte) : list bytes :=
  filter (fun w => w <> []) (SplitByte s c).

(** [strings.ReplaceAll(s, old, new)] with one-byte [old] and [new]. *)
Definition ReplaceByte (s : bytes) (c d : byte) : bytes :=
  map (fun b => if decide (b = c) then d else b) s.

(** ** White space

    [unicode.IsSpace], by the UTF-8 encodings of its runes.  UTF-8 is
    self-synchronising, so the first (last) rune of a string is one of these
    exactly when the string starts (ends) with its encoding. *)
Definition space_encodings : list bytes :=
  [str " "; [Byte.x09]; [Byte.x0a]; [Byte.x0b]; [Byte.x0c]; [Byte.x0d]]
  ++ map EncodeRune
       [133; 160; 5760; 8192; 8193; 8194; 8195; 8196; 8197; 8198; 8199; 8200; 8201;
        8202; 8232; 8233; 8239; 8287; 12288]%N.

Definition leading_space (s : bytes) : nat :=
  match List.find (HasPrefix s) space_encodings with Some e => length e | None => 0 end.

Definition trailing_space (s : bytes) : nat :=
  match List.find (HasSuffix s) space_encodings with Some e => length e | None => 0 end.

Fixpoint trim_left_fuel (fuel : nat) (s : bytes) : bytes :=
  match fuel, leading_space s with
  | S fuel', S n => trim_left_fuel fuel' (drop (S n) s)
  | _, _ => s
  end.

Fixpoint trim_right_fuel (fuel : nat) (s : bytes) : bytes :=
  match fuel, trailing_space s with
  | S fuel', S n => trim_right_fuel fuel' (take (length s - S n) s)
  | _, _ => s
  end.

Definition TrimSpace (s : bytes) : bytes :=
  let l := trim_left_fuel (length s) s in trim_right_fuel (length l) l.

(** [strings.Fields]. *)
Fixpoint Fields_fuel (fuel : nat) (cur : bytes) (s : bytes) : list bytes :=
  let close := if decide (cur = []) then [] else [cur] in
  match fuel, s with
  | S fuel', b :: s' =>
      match leading_space s with
      | 0 => Fields_fuel fuel' (cur ++ [b]) s'
      | S n => close ++ Fields_fuel fuel' [] (drop (S n) s)
      end
  | _, _ => close
  end.
Definition Fields (s : bytes) : list bytes := Fields_fuel (length s) [] s.

(** [strings.Trim], [TrimLeft], [TrimRight] with an ASCII cutset. *)
Fixpoint TrimLeft (s cutset : bytes) : bytes :=
  match s with
  | [] => []
  | b :: s' => if decide (b ∈ cutset) then TrimLeft s' cutset else s
  end.
Definition TrimRight (s cutset : bytes) : bytes := rev (TrimLeft (rev s) cutset).
Definition Trim (s cutset : bytes) : bytes := TrimRight (TrimLeft s cutset) cutset.

(** [strings.EqualFold(s, t)] for an ASCII [t]: simple folding adds two
    non-ASCII spellings, the Kelvin sign for k and the long s for s. *)
Fixpoint EqualFold (s t : bytes) : bool :=
  match t, s with
  | [], [] => true
  | c :: t', a :: s' =>
      (bool_decide (lowerASCII a = lowerASCII c) && EqualFold s' t')
      || (bool_decide (lowerASCII c = "k"%byte) &&
          match s with
          | Byte.xe2 :: Byte.x84 :: Byte.xaa :: s3 => EqualFold s3 t'
          | _ => false
          end)
      || (bool_decide (lowerASCII c = "s"%byte) &&
          match s with
          | Byte.xc5 :: Byte.xbf :: s2 => EqualFold s2 t'
          | _ => false
          end)
  | _, _ => false
  end.

(** ** strconv *)

Definition digit_val (b : byte) : option Z :=
  if N.leb 48 (byte_val b) && N.leb (byte_val b) 57
  then Some (Z.of_N (byte_val b) - 48)%Z else None.

Fixpoint parse_digits (acc : Z) (s : bytes) : option Z :=
  match s with
  | [] => Some acc
  | b :: s' => d ← digit_val b; parse_digits (acc * 10 + d) s'
  end.

(** [strconv.Atoi]: an optional sign, at least one decimal digit, a value of
    the 64-bit [int]. *)
Definition Atoi (s : bytes) : option Z :=
  let '(neg, ds) := match s with
                    | "-"%byte :: t => (true, t)
                    | "+"%byte :: t => (false, t)
                    | _ => (false, s)
                    end in
  if decide (ds = []) then None
  else v ← parse_digits 0 ds;
       let v := if neg : bool then (- v)%Z else v in
       if Z.leb (- 2 ^ 63) v && Z.ltb v (2 ^ 63) then Some v else None.

Definition digit (z : Z) : byte := byte_of (Z.to_N (48 + z)).

Fixpoint Itoa_fuel (fuel : nat) (z : Z) : bytes :=
  match fuel with
  | O => []
  | S fuel' => if (z <? 10)%Z then [digit z]
               else Itoa_fuel fuel' (z / 10) ++ [digit (z mod 10)]
  end.

(** [fmt.Sprintf("%d", z)] for [0 <= z]; the number of bits bounds the number
    of digits. *)
Definition Itoa (z : Z) : bytes :=
  if (z <? 0)%Z then "-"%byte :: Itoa_fuel (S (Z.to_nat (Z.log2 (- z)))) (- z)
  else Itoa_fuel (S (Z.to_nat (Z.log2 z))) z.

(** [fmt.Sprintf("%02d", z)] for [0 <= z]. *)
Definition pad2 (z : Z) : bytes := if (z <? 10)%Z then [digit 0; digit z] else Itoa z.

(** ** net.SplitHostPort and net.JoinHostPort *)

Definition SplitHostPort (hostport : bytes) : option (bytes * bytes) :=
  match LastIndexByte hostport ":"%byte with
  | None => None
  | Some i =>
      let finish (host : bytes) (j k : nat) :=
        match IndexByte (drop j hostport) "["%byte, IndexByte (drop k hostport) "]"%byte with
        | None, None => Some (host, drop (S i) hostport)
        | _, _ => None
        end in
      match hostport with
      | "["%byte :: _ =>
          match IndexByte hostport "]"%byte with
          | None => None
          | Some e =>
              if S e =? length hostport then None
              else if S e =? i then finish (take (e - 1) (drop 1 hostport)) 1 (S e)
              else None
          end
      | _ =>
          let host := take i hostport in
          match IndexByte host ":"%byte with
          | Some _ => None
          | None => finish host 0 0
          end
      end
  end.

Definition JoinHostPort (host port : bytes) : bytes :=
  match IndexByte host ":"%byte with
  | Some _ => str "[" ++ host ++ str "]:" ++ port
  | None => host ++ str ":" ++ port
  end.

(** ** path.Base and filepath.Ext (slash-separated) *)

Definition Base (p : bytes) : bytes :=
  if decide (p = []) then str "."
  else
    let p := TrimRight p (str "/") in
    let p := match LastIndexByte p "/"%byte with Some i => drop (S i) p | None => p end in
    if decide (p = []) then str "/" else p.

(** The suffix from the last dot of the last path element, "" when it has
    none. *)
Definition Ext (p : bytes) : bytes :=
  let last := match LastIndexByte p "/"%byte with Some i => drop (S i) p | None => p end in
  match LastIndexByte last "."%byte with Some i => drop i last | None => [] end.

(** ** Lemmas on splitting *)

Lemma SplitByte_nonempty s c : SplitByte s c <> [].
Proof. destruct s; simpl; [done|]. case_decide; [done|]. by destruct (SplitByte s c). Qed.

Lemma SplitByte_none s c : c ∉ s -> SplitByte s c = [s].
Proof.
  induction s as [|b s IH]; simpl; [done|]. intros Hc.
  rewrite decide_False by set_solver. by rewrite IH by set_solver.
Qed.

Lemma SplitByte_app a c b : SplitByte (a ++ c :: b) c = SplitByte a c ++ SplitByte b c.
Proof.
  induction a as [|x a IH]; simpl; [by rewrite decide_True|].
  case_decide; rewrite IH; [done|].
  pose proof (SplitByte_nonempty a c). by destruct (SplitByte a c).
Qed.

Lemma LastIndexByte_None s c : LastIndexByte s c = None -> c ∉ s.
Proof.
  induction s as [|b s IH]; simpl; [set_solver|].
  destruct (LastIndexByte s c); [done|]. case_decide; set_solver.
Qed.

Lemma LastIndexByte_Some s c i :
  LastIndexByte s c = Some i -> s = take i s ++ c :: drop (S i) s /\ c ∉ drop (S i) s.
Proof.
  revert i. induction s as [|b s IH]; intros i; simpl; [done|].
  destruct (LastIndexByte s c) as [j|] eqn:E.
  - intros; simplify_eq. destruct (IH j eq_refl) as [Hs Hn]. split; [|done].
    simpl. by rewrite <- Hs.
  - case_decide; intros; simplify_eq. rewrite drop_0. eauto using LastIndexByte_None.
Qed.

Lemma FieldsByte_nil c : FieldsByte [] c = [].
Proof. done. Qed.

Lemma FieldsByte_snoc a b c :
  c ∉ b -> FieldsByte (a ++ c :: b) c = FieldsByte a c ++ (if decide (b = []) then [] else [b]).
Proof.
  intros Hb. unfold FieldsByte. rewrite SplitByte_app, filter_app, (SplitByte_none b) by done.
  f_equal. rewrite filter_cons. case_decide; case_decide; naive_solver.
Qed.

Lemma FieldsByte_none s c : c ∉ s -> FieldsByte s c = if decide (s = []) then [] else [s].
Proof.
  intros Hs. unfold FieldsByte. rewrite SplitByte_none by done.
  rewrite filter_cons. case_decide; case_decide; naive_solver.
Qed.

(** ** Lemmas on search *)

Lemma HasPrefix_spec s p : HasPrefix s p = true <-> p `prefix_of` s.
Proof.
  revert s. induction p as [|b p IH]; intros s; simpl.
  { split; [intros _; apply prefix_nil|by destruct s]. }
  destruct s as [|a s]; simpl.
  { split; [done|]. by intros ?%prefix_nil_not. }
  rewrite andb_true_iff, bool_decide_eq_true, IH. split.
  - intros [-> Hp]. by apply prefix_cons.
  - intros Hp. split; [by apply prefix_cons_inv_1 in Hp|by eapply prefix_cons_inv_2].
Qed.

Lemma HasPrefix_app p t : HasPrefix (p ++ t) p = true.
Proof. apply HasPrefix_spec. by exists t. Qed.

Lemma Index_Some s sub i :
  Index s sub = Some i ->
  i + length sub <= length s /\ s = take i s ++ sub ++ drop (i + length sub) s /\
  (forall j, j < i -> HasPrefix (drop j s) sub = false).
Proof.
  revert i. induction s as [|a s IH]; intros i; cbn [Index].
  - destruct (HasPrefix [] sub) eqn:E; [|done]. intros [= <-].
    apply HasPrefix_spec in E as [t Ht]. symmetry in Ht. apply app_nil in Ht as [-> ->].
    split_and!; [simpl; lia|done|lia].
  - destruct (HasPrefix (a :: s) sub) eqn:E.
    + intros [= <-]. apply HasPrefix_spec in E as [t Ht]. rewrite Ht.
      rewrite length_app. split_and!; [lia| |lia].
      simpl. by rewrite drop_app_length.
    + intros Hi. apply fmap_Some in Hi as (k & Hk & ->). destruct (IH k Hk) as (Hl & Hs & Hj).
      split_and!; [simpl; lia|simpl; by rewrite <- Hs|].
      intros [|j] Hlt; [done|]. apply Hj. lia.
Qed.

Lemma Index_None s sub :
  Index s sub = None -> forall j, j <= length s -> HasPrefix (drop j s) sub = false.
Proof.
  induction s as [|a s IH]; cbn [Index].
  - destruct (HasPrefix [] sub) eqn:E; [done|]. intros _ j Hj. by rewrite drop_nil.
  - destruct (HasPrefix (a :: s) sub) eqn:E; [done|]. intros Hi%fmap_None [|j] Hj; [done|].
    simpl. apply IH; [done|simpl in Hj; lia].
Qed.

Lemma Contains_spec s sub : Contains s sub = true <-> exists a b, s = a ++ sub ++ b.
Proof.
  unfold Contains. destruct (Index s sub) as [i|] eqn:E; split; try done.
  - intros _. apply Index_Some in E as (_ & -> & _). eauto.
  - intros (a & b & ->).
    pose proof (Index_None _ _ E (length a) ltac:(rewrite length_app; lia)) as Hn.
    rewrite drop_app_length, HasPrefix_app in Hn. done.
Qed.

(** ** Lemmas on hosts and ports *)

Lemma IndexByte_notin s c : c ∉ s -> IndexByte s c = None.
Proof.
  induction s as [|b s IH]; simpl; [done|]. intros Hn.
  rewrite decide_False by set_solver. by rewrite IH by set_solver.
Qed.

Lemma LastIndexByte_notin s c : c ∉ s -> LastIndexByte s c = None.
Proof.
  induction s as [|b s IH]; simpl; [done|]. intros Hn. rewrite IH by set_solver.
  by rewrite decide_False by set_solver.
Qed.

Lemma LastIndexByte_last a b c : c ∉ b -> LastIndexByte (a ++ c :: b) c = Some (length a).
Proof.
  intros Hb. induction a as [|x a IH]; simpl; [|by rewrite IH].
  by rewrite LastIndexByte_notin, decide_True.
Qed.

(** A host without colons and brackets, and its port. *)
Lemma SplitHostPort_colon host port :
  ":"%byte ∉ host ++ port -> "["%byte ∉ host ++ port -> "]"%byte ∉ host ++ port ->
  SplitHostPort (host ++ str ":" ++ port) = Some (host, port).
Proof.
  intros H1 H2 H3. unfold SplitHostPort. change (str ":" ++ port) with (":"%byte :: port).
  rewrite LastIndexByte_last by set_solver.
  assert (Hd : drop (S (length host)) (host ++ ":"%byte :: port) = port).
  { replace (S (length host)) with (length (host ++ [":"%byte])) by (rewrite length_app; simpl; lia).
    change (":"%byte :: port) with ([":"%byte] ++ port). rewrite app_assoc. by rewrite drop_app_length. }
  cbv zeta. rewrite Hd, take_app_length, (IndexByte_notin host) by set_solver.
  rewrite !drop_0, !IndexByte_notin by set_solver.
  destruct (host ++ ":"%byte :: port) as [|c t] eqn:E; [done|].
  assert (c <> "["%byte) by (destruct host; simpl in E; injection E as <- _; set_solver).
  by destruct c.
Qed.

Lemma SplitHostPort_no_colon host : ":"%byte ∉ host -> SplitHostPort host = None.
Proof. intros Hh. unfold SplitHostPort. by rewrite LastIndexByte_notin. Qed.
