(* ===== verification/GoConv.v ===== *)
(** Conversions of [strconv] and [time] that the configuration uses:
    [ParseBool], [ParseInt], [ParseDuration] and [ParseFloat].  A [float64] is
    a [spec_float] of 53 bits, rounded to nearest even. *)

From stdpp Require Import base list.
From Stdlib Require Import Floats.SpecFloat.
From S2P Require Import Prelude GoStrings.
Set Default Goal Selector "!".

Definition ParseBool (s : bytes) : option bool :=
  if bool_decide (s ∈ map str ["1"; "t"; "T"; "true"; "TRUE"; "True"]%string) then Some true
  else if bool_decide (s ∈ map str ["0"; "f"; "F"; "false"; "FALSE"; "False"]%string) then Some false
  else None.

(** ** Floating point *)

Abbreviation float64 := spec_float.

(** [m * 2^e] rounded. *)
Definition f64 (m e : Z) : float64 := binary_normalize 53 1024 m e false.
Definition f64_mul : float64 -> float64 -> float64 := SFmul 53 1024.
Definition f64_div : float64 -> float64 -> float64 := SFdiv 53 1024.
Definition f64_leb : float64 -> float64 -> bool := SFleb.

(** [uint64(f)] of a non-negative finite [f]: truncation. *)
Definition f64_trunc (f : float64) : Z :=
  match f with S754_finite _ m e => Z.shiftl (Zpos m) e | _ => 0 end.

(** ** Durations *)

Definition isDigit (b : byte) : bool := N.leb 48 (byte_val b) && N.leb (byte_val b) 57.
Definition digitZ (b : byte) : Z := Z.of_N (byte_val b) - 48.

(** [leadingInt]: [None] is an overflow. *)
Fixpoint leadingInt (s : bytes) (x : Z) : option (Z * bytes) :=
  match s with
  | c :: s' =>
      if isDigit c then
        if Z.ltb (2 ^ 63 / 10) x then None
        else let x := (x * 10 + digitZ c)%Z in
             if Z.ltb (2 ^ 63) x then None else leadingInt s' x
      else Some (x, s)
  | [] => Some (x, [])
  end.

(** [leadingFraction]: digits after an overflow are skipped. *)
Fixpoint leadingFraction (s : bytes) (x : Z) (scale : float64) (overflow : bool) : Z * float64 * bytes :=
  match s with
  | c :: s' =>
      if isDigit c then
        if overflow || Z.ltb ((2 ^ 63 - 1) / 10) x then leadingFraction s' x scale true
        else let y := (x * 10 + digitZ c)%Z in
             if Z.ltb (2 ^ 63) y then leadingFraction s' x scale true
             else leadingFraction s' y (f64_mul scale (f64 10 0)) false
      else (x, scale, s)
  | [] => (x, scale, [])
  end.

Definition unitMap : list (bytes * Z) :=
  [(str "ns", 1); (str "us", 1000); ([Byte.xc2; Byte.xb5; Byte.x73], 1000); ([Byte.xce; Byte.xbc; Byte.x73], 1000);
   (str "ms", 1000000); (str "s", 1000000000); (str "m", 60000000000); (str "h", 3600000000000)]%Z.

Fixpoint spanUnit (s : bytes) : bytes * bytes :=
  match s with
  | c :: s' => if isDigit c || bool_decide (c = Byte.x2e) then ([], s) else let '(u, r) := spanUnit s' in (c :: u, r)
  | [] => ([], [])
  end.

(** One number with its unit. *)
Definition durationTerm (s : bytes) : option (Z * bytes) :=
  '(v, s1) ← leadingInt s 0;
  let pre := negb (length s1 =? length s) in
  let '(f, scale, s2, post) :=
    match s1 with
    | Byte.x2e :: s' => let '(f, scale, s2) := leadingFraction s' 0 (f64 1 0) false in (f, scale, s2, negb (length s2 =? length s'))
    | _ => (0%Z, f64 1 0, s1, false)
    end in
  if negb (pre || post) then None
  else
    let '(u, rest) := spanUnit s2 in
    unit ← snd <$> find (fun e => bytes_eqb e.1 u) unitMap;
    if Z.ltb (2 ^ 63 / unit) v then None
    else
      let v := (v * unit)%Z in
      let v := if Z.ltb 0 f then (v + f64_trunc (f64_mul (f64 f 0) (f64_div (f64 unit 0) scale)))%Z else v in
      if Z.ltb (2 ^ 63) v then None else Some (v, rest).

Fixpoint durationTerms (fuel : nat) (s : bytes) (d : Z) : option Z :=
  match s, fuel with
  | [], _ => Some d
  | _, O => None
  | _, S fuel' =>
      '(v, rest) ← durationTerm s;
      if Z.ltb (2 ^ 63) (d + v) then None else durationTerms fuel' rest (d + v)
  end.

(** Every term takes at least one byte: the length is enough fuel. *)
Definition ParseDuration (s : bytes) : option Z :=
  let '(neg, s) :=
    match s with Byte.x2d :: s' => (true, s') | Byte.x2b :: s' => (false, s') | _ => (false, s) end in
  if bytes_eqb s (str "0") then Some 0%Z
  else if bytes_eqb s [] then None
  else
    d ← durationTerms (length s) s 0;
    if neg then Some (- d)%Z else if Z.ltb (2 ^ 63 - 1) d then None else Some d.

(** ** [ParseFloat] *)

(** The quotient [m / d] of positive integers, times [2^e], rounded: the
    quotient to at least 64 bits, with a sticky bit. *)
Definition f64_ratio (m d e : Z) : float64 :=
  let k := Z.max 0 (66 + Z.log2 d - Z.log2 m) in
  let n := Z.shiftl m k in
  let q := (n / d)%Z in
  f64 (Z.lor (2 * q) (if Z.eqb (n mod d) 0 then 0 else 1)) (e - k - 1).

Definition lower (c : byte) : byte := lowerASCII c.

Definition hexVal (c : byte) : option Z :=
  let c := lower c in
  if isDigit c then Some (digitZ c)
  else if N.leb 97 (byte_val c) && N.leb (byte_val c) 102 then Some (Z.of_N (byte_val c) - 87)%Z
  else None.

(** The mantissa: its digits as an integer, how many of them, how many after
    the point, whether there was a point, and the rest. *)
Fixpoint readMantissa (hex : bool) (s : bytes) (m : Z) (digits frac : nat) (point : bool) : Z * nat * nat * bytes :=
  match s with
  | Byte.x5f :: s' => readMantissa hex s' m digits frac point
  | Byte.x2e :: s' => if point then (m, digits, frac, s) else readMantissa hex s' m digits frac true
  | c :: s' =>
      match (if hex then hexVal c else if isDigit c then Some (digitZ c) else None) with
      | Some v => readMantissa hex s' ((if hex then 16 else 10) * m + v)%Z (S digits) (if point then S frac else frac) point
      | None => (m, digits, frac, s)
      end
  | [] => (m, digits, frac, [])
  end.

(** The digits of an exponent, which stops growing at 10000. *)
Fixpoint readExp (s : bytes) (e : Z) : Z * bytes :=
  match s with
  | Byte.x5f :: s' => readExp s' e
  | c :: s' => if isDigit c then readExp s' (if Z.ltb e 10000 then e * 10 + digitZ c else e)%Z else (e, s)
  | [] => (e, [])
  end.

Definition readExponent (hex : bool) (s : bytes) : option (option Z * bytes) :=
  match s with
  | c :: s' =>
      if bool_decide (lower c = (if hex then Byte.x70 else Byte.x65)) then
        let '(neg, s') := match s' with Byte.x2d :: r => (true, r) | Byte.x2b :: r => (false, r) | _ => (false, s') end in
        match s' with
        | d :: _ => if isDigit d then let '(e, r) := readExp s' 0 in Some (Some (if neg then - e else e)%Z, r) else None
        | [] => None
        end
      else Some (None, s)
  | [] => Some (None, [])
  end.

(** [underscoreOK], [prev] the kind of the byte before: a digit, an
    underscore or another. *)
Fixpoint underscores (hex : bool) (prev : byte) (s : bytes) : bool :=
  match s with
  | [] => negb (bool_decide (prev = Byte.x5f))
  | c :: s' =>
      if isDigit c || hex && bool_decide (is_Some (hexVal c)) then underscores hex Byte.x30 s'
      else if bool_decide (c = Byte.x5f) then bool_decide (prev = Byte.x30) && underscores hex Byte.x5f s'
      else negb (bool_decide (prev = Byte.x5f)) && underscores hex Byte.x21 s'
  end.

Definition signOf (s : bytes) : bool * bytes :=
  match s with Byte.x2d :: s' => (true, s') | Byte.x2b :: s' => (false, s') | _ => (false, s) end.

Definition isHex (s : bytes) : bool := match s with Byte.x30 :: c :: _ => bool_decide (lower c = Byte.x78) | _ => false end.

(** [None] is an error, of syntax or of range. *)
Definition ParseFloat (s : bytes) : option float64 :=
  let '(neg, t) := signOf s in
  let signed f := if neg then SFopp f else f in
  if bool_decide (map lower t ∈ [str "inf"; str "infinity"]) then Some (S754_infinity neg)
  else if bytes_eqb (map lower s) (str "nan") then Some S754_nan
  else
    let hex := isHex t in
    let body := if hex then drop 2 t else t in
    let '(m, digits, frac, r) := readMantissa hex body 0 0 0 false in
    if digits =? 0 then None
    else
      '(e, r) ← readExponent hex r;
      if bytes_eqb r [] && (negb hex || bool_decide (is_Some e))
         && (negb (bool_decide (Byte.x5f ∈ s)) || underscores hex (if hex then Byte.x30 else Byte.x5e) body) then
        let e := default 0%Z e in
        let f :=
          if Z.eqb m 0 then S754_zero false
          else if hex then f64_ratio m 1 (e - 4 * Z.of_nat frac)
          else
            let e := (e - Z.of_nat frac)%Z in
            (* beyond these exponents the result is infinite or zero *)
            if Z.ltb 400 e then S754_infinity false
            else if Z.ltb (e + Z.of_nat digits) (-400) then S754_zero false
            else f64_ratio (m * 10 ^ Z.max e 0) (10 ^ Z.max (- e) 0) 0 in
        match f with S754_infinity _ => None | _ => Some (signed f) end
      else None.

(** ** [ParseInt] with base 0 *)

(** The base, the digits, and what [underscoreOK] starts with. *)
Definition intBase (s : bytes) : Z * bytes * byte :=
  match s with
  | Byte.x30 :: c :: d :: r =>
      if bool_decide (lower c = Byte.x62) then (2%Z, d :: r, Byte.x30)
      else if bool_decide (lower c = Byte.x6f) then (8%Z, d :: r, Byte.x30)
      else if bool_decide (lower c = Byte.x78) then (16%Z, d :: r, Byte.x30)
      else (8%Z, c :: d :: r, Byte.x30)
  | Byte.x30 :: r => (8%Z, r, Byte.x30)
  | _ => (10%Z, s, Byte.x5e)
  end.

Definition digitIn (base : Z) (c : byte) : option Z :=
  let c := lower c in
  let v := if isDigit c then Some (digitZ c)
           else if N.leb 97 (byte_val c) && N.leb (byte_val c) 122 then Some (Z.of_N (byte_val c) - 87)%Z else None in
  v ← v; if Z.ltb v base then Some v else None.

Fixpoint digitsIn (base : Z) (s : bytes) (n : Z) : option Z :=
  match s with
  | [] => Some n
  | Byte.x5f :: s' => digitsIn base s' n
  | c :: s' => v ← digitIn base c; digitsIn base s' (base * n + v)%Z
  end.

(** [strconv.ParseInt(s, 0, 64)]. *)
Definition ParseInt0 (s : bytes) : option Z :=
  let '(neg, t) := signOf s in
  if bytes_eqb t [] then None
  else
    let '(base, ds, prev) := intBase t in
    n ← digitsIn base ds 0;
    let v := if neg : bool then (- n)%Z else n in
    if (negb (bool_decide (Byte.x5f ∈ t)) || underscores (Z.eqb base 16) prev ds)
       && Z.leb (- 2 ^ 63) v && Z.ltb v (2 ^ 63) then Some v else None.
