(* ===== verification/GoPem.v ===== *)
(** * Packages encoding/base64 and encoding/pem

    The standard base64 encoding and its decoder, and PEM blocks: the text of
    a block without headers, and the search for the first block of a text,
    whose remainder the callers ignore.  What was encoded is read back. *)

From S2P Require Import Prelude GoStrings.

(** ** base64 *)

Definition base64_char (n : N) : byte :=
  byte_of (if N.ltb n 26 then n + 65 else if N.ltb n 52 then n + 71 else if N.ltb n 62 then n - 4
           else if N.eqb n 62 then 43 else 47)%N.

(** [base64.StdEncoding.EncodeToString]. *)
Fixpoint base64_Encode (s : bytes) : bytes :=
  match s with
  | [] => []
  | [a] =>
      let v := (byte_val a * 16)%N in
      [base64_char (v / 64); base64_char (v mod 64); "="%byte; "="%byte]
  | [a; b] =>
      let v := ((byte_val a * 256 + byte_val b) * 4)%N in
      [base64_char (v / 4096); base64_char (v / 64 mod 64); base64_char (v mod 64); "="%byte]
  | a :: b :: c :: s' =>
      let v := (byte_val a * 65536 + byte_val b * 256 + byte_val c)%N in
      base64_char (v / 262144) :: base64_char (v / 4096 mod 64) :: base64_char (v / 64 mod 64)
        :: base64_char (v mod 64) :: base64_Encode s'
  end.

Definition base64_val (b : byte) : option N :=
  let n := byte_val b in
  (if (65 <=? n) && (n <=? 90) then Some (n - 65)
  else if (97 <=? n) && (n <=? 122) then Some (n - 71)
  else if (48 <=? n) && (n <=? 57) then Some (n + 4)
  else if n =? 43 then Some 62 else if n =? 47 then Some 63 else None)%N.

(** Quanta of four characters; padding only ends the text. *)
Fixpoint base64_quanta (s : bytes) : option bytes :=
  match s with
  | [] => Some []
  | a :: b :: c :: d :: s' =>
      x ← base64_val a; y ← base64_val b;
      if bool_decide (c = "="%byte) then
        if bool_decide (d = "="%byte) && bytes_eqb s' [] then Some [byte_of (x * 4 + y / 16)] else None
      else
        z ← base64_val c;
        if bool_decide (d = "="%byte) then
          if bytes_eqb s' [] then Some [byte_of (x * 4 + y / 16); byte_of (y mod 16 * 16 + z / 4)] else None
        else
          w ← base64_val d;
          rest ← base64_quanta s';
          Some (byte_of (x * 4 + y / 16) :: byte_of (y mod 16 * 16 + z / 4) :: byte_of (z mod 4 * 64 + w) :: rest)
  | _ => None
  end%N.

(** [base64.StdEncoding.DecodeString]: line breaks are skipped. *)
Definition base64_Decode (s : bytes) : option bytes :=
  base64_quanta (filter (fun b => b <> Byte.x0d /\ b <> Byte.x0a) s).

(** ** pem *)

Record pemBlock := MkPemBlock { pb_Type : bytes; pb_Bytes : bytes }.

Definition newline : byte := Byte.x0a.
Definition pemBegin : bytes := str "-----BEGIN ".
Definition pemEnd : bytes := newline :: str "-----END ".
Definition pemEndOfLine : bytes := str "-----".

(** The lines of the [lineBreaker]: 64 characters each. *)
Fixpoint breakLines (fuel : nat) (s : bytes) : bytes :=
  match fuel, s with
  | S fuel', _ :: _ => take 64 s ++ newline :: breakLines fuel' (drop 64 s)
  | _, _ => []
  end.

(** [pem.EncodeToMemory] of a block without headers. *)
Definition EncodeToMemory (b : pemBlock) : bytes :=
  let text := base64_Encode (pb_Bytes b) in
  pemBegin ++ pb_Type b ++ pemEndOfLine ++ newline ::
  breakLines (length text) text ++
  drop 1 pemEnd ++ pb_Type b ++ pemEndOfLine ++ [newline].

(** A line without its end and the blanks before it, the rest, and the number
    of bytes before the rest. *)
Definition getLine (data : bytes) : bytes * bytes * nat :=
  let '(i, j) :=
    match IndexByte data newline with
    | None => (length data, length data)
    | Some i => (match i with
                 | S i' => if bool_decide (data !! i' = Some Byte.x0d) then i' else i
                 | O => i
                 end, S i)
    end in
  (TrimRight (take i data) [" "%byte; Byte.x09], drop j data, j).

(** The header lines: the rest behind them, how many bytes they take, and
    whether there are any; [None] when the text ends with them. *)
Fixpoint pemHeaders (fuel : nat) (rest : bytes) (taken : nat) : option (bytes * nat) :=
  match fuel with
  | O => None
  | S fuel' =>
      if bytes_eqb rest [] then None
      else
        let '(line, next, consumed) := getLine rest in
        match Cut line (str ":") with
        | None => Some (rest, taken)
        | Some _ => pemHeaders fuel' next (taken + consumed)
        end
  end.

Inductive pemAttempt :=
| PemFound (b : pemBlock)
| PemNone
| PemRetry (rest : bytes) (skip : Z).

(** The rest of a round, behind the BEGIN line: [e] is the start of the END
    line and [trailer] the place behind its dashes. *)
Definition pemBody (type rest : bytes) (e trailer : Z) : pemAttempt :=
  match pemHeaders (S (length rest)) rest 0 with
  | None => PemNone
  | Some (rest, taken) =>
      let e := (e - Z.of_nat taken)%Z in
      let trailer := (trailer - Z.of_nat taken)%Z in
      if (0 <? taken) && (e <? 0)%Z then PemRetry rest trailer
      else
        let endTrailer := drop (Z.to_nat trailer) rest in
        let n := length type + length pemEndOfLine in
        let '(line, _, _) := getLine (drop n endTrailer) in
        if (length endTrailer <? n) ||
           negb (HasPrefix (take n endTrailer) type && HasSuffix (take n endTrailer) pemEndOfLine) ||
           negb (bytes_eqb line [])
        then PemRetry rest trailer
        else if (e <=? 0)%Z then PemFound (MkPemBlock type [])
        else match base64_Decode (filter (fun c => c <> " "%byte /\ c <> Byte.x09) (take (Z.to_nat e) rest)) with
             | None => PemRetry rest trailer
             | Some data => PemFound (MkPemBlock type data)
             end
  end.

(** One round of the loop of [pem.Decode]: the first END line and the last
    BEGIN line before it. *)
Definition pemRound (rest : bytes) : pemAttempt :=
  match Index rest pemEnd with
  | None => PemNone
  | Some e =>
      let trailer := Z.of_nat (e + length pemEnd) in
      match LastIndex (take e rest) pemBegin with
      | None => PemRetry rest trailer
      | Some b =>
          if (0 <? b) && negb (bool_decide (rest !! (b - 1) = Some newline)) then PemRetry rest trailer
          else
            let off := b + length pemBegin in
            let '(typeLine, rest, consumed) := getLine (drop off rest) in
            let e := (Z.of_nat e - Z.of_nat (off + consumed))%Z in
            let trailer := (trailer - Z.of_nat (off + consumed))%Z in
            if negb (HasSuffix typeLine pemEndOfLine) then PemRetry rest trailer
            else pemBody (take (length typeLine - length pemEndOfLine) typeLine) rest e trailer
      end
  end.

Fixpoint pem_Decode_fuel (fuel : nat) (rest : bytes) : option pemBlock :=
  match fuel with
  | O => None
  | S fuel' =>
      match pemRound rest with
      | PemFound b => Some b
      | PemNone => None
      | PemRetry rest skip =>
          if (skip <? 0)%Z || (Z.of_nat (length rest) <? skip)%Z then None
          else pem_Decode_fuel fuel' (drop (Z.to_nat skip) rest)
      end
  end.

(** [pem.Decode], without the remainder; each round drops an END line, so
    that the length of the text bounds them. *)
Definition pem_Decode (data : bytes) : option pemBlock := pem_Decode_fuel (S (length data)) data.

(** ** Lemmas on base64 *)

Definition base64_text (c : byte) : Prop := is_Some (base64_val c) \/ c = "="%byte.

Lemma base64_text_byte c : base64_text c ->
  c <> newline /\ c <> Byte.x0d /\ c <> "-"%byte /\ c <> ":"%byte /\ c <> " "%byte /\ c <> Byte.x09.
Proof. intros [Hc| ->]; [|done]. by destruct c; try (by destruct Hc). Qed.

Definition base64_char_ok (n : N) : bool :=
  match base64_val (base64_char n) with Some m => N.eqb m n | None => false end &&
  negb (bool_decide (base64_char n = "="%byte)).

Lemma base64_val_char n : (n < 64)%N -> base64_val (base64_char n) = Some n /\ base64_char n <> "="%byte.
Proof.
  intros Hn. assert (Hok : base64_char_ok n = true).
  { assert (Hall : forallb base64_char_ok (N.of_nat <$> seq 0 64) = true) by (vm_compute; reflexivity).
    rewrite forallb_forall in Hall. apply Hall. apply list_elem_of_In, list_elem_of_fmap.
    exists (N.to_nat n). split; [lia|]. apply elem_of_seq. lia. }
  unfold base64_char_ok in Hok. apply andb_true_iff in Hok as [H1 H2].
  destruct (base64_val (base64_char n)) as [m|]; [|done]. apply N.eqb_eq in H1 as ->. split; [done|].
  by apply negb_true_iff, bool_decide_eq_false in H2.
Qed.

Lemma byte_of_val b n : n = byte_val b -> byte_of n = b.
Proof. intros ->. unfold byte_of, byte_val. by rewrite Byte.of_to_N. Qed.

(** Induction over groups of three bytes. *)
Lemma bytes_ind3 (P : bytes -> Prop) :
  P [] -> (forall a, P [a]) -> (forall a b, P [a; b]) -> (forall a b c s, P s -> P (a :: b :: c :: s)) ->
  forall s, P s.
Proof.
  intros H0 H1 H2 H3 s. assert (Hs : P s /\ (forall a, P (a :: s)) /\ (forall a b, P (a :: b :: s))); [|by destruct Hs].
  induction s as [|x s (IH0 & IH1 & IH2)]; [auto|]. split_and!; auto.
Qed.

Ltac byte_bounds := repeat match goal with b : byte |- _ =>
    lazymatch goal with _ : (byte_val b < 256)%N |- _ => fail | _ => pose proof (byte_val_bound b) end end.

Ltac divmod_lia := zify; Z.to_euclidean_division_equations; lia.

Lemma base64_digit n : (n < 64)%N -> base64_val (base64_char n) = Some n.
Proof. apply base64_val_char. Qed.

Lemma base64_quanta4 x y z w s : (x < 64 -> y < 64 -> z < 64 -> w < 64 ->
  base64_quanta (base64_char x :: base64_char y :: base64_char z :: base64_char w :: s) =
  rest ← base64_quanta s;
  Some (byte_of (x * 4 + y / 16) :: byte_of (y mod 16 * 16 + z / 4) :: byte_of (z mod 4 * 64 + w) :: rest))%N.
Proof.
  intros Hx Hy Hz Hw. cbn [base64_quanta].
  destruct (base64_val_char x Hx) as [-> _], (base64_val_char y Hy) as [-> _],
    (base64_val_char z Hz) as [-> Hzp], (base64_val_char w Hw) as [-> Hwp].
  by rewrite !bool_decide_eq_false_2.
Qed.

Lemma base64_roundtrip_quanta s : base64_quanta (base64_Encode s) = Some s.
Proof.
  induction s as [|a|a b|a b c s IH] using bytes_ind3; [done|..]; cbn [base64_Encode]; cbv zeta; byte_bounds.
  - cbn [base64_quanta]. rewrite !base64_digit by divmod_lia.
    cbn. do 2 f_equal. apply byte_of_val. divmod_lia.
  - cbn [base64_quanta].
    destruct (base64_val_char ((byte_val a * 256 + byte_val b) * 4 mod 64)%N) as [Hv Hp]; [divmod_lia|].
    rewrite bool_decide_eq_false_2 by done. rewrite Hv.
    rewrite !base64_digit by divmod_lia. cbn.
    do 2 f_equal; [apply byte_of_val; divmod_lia|]. f_equal. apply byte_of_val. divmod_lia.
  - rewrite base64_quanta4 by divmod_lia. rewrite IH. cbn. f_equal.
    f_equal; [apply byte_of_val; divmod_lia|]. f_equal; [apply byte_of_val; divmod_lia|].
    f_equal. apply byte_of_val. divmod_lia.
Qed.

Lemma base64_char_text n : (n < 64)%N -> base64_text (base64_char n).
Proof. intros Hn. left. exists n. by apply base64_digit. Qed.

Lemma base64_Encode_text s : Forall base64_text (base64_Encode s).
Proof.
  induction s as [|a|a b|a b c s IH] using bytes_ind3; [constructor|..]; cbn [base64_Encode]; cbv zeta; byte_bounds;
    repeat (constructor; [first [by right|apply base64_char_text; divmod_lia]|]); done.
Qed.

Lemma base64_Encode_nil s : base64_Encode s = [] -> s = [].
Proof. by destruct s as [|a [|b [|c s]]]. Qed.

(** What is encoded is decoded, also with line breaks in between. *)
Lemma base64_roundtrip s text :
  filter (fun b => b <> Byte.x0d /\ b <> Byte.x0a) text = base64_Encode s -> base64_Decode text = Some s.
Proof. intros Ht. unfold base64_Decode. rewrite Ht. apply base64_roundtrip_quanta. Qed.

(** ** Lemmas on lines *)

Lemma filter_id (P : byte -> Prop) `{!forall b, Decision (P b)} s : Forall P s -> filter P s = s.
Proof. induction 1 as [|c s Hc Hs IH]; [done|]. rewrite filter_cons_True by done. by rewrite IH. Qed.

Lemma breakLines_filter (P : byte -> Prop) `{!forall b, Decision (P b)} fuel s :
  ~ P newline -> Forall P s -> length s <= fuel -> filter P (breakLines fuel s) = s.
Proof.
  intros Hn. revert s. induction fuel as [|fuel IH]; intros s Hs Hl; [by destruct s; [|simpl in Hl; lia]|].
  destruct s as [|a s]; [done|]. cbn [breakLines]. rewrite filter_app, filter_cons_False by done.
  rewrite IH; [|by apply Forall_drop|rewrite length_drop; simpl in *; lia].
  rewrite filter_id by (by apply Forall_take). apply take_drop.
Qed.

Lemma breakLines_Forall (P : byte -> Prop) fuel s : P newline -> Forall P s -> Forall P (breakLines fuel s).
Proof.
  intros Hn. revert s. induction fuel as [|fuel IH]; intros s Hs; [constructor|].
  destruct s as [|a s]; [constructor|]. cbn [breakLines]. apply Forall_app. split; [by apply Forall_take|].
  constructor; [done|]. apply IH. by apply Forall_drop.
Qed.

(** A text that is not empty: its first line, and all of it up to the last
    line break. *)
Lemma breakLines_first s :
  s <> [] -> breakLines (length s) s = take 64 s ++ newline :: breakLines (length s - 1) (drop 64 s).
Proof. intros Hs. destruct s; [done|]. cbn [breakLines length]. by rewrite Nat.sub_1_r. Qed.

Lemma breakLines_last fuel s :
  s <> [] -> length s <= fuel -> exists text, breakLines fuel s = text ++ [newline] /\ text <> [].
Proof.
  revert s. induction fuel as [|fuel IH]; intros s Hs Hl; [destruct s; [done|simpl in Hl; lia]|].
  destruct s as [|a s]; [done|]. cbn [breakLines].
  destruct (decide (drop 64 (a :: s) = [])) as [->|Hd].
  - exists (take 64 (a :: s)). split; [|done]. by destruct fuel.
  - destruct (IH _ Hd) as (text & -> & Ht); [rewrite length_drop; simpl in *; lia|].
    exists (take 64 (a :: s) ++ newline :: text). split; [by rewrite <- app_assoc|done].
Qed.

Lemma getLine_app line c rest :
  newline ∉ line ++ [c] -> c ∉ [" "%byte; Byte.x09; Byte.x0d] ->
  getLine ((line ++ [c]) ++ newline :: rest) = (line ++ [c], rest, S (length (line ++ [c]))).
Proof.
  intros Hn Hc. unfold getLine.
  assert (Hi : IndexByte ((line ++ [c]) ++ newline :: rest) newline = Some (S (length line))).
  { clear Hc. induction line as [|b line IH]; cbn in *.
    - rewrite decide_False by set_solver. by rewrite decide_True.
    - rewrite decide_False by set_solver. rewrite IH by set_solver. done. }
  rewrite Hi, bool_decide_eq_false_2.
  2:{ rewrite <- app_assoc; cbn [app]; rewrite list_lookup_middle by done. intros [= ->]. set_solver. }
  rewrite length_app. cbn [length]. rewrite Nat.add_1_r.
  rewrite take_app_length' by (rewrite length_app; simpl; lia).
  rewrite drop_app_ge by (rewrite length_app; simpl; lia).
  rewrite length_app. cbn [length]. replace (S (S (length line)) - (length line + 1)) with 1 by lia.
  unfold TrimRight. rewrite rev_app_distr. cbn [rev app TrimLeft]. rewrite decide_False by set_solver.
  cbn [rev]. by rewrite rev_involutive.
Qed.

(** ** Lemmas on searches *)

Lemma Index_first a sub b :
  (forall j, j < length a -> HasPrefix (drop j (a ++ sub ++ b)) sub = false) -> Index (a ++ sub ++ b) sub = Some (length a).
Proof.
  induction a as [|x a IH]; intros Hj.
  - cbn [app length]. pose proof (HasPrefix_app sub b) as Hp. destruct (sub ++ b); cbn [Index]; by rewrite Hp.
  - cbn [app Index]. pose proof (Hj 0 ltac:(simpl; lia)) as H0. cbn [drop app] in H0. rewrite H0.
    rewrite IH; [done|]. intros j Hlt. apply (Hj (S j)). simpl. lia.
Qed.

Lemma LastIndex_notin s c sub : c ∉ s -> LastIndex s (c :: sub) = None.
Proof.
  induction s as [|b s IH]; [done|]. intros Hn. cbn [LastIndex HasPrefix]. rewrite IH by set_solver.
  by rewrite bool_decide_eq_false_2 by set_solver.
Qed.

Lemma Cut_notin s c : c ∉ s -> Cut s [c] = None.
Proof.
  intros Hn. unfold Cut. destruct (Index s [c]) as [i|] eqn:E; [|done].
  apply Index_Some in E as (_ & Hs & _). exfalso. apply Hn. rewrite Hs. set_solver.
Qed.

(** ** Round trip *)

(** The types of block the code writes. *)
Definition writtenType (ty : bytes) : Prop := ty = str "CERTIFICATE" \/ ty = str "EC PRIVATE KEY".

(** The END line is found behind the text, and the BEGIN line in front of it. *)
Lemma pem_end ty text rest :
  writtenType ty -> Forall (fun c => c <> "-"%byte) text ->
  Index ((pemBegin ++ ty ++ pemEndOfLine ++ newline :: text) ++ pemEnd ++ rest) pemEnd =
  Some (length (pemBegin ++ ty ++ pemEndOfLine ++ newline :: text)).
Proof.
  intros Hty Ht. apply Index_first. intros j Hj.
  assert (Hh : forall h, newline ∉ h -> j < length (h ++ newline :: text) ->
    HasPrefix (drop j ((h ++ newline :: text) ++ pemEnd ++ rest)) pemEnd = false).
  { clear Hj. intros h Hn Hj. apply not_true_is_false. intros [t Hp]%HasPrefix_spec.
    assert (H0 : ((h ++ newline :: text) ++ pemEnd ++ rest) !! j = Some newline).
    { by rewrite <- (Nat.add_0_r j), <- lookup_drop, Hp. }
    assert (H1 : ((h ++ newline :: text) ++ pemEnd ++ rest) !! S j = Some "-"%byte).
    { by rewrite <- (Nat.add_1_r j), <- lookup_drop, Hp. }
    rewrite lookup_app_l in H0 by done. destruct (decide (j < length h)) as [Hlt|Hge].
    { rewrite lookup_app_l in H0 by done. by apply list_elem_of_lookup_2 in H0. }
    destruct (decide (S j < length (h ++ newline :: text))) as [Hlt|He].
    - rewrite lookup_app_l, lookup_app_r in H1 by lia.
      replace (S j - length h) with (S (j - length h)) in H1 by lia. cbn [lookup list_lookup] in H1.
      by apply (Forall_lookup_1 _ _ _ _ Ht) in H1.
    - rewrite lookup_app_r in H1 by lia. replace (S j - length (h ++ newline :: text)) with 0 in H1 by lia. done. }
  specialize (Hh (pemBegin ++ ty ++ pemEndOfLine)). rewrite <- !app_assoc in Hh. rewrite <- !app_assoc.
  apply Hh; [by destruct Hty as [-> | ->]; apply (bool_decide_eq_true_1 _); vm_compute|done].
Qed.

Lemma pem_begin ty text :
  writtenType ty -> Forall (fun c => c <> "-"%byte) text ->
  LastIndex (pemBegin ++ ty ++ pemEndOfLine ++ newline :: text) pemBegin = Some 0.
Proof.
  intros Hty Ht. assert (Hl : LastIndex text pemBegin = None).
  { apply (LastIndex_notin _ "-"%byte). intros Hi. rewrite Forall_forall in Ht. by apply Ht in Hi. }
  unfold pemBegin at 1. remember pemBegin as p eqn:Hp. destruct Hty as [-> | ->]; cbn; rewrite Hl, Hp; reflexivity.
Qed.

Lemma pemHeaders_none fuel line c rest :
  newline ∉ line ++ [c] -> Forall base64_text (line ++ [c]) ->
  pemHeaders (S fuel) ((line ++ [c]) ++ newline :: rest) 0 = Some ((line ++ [c]) ++ newline :: rest, 0).
Proof.
  intros Hn Hb. cbn [pemHeaders].
  destruct (bytes_eqb _ []) eqn:E; [by apply bytes_eqb_eq, app_nil in E as [_ ?]|]. clear E.
  assert (Hin : forall b, b ∈ line ++ [c] -> b <> ":"%byte /\ b <> " "%byte /\ b <> Byte.x09 /\ b <> Byte.x0d).
  { intros b Hi. rewrite Forall_forall in Hb. by apply Hb, base64_text_byte in Hi as (_ & ? & _ & ? & ? & ?). }
  rewrite getLine_app; [|done|].
  - rewrite (Cut_notin _ ":"%byte); [done|]. by intros []%Hin.
  - destruct (Hin c) as (_ & ? & ? & ?); set_solver.
Qed.

(** The text behind the BEGIN line that [EncodeToMemory] writes. *)
Lemma pemBody_encoded ty line c lines text data :
  writtenType ty -> text ++ [newline] = (line ++ [c]) ++ newline :: lines ->
  Forall (fun b => base64_text b \/ b = newline) text -> newline ∉ line ++ [c] -> Forall base64_text (line ++ [c]) ->
  base64_Decode text = Some data ->
  pemBody ty (text ++ pemEnd ++ ty ++ pemEndOfLine ++ [newline]) (Z.of_nat (length text))
    (Z.of_nat (length text + length pemEnd)) = PemFound (MkPemBlock ty data).
Proof.
  intros Hty Htext Hall Hn Hb Hdata. unfold pemBody.
  assert (Hpos : 0 < length text).
  { apply (f_equal length) in Htext. rewrite !length_app in Htext. simpl in Htext. lia. }
  assert (Hr : exists rest, text ++ pemEnd ++ ty ++ pemEndOfLine ++ [newline] = (line ++ [c]) ++ newline :: rest).
  { exists (lines ++ drop 1 pemEnd ++ ty ++ pemEndOfLine ++ [newline]).
    transitivity ((text ++ [newline]) ++ drop 1 pemEnd ++ ty ++ pemEndOfLine ++ [newline]).
    - by rewrite <- app_assoc.
    - rewrite Htext. by rewrite <- !app_assoc. }
  destruct Hr as [rest Hr]. rewrite Hr at 2. rewrite pemHeaders_none by done. rewrite <- Hr.
  cbv zeta. cbn [Nat.ltb Nat.leb andb]. rewrite !Z.sub_0_r, !Nat2Z.id.
  rewrite take_app_length, app_assoc, drop_app_length' by (by rewrite length_app).
  rewrite (proj2 (Z.leb_gt _ _)) by lia. rewrite filter_id.
  - rewrite Hdata. by destruct Hty as [-> | ->].
  - eapply Forall_impl; [exact Hall|]. intros b [Hx| ->]; [|done]. by apply base64_text_byte in Hx as (_ & _ & _ & _ & ? & ?).
Qed.

Lemma pemRound_encoded ty text b :
  writtenType ty -> Forall (fun c => c <> "-"%byte) text ->
  pemBody ty (text ++ pemEnd ++ ty ++ pemEndOfLine ++ [newline]) (Z.of_nat (length text))
    (Z.of_nat (length text + length pemEnd)) = PemFound b ->
  pemRound ((pemBegin ++ ty ++ pemEndOfLine ++ newline :: text) ++ pemEnd ++ ty ++ pemEndOfLine ++ [newline]) = PemFound b.
Proof.
  intros Hty Hdash Hbody. unfold pemRound. rewrite pem_end by done. rewrite take_app_length, pem_begin by done.
  cbn [Nat.ltb Nat.leb andb]. rewrite <- !app_assoc, drop_app_length' by done.
  set (rest := text ++ pemEnd ++ ty ++ pemEndOfLine ++ [newline]) in *.
  assert (Hl : getLine (ty ++ pemEndOfLine ++ newline :: rest) = (ty ++ pemEndOfLine, rest, S (length (ty ++ pemEndOfLine)))).
  { rewrite app_assoc. pose proof (getLine_app (ty ++ str "----") "-"%byte rest) as Hg. rewrite <- !app_assoc in Hg.
    rewrite <- app_assoc. apply Hg; [|set_solver]. by destruct Hty as [-> | ->]; apply (bool_decide_eq_true_1 _); vm_compute. }
  change ((newline :: text) ++ pemEnd ++ ty ++ pemEndOfLine ++ [newline]) with (newline :: rest). rewrite Hl.
  match goal with |- (if negb (HasSuffix ?a ?b) then _ else _) = _ => replace (HasSuffix a b) with true by (by destruct Hty as [-> | ->]) end.
  cbn [negb]. rewrite length_app, Nat.add_sub, take_app_length. rewrite <- Hbody. f_equal; rewrite !length_app; cbn [length]; lia.
Qed.

(** A written block is read back. *)
Lemma pem_roundtrip ty data :
  writtenType ty -> data <> [] -> pem_Decode (EncodeToMemory (MkPemBlock ty data)) = Some (MkPemBlock ty data).
Proof.
  intros Hty Hdata. unfold pem_Decode, EncodeToMemory. cbn [pb_Bytes pb_Type].
  pose proof (base64_Encode_text data) as Htext. set (enc := base64_Encode data) in *.
  assert (Henc : enc <> []) by (by intros ?%base64_Encode_nil).
  destruct (breakLines_last (length enc) enc Henc) as (text & Hbl & Hne); [lia|].
  assert (Hall : Forall (fun b => base64_text b \/ b = newline) text).
  { assert (Hb : Forall (fun b => base64_text b \/ b = newline) (text ++ [newline])).
    { rewrite <- Hbl. apply breakLines_Forall; [by right|]. eapply Forall_impl; [exact Htext|]. by left. }
    by apply Forall_app in Hb as [? _]. }
  assert (Hdec : base64_Decode text = Some data).
  { apply base64_roundtrip. fold enc. rewrite <- (breakLines_filter (fun b => b <> Byte.x0d /\ b <> Byte.x0a) (length enc) enc);
      [|by intros [_ []]| |lia].
    - by rewrite Hbl, filter_app, app_nil_r.
    - eapply Forall_impl; [exact Htext|]. intros b (? & ? & _)%base64_text_byte. done. }
  pose proof (breakLines_first enc Henc) as Hfirst. rewrite Hbl in Hfirst.
  destruct (exists_last (l := take 64 enc)) as (line & c & Hline); [by destruct enc|]. rewrite Hline in Hfirst.
  assert (Hb : Forall base64_text (line ++ [c])) by (rewrite <- Hline; by apply Forall_take).
  rewrite Hbl. cbn [pem_Decode_fuel].
  match goal with |- match pemRound ?x with _ => _ end = _ =>
    replace x with ((pemBegin ++ ty ++ pemEndOfLine ++ newline :: text) ++ pemEnd ++ ty ++ pemEndOfLine ++ [newline])
      by (rewrite <- !app_assoc; cbn [app]; done) end.
  rewrite (pemRound_encoded ty text (MkPemBlock ty data)); [done|done| |].
  - eapply Forall_impl; [exact Hall|]. intros b [(_ & _ & ? & _)%base64_text_byte| ->]; done.
  - apply (pemBody_encoded ty line c (breakLines (length enc - 1) (drop 64 enc))); [done|done|done| |done|done].
    intros Hi. rewrite Forall_forall in Hb. by apply Hb, base64_text_byte in Hi as [? _].
Qed.
