(* ===== verification/GoJson.v ===== *)
(** [encoding/json.Valid]: whether a text is a JSON value. *)

From stdpp Require Import base list.
From S2P Require Import Prelude GoStrings GoConv.
Set Default Goal Selector "!".

Fixpoint skipSpace (s : bytes) : bytes :=
  match s with
  | (Byte.x20 | Byte.x09 | Byte.x0d | Byte.x0a) :: s' => skipSpace s'
  | _ => s
  end.

Definition isHexDigit (c : byte) : bool := bool_decide (is_Some (hexVal c)).

(** The bytes after a backslash, other than [u]. *)
Definition escapes : bytes := [Byte.x22; Byte.x5c] ++ str "/bfnrt".

(** The rest of a string after its opening quote. *)
Fixpoint skipString (s : bytes) : option bytes :=
  match s with
  | [] => None
  | Byte.x22 :: s' => Some s'
  | Byte.x5c :: s' =>
      match s' with
      | Byte.x75 :: a :: b :: c :: d :: s2 => if forallb isHexDigit [a; b; c; d] then skipString s2 else None
      | c :: s2 => if bool_decide (c ∈ escapes) then skipString s2 else None
      | [] => None
      end
  | c :: s' => if N.leb 32 (byte_val c) then skipString s' else None
  end.

Fixpoint skipDigits (s : bytes) : bytes :=
  match s with c :: s' => if isDigit c then skipDigits s' else s | [] => [] end.

(** At least one digit. *)
Definition skipDigits1 (s : bytes) : option bytes :=
  match s with c :: s' => if isDigit c then Some (skipDigits s') else None | [] => None end.

Definition skipNumber (s : bytes) : option bytes :=
  let s := match s with Byte.x2d :: s' => s' | _ => s end in
  s ← match s with Byte.x30 :: s' => Some s' | _ => skipDigits1 s end;
  s ← match s with Byte.x2e :: s' => skipDigits1 s' | _ => Some s end;
  match s with
  | (Byte.x65 | Byte.x45) :: (Byte.x2b | Byte.x2d) :: s' => skipDigits1 s'
  | (Byte.x65 | Byte.x45) :: s' => skipDigits1 s'
  | _ => Some s
  end.

(** A value; members of an object; elements of an array; [depth] is the
    nesting that is left. *)
Fixpoint skipValue (fuel depth : nat) (s : bytes) : option bytes :=
  match fuel with
  | O => None
  | S fuel' =>
      let elements := fix elements (n : nat) (s : bytes) : option bytes :=
        match n with
        | O => None
        | S n' =>
            s ← skipValue fuel' (pred depth) s;
            match skipSpace s with
            | Byte.x2c :: s' => elements n' s'
            | Byte.x5d :: s' => Some s'
            | _ => None
            end
        end in
      let members := fix members (n : nat) (s : bytes) : option bytes :=
        match n with
        | O => None
        | S n' =>
            s ← match skipSpace s with Byte.x22 :: s' => skipString s' | _ => None end;
            s ← match skipSpace s with Byte.x3a :: s' => skipValue fuel' (pred depth) s' | _ => None end;
            match skipSpace s with
            | Byte.x2c :: s' => members n' s'
            | Byte.x7d :: s' => Some s'
            | _ => None
            end
        end in
      match skipSpace s with
      | Byte.x7b :: s' =>
          if depth =? 0 then None
          else match skipSpace s' with Byte.x7d :: r => Some r | _ => members (length s) s' end
      | Byte.x5b :: s' =>
          if depth =? 0 then None
          else match skipSpace s' with Byte.x5d :: r => Some r | _ => elements (length s) s' end
      | Byte.x22 :: s' => skipString s'
      | Byte.x74 :: s' => if HasPrefix s' (str "rue") then Some (drop 3 s') else None
      | Byte.x66 :: s' => if HasPrefix s' (str "alse") then Some (drop 4 s') else None
      | Byte.x6e :: s' => if HasPrefix s' (str "ull") then Some (drop 3 s') else None
      | s' => skipNumber s'
      end
  end.

(** Every level of nesting takes a byte: the length is enough fuel.  The
    decoder refuses a nesting of more than 10000 levels. *)
Definition json_Valid (s : bytes) : bool :=
  match skipValue (S (length s)) (Nat.mul 100 100) s with
  | Some r => bytes_eqb (skipSpace r) []
  | None => false
  end.
