(* ===== verification/GoRegexp.v ===== *)
(** * Package regexp

    The regular expression engine of Go is an interface of the model: the
    operations the proxy calls, and the documented facts about match
    locations that its length-preserving substitution relies on. *)

From S2P Require Import Prelude GoStrings.

(** A compiled expression with the operations the proxy calls.
    [regexp_FindAllSubmatchIndex] gives the successive non-overlapping
    matches; a location starts with the bounds of the whole match. *)
Class Regexp : Type := {
  regexp : Type;
  regexp_Compile : bytes -> result bytes regexp;
  regexp_MatchString : regexp -> bytes -> bool;
  regexp_String : regexp -> bytes;
  regexp_ReplaceAllString : regexp -> bytes -> bytes -> bytes;
  regexp_FindAllSubmatchIndex : regexp -> bytes -> list (nat * nat * list Z);
  regexp_Expand : regexp -> bytes -> bytes -> nat * nat * list Z -> bytes;
}.

(** [b] is in increasing order of position, without overlap, within [n]. *)
Fixpoint locations_ok (from n : nat) (locs : list (nat * nat * list Z)) : Prop :=
  match locs with
  | [] => True
  | (s, e, _) :: locs' => from <= s <= e /\ e <= n /\ locations_ok e n locs'
  end.

(** Documented behaviour: "successive matches", "non-overlapping". *)
Class RegexpLaws `{Regexp} : Prop := {
  FindAll_locations : forall rx s, locations_ok 0 (length s) (regexp_FindAllSubmatchIndex rx s);
}.

(** ** An instance: expressions that are literals *)

Fixpoint literal_find (fuel pos : nat) (s lit : bytes) : list (nat * nat * list Z) :=
  match fuel with
  | O => []
  | S fuel' =>
      match Index s lit with
      | None => []
      | Some i =>
          (pos + i, pos + i + length lit, [])
          :: literal_find fuel' (pos + i + length lit) (drop (i + length lit) s) lit
      end
  end.

Fixpoint literal_replace (fuel : nat) (s lit new : bytes) : bytes :=
  match fuel with
  | O => s
  | S fuel' =>
      match Index s lit with
      | None => s
      | Some i => take i s ++ new ++ literal_replace fuel' (drop (i + length lit) s) lit new
      end
  end.

(** The empty expression is refused, so that every match is non-empty. *)
Definition literal_regexp : Regexp := {|
  regexp := bytes;
  regexp_Compile p := if decide (p = []) then Err [] else Ok p;
  regexp_MatchString rx s := Contains s rx;
  regexp_String rx := rx;
  regexp_ReplaceAllString rx s new := literal_replace (length s) s rx new;
  regexp_FindAllSubmatchIndex rx s := literal_find (length s) 0 s rx;
  regexp_Expand rx new s loc := new;
|}.

Lemma literal_find_ok fuel pos s lit :
  locations_ok pos (pos + length s) (literal_find fuel pos s lit).
Proof.
  revert pos s. induction fuel as [|fuel IH]; intros pos s; simpl; [done|].
  destruct (Index s lit) as [i|] eqn:E; simpl; [|done].
  apply Index_Some in E as (Hlen & _ & _). split_and!; [lia..|].
  specialize (IH (pos + i + length lit) (drop (i + length lit) s)).
  rewrite length_drop in IH.
  replace (pos + i + length lit + (length s - (i + length lit))) with (pos + length s) in IH by lia.
  done.
Qed.

Lemma literal_regexp_laws : @RegexpLaws literal_regexp.
Proof. constructor. intros rx s. apply (literal_find_ok _ 0). Qed.
