(* ===== verification/GoUrl.v ===== *)
(** * Package net/url

    [url.Parse], [EscapedPath], [RequestURI] and [PathUnescape] as functions
    on byte strings.  A failed call is [None]: the proxy never looks at the
    error value. *)

From S2P Require Import Prelude GoStrings.

Record URL := MkURL {
  u_Scheme : bytes;
  u_Opaque : bytes;
  u_Host : bytes;
  u_Path : bytes;
  u_RawPath : bytes;
  u_ForceQuery : bool;
  u_RawQuery : bytes;
}.

(** The escaping modes the model needs. *)
Inductive encoding := encodePath | encodePathSegment | encodeHost | encodeZone | encodeUserPassword | encodeFragment.

Definition between (lo hi : N) (c : byte) : bool := N.leb lo (byte_val c) && N.leb (byte_val c) hi.
Definition isDigit (c : byte) : bool := between 48 57 c.
Definition isLetter (c : byte) : bool := between 97 122 c || between 65 90 c.

Definition ishex (c : byte) : bool := isDigit c || between 97 102 c || between 65 70 c.

Definition unhex (c : byte) : N :=
  if isDigit c then byte_val c - 48
  else if between 97 102 c then byte_val c - 87
  else byte_val c - 55.

Definition oneOf (c : byte) (s : bytes) : bool := bool_decide (c ∈ s).

Definition shouldEscape (c : byte) (mode : encoding) : bool :=
  if isLetter c || isDigit c then false
  else if match mode with encodeHost | encodeZone => true | _ => false end
          && (oneOf c (str "!$&'()*+,;=:[]<>") || bool_decide (c = Byte.x22)) then false
  else if oneOf c (str "-_.~") then false
  else if oneOf c (str "$&+,/:;=?@") then
    match mode with
    | encodePath => bool_decide (c = "?"%byte)
    | encodePathSegment => oneOf c (str "/;,?")
    | encodeUserPassword => oneOf c (str "@/?:")
    | encodeFragment => false
    | encodeHost | encodeZone => true
    end
  else match mode with
       | encodeFragment => negb (oneOf c (str "!()*"))
       | _ => true
       end.

Definition hexByte (a b : byte) : byte := byte_of (16 * unhex a + unhex b).

(** [unescape(s, mode)] for the modes above. *)
Fixpoint unescape (s : bytes) (mode : encoding) : option bytes :=
  match s with
  | [] => Some []
  | c :: s1 =>
      if decide (c = "%"%byte) then
        match s1 with
        | a :: b :: s2 =>
            if ishex a && ishex b then
              let is25 := bool_decide (a = "2"%byte) && bool_decide (b = "5"%byte) in
              let v := hexByte a b in
              let bad :=
                match mode with
                | encodeHost => N.ltb (unhex a) 8 && negb is25
                | encodeZone => negb is25 && negb (bool_decide (v = " "%byte)) && shouldEscape v encodeHost
                | _ => false
                end in
              if bad then None else r ← unescape s2 mode; Some (v :: r)
            else None
        | _ => None
        end
      else
        let bad :=
          match mode with
          | encodeHost | encodeZone => ascii_byte c && shouldEscape c mode
          | _ => false
          end in
        if bad then None else r ← unescape s1 mode; Some (c :: r)
  end.

Definition PathUnescape (s : bytes) : option bytes := unescape s encodePathSegment.

Definition upperhex (n : N) : byte := byte_of (if N.ltb n 10 then n + 48 else n + 55)%N.

Fixpoint escape (s : bytes) (mode : encoding) : bytes :=
  match s with
  | [] => []
  | c :: s' =>
      (if shouldEscape c mode
       then ["%"%byte; upperhex (byte_val c / 16); upperhex (byte_val c mod 16)]
       else [c]) ++ escape s' mode
  end.

Definition validEncoded (s : bytes) (mode : encoding) : bool :=
  forallb (fun c => oneOf c (str "!$&'()*+,;=:@[]%") || negb (shouldEscape c mode)) s.

Definition EscapedPath (u : URL) : bytes :=
  let fallback := if decide (u_Path u = str "*") then str "*" else escape (u_Path u) encodePath in
  if negb (bytes_eqb (u_RawPath u) []) && validEncoded (u_RawPath u) encodePath then
    match unescape (u_RawPath u) encodePath with
    | Some p => if decide (p = u_Path u) then u_RawPath u else fallback
    | None => fallback
    end
  else fallback.

Definition RequestURI (u : URL) : bytes :=
  let result :=
    if decide (u_Opaque u = []) then
      let p := EscapedPath u in if decide (p = []) then str "/" else p
    else if HasPrefix (u_Opaque u) (str "//") then u_Scheme u ++ str ":" ++ u_Opaque u
    else u_Opaque u in
  if u_ForceQuery u || negb (bytes_eqb (u_RawQuery u) [])
  then result ++ str "?" ++ u_RawQuery u else result.

(** ** Parse *)

(** [getScheme]: the scheme and the rest; [None] is "missing protocol
    scheme". *)
Fixpoint getScheme_loop (i : nat) (raw s : bytes) : option (bytes * bytes) :=
  match s with
  | [] => Some ([], raw)
  | c :: s' =>
      if isLetter c then getScheme_loop (S i) raw s'
      else if isDigit c || oneOf c (str "+-.") then
        if i =? 0 then Some ([], raw) else getScheme_loop (S i) raw s'
      else if decide (c = ":"%byte) then
        if i =? 0 then None else Some (take i raw, drop (S i) raw)
      else Some ([], raw)
  end.

Definition getScheme (raw : bytes) : option (bytes * bytes) := getScheme_loop 0 raw raw.

Definition validOptionalPort (port : bytes) : bool :=
  match port with
  | [] => true
  | c :: p => bool_decide (c = ":"%byte) && forallb isDigit p
  end.

Definition parseHost (host : bytes) : option bytes :=
  if HasPrefix host (str "[") then
    match LastIndexByte host "]" with
    | None => None
    | Some i =>
        if negb (validOptionalPort (drop (S i) host)) then None
        else match Index (take i host) (str "%25") with
        | Some zone =>
            h1 ← unescape (take zone host) encodeHost;
            h2 ← unescape (drop zone (take i host)) encodeZone;
            h3 ← unescape (drop i host) encodeHost;
            Some (h1 ++ h2 ++ h3)
        | None => unescape host encodeHost
        end
    end
  else match LastIndexByte host ":" with
  | Some i => if validOptionalPort (drop i host) then unescape host encodeHost else None
  | None => unescape host encodeHost
  end.

Definition validUserinfo (s : bytes) : bool :=
  forallb (fun c => isLetter c || isDigit c || oneOf c (str "-._:~!$&'()*+,;=%@")) s.

Definition parseAuthority (authority : bytes) : option bytes :=
  match LastIndexByte authority "@" with
  | None => parseHost authority
  | Some i =>
      host ← parseHost (drop (S i) authority);
      let userinfo := take i authority in
      if validUserinfo userinfo then
        match Cut userinfo (str ":") with
        | None => _ ← unescape userinfo encodeUserPassword; Some host
        | Some (user, pass) =>
            _ ← unescape user encodeUserPassword;
            _ ← unescape pass encodeUserPassword; Some host
        end
      else None
  end.

Definition ctlByte (c : byte) : bool := N.ltb (byte_val c) 32 || bool_decide (c = Byte.x7f).

Definition setPath (u : URL) (p : bytes) : option URL :=
  path ← unescape p encodePath;
  Some (MkURL (u_Scheme u) (u_Opaque u) (u_Host u) path
          (if decide (p = escape path encodePath) then [] else p)
          (u_ForceQuery u) (u_RawQuery u)).

Definition count_byte (s : bytes) (c : byte) : nat := length (filter (fun b => b = c) s).

Definition parse (raw : bytes) : option URL :=
  if existsb ctlByte raw then None
  else if decide (raw = str "*") then Some (MkURL [] [] [] (str "*") [] false [])
  else
    '(scheme, rest) ← getScheme raw;
    let scheme := map lowerASCII scheme in
    let '(rest, force, query) :=
      if HasSuffix rest (str "?") && (count_byte rest "?" =? 1)
      then (take (length rest - 1) rest, true, [])
      else match Cut rest (str "?") with
           | Some (r, q) => (r, false, q)
           | None => (rest, false, [])
           end in
    if negb (HasPrefix rest (str "/")) && negb (bytes_eqb scheme [])
    then Some (MkURL scheme rest [] [] [] force query)
    else if negb (HasPrefix rest (str "/")) && Contains (before_byte rest "/") (str ":")
    then None
    else if (negb (bytes_eqb scheme []) || negb (HasPrefix rest (str "///"))) && HasPrefix rest (str "//") then
      let authority := drop 2 rest in
      let '(authority, rest) :=
        match IndexByte authority "/" with
        | Some i => (take i authority, drop i authority)
        | None => (authority, [])
        end in
      host ← parseAuthority authority;
      setPath (MkURL scheme [] host [] [] force query) rest
    else setPath (MkURL scheme [] [] [] [] force query) rest.

(** [url.Parse]; the fragment is only checked. *)
Definition Parse (raw : bytes) : option URL :=
  match Cut raw (str "#") with
  | None => parse raw
  | Some (u, frag) =>
      url ← parse u;
      if decide (frag = []) then Some url
      else _ ← unescape frag encodeFragment; Some url
  end.
