(* ===== verification/GoPath.v ===== *)
(** * Package path/filepath and the files it names

    Lexical path functions on slash-separated names, a file system as a finite
    map from absolute clean names, without links, and the lines a
    [bufio.Scanner] reads from a file. *)

From S2P Require Import Prelude GoStrings.

Definition IsAbs (p : bytes) : bool := HasPrefix p (str "/").

(** One element of the path in [Clean]; [out] has the elements kept so far,
    last first. *)
Definition clean_elem (rooted : bool) (out : list bytes) (e : bytes) : list bytes :=
  if bytes_eqb e [] || bytes_eqb e (str ".") then out
  else if bytes_eqb e (str "..") then
    match out with
    | o :: out' => if bytes_eqb o (str "..") then e :: out else out'
    | [] => if rooted then [] else [e]
    end
  else e :: out.

Fixpoint join_slash (l : list bytes) : bytes :=
  match l with
  | [] => []
  | [e] => e
  | e :: l' => e ++ str "/" ++ join_slash l'
  end.

Definition Clean (p : bytes) : bytes :=
  let rooted := IsAbs p in
  let elems := rev (fold_left (clean_elem rooted) (SplitByte p "/"%byte) []) in
  if rooted then str "/" ++ join_slash elems
  else match elems with [] => str "." | _ => join_slash elems end.

(** [Join] of two elements. *)
Definition Join (a b : bytes) : bytes :=
  if bytes_eqb a [] then (if bytes_eqb b [] then [] else Clean b) else Clean (a ++ str "/" ++ b).

Definition Dir (p : bytes) : bytes :=
  Clean (match LastIndexByte p "/"%byte with Some i => take (S i) p | None => [] end).

(** ** Files *)

(** A regular file, or a directory with its entries: their name and whether
    they are directories themselves. *)
Inductive fileNode := RegularFile (content : bytes) | Directory (names : list (bytes * bool)).

Record fileSystem := MkFileSystem { cwd : bytes; nodes : gmap bytes fileNode }.

Definition Abs (fs : fileSystem) (p : bytes) : bytes := if IsAbs p then Clean p else Join (cwd fs) p.

(** [os.Stat] and [os.Open]. *)
Definition Stat (fs : fileSystem) (p : bytes) : option fileNode := nodes fs !! Abs fs p.

(** ** Lines

    A [bufio.Scanner] with a buffer of [max] bytes: a line of [max] bytes or
    more stops it with an error. *)

Definition dropCR (l : bytes) : bytes := TrimSuffix l [Byte.x0d].

Fixpoint scan_tokens (max : Z) (ls : list bytes) : list bytes * bool :=
  match ls with
  | [] => ([], false)
  | l :: ls' =>
      if (max <=? Z.of_nat (length l))%Z then ([], true)
      else let '(ts, tooLong) := scan_tokens max ls' in (dropCR l :: ts, tooLong)
  end.

(** The pieces between line feeds; the last one is no line when it is empty. *)
Definition raw_lines (content : bytes) : list bytes :=
  let ls := SplitByte content Byte.x0a in
  match last ls with Some [] => take (length ls - 1) ls | _ => ls end.

Definition ScanLines (max : Z) (content : bytes) : list bytes * bool := scan_tokens max (raw_lines content).
