(* ===== verification/ListLoader.v ===== *)
(** * List files (list_loader.go)

    The text lists of the configuration: one entry per line, comments, and
    [.Include<path>] directives followed with cycle detection; and the merge of
    the lists with the entries of the configuration itself. *)

From S2P Require Import Prelude GoStrings GoPath.

Record listLine := MkLine { ln_Path : bytes; ln_Line : nat; ln_Text : bytes }.

Record SemanticPhraseConfig := MkSemanticPhrase { sp_Phrase : bytes; sp_Weight : Z }.
Record SubstitutionConfig := MkSubstitution { su_Search : bytes; su_Replace : bytes }.
Record RegexSubstitutionConfig := MkRegexSubstitution {
  rs_Pattern : bytes;
  rs_Replace : bytes;
  rs_MaxWindowBytes : Z;
  rs_Source : bytes;
}.

Inductive listError :=
| ErrStat (path : bytes)
| ErrCycle (abs : bytes)
| ErrOpen (path : bytes)
| ErrEmptyInclude (path : bytes) (line : nat)
| ErrScan (path : bytes)
| ErrAt (path : bytes) (line : nat) (e : listError)
| ErrWeightedSyntax (line : bytes)
| ErrWeight (text : bytes)
| ErrWeightPositive (w : Z)
| ErrNoArrow (line : bytes)
| ErrEmptySearch
| ErrConflict (phrase : bytes) (w1 w2 : Z)
| ErrDuplicate (key : bytes).

(** ** Lines *)

Definition stripComment (line : bytes) : bytes :=
  match Index line (str "#") with Some i => take i line | None => line end.

Definition parseIncludeLine (line : bytes) : option bytes :=
  let prefix := str ".Include<" in
  if negb (HasPrefix line prefix) then None
  else if negb (HasSuffix line (str ">")) then None
  else Some (TrimSpace (take (length line - 1 - length prefix) (drop (length prefix) line))).

(** A line of a file is nothing, a directive or an entry. *)
Inductive lineKind := Blank | Include (path : bytes) | Entry (text : bytes).

Definition classify (raw : bytes) : lineKind :=
  let stripped := TrimSpace (stripComment raw) in
  if bytes_eqb stripped [] then Blank
  else match parseIncludeLine stripped with
       | Some inc => Include inc
       | None => Entry stripped
       end.

Definition includePath (path inc : bytes) : bytes := if IsAbs inc then inc else Join (Dir path) inc.

Definition maxLine : Z := 1024 * 1024.

Section files.
Context (fs : fileSystem).

(** The loop over the lines of [path]; [load] reads an included file. *)
Fixpoint scan_loop (load : bytes -> option (result listError (list listLine))) (path : bytes) (lineNo : nat)
    (lines : list bytes) : option (result listError (list listLine)) :=
  match lines with
  | [] => Some (Ok [])
  | raw :: lines' =>
      match classify raw with
      | Blank => scan_loop load path (S lineNo) lines'
      | Include inc =>
          if bytes_eqb inc [] then Some (Err (ErrEmptyInclude path (S lineNo)))
          else match load (includePath path inc) with
               | Some (Ok nested) =>
                   match scan_loop load path (S lineNo) lines' with
                   | Some (Ok out) => Some (Ok (nested ++ out))
                   | r => r
                   end
               | r => r
               end
      | Entry text =>
          match scan_loop load path (S lineNo) lines' with
          | Some (Ok out) => Some (Ok (MkLine path (S lineNo) text :: out))
          | r => r
          end
      end
  end.

(** [stack] has the files being read; [None] is a lack of fuel. *)
Fixpoint loadPlainListFile (fuel : nat) (path : bytes) (stack : list bytes)
  : option (result listError (list listLine)) :=
  match fuel with
  | O => None
  | S fuel' =>
      let abs := Abs fs path in
      if bool_decide (abs ∈ stack) then Some (Err (ErrCycle abs))
      else match Stat fs path with
           | None => Some (Err (ErrOpen path))
           | Some (Directory _) => Some (Err (ErrScan path))
           | Some (RegularFile content) =>
               let '(lines, tooLong) := ScanLines maxLine content in
               match scan_loop (fun p => loadPlainListFile fuel' p (abs :: stack)) path 0 lines with
               | Some (Ok out) => if tooLong then Some (Err (ErrScan path)) else Some (Ok out)
               | r => r
               end
           end
  end.

(** A file cannot be below itself in the stack, so that the number of files
    bounds the depth. *)
Definition list_fuel : nat := S (size (nodes fs)).

(** [loadPlainListFile(path, map[string]bool{})]. *)
Definition loadListFile (path : bytes) : result listError (list listLine) :=
  match loadPlainListFile list_fuel path [] with Some r => r | None => Err (ErrScan path) end.

(** [sort.Slice] by name. *)
Definition name_le (a b : bytes * bool) : Prop := bytes_ltb b.1 a.1 = false.

#[global] Instance name_le_dec a b : Decision (name_le a b).
Proof. unfold name_le. apply _. Defined.

Definition expandOne (configDir p : bytes) : result listError (list bytes) :=
  let resolved := if IsAbs p then p else Join configDir p in
  match Stat fs resolved with
  | None => Err (ErrStat resolved)
  | Some (RegularFile _) => Ok [resolved]
  | Some (Directory names) =>
      Ok (map (fun e => Join resolved e.1) (filter (fun e => e.2 = false) (merge_sort name_le names)))
  end.

Definition expandListPaths (configDir : bytes) (paths : list bytes) : result listError (list bytes) :=
  foldM (fun out p => more ← expandOne configDir p; Ok (out ++ more)) paths [].

(** The entries of every file, each one parsed by [f]. *)
Definition loadFiles {A} (f : listLine -> result listError A) (configDir : bytes) (paths : list bytes)
  : result listError (list A) :=
  files ← expandListPaths configDir paths;
  foldM (fun out file =>
    lines ← loadListFile file;
    foldM (fun out ln => a ← f ln; Ok (out ++ [a])) lines out) files [].

(** ** Entries *)

Definition at_line {A} (ln : listLine) (r : result listError A) : result listError A :=
  match r with Ok a => Ok a | Err e => Err (ErrAt (ln_Path ln) (ln_Line ln) e) end.

Definition parseWeightedLine (line : bytes) : result listError (bytes * Z) :=
  if negb (HasPrefix line (str "<")) then Err (ErrWeightedSyntax line)
  else match Index line (str ">") with
       | None | Some 0 | Some 1 => Err (ErrWeightedSyntax line)
       | Some stop =>
           let phrase := take (stop - 1) (drop 1 line) in
           let rest := TrimSpace (drop (S stop) line) in
           if negb (HasPrefix rest (str "<")) || negb (HasSuffix rest (str ">")) || (length rest <? 3)
           then Err (ErrWeightedSyntax line)
           else
             let weightStr := take (length rest - 2) (drop 1 rest) in
             match Atoi (TrimSpace weightStr) with
             | None => Err (ErrWeight weightStr)
             | Some weight =>
                 if Z.leb weight 0 then Err (ErrWeightPositive weight) else Ok (phrase, weight)
             end
       end.

Definition parseSubstitutionLine (line : bytes) : result listError (bytes * bytes) :=
  match Index line (str "=>") with
  | None => Err (ErrNoArrow line)
  | Some idx =>
      let search := TrimSpace (take idx line) in
      let replace := TrimSpace (drop (idx + 2) line) in
      if bytes_eqb search [] then Err ErrEmptySearch else Ok (search, replace)
  end.

(** [fmt.Sprintf("%s:%d", ln.Path, ln.Line)]. *)
Definition lineSource (ln : listLine) : bytes := ln_Path ln ++ str ":" ++ Itoa (Z.of_nat (ln_Line ln)).

Definition loadTextListFiles (configDir : bytes) (paths : list bytes) : result listError (list bytes) :=
  loadFiles (fun ln => Ok (ln_Text ln)) configDir paths.

Definition loadWeightedPhraseFiles (configDir : bytes) (paths : list bytes) : result listError (list SemanticPhraseConfig) :=
  loadFiles (fun ln => '(phrase, weight) ← at_line ln (parseWeightedLine (ln_Text ln)); Ok (MkSemanticPhrase phrase weight))
    configDir paths.

Definition loadSubstitutionFiles (configDir : bytes) (paths : list bytes) : result listError (list SubstitutionConfig) :=
  loadFiles (fun ln => '(search, replace) ← at_line ln (parseSubstitutionLine (ln_Text ln)); Ok (MkSubstitution search replace))
    configDir paths.

Definition loadRegexSubstitutionFiles (configDir : bytes) (paths : list bytes)
  : result listError (list RegexSubstitutionConfig) :=
  loadFiles (fun ln => '(pattern, replace) ← at_line ln (parseSubstitutionLine (ln_Text ln));
                       Ok (MkRegexSubstitution pattern replace 0 (lineSource ln)))
    configDir paths.

End files.

(** ** Merging *)

(** [seen] is the set of [base]; an entry of [extra] is appended once. *)
Definition appendUniqueStrings (base extra : list bytes) : list bytes :=
  fold_left (fun base v => if bool_decide (v ∈ base) then base else base ++ [v]) extra base.

(** [seen[p.Phrase] = p.Weight] over [base]: the last weight of a phrase. *)
Definition weightsOf (base : list SemanticPhraseConfig) : gmap bytes Z :=
  fold_left (fun seen p => <[sp_Phrase p := sp_Weight p]> seen) base ∅.

Definition mergeWeightedPhrases (base extra : list SemanticPhraseConfig) : result listError (list SemanticPhraseConfig) :=
  if (length extra =? 0)%nat then Ok base
  else
    '(_, out) ← foldM (fun '(seen, base) p =>
      match (seen : gmap bytes Z) !! sp_Phrase p with
      | Some existing =>
          if Z.eqb existing (sp_Weight p) then Ok (seen, base)
          else Err (ErrConflict (sp_Phrase p) existing (sp_Weight p))
      | None => Ok (<[sp_Phrase p := sp_Weight p]> seen, base ++ [p])
      end) extra (weightsOf base, base);
    Ok out.

(** [mergeSubstitutions] and [mergeRegexSubstitutions], by the key of a rule. *)
Definition mergeByKey {A} (key : A -> bytes) (base extra : list A) : result listError (list A) :=
  if (length extra =? 0)%nat then Ok base
  else
    '(_, out) ← foldM (fun '(seen, base) r =>
      if bool_decide (key r ∈ (seen : gset bytes)) then Err (ErrDuplicate (key r))
      else Ok ({[key r]} ∪ seen, base ++ [r])) extra (list_to_set (map key base), base);
    Ok out.

Definition mergeSubstitutions : list SubstitutionConfig -> list SubstitutionConfig -> result listError (list SubstitutionConfig) :=
  mergeByKey su_Search.
Definition mergeRegexSubstitutions
  : list RegexSubstitutionConfig -> list RegexSubstitutionConfig -> result listError (list RegexSubstitutionConfig) :=
  mergeByKey rs_Pattern.

(** ** Specification *)

(** [ln] is an entry of the file [path], or of a file it includes. *)
Inductive entry_of (fs : fileSystem) : bytes -> listLine -> Prop :=
| entry_here path content i raw text :
    Stat fs path = Some (RegularFile content) -> (ScanLines maxLine content).1 !! i = Some raw ->
    classify raw = Entry text -> entry_of fs path (MkLine path (S i) text)
| entry_included path content i raw inc ln :
    Stat fs path = Some (RegularFile content) -> (ScanLines maxLine content).1 !! i = Some raw ->
    classify raw = Include inc -> entry_of fs (includePath path inc) ln -> entry_of fs path ln.

(** ** Lemmas *)

Lemma scan_loop_total load path n lines :
  (forall p, load p <> None) -> scan_loop load path n lines <> None.
Proof.
  intros Hl. revert n. induction lines as [|raw lines IH]; intros n; cbn [scan_loop]; [done|].
  destruct (classify raw) as [|inc|text]; [apply IH| |].
  - destruct (bytes_eqb inc []); [done|]. pose proof (Hl (includePath path inc)) as Hi.
    destruct (load (includePath path inc)) as [[nested|e]|]; [|done|done].
    pose proof (IH (S n)) as Hs. by destruct (scan_loop load path (S n) lines) as [[]|].
  - pose proof (IH (S n)) as Hs. by destruct (scan_loop load path (S n) lines) as [[]|].
Qed.

Lemma stack_bound (fs : fileSystem) (stack : list bytes) :
  NoDup stack -> (forall p, p ∈ stack -> is_Some (nodes fs !! p)) -> length stack <= size (nodes fs).
Proof.
  intros Hnd Hin. rewrite <- size_dom. replace (length stack) with (size (list_to_set stack : gset bytes)).
  - apply subseteq_size. intros p Hp%elem_of_list_to_set. apply elem_of_dom. by apply Hin.
  - by apply size_list_to_set.
Qed.

Lemma load_total fs fuel path stack :
  NoDup stack -> (forall p, p ∈ stack -> is_Some (nodes fs !! p)) -> size (nodes fs) < length stack + fuel ->
  loadPlainListFile fs fuel path stack <> None.
Proof.
  revert path stack. induction fuel as [|fuel IH]; intros path stack Hnd Hin Hf.
  { pose proof (stack_bound _ _ Hnd Hin). lia. }
  cbn [loadPlainListFile]. destruct (bool_decide_reflect (Abs fs path ∈ stack)) as [|Hout]; [done|].
  unfold Stat. destruct (nodes fs !! Abs fs path) as [[content|]|] eqn:Es; [|done|done].
  destruct (ScanLines maxLine content) as [lines tooLong].
  assert (Hs : scan_loop (fun p => loadPlainListFile fs fuel p (Abs fs path :: stack)) path 0 lines <> None).
  { apply scan_loop_total. intros p. apply IH.
    - by constructor.
    - intros q Hq. apply elem_of_cons in Hq as [->|Hq]; [by eexists|by apply Hin].
    - cbn. lia. }
  destruct (scan_loop _ path 0 lines) as [[out|e]|]; [|done|done]. by destruct tooLong.
Qed.

(** What line [n] of [path] contributes. *)
Definition line_entry (fs : fileSystem) (path : bytes) (n : nat) (raw : bytes) (ln : listLine) : Prop :=
  match classify raw with
  | Blank => False
  | Include inc => entry_of fs (includePath path inc) ln
  | Entry text => ln = MkLine path n text
  end.

Lemma entry_of_lines fs path ln :
  entry_of fs path ln <->
  exists content i raw, Stat fs path = Some (RegularFile content) /\
    (ScanLines maxLine content).1 !! i = Some raw /\ line_entry fs path (S i) raw ln.
Proof.
  split.
  - intros [p c i raw text Hs Hi Hc|p c i raw inc l Hs Hi Hc He]; exists c, i, raw;
      (split; [done|]); (split; [done|]); unfold line_entry; by rewrite Hc.
  - intros (c & i & raw & Hs & Hi & Hl). unfold line_entry in Hl. destruct (classify raw) eqn:Ec; [done| |].
    + by eapply entry_included.
    + subst ln. by eapply entry_here.
Qed.

Lemma scan_loop_entries fs load path n lines out :
  (forall p out, load p = Some (Ok out) -> forall ln, ln ∈ out <-> entry_of fs p ln) ->
  scan_loop load path n lines = Some (Ok out) ->
  forall ln, ln ∈ out <-> exists i raw, lines !! i = Some raw /\ line_entry fs path (S (n + i)) raw ln.
Proof.
  intros Hload. revert n out. induction lines as [|raw lines IH]; intros n out; cbn [scan_loop].
  { intros [= <-] ln. split; [by intros ?%elem_of_nil|]. by intros (i & raw & Hi & _). }
  assert (Hcons : forall ln, (exists i r, (raw :: lines) !! i = Some r /\ line_entry fs path (S (n + i)) r ln) <->
    line_entry fs path (S n) raw ln \/ exists i r, lines !! i = Some r /\ line_entry fs path (S (S n + i)) r ln).
  { intros ln. split.
    - intros ([|i] & r & Hi & Hl); cbn in Hi; [left; rewrite Nat.add_0_r in Hl; by simplify_eq|].
      right. exists i, r. replace (S n + i) with (n + S i) by lia. done.
    - intros [Hl|(i & r & Hi & Hl)]; [exists 0, raw; rewrite Nat.add_0_r; done|].
      exists (S i), r. replace (n + S i) with (S n + i) by lia. done. }
  intros Hs ln. rewrite Hcons. unfold line_entry at 1. destruct (classify raw) as [|inc|text].
  - rewrite (IH _ _ Hs). naive_solver.
  - destruct (bytes_eqb inc []); [done|]. destruct (load (includePath path inc)) as [[nested|e]|] eqn:El; [|done|done].
    destruct (scan_loop load path (S n) lines) as [[out'|e]|] eqn:Er; [|done|done]. injection Hs as <-.
    by rewrite elem_of_app, (Hload _ _ El), (IH _ _ Er).
  - destruct (scan_loop load path (S n) lines) as [[out'|e]|] eqn:Er; [|done|done]. injection Hs as <-.
    by rewrite elem_of_cons, (IH _ _ Er).
Qed.

Lemma load_entries fs fuel path stack out :
  loadPlainListFile fs fuel path stack = Some (Ok out) -> forall ln, ln ∈ out <-> entry_of fs path ln.
Proof.
  revert path stack out. induction fuel as [|fuel IH]; intros path stack out; cbn [loadPlainListFile]; [done|].
  destruct (bool_decide _); [done|]. destruct (Stat fs path) as [[content|]|] eqn:Es; [|done|done].
  destruct (ScanLines maxLine content) as [lines tooLong] eqn:Esc.
  destruct (scan_loop _ path 0 lines) as [[out'|e]|] eqn:El; [|done|done].
  destruct tooLong; [done|]. intros [= <-] ln.
  rewrite (scan_loop_entries fs _ _ _ _ _ (fun p out => IH p _ out) El), entry_of_lines. split.
  - intros (i & raw & Hi & Hl). exists content, i, raw. by rewrite Esc.
  - intros (c & i & raw & Hs & Hi & Hl). simplify_eq. rewrite Esc in Hi. by exists i, raw.
Qed.

Lemma entry_kind raw : match classify raw with
  | Entry text => text <> [] /\ parseIncludeLine text = None
  | _ => True end.
Proof.
  unfold classify. destruct (bytes_eqb _ []) eqn:E; [done|].
  destruct (parseIncludeLine _) eqn:Ei; [done|]. split; [|done]. by apply bool_decide_eq_false in E.
Qed.

(** ** Merges *)

Lemma appendUnique_spec base extra :
  (forall v, v ∈ appendUniqueStrings base extra <-> v ∈ base \/ v ∈ extra) /\
  base `prefix_of` appendUniqueStrings base extra /\
  (NoDup base -> NoDup (appendUniqueStrings base extra)).
Proof.
  unfold appendUniqueStrings. revert base. induction extra as [|x extra IH]; intros base; cbn [fold_left].
  { split_and!; [|done|done]. set_solver. }
  destruct (IH (if bool_decide (x ∈ base) then base else base ++ [x])) as (Hel & Hpre & Hnd).
  destruct (bool_decide_reflect (x ∈ base)) as [Hx|Hx].
  - split_and!; [|done|done]. intros v. rewrite Hel. set_solver.
  - split_and!.
    + intros v. rewrite Hel. set_solver.
    + etrans; [|exact Hpre]. by eexists.
    + intros Hb. apply Hnd. apply NoDup_app. split_and!; [done|set_solver|apply NoDup_singleton].
Qed.

Lemma mergeByKey_fold {A} (key : A -> bytes) (seen : gset bytes) base extra seen' out :
  foldM (fun '(seen, base) r =>
      if bool_decide (key r ∈ (seen : gset bytes)) then Err (ErrDuplicate (key r))
      else Ok ({[key r]} ∪ seen, base ++ [r])) extra (seen, base) = Ok (seen', out) ->
  out = base ++ extra /\ NoDup (map key extra) /\ (forall k, k ∈ seen -> k ∉ map key extra).
Proof.
  revert seen base. induction extra as [|r extra IH]; intros seen base; cbn [foldM map].
  { intros [= <- <-]. rewrite app_nil_r. split_and!; [done|constructor|set_solver]. }
  destruct (bool_decide_reflect (key r ∈ seen)) as [|Hr]; [done|]. intros (-> & Hnd & Hs)%IH.
  rewrite <- app_assoc. split_and!; [done| |].
  - constructor; [|done]. apply Hs. set_solver.
  - intros k Hk. specialize (Hs k). set_solver.
Qed.

(** A merge that succeeds appends the new rules, and repeats no key. *)
Lemma mergeByKey_spec {A} (key : A -> bytes) base extra out :
  mergeByKey key base extra = Ok out -> NoDup (map key base) ->
  out = base ++ extra /\ NoDup (map key out).
Proof.
  unfold mergeByKey. destruct (Nat.eqb_spec (length extra) 0) as [Hz|_].
  { intros [= <-]. apply nil_length_inv in Hz as ->. by rewrite app_nil_r. }
  destruct (foldM _ extra _) as [[seen' out']|e] eqn:E; [|done]. intros [= <-] Hb.
  apply mergeByKey_fold in E as (-> & Hnd & Hs). split; [done|]. rewrite map_app. apply NoDup_app.
  split_and!; [done| |done]. intros k Hk. apply Hs. by apply elem_of_list_to_set.
Qed.

(** Reading a list file always ends: whatever its includes are, the
    number of files bounds their nesting, and a cycle is an error.  When it
    succeeds, the entries are exactly the non-blank lines, without comments, of
    the file and of the files it includes, each with its own file and line. *)
Theorem list_file_correct fs path :
  loadPlainListFile fs (list_fuel fs) path [] <> None /\
  forall out, loadListFile fs path = Ok out ->
    forall ln, (ln ∈ out <-> entry_of fs path ln) /\ (ln ∈ out -> ln_Text ln <> []).
Proof.
  assert (Hn : loadPlainListFile fs (list_fuel fs) path [] <> None).
  { apply load_total; [constructor|by intros p ?%elem_of_nil|cbn; unfold list_fuel; lia]. }
  split; [done|]. unfold loadListFile. destruct (loadPlainListFile _ _ _ _) as [r|] eqn:El; [|done].
  intros out -> ln. pose proof (load_entries _ _ _ _ _ El ln) as Hiff. split; [done|].
  intros He%Hiff. clear -He. induction He as [p c i raw text Hs Hi Hc|]; [|done].
  pose proof (entry_kind raw) as Hk. rewrite Hc in Hk. by destruct Hk.
Qed.

Definition sample_files : fileSystem :=
  MkFileSystem (str "/etc/lists") (list_to_map [
    (str "/etc/lists/banned", RegularFile (str "a.com # ads
.Include<sub/../more>

b.org"));
    (str "/etc/lists/more", RegularFile (str "c.net"));
    (str "/etc/lists/loop", RegularFile (str ".Include<./loop>"))]).

Lemma list_file_correct_witness :
  (exists out, loadListFile sample_files (str "banned") = Ok out /\ map ln_Text out = [str "a.com"; str "c.net"; str "b.org"] /\
    forall ln, (ln ∈ out <-> entry_of sample_files (str "banned") ln) /\ (ln ∈ out -> ln_Text ln <> [])) /\
  loadListFile sample_files (str "loop") = Err (ErrCycle (str "/etc/lists/loop")).
Proof.
  split; [|vm_compute; reflexivity].
  eexists. split; [vm_compute; reflexivity|]. split; [vm_compute; reflexivity|].
  apply (list_file_correct sample_files (str "banned")). vm_compute. reflexivity.
Defined.
