(* ===== verification/GoNetip.v ===== *)
(** * Package net/netip, and the prefix table

    [ParseAddr], [ParsePrefix], [Addr.String], [Prefix.Masked] and
    [Prefix.Contains] as functions, and the interface of the third-party
    longest-prefix table (github.com/gaissmai/bart) with the documented
    behaviour of its [Lookup]. *)

From S2P Require Import Prelude GoStrings GoUrl.

(** An address: 32 or 128 bits, with the zone of an IPv6 address. *)
Record Addr := MkAddr { a_is6 : bool; a_bits : N; a_zone : bytes }.

#[global] Instance Addr_eq_dec : EqDecision Addr.
Proof. solve_decision. Defined.

Definition BitLen (a : Addr) : N := if a_is6 a then 128 else 32.

(** ** Parsing *)

Fixpoint decimal (s : bytes) (acc : N) : option N :=
  match s with
  | [] => Some acc
  | c :: s' => if isDigit c then decimal s' (acc * 10 + (byte_val c - 48))%N else None
  end.

(** One octet: no empty field, no leading zero, at most 255. *)
Definition octet (s : bytes) : option N :=
  if (length s =? 0) || ((1 <? length s) && HasPrefix s (str "0")) || (3 <? length s) then None
  else v ← decimal s 0; if N.leb v 255 then Some v else None.

(** [parseIPv4Fields]: exactly four octets. *)
Definition parseIPv4Fields (s : bytes) : option (list N) :=
  match SplitByte s "." with
  | [a; b; c; d] => va ← octet a; vb ← octet b; vc ← octet c; vd ← octet d; Some [va; vb; vc; vd]
  | _ => None
  end.

Definition from_octets (l : list N) : N := fold_left (fun acc o => (acc * 256 + o)%N) l 0%N.

Definition parseIPv4 (s : bytes) : option Addr :=
  l ← parseIPv4Fields s; Some (MkAddr false (from_octets l) []).

(** The hexadecimal digits at the head of [s], with the rest. *)
Fixpoint span_hex (s : bytes) : bytes * bytes :=
  match s with
  | c :: s' => if ishex c then let '(h, r) := span_hex s' in (c :: h, r) else ([], s)
  | [] => ([], [])
  end.

Definition hex_value (s : bytes) : N := fold_left (fun acc c => (acc * 16 + unhex c)%N) s 0%N.

(** The loop of [parseIPv6]: [ip] is the bytes so far and [ellipsis] the
    position of "::".  At most eight groups are read. *)
Fixpoint parseIPv6_loop (fuel : nat) (s : bytes) (ip : list N) (ellipsis : option nat)
    : option (list N * option nat) :=
  match fuel with
  | O => if decide (s = []) then Some (ip, ellipsis) else None
  | S fuel' =>
      let '(h, r) := span_hex s in
      if (length h =? 0) || (4 <? length h) then None
      else match r with
      | "."%byte :: _ =>
          if (match ellipsis with None => true | _ => false end && negb (length ip =? 12))
             || (16 <? length ip + 4)
          then None
          else l ← parseIPv4Fields s; Some (ip ++ l, ellipsis)
      | [] =>
          let acc := hex_value h in
          Some (ip ++ [acc / 256; acc mod 256]%N, ellipsis)
      | c :: r1 =>
          let acc := hex_value h in
          let ip := (ip ++ [acc / 256; acc mod 256])%N in
          if negb (bool_decide (c = ":"%byte)) then None
          else match r1 with
          | [] => None
          | ":"%byte :: r2 =>
              match ellipsis with
              | Some _ => None
              | None =>
                  if decide (r2 = []) then Some (ip, Some (length ip))
                  else parseIPv6_loop fuel' r2 ip (Some (length ip))
              end
          | _ => parseIPv6_loop fuel' r1 ip ellipsis
          end
      end
  end.

Definition expand_ellipsis (ip : list N) (ellipsis : option nat) : option (list N) :=
  if length ip <? 16 then
    match ellipsis with
    | None => None
    | Some e => Some (take e ip ++ replicate (16 - length ip) 0%N ++ drop e ip)
    end
  else match ellipsis with None => Some ip | Some _ => None end.

Definition parseIPv6 (inp : bytes) : option Addr :=
  let '(s, zone, bad) :=
    match IndexByte inp "%" with
    | Some i => (take i inp, drop (S i) inp, length inp =? S i)
    | None => (inp, [], false)
    end in
  if bad then None
  else if decide (s = str "::") then Some (MkAddr true 0 zone)
  else
    let '(s, ellipsis) := if HasPrefix s (str "::") then (drop 2 s, Some 0) else (s, None) in
    '(ip, ellipsis) ← parseIPv6_loop 8 s [] ellipsis;
    ip ← expand_ellipsis ip ellipsis;
    Some (MkAddr true (from_octets ip) zone).

(** The first of '.', ':' and '%' says which family it is. *)
Fixpoint ParseAddr_scan (s inp : bytes) : option Addr :=
  match s with
  | [] => None
  | c :: s' =>
      if decide (c = "."%byte) then parseIPv4 inp
      else if decide (c = ":"%byte) then parseIPv6 inp
      else if decide (c = "%"%byte) then None
      else ParseAddr_scan s' inp
  end.

Definition ParseAddr (s : bytes) : option Addr := ParseAddr_scan s s.

(** [net.ParseIP] succeeds. *)
Definition isIP (s : bytes) : bool :=
  match ParseAddr s with Some a => bytes_eqb (a_zone a) [] | None => false end.

(** ** Printing *)

Fixpoint octets (n : nat) (v : N) : list N :=
  match n with O => [] | S n' => octets n' (v / 256)%N ++ [(v mod 256)%N] end.

Definition decimal_string (v : N) : bytes := Itoa (Z.of_N v).

Definition join_bytes (sep : bytes) (l : list bytes) : bytes :=
  match l with [] => [] | x :: l' => x ++ concat (map (fun y => sep ++ y) l') end.

Definition ipv4_string (v : N) : bytes := join_bytes (str ".") (map decimal_string (octets 4 v)).

Definition hexdigit (n : N) : byte := byte_of (if N.ltb n 10 then n + 48 else n + 87)%N.

Definition hex_string (v : N) : bytes :=
  let ds := [v / 4096; v / 256 mod 16; v / 16 mod 16; v mod 16]%N in
  let fix strip l := match l with
    | x :: ((_ :: _) as l') => if N.eqb x 0 then strip l' else l
    | _ => l end in
  map hexdigit (strip ds).

Fixpoint groups (l : list N) : list N :=
  match l with a :: b :: l' => (a * 256 + b)%N :: groups l' | _ => [] end.

(** Length of the run of zero groups at the head. *)
Fixpoint zero_run (l : list N) : nat :=
  match l with x :: l' => if N.eqb x 0 then S (zero_run l') else 0 | [] => 0 end.

(** The first longest run of at least two zero groups. *)
Fixpoint best_run (i : nat) (l : list N) (best : nat * nat) : nat * nat :=
  match l with
  | [] => best
  | _ :: l' =>
      let r := zero_run l in
      best_run (S i) l' (if (snd best <? r) && (1 <? r) then (i, r) else best)
  end.

Definition ipv6_string (v : N) : bytes :=
  let g := groups (octets 16 v) in
  let '(s, r) := best_run 0 g (0, 0) in
  if r =? 0 then join_bytes (str ":") (map hex_string g)
  else join_bytes (str ":") (map hex_string (take s g)) ++ str "::" ++
       join_bytes (str ":") (map hex_string (drop (s + r) g)).

(** An IPv4-mapped IPv6 address. *)
Definition is4In6 (a : Addr) : bool := a_is6 a && N.eqb (N.shiftr (a_bits a) 32) 65535.

Definition Addr_String (a : Addr) : bytes :=
  if a_is6 a then
    (if is4In6 a then str "::ffff:" ++ ipv4_string (N.modulo (a_bits a) (2 ^ 32))
     else ipv6_string (a_bits a)) ++
    (if decide (a_zone a = []) then [] else str "%" ++ a_zone a)
  else ipv4_string (a_bits a).

(** ** Prefixes *)

Record Prefix := MkPrefix { p_addr : Addr; p_bits : N }.

Definition ParsePrefix (s : bytes) : option Prefix :=
  i ← LastIndexByte s "/";
  ip ← ParseAddr (take i s);
  if negb (bytes_eqb (a_zone ip) []) then None
  else
    let bitsStr := drop (S i) s in
    if (1 <? length bitsStr) && match bitsStr with c :: _ => negb (between 49 57 c) | [] => false end
    then None
    else bits ← Atoi bitsStr;
    if (bits <? 0)%Z || (Z.of_N (BitLen ip) <? bits)%Z then None
    else Some (MkPrefix ip (Z.to_N bits)).

(** The network part of an address. *)
Definition network (len : N) (bits v : N) : N := N.shiftr v (len - bits).

Definition Masked (p : Prefix) : Prefix :=
  let len := BitLen (p_addr p) in
  MkPrefix (MkAddr (a_is6 (p_addr p))
              (N.shiftl (network len (p_bits p) (a_bits (p_addr p))) (len - p_bits p)) [])
           (p_bits p).

Definition PrefixContains (p : Prefix) (a : Addr) : bool :=
  bool_decide (a_is6 (p_addr p) = a_is6 a) && bytes_eqb (a_zone a) [] &&
  N.eqb (network (BitLen a) (p_bits p) (a_bits (p_addr p))) (network (BitLen a) (p_bits p) (a_bits a)).

(** [netip.ParsePrefix] and, when it fails, [netip.ParseAddr] as a host
    prefix. *)
Definition parsePrefixOrAddr (entry : bytes) : option Prefix :=
  match ParsePrefix entry with
  | Some p => Some p
  | None => addr ← ParseAddr entry; Some (MkPrefix addr (BitLen addr))
  end.

(** ** Interface: the prefix table

    [Lookup] of bart returns the value of the longest inserted prefix that
    contains the address; a prefix inserted again has its last value. *)
Definition lpm {V} (ins : list (Prefix * V)) (a : Addr) : option (N * V) :=
  fold_left
    (fun best '(p, v) =>
       if PrefixContains p a && match best with None => true | Some (b, _) => N.leb b (p_bits p) end
       then Some (p_bits p, v) else best)
    ins None.

Class PrefixTable : Type := {
  table : Type -> Type;
  table_empty {V} : table V;
  table_Insert {V} : table V -> Prefix -> V -> table V;
  table_Lookup {V} : table V -> Addr -> option V;
}.

Definition table_of `{PrefixTable} {V} (ins : list (Prefix * V)) : table V :=
  fold_left (fun t '(p, v) => table_Insert t p v) ins table_empty.

Class PrefixTableLaws `{PrefixTable} : Prop := {
  Lookup_longest : forall V (ins : list (Prefix * V)) a,
    a_zone a = [] -> table_Lookup (table_of ins) a = snd <$> lpm ins a;
}.

(** The table as the list of its insertions. *)
Definition list_table : PrefixTable := {|
  table V := list (Prefix * V);
  table_empty V := [];
  table_Insert V t p v := t ++ [(p, v)];
  table_Lookup V t a := snd <$> lpm t a;
|}.

Lemma list_table_of {V} (ins : list (Prefix * V)) : @table_of list_table V ins = ins.
Proof.
  unfold table_of.
  assert (Hacc : forall acc, fold_left (fun (t : @table list_table V) '(p, v) => @table_Insert list_table V t p v) ins acc = acc ++ ins).
  { induction ins as [|[p v] ins IH]; intros acc; simpl; [by rewrite app_nil_r|].
    rewrite IH. simpl. by rewrite <- app_assoc. }
  apply Hacc.
Qed.

Lemma list_table_laws : @PrefixTableLaws list_table.
Proof. constructor. intros V ins a _. by rewrite list_table_of. Qed.

(** Membership: some prefix contains the address. *)
Lemma lpm_None {V} (ins : list (Prefix * V)) a :
  lpm ins a = None <-> Forall (fun pv => PrefixContains pv.1 a = false) ins.
Proof.
  unfold lpm.
  assert (Hsome : forall l (b : N * V), fold_left
    (fun best '(p, v) =>
       if PrefixContains p a && match best with None => true | Some (b, _) => N.leb b (p_bits p) end
       then Some (p_bits p, v) else best) l (Some b) <> None).
  { induction l as [|[p v] l IH]; intros b; simpl; [done|]. by destruct (_ && _). }
  induction ins as [|[p v] ins IH]; simpl; [split; [constructor|done]|].
  rewrite Forall_cons. simpl. rewrite andb_true_r. destruct (PrefixContains p a).
  - split; [intros Hf; by apply Hsome in Hf|naive_solver].
  - rewrite IH. naive_solver.
Qed.
