(* ===== verification/Dns.v ===== *)
(** The resolver with its cache ([proxy/dns.go]).  The lookup of the net
    package is a parameter of each call: the addresses in their text form, or
    an error.  Times are instants in nanoseconds. *)

From stdpp Require Import base list gmap.
From S2P Require Import Prelude GoStrings GoNetip.
Set Default Goal Selector "!".

Record dnsEntry := MkDnsEntry { ips : list bytes; expiresAt : Z }.

Record DNSResolver := MkResolver { dns_cache : gmap bytes dnsEntry; dns_enabled : bool; ttl : Z }.

Definition NewDNSResolver (enabled : bool) (ttl : Z) : DNSResolver := MkResolver ∅ enabled ttl.

Inductive dnsError := ErrLookup | ErrNoAddress (host : bytes) | ErrIndexPanic.

Definition caches (r : DNSResolver) : bool := dns_enabled r && Z.ltb 0 (ttl r).

(** [entry.ips[0]]. *)
Definition firstIP (l : list bytes) : result dnsError bytes := match l with ip :: _ => Ok ip | [] => Err ErrIndexPanic end.

(** [resolve] on a resolver that is not nil, at [now], where a lookup of the
    host gives [lookup]. *)
Definition resolve (r : DNSResolver) (now : Z) (lookup : option (list bytes)) (host : bytes) (force : bool)
  : DNSResolver * result dnsError bytes :=
  if negb (caches r) && negb force then (r, Ok host)
  else if isIP host then (r, Ok host)
  else
    let query :=
      match lookup with
      | None => (r, Err ErrLookup)
      | Some [] => (r, Err (ErrNoAddress host))
      | Some ((ip :: _) as l) =>
          (if caches r then MkResolver (<[host := MkDnsEntry l (now + ttl r)]> (dns_cache r)) (dns_enabled r) (ttl r) else r, Ok ip)
      end in
    if caches r then
      match dns_cache r !! host with
      | Some entry => if Z.ltb now (expiresAt entry) then (r, firstIP (ips entry)) else query
      | None => query
      end
    else query.

(** [ResolveAddrForPolicy]: the address to dial and its host. *)
Definition ResolveAddrForPolicy (r : option DNSResolver) (now : Z) (lookup : bytes -> option (list bytes)) (address : bytes) (force : bool)
  : option DNSResolver * result dnsError (bytes * bytes) :=
  let resolve' host := match r with
    | None => (None, Ok host)
    | Some r => let '(r, res) := resolve r now (lookup host) host force in (Some r, res)
    end in
  match SplitHostPort address with
  | None => let '(r, res) := resolve' address in (r, h ← res; Ok (h, h))
  | Some (host, port) => let '(r, res) := resolve' host in (r, h ← res; Ok (JoinHostPort h port, h))
  end.

(** ** Specification *)

(** A call of [resolve]. *)
Record query := MkQuery { q_now : Z; q_lookup : option (list bytes); q_host : bytes; q_force : bool }.

Fixpoint resolveAll (r : DNSResolver) (qs : list query) : DNSResolver * list (result dnsError bytes) :=
  match qs with
  | [] => (r, [])
  | q :: qs' =>
      let '(r, a) := resolve r (q_now q) (q_lookup q) (q_host q) (q_force q) in
      let '(r, l) := resolveAll r qs' in (r, a :: l)
  end.

(** [ip] is the first address of a lookup of [host] among [qs], made less than
    [ttl] before [now]. *)
Definition looked_up (qs : list query) (ttl now : Z) (host ip : bytes) : Prop :=
  exists q l, q ∈ qs /\ q_host q = host /\ q_lookup q = Some (ip :: l) /\ (now < q_now q + ttl)%Z.

Definition cache_sound (qs : list query) (r : DNSResolver) : Prop :=
  forall host e, dns_cache r !! host = Some e ->
    exists q ip l, q ∈ qs /\ q_host q = host /\ q_lookup q = Some (ip :: l) /\ ips e = ip :: l /\ expiresAt e = (q_now q + ttl r)%Z.

Lemma cache_sound_weaken qs q r : cache_sound qs r -> cache_sound (q :: qs) r.
Proof. intros Hc host e He. destruct (Hc host e He) as (q' & ip & l & Hq & Hrest). exists q', ip, l. split; [by right|done]. Qed.

(** What one answer can be. *)
Definition answer_ok (qs : list query) (r : DNSResolver) (q : query) (a : result dnsError bytes) : Prop :=
  match a with
  | Ok x =>
      (x = q_host q /\ (isIP (q_host q) = true \/ (caches r = false /\ q_force q = false))) \/
      (exists l, q_lookup q = Some (x :: l)) \/ (caches r = true /\ looked_up qs (ttl r) (q_now q) (q_host q) x)
  | Err ErrLookup => q_lookup q = None
  | Err (ErrNoAddress h) => q_lookup q = Some [] /\ h = q_host q
  | Err ErrIndexPanic => False
  end.

Lemma resolve_ok qs r q r' a :
  cache_sound qs r -> resolve r (q_now q) (q_lookup q) (q_host q) (q_force q) = (r', a) ->
  answer_ok qs r q a /\ cache_sound (q :: qs) r' /\ ttl r' = ttl r /\ caches r' = caches r.
Proof.
  intros Hc. pose proof (cache_sound_weaken qs q r Hc) as Hw. unfold resolve.
  destruct (negb (caches r) && negb (q_force q)) eqn:Eb.
  { intros [= <- <-]. split_and!; [|done|done|done]. left. split; [done|right].
    by destruct (caches r), (q_force q). }
  destruct (isIP (q_host q)) eqn:Ei; [intros [= <- <-]; split_and!; [left; split; [done|by left]|done|done|done]|].
  set (query := match q_lookup q with None => _ | _ => _ end).
  assert (Hquery : query = (r', a) -> answer_ok qs r q a /\ cache_sound (q :: qs) r' /\ ttl r' = ttl r /\ caches r' = caches r).
  { unfold query. destruct (q_lookup q) as [[|ip l]|] eqn:El.
    - intros [= <- <-]. by split_and!.
    - intros [= <- <-]. split; [right; left; by exists l|]. destruct (caches r) eqn:Ec; [|by split_and!].
      split_and!; [|done|by rewrite <- Ec]. intros host e. cbn. destruct (decide (host = q_host q)) as [->|Hne].
      + rewrite lookup_insert_eq. intros [= <-]. exists q, ip, l. split; [apply elem_of_cons; by left|]. by split_and!.
      + rewrite lookup_insert_ne by done. apply Hw.
    - intros [= <- <-]. by split_and!. }
  destruct (caches r) eqn:Ec; [|exact Hquery]. destruct (dns_cache r !! q_host q) as [e|] eqn:Ee; [|exact Hquery].
  destruct (Z.ltb_spec (q_now q) (expiresAt e)) as [Hlt|]; [|exact Hquery]. intros [= <- <-].
  destruct (Hc _ _ Ee) as (q' & ip & l & Hq & Hh & Hl & -> & He). cbn. split_and!; [|done|done|done].
  right; right. split; [done|]. exists q', l. rewrite He in Hlt. by split_and!.
Qed.

(** The answers, each with the calls before it. *)
Fixpoint answers_ok (before : list query) (r : DNSResolver) (qs : list query) (l : list (result dnsError bytes)) : Prop :=
  match qs, l with
  | q :: qs', a :: l' => answer_ok before r q a /\ answers_ok (q :: before) r qs' l'
  | [], [] => True
  | _, _ => False
  end.

Lemma answers_ok_ext before r1 r2 qs l : ttl r1 = ttl r2 -> caches r1 = caches r2 -> answers_ok before r1 qs l -> answers_ok before r2 qs l.
Proof.
  intros Ht Hc. revert before l. induction qs as [|q qs IH]; intros before [|a l]; cbn; try done.
  intros [Ha Hl]. split; [|by apply IH]. unfold answer_ok in *. by rewrite <- Ht, <- Hc.
Qed.

Lemma resolveAll_ok before r qs r' l :
  cache_sound before r -> resolveAll r qs = (r', l) -> answers_ok before r qs l.
Proof.
  revert before r r' l. induction qs as [|q qs IH]; intros before r r' l Hc; cbn; [by intros [= <- <-]|].
  destruct (resolve _ _ _ _ _) as [r1 a] eqn:E. destruct (resolveAll r1 qs) as [r2 l2] eqn:E2. intros [= <- <-].
  destruct (resolve_ok before r q r1 a Hc E) as (Ha & Hc1 & Ht & Hca). split; [done|].
  eapply answers_ok_ext; [exact Ht|exact Hca|]. by eapply IH.
Qed.

(** In any sequence of calls on a fresh resolver, an answer is the host
    itself when it is an address or nothing is to be resolved, or the first
    address of the lookup of this call, or, with the cache on, the first
    address of an earlier lookup of the same host less than the time to live
    ago.  Errors are errors of this call's lookup, and the cache never gives
    an empty entry. *)
Theorem dns_answers enabled t qs r l :
  resolveAll (NewDNSResolver enabled t) qs = (r, l) -> answers_ok [] (NewDNSResolver enabled t) qs l.
Proof. apply resolveAll_ok. intros host e. cbn. by rewrite lookup_empty. Qed.

Definition sample_queries : list query :=
  [MkQuery 0 (Some [str "192.0.2.1"]) (str "h") false; MkQuery 5 (Some [str "192.0.2.9"]) (str "h") false;
   MkQuery 10 (Some [str "192.0.2.9"]) (str "h") false; MkQuery 11 None (str "i") false].

Lemma dns_answers_witness : exists r l, resolveAll (NewDNSResolver true 10) sample_queries = (r, l) /\
  l = [Ok (str "192.0.2.1"); Ok (str "192.0.2.1"); Ok (str "192.0.2.9"); Err ErrLookup] /\
  answers_ok [] (NewDNSResolver true 10) sample_queries l.
Proof.
  destruct (resolveAll (NewDNSResolver true 10) sample_queries) as [r l] eqn:E. exists r, l. split; [done|].
  split; [change l with (r, l).2; rewrite <- E; vm_compute; reflexivity|]. exact (dns_answers true 10 sample_queries r l E).
Defined.

(** Nothing removes an entry: expired ones stay until their host is looked up
    again. *)
Lemma dns_cache_only_grows r now lookup host force :
  dom (dns_cache r) ⊆ dom (dns_cache (resolve r now lookup host force).1).
Proof.
  unfold resolve. destruct (negb (caches r) && negb force); [done|]. destruct (isIP host); [done|].
  assert (Hq : forall ip l, dom (dns_cache r) ⊆ dom (dns_cache (if caches r then
    MkResolver (<[host := MkDnsEntry (ip :: l) (now + ttl r)]> (dns_cache r)) (dns_enabled r) (ttl r) else r))).
  { intros ip l. destruct (caches r); [cbn; rewrite dom_insert; set_solver|done]. }
  destruct (caches r) eqn:Ec; [destruct (dns_cache r !! host); [destruct (Z.ltb _ _); [done|]|]|];
    destruct lookup as [[|ip l]|]; try done; apply (Hq ip l).
Qed.
