(* ===== verification/GoMime.v ===== *)
(** * Package mime: ParseMediaType

    The media type and the parameters of a Content-Type or
    Content-Disposition value, with quoted strings and the RFC 2231
    continuations.  [None] is an error. *)

From S2P Require Import Prelude GoStrings GoUrl.

(** [isTokenChar]. *)
Definition tokenChar (c : byte) : bool :=
  between 33 126 c && negb (oneOf c (str "()<>@,;:\/[]?=") || bool_decide (c = Byte.x22)).

Fixpoint consumeToken (v : bytes) : bytes * bytes :=
  match v with
  | c :: v' => if tokenChar c then let '(t, r) := consumeToken v' in (c :: t, r) else ([], v)
  | [] => ([], [])
  end.

Definition checkMediaTypeDisposition (s : bytes) : bool :=
  let '(typ, rest) := consumeToken s in
  if decide (typ = []) then false
  else if decide (rest = []) then true
  else if HasPrefix rest (str "/") then
    let '(subtype, rest) := consumeToken (drop 1 rest) in
    negb (bytes_eqb subtype []) && bytes_eqb rest []
  else false.

(** [isTSpecial]. *)
Definition tspecial (c : byte) : bool := oneOf c (str "()<>@,;:\/[]?=") || bool_decide (c = Byte.x22).

(** The quoted string after its opening quote; [None] when it is not
    closed. *)
Fixpoint consumeQuoted (v : bytes) : option (bytes * bytes) :=
  match v with
  | [] => None
  | c :: v' =>
      if decide (c = Byte.x22) then Some ([], v')
      else if decide (c = Byte.x5c) then
        match v' with
        | d :: v'' =>
            if tspecial d then '(s, r) ← consumeQuoted v''; Some (d :: s, r)
            else '(s, r) ← consumeQuoted v'; Some (c :: s, r)
        | [] => None
        end
      else if oneOf c [Byte.x0d; Byte.x0a] then None
      else '(s, r) ← consumeQuoted v'; Some (c :: s, r)
  end.

Definition consumeValue (v : bytes) : bytes * bytes :=
  match v with
  | [] => ([], [])
  | c :: v' =>
      if decide (c = Byte.x22)
      then match consumeQuoted v' with Some r => r | None => ([], v) end
      else consumeToken v
  end.

(** [strings.TrimLeftFunc(s, unicode.IsSpace)]. *)
Definition TrimLeftSpace (s : bytes) : bytes := trim_left_fuel (length s) s.

(** [consumeMediaParam]: [None] is the empty key. *)
Definition consumeMediaParam (v : bytes) : option (bytes * bytes * bytes) :=
  let rest := TrimLeftSpace v in
  if HasPrefix rest (str ";") then
    let rest := TrimLeftSpace (drop 1 rest) in
    let '(param, rest) := consumeToken rest in
    let param := map lowerASCII param in
    if decide (param = []) then None
    else
      let rest := TrimLeftSpace rest in
      if HasPrefix rest (str "=") then
        let rest := TrimLeftSpace (drop 1 rest) in
        let '(value, rest2) := consumeValue rest in
        if bytes_eqb value [] && bytes_eqb rest2 rest then None
        else Some (param, value, rest2)
      else None
  else None.

Fixpoint assoc {A} (k : bytes) (l : list (bytes * A)) : option A :=
  match l with
  | [] => None
  | (k', v) :: l' => if decide (k' = k) then Some v else assoc k l'
  end.

(** All the parameters, in order; a repeated name must repeat its value.
    Each parameter consumes bytes, so the length is enough fuel. *)
Fixpoint mediaParams (fuel : nat) (v : bytes) (acc : list (bytes * bytes)) : option (list (bytes * bytes)) :=
  let v := TrimLeftSpace v in
  match fuel with
  | O => Some acc
  | S fuel' =>
      if decide (v = []) then Some acc
      else match consumeMediaParam v with
      | None => if decide (TrimSpace v = str ";") then Some acc else None
      | Some (key, value, rest) =>
          match assoc key acc with
          | Some old => if decide (old = value) then mediaParams fuel' rest acc else None
          | None => mediaParams fuel' rest (acc ++ [(key, value)])
          end
      end
  end.

Fixpoint percentHexUnescape (s : bytes) : option bytes :=
  match s with
  | [] => Some []
  | c :: s1 =>
      if decide (c = "%"%byte) then
        match s1 with
        | a :: b :: s2 =>
            if ishex a && ishex b then r ← percentHexUnescape s2; Some (hexByte a b :: r) else None
        | _ => None
        end
      else r ← percentHexUnescape s1; Some (c :: r)
  end.

Definition decode2231Enc (v : bytes) : option bytes :=
  '(charset, rest) ← Cut v (str "'");
  '(_, enc) ← Cut rest (str "'");
  let charset := map lowerASCII charset in
  if decide (charset = str "us-ascii") then percentHexUnescape enc
  else if decide (charset = str "utf-8") then percentHexUnescape enc
  else None.

(** The pieces "key*0", "key*1*", ... of a continuation. *)
Fixpoint stitch (fuel n : nat) (key : bytes) (pieces : list (bytes * bytes)) (valid : bool) (buf : bytes)
    : option bytes :=
  match fuel with
  | O => if valid then Some buf else None
  | S fuel' =>
      let part := key ++ str "*" ++ Itoa (Z.of_nat n) in
      match assoc part pieces with
      | Some v => stitch fuel' (S n) key pieces true (buf ++ v)
      | None =>
          match assoc (part ++ str "*") pieces with
          | None => if valid then Some buf else None
          | Some v =>
              let dec := if n =? 0 then default [] (decode2231Enc v)
                         else default [] (percentHexUnescape v) in
              stitch fuel' (S n) key pieces true (buf ++ dec)
          end
      end
  end.

(** [params[key]] after the continuations are put together. *)
Definition mediaParam (params : list (bytes * bytes)) (key : bytes) : option bytes :=
  let plain := assoc key params in
  let pieces := filter (fun kv => Contains kv.1 (str "*") = true /\ before_byte kv.1 "*" = key) params in
  if decide (pieces = []) then plain
  else match assoc (key ++ str "*") pieces with
  | Some v => match decode2231Enc v with Some d => Some d | None => plain end
  | None => match stitch (length pieces) 0 key pieces false [] with Some b => Some b | None => plain end
  end.

Definition ParseMediaType `{UnicodeTables} (v : bytes) : option (bytes * list (bytes * bytes)) :=
  let base := before_byte v ";" in
  let mediatype := TrimSpace (ToLower base) in
  if checkMediaTypeDisposition mediatype then
    params ← mediaParams (S (length v)) (drop (length base) v) [];
    Some (mediatype, params)
  else None.
