(* ===== verification/DomainTrie.v ===== *)
(** * The domain trie (proxy/domain_rules.go)

    [domainTrie] is how every domain list of the proxy is matched: a label
    trie built by [Add], flattened by [Compile] into two arrays indexed by
    uint32, and searched by [Match] from the last label of the host with a
    binary search at every node.

    The file models the trie as the code has it, with its flat arrays and its
    32-bit indices, and proves that a compiled trie matches exactly the hosts
    that have one of the added domains as a label suffix ([Module spec]). *)

From S2P Require Import Prelude GoStrings.

(** ** Data *)

Record flatNode := FlatNode {
  fn_blocked : bool;
  firstChild : Z;
  childCount : Z;
}.

Record flatTransition := FlatTransition {
  ft_label : bytes;
  ft_node : Z;
}.

(** The Go map of children is an association list with distinct keys: the
    code reads it by key and through the sorted list of its keys only. *)
Inductive builderNode := BuilderNode (blocked : bool) (children : list (bytes * builderNode)).

Definition bn_blocked (n : builderNode) : bool := let 'BuilderNode b _ := n in b.
Definition bn_children (n : builderNode) : list (bytes * builderNode) :=
  let 'BuilderNode _ cs := n in cs.

Record domainTrie := DomainTrie {
  builderRoot : option builderNode;
  flatNodes : list flatNode;
  flatTransitions : list flatTransition;
  flatRootBlocked : bool;
  compiled : bool;
}.

(** The zero value of the Go struct. *)
Definition emptyTrie : domainTrie := DomainTrie None [] [] false false.

(** ** Normalisation of domain names *)

Section operations.
Context `{UnicodeTables}.

Definition normalizedDomain (host : bytes) : bytes :=
  let host := TrimSpace (ToLower host) in
  let host := TrimPrefix host (str ".") in
  let host := TrimSuffix host (str ".") in
  if bytes_eqb host [] || Contains host (str "/") then [] else host.

Definition normalizedDomainLabels (host : bytes) : list bytes :=
  let host := normalizedDomain host in
  if bytes_eqb host [] || Contains host (str "/") then [] else FieldsByte host ".".

(** ** Add *)

Fixpoint child {A} (cs : list (bytes * A)) (label : bytes) : option A :=
  match cs with
  | [] => None
  | (l, c) :: cs' => if decide (l = label) then Some c else child cs' label
  end.

Fixpoint set_child {A} (cs : list (bytes * A)) (label : bytes) (n : A) : list (bytes * A) :=
  match cs with
  | [] => [(label, n)]
  | (l, c) :: cs' =>
      if decide (l = label) then (l, n) :: cs' else (l, c) :: set_child cs' label n
  end.

(** The loop of [Add], from the last label of the domain to its first. *)
Fixpoint insertPath (n : builderNode) (path : list bytes) : builderNode :=
  match path with
  | [] => BuilderNode true (bn_children n)
  | label :: path' =>
      let next := default (BuilderNode false []) (child (bn_children n) label) in
      BuilderNode (bn_blocked n) (set_child (bn_children n) label (insertPath next path'))
  end.

Definition Add (t : domainTrie) (domain : bytes) : domainTrie :=
  let labels := normalizedDomainLabels domain in
  if decide (labels = []) then t
  else
    let root := default (BuilderNode false []) (builderRoot t) in
    DomainTrie (Some (insertPath root (rev labels)))
      (flatNodes t) (flatTransitions t) (flatRootBlocked t) false.

(** ** Compile *)

Definition bytes_le (a b : bytes) : Prop := bytes_ltb b a = false.
#[global] Instance bytes_le_dec a b : Decision (bytes_le a b).
Proof. unfold bytes_le. apply _. Defined.

(** [sort.Strings]. *)
Definition sortStrings (l : list bytes) : list bytes := merge_sort bytes_le l.

(** [buildFlat]; the fuel bounds the depth of the recursion (see
    [height]). *)
Fixpoint buildFlat (fuel : nat) (n : builderNode)
    (nodes : list flatNode) (trans : list flatTransition)
    : Z * list flatNode * list flatTransition :=
  let nodeIdx := u32 (Z.of_nat (length nodes)) in
  let nodes := nodes ++ [FlatNode (bn_blocked n) 0 0] in
  match fuel, bn_children n with
  | O, _ | _, [] => (nodeIdx, nodes, trans)
  | S fuel', cs =>
      let labels := sortStrings (map fst cs) in
      let first := u32 (Z.of_nat (length trans)) in
      let count := u32 (Z.of_nat (length labels)) in
      let transStart := length trans in
      let trans := trans ++ map (fun l => FlatTransition l 0) labels in
      let '(_, nodes, trans) :=
        fold_left
          (fun '(i, nodes, trans) label =>
             match child cs label with
             | None => (S i, nodes, trans)
             | Some c =>
                 let '(childIdx, nodes, trans) := buildFlat fuel' c nodes trans in
                 (S i, nodes, <[transStart + i := FlatTransition label childIdx]> trans)
             end)
          labels (0, nodes, trans) in
      let nodes := alter (fun fn => FlatNode (fn_blocked fn) first count)
                     (Z.to_nat nodeIdx) nodes in
      (nodeIdx, nodes, trans)
  end.

Fixpoint height (n : builderNode) : nat :=
  let 'BuilderNode _ cs := n in S (max_list (map (fun p => height (snd p)) cs)).

Definition Compile (t : domainTrie) : domainTrie :=
  if compiled t then t
  else match builderRoot t with
  | None => DomainTrie None (flatNodes t) (flatTransitions t) (flatRootBlocked t) true
  | Some root =>
      let '(_, nodes, trans) := buildFlat (height root) root [] [] in
      DomainTrie None nodes trans (bn_blocked root) true
  end.

(** ** Match *)

Fixpoint search_loop (fuel : nat) (trans : list flatTransition) (low high : Z) (label : bytes)
    : option Z :=
  match fuel with
  | O => None
  | S fuel' =>
      if (low <? high)%Z then
        let mid := u32 (low + u32 (high - low) / 2) in
        match trans !! Z.to_nat mid with
        | None => None
        | Some tr =>
            if decide (ft_label tr = label) then Some mid
            else if bytes_ltb (ft_label tr) label
            then search_loop fuel' trans (u32 (mid + 1)) high label
            else search_loop fuel' trans low mid label
        end
      else None
  end.

(** The range halves at every turn; its length plus one is enough fuel. *)
Definition binarySearchTransition (t : domainTrie) (start stop : Z) (label : bytes) : option Z :=
  search_loop (S (Z.to_nat (stop - start))) (flatTransitions t) start stop label.

(** One label from the end of [host[:end]]: the label and the new [end]. *)
Definition lastLabel (host : bytes) (stop : nat) : bytes * nat :=
  match LastIndexByte (take stop host) "." with
  | None => (take stop host, 0)
  | Some start => (drop (S start) (take stop host), start)
  end.

(** The loop of [Match]; [None] is an index out of range.  [end] decreases,
    so the length of the host plus one is enough fuel. *)
Fixpoint match_loop (fuel : nat) (t : domainTrie) (host : bytes) (stop : nat) (nodeIdx : Z)
    : option bool :=
  match fuel with
  | O => None
  | S fuel' =>
      match stop with
      | O => fn_blocked <$> flatNodes t !! Z.to_nat nodeIdx
      | S _ =>
          let '(label, stop') := lastLabel host stop in
          if decide (label = []) then match_loop fuel' t host stop' nodeIdx
          else
            node ← flatNodes t !! Z.to_nat nodeIdx;
            if (childCount node =? 0)%Z then Some false
            else match binarySearchTransition t (firstChild node)
                         (u32 (firstChild node + childCount node)) label with
            | None => Some false
            | Some found =>
                tr ← flatTransitions t !! Z.to_nat found;
                next ← flatNodes t !! Z.to_nat (ft_node tr);
                if fn_blocked next then Some true
                else match_loop fuel' t host stop' (ft_node tr)
            end
      end
  end.

(** [Match] on a trie that is already compiled, as an outcome ([None] is a
    run-time panic). *)
Definition match_compiled (t : domainTrie) (host : bytes) : option bool :=
  let host := normalizedDomain host in
  if decide (host = []) then Some false
  else if flatRootBlocked t then Some true
  else if decide (flatNodes t = []) then Some false
  else match_loop (S (length host)) t host (length host) 0.

(** [Match]: compiles first when needed, and leaves the compiled trie. *)
Definition MatchCompile (t : domainTrie) (host : bytes) : option bool * domainTrie :=
  let t := Compile t in (match_compiled t host, t).

Definition Match (t : domainTrie) (host : bytes) : bool :=
  default false (fst (MatchCompile t host)).

(** [for _, d := range domains { t.Add(d) }; t.Compile()]. *)
Definition trieOf (domains : list bytes) : domainTrie :=
  Compile (fold_left Add domains emptyTrie).

End operations.

#[global] Arguments normalizedDomain : simpl never.
#[global] Arguments normalizedDomainLabels : simpl never.

(** ** Abstract specification

    What a set of domains promises: a host matches when the labels of one of
    the domains are a suffix of its own. *)
Module spec.
Section spec.
Context `{UnicodeTables}.

Definition covers (domain host : bytes) : Prop :=
  normalizedDomainLabels domain <> [] /\
  normalizedDomainLabels domain `suffix_of` normalizedDomainLabels host.

Definition Match (domains : list bytes) (host : bytes) : Prop :=
  Exists (fun d => covers d host) domains.

End spec.
End spec.

(** ** The builder tree *)

Fixpoint size (n : builderNode) : nat :=
  let 'BuilderNode _ cs := n in S (sum_list (map (fun p => size (snd p)) cs)).

(** Some blocked node lies strictly below [n] on the path [q]. *)
Fixpoint tree_match (n : builderNode) (q : list bytes) : bool :=
  match q with
  | [] => false
  | l :: q' =>
      match child (bn_children n) l with
      | None => false
      | Some c => bn_blocked c || tree_match c q'
      end
  end.

Definition tree_reach (n : builderNode) (q : list bytes) : bool :=
  bn_blocked n || tree_match n q.

Inductive wf : builderNode -> Prop :=
| wf_node b cs :
    NoDup (map fst cs) -> (forall l c, (l, c) ∈ cs -> wf c) -> wf (BuilderNode b cs).

Section assoc.
Context {A : Type}.
Implicit Types cs : list (bytes * A).

Lemma child_set_child cs l l' n :
  child (set_child cs l n) l' = if decide (l = l') then Some n else child cs l'.
Proof.
  induction cs as [|[k c] cs IH]; simpl; [done|].
  destruct (decide (k = l)) as [->|Hne]; simpl.
  - by destruct (decide (l = l')).
  - rewrite IH. repeat case_decide; congruence.
Qed.

Lemma child_elem cs l c : child cs l = Some c -> (l, c) ∈ cs.
Proof.
  induction cs as [|[k d] cs IH]; simpl; [done|].
  case_decide; intros; simplify_eq; set_solver.
Qed.

Lemma child_is_Some cs l : is_Some (child cs l) <-> l ∈ map fst cs.
Proof.
  induction cs as [|[k d] cs IH]; simpl.
  - split; [intros [? ?]; done|]. intros H; inv H.
  - case_decide; subst; [split; eauto; left|].
    rewrite IH, elem_of_cons. naive_solver.
Qed.

Lemma set_child_keys cs l n :
  map fst (set_child cs l n) = map fst cs ++ (if decide (l ∈ map fst cs) then [] else [l]).
Proof.
  induction cs as [|[k c] cs IH]; simpl; [done|].
  destruct (decide (k = l)) as [->|Hne]; simpl.
  - rewrite decide_True by left. by rewrite app_nil_r.
  - rewrite IH. f_equal. f_equal. by repeat case_decide; set_solver.
Qed.

Lemma set_child_elem cs l n l' c :
  (l', c) ∈ set_child cs l n -> (l', c) = (l, n) \/ (l', c) ∈ cs.
Proof.
  induction cs as [|[k d] cs IH]; simpl; [set_solver|].
  case_decide; set_solver.
Qed.

Lemma set_child_sum (f : A -> nat) cs l n :
  NoDup (map fst cs) ->
  sum_list (map (fun p => f (snd p)) (set_child cs l n)) + from_option f 0 (child cs l)
  = sum_list (map (fun p => f (snd p)) cs) + f n.
Proof.
  induction cs as [|[k d] cs IH]; simpl; intros Hnd; [lia|].
  apply NoDup_cons in Hnd as [_ Hnd]. specialize (IH Hnd).
  case_decide; simpl; lia.
Qed.
End assoc.

Lemma insertPath_reach p n q :
  tree_reach (insertPath n p) q = tree_reach n q || bool_decide (p `prefix_of` q).
Proof.
  revert n q. induction p as [|l p IH]; intros n q.
  { rewrite bool_decide_true by apply prefix_nil. unfold tree_reach. simpl.
    by rewrite orb_true_r. }
  unfold tree_reach at 1. simpl. destruct q as [|l' q]; simpl.
  { unfold tree_reach. simpl. by rewrite !orb_false_r. }
  unfold tree_reach at 1. simpl. rewrite child_set_child. destruct (decide (l = l')) as [<-|Hne].
  - specialize (IH (default (BuilderNode false []) (child (bn_children n) l)) q).
    unfold tree_reach in IH. rewrite IH.
    assert (bool_decide (l :: p `prefix_of` l :: q) = bool_decide (p `prefix_of` q)) as ->.
    { apply bool_decide_ext. split; [apply prefix_cons_inv_2|apply prefix_cons]. }
    destruct (child (bn_children n) l); simpl; [by rewrite !orb_assoc|].
    destruct q; simpl; by rewrite ?orb_false_l, ?orb_false_r.
  - rewrite (bool_decide_false (l :: p `prefix_of` l' :: q)); [by rewrite orb_false_r|].
    intros Hp. by apply prefix_cons_inv_1 in Hp.
Qed.

Lemma insertPath_blocked n p :
  p <> [] -> bn_blocked (insertPath n p) = bn_blocked n.
Proof. by destruct p. Qed.

Lemma wf_child b cs l c : wf (BuilderNode b cs) -> child cs l = Some c -> wf c.
Proof. intros Hwf Hc. inv Hwf. eauto using child_elem. Qed.

Lemma insertPath_wf p n : wf n -> wf (insertPath n p).
Proof.
  revert n. induction p as [|l p IH]; intros [b cs] Hwf; simpl.
  { inv Hwf. by constructor. }
  constructor.
  - rewrite set_child_keys. inv Hwf. case_decide; [by rewrite app_nil_r|].
    apply NoDup_app. split_and!; [done|set_solver|apply NoDup_singleton].
  - intros l' c [Heq|Hin]%set_child_elem; [simplify_eq|inv Hwf; eauto].
    apply IH. destruct (child cs l) eqn:Hc; simpl; [eauto using wf_child|].
    constructor; [constructor|]. intros ? ? Hin; inv Hin.
Qed.

Lemma insertPath_size p n : wf n -> size (insertPath n p) <= size n + length p.
Proof.
  revert n. induction p as [|l p IH]; intros [b cs] Hwf; simpl; [lia|].
  pose proof Hwf as Hwf'. inv Hwf'.
  set (next := default (BuilderNode false []) (child cs l)).
  assert (wf next) as Hnext.
  { unfold next. destruct (child cs l) eqn:Hc; simpl; [eauto using wf_child|].
    constructor; [constructor|]. intros ? ? Hin; inv Hin. }
  specialize (IH next Hnext).
  pose proof (set_child_sum size cs l (insertPath next p)) as Hsum.
  specialize (Hsum ltac:(done)).
  assert (size next <= S (from_option size 0 (child cs l))).
  { unfold next. destruct (child cs l); simpl; lia. }
  lia.
Qed.

(** ** The flat arrays represent the tree

    [Rep nodes trans n0 n1 t0 t1 idx n]: index [idx] of the arrays holds the
    tree [n], using nodes [n0, n1) and transitions [t0, t1) only. *)
Inductive Rep (nodes : list flatNode) (trans : list flatTransition) (n0 n1 t0 t1 : nat)
    : Z -> builderNode -> Prop :=
| Rep_node idx n first labels (ci : nat -> Z) :
    (0 <= idx)%Z -> (0 <= first)%Z ->
    n0 <= Z.to_nat idx < n1 ->
    (labels <> [] -> t0 <= Z.to_nat first /\ Z.to_nat first + length labels <= t1) ->
    nodes !! Z.to_nat idx = Some (FlatNode (bn_blocked n) first (Z.of_nat (length labels))) ->
    (forall l, is_Some (child (bn_children n) l) <-> l ∈ labels) ->
    StronglySorted bytes_le labels ->
    (forall i l, labels !! i = Some l ->
       trans !! (Z.to_nat first + i) = Some (FlatTransition l (ci i))) ->
    (forall i l c, labels !! i = Some l -> child (bn_children n) l = Some c ->
       Rep nodes trans n0 n1 t0 t1 (ci i) c) ->
    Rep nodes trans n0 n1 t0 t1 idx n.

Lemma Rep_frame nodes trans n0 n1 t0 t1 nodes' trans' n0' n1' t0' t1' idx n :
  Rep nodes trans n0 n1 t0 t1 idx n ->
  (forall i, n0 <= i < n1 -> nodes' !! i = nodes !! i) ->
  (forall i, t0 <= i < t1 -> trans' !! i = trans !! i) ->
  n0' <= n0 -> n1 <= n1' -> t0' <= t0 -> t1 <= t1' ->
  Rep nodes' trans' n0' n1' t0' t1' idx n.
Proof.
  intros HR Hn Ht ? ? ? ?.
  induction HR as [idx n first labels ci ? ? Hidx Hfirst Hnode Hdom Hsort Htr Hch IH].
  econstructor; eauto.
  - lia.
  - intros Hne. specialize (Hfirst Hne). lia.
  - rewrite Hn by lia. done.
  - intros i l Hi. rewrite Ht; [by apply Htr|].
    pose proof (lookup_lt_Some _ _ _ Hi). destruct labels; [done|]. specialize (Hfirst ltac:(done)).
    simpl in *. lia.
Qed.

Lemma u32_small z : (0 <= z < 2 ^ 32)%Z -> u32 z = z.
Proof. apply Z.mod_small. Qed.

#[global] Instance bytes_le_total : Total bytes_le.
Proof.
  intros a b. unfold bytes_le. destruct (bytes_ltb b a) eqn:E; [|by left]. right.
  apply not_true_is_false. intros E'. pose proof (bytes_ltb_trans _ _ _ E E').
  rewrite bytes_ltb_irrefl in *. done.
Qed.

#[global] Instance bytes_le_trans : Transitive bytes_le.
Proof.
  intros a b c Hab Hbc. unfold bytes_le in *. apply not_true_is_false. intros Hca.
  destruct (decide (b = c)) as [->|Hne]; [congruence|].
  pose proof (bytes_ltb_total c b ltac:(congruence) Hbc) as H1.
  pose proof (bytes_ltb_trans _ _ _ H1 Hca). congruence.
Qed.

Lemma sortStrings_perm l : sortStrings l ≡ₚ l.
Proof. apply merge_sort_Permutation. Qed.

Lemma sortStrings_sorted l : StronglySorted bytes_le (sortStrings l).
Proof. apply StronglySorted_merge_sort; apply _. Qed.

(** The sizes of the children named by [labels]. *)
Definition labels_size (cs : list (bytes * builderNode)) (labels : list bytes) : nat :=
  sum_list_with (fun l => from_option size 0 (child cs l)) labels.

Lemma labels_size_perm cs l1 l2 : l1 ≡ₚ l2 -> labels_size cs l1 = labels_size cs l2.
Proof. intros Hp. unfold labels_size. induction Hp; simpl; lia. Qed.

Lemma labels_size_skip cs k d labels :
  k ∉ labels -> labels_size ((k, d) :: cs) labels = labels_size cs labels.
Proof.
  induction labels as [|l labels IH]; [done|]. intros Hk.
  unfold labels_size in *. cbn [sum_list_with]. rewrite IH by set_solver.
  simpl. by rewrite decide_False by set_solver.
Qed.

Lemma labels_size_all cs :
  NoDup (map fst cs) ->
  labels_size cs (map fst cs) = sum_list (map (fun p => size (snd p)) cs).
Proof.
  induction cs as [|[k d] cs IH]; [done|]. simpl. rewrite NoDup_cons. intros [Hk Hnd].
  specialize (IH Hnd). pose proof (labels_size_skip cs k d _ Hk) as Hs.
  unfold labels_size in *. cbn [sum_list_with]. rewrite Hs. simpl.
  rewrite decide_True by done. simpl. by rewrite IH.
Qed.

Lemma size_pos n : 1 <= size n.
Proof. destruct n. simpl. lia. Qed.

Lemma labels_size_length cs ls :
  (forall l, l ∈ ls -> is_Some (child cs l)) -> length ls <= labels_size cs ls.
Proof.
  induction ls as [|l ls IH]; [done|]. intros Hls.
  destruct (Hls l ltac:(left)) as [c Hc]. pose proof (size_pos c).
  specialize (IH ltac:(set_solver)). unfold labels_size in *. simpl. rewrite Hc. simpl. lia.
Qed.

Lemma height_child b cs l c : child cs l = Some c -> height c < height (BuilderNode b cs).
Proof.
  intros Hc. apply child_elem in Hc. simpl.
  enough (height c <= max_list (map (fun p => height (snd p)) cs)) by lia.
  induction cs as [|[k d] cs IH]; simpl; [inv Hc|].
  apply elem_of_cons in Hc as [?|Hin]; simplify_eq/=; [lia|]. specialize (IH Hin). lia.
Qed.

(** What [buildFlat] does to the arrays, as a postcondition. *)
Definition built (n : builderNode) nodes trans (r : Z * list flatNode * list flatTransition) : Prop :=
  let '(idx, nodes', trans') := r in
  idx = Z.of_nat (length nodes) /\
  (exists ns, nodes' = nodes ++ ns /\ length ns = size n) /\
  (exists ts, trans' = trans ++ ts /\ S (length ts) = size n) /\
  Rep nodes' trans' (length nodes) (length nodes') (length trans) (length trans') idx n.

Section loop.
Context (build : builderNode -> list flatNode -> list flatTransition
                 -> Z * list flatNode * list flatTransition).
Context (cs : list (bytes * builderNode)) (labels : list bytes).
Context (pre : list flatNode) (tpre : list flatTransition).

Definition build_step : nat * list flatNode * list flatTransition -> bytes
                        -> nat * list flatNode * list flatTransition :=
  fun '(i, nodes, trans) label =>
    match child cs label with
    | None => (S i, nodes, trans)
    | Some c =>
        let '(childIdx, nodes, trans) := build c nodes trans in
        (S i, nodes, <[length tpre + i := FlatTransition label childIdx]> trans)
    end.

(** The first [i] labels are done; their subtrees live beyond [pre] and
    beyond the block of transitions of this node. *)
Definition loop_inv (i : nat) (nodes : list flatNode) (trans : list flatTransition) : Prop :=
  exists ns ts lab (ci : nat -> Z),
    nodes = pre ++ ns /\ trans = tpre ++ lab ++ ts /\ length lab = length labels /\
    (forall j l, labels !! j = Some l ->
       lab !! j = Some (FlatTransition l (if decide (j < i) then ci j else 0%Z))) /\
    (forall j l c, j < i -> labels !! j = Some l -> child cs l = Some c ->
       Rep nodes trans (length pre) (length nodes)
           (length tpre + length labels) (length trans) (ci j) c) /\
    length ns = labels_size cs (take i labels) /\ length ts + i = length ns.

Lemma build_loop_init :
  loop_inv 0 pre (tpre ++ map (fun l => FlatTransition l 0) labels).
Proof.
  exists [], [], (map (fun l => FlatTransition l 0) labels), (fun _ => 0%Z).
  rewrite !app_nil_r. split_and!; try done.
  - by rewrite length_map.
  - intros j l Hj. rewrite decide_False by lia. by rewrite list_lookup_fmap, Hj.
  - lia.
Qed.

Context (Hbuild : forall l c nodes trans,
  child cs l = Some c ->
  (Z.of_nat (length nodes + size c) <= 2 ^ 32)%Z ->
  (Z.of_nat (length trans + size c) <= 2 ^ 32)%Z ->
  built c nodes trans (build c nodes trans)).
Context (Hdom : forall l, l ∈ labels -> is_Some (child cs l)).
Context (Hn : (Z.of_nat (length pre + labels_size cs labels) <= 2 ^ 32)%Z).
Context (Ht : (Z.of_nat (length tpre + S (labels_size cs labels)) <= 2 ^ 32)%Z).

Lemma labels_size_take_S i l c :
  labels !! i = Some l -> child cs l = Some c ->
  labels_size cs (take (S i) labels) = labels_size cs (take i labels) + size c.
Proof.
  intros Hi Hc. rewrite (take_S_r _ _ _ Hi). unfold labels_size.
  rewrite sum_list_with_app. simpl. rewrite Hc. simpl. lia.
Qed.

Lemma labels_size_take_le i :
  labels_size cs (take i labels) + (length labels - i) <= labels_size cs labels.
Proof.
  rewrite <- (take_drop i labels) at 3. unfold labels_size. rewrite sum_list_with_app.
  pose proof (labels_size_length cs (drop i labels)) as Hd. rewrite length_drop in Hd.
  unfold labels_size in Hd. specialize (Hd ltac:(intros ? ?%subseteq_drop; eauto)). lia.
Qed.

Lemma build_step_inv i l nodes trans :
  labels !! i = Some l -> loop_inv i nodes trans ->
  let '(i', nodes', trans') := build_step (i, nodes, trans) l in
  i' = S i /\ loop_inv i' nodes' trans'.
Proof.
  intros Hi (ns & ts & lab & ci & -> & -> & Hlen & Hlab & Hrep & Hns & Hts).
  pose proof (lookup_lt_Some _ _ _ Hi) as Hlt.
  destruct (Hdom l) as [c Hc]; [by eapply list_elem_of_lookup_2|].
  pose proof (labels_size_take_S _ _ _ Hi Hc) as Hsz.
  pose proof (labels_size_take_le (S i)) as Hle.
  unfold build_step. rewrite Hc.
  pose proof (Hbuild l c (pre ++ ns) (tpre ++ lab ++ ts) Hc) as HB.
  destruct (build c _ _) as [[idx nodes'] trans'].
  destruct HB as (-> & (ns' & -> & Hns') & (ts' & -> & Hts') & HR).
  { rewrite !length_app. lia. }
  { rewrite !length_app. lia. }
  split; [done|].
  exists (ns ++ ns'), (ts ++ ts'), (<[i := FlatTransition l (Z.of_nat (length (pre ++ ns)))]> lab),
    (fun j => if decide (j = i) then Z.of_nat (length (pre ++ ns)) else ci j).
  assert (HT : <[length tpre + i:=FlatTransition l (Z.of_nat (length (pre ++ ns)))]>
            ((tpre ++ lab ++ ts) ++ ts') =
          tpre ++ <[i:=FlatTransition l (Z.of_nat (length (pre ++ ns)))]> lab ++ ts ++ ts').
  { rewrite <- !app_assoc, insert_app_r_alt by lia.
    rewrite insert_app_l by lia. do 3 f_equal. lia. }
  split; [by rewrite app_assoc|]. split; [exact HT|]. split; [by rewrite length_insert|].
  split; [|split; [|rewrite !length_app; lia]].
  - intros j l' Hj. destruct (decide (j = i)) as [->|Hne].
    + simplify_eq. rewrite decide_True by lia. apply list_lookup_insert_eq. lia.
    + rewrite list_lookup_insert_ne by done. rewrite (Hlab _ _ Hj).
      repeat case_decide; first [done|lia].
  - intros j l' c' Hji Hj Hc'. rewrite HT. rewrite <- HT.
    destruct (decide (j = i)) as [->|Hne].
    + simplify_eq. eapply Rep_frame; [exact HR| |..]; rewrite ?length_insert, ?length_app in *; try lia; [done|].
      intros k Hk. rewrite list_lookup_insert_ne by lia. done.
    + eapply Rep_frame; [eapply (Hrep j); eauto; lia|..];
        rewrite ?length_insert, ?length_app in *; try lia.
      * intros k Hk. rewrite (lookup_app_l (pre ++ ns)); [done|]. rewrite length_app. lia.
      * intros k Hk. rewrite list_lookup_insert_ne by lia.
        rewrite (lookup_app_l (tpre ++ lab ++ ts)); [done|]. rewrite !length_app. lia.
Qed.

Lemma build_loop_inv nodes trans i :
  i <= length labels -> loop_inv i nodes trans ->
  let '(_, nodes', trans') := fold_left build_step (drop i labels) (i, nodes, trans) in
  loop_inv (length labels) nodes' trans'.
Proof.
  remember (length labels - i) as k eqn:Hk. revert i nodes trans Hk.
  induction k as [|k IH]; intros i nodes trans Hk Hi HI.
  - assert (i = length labels) as -> by lia. by rewrite drop_ge.
  - destruct (lookup_lt_is_Some_2 labels i) as [l Hl]; [lia|].
    rewrite (drop_S _ _ _ Hl). cbn [fold_left].
    pose proof (build_step_inv i l nodes trans Hl HI) as Hstep.
    destruct (build_step (i, nodes, trans) l) as [[i' nodes'] trans'].
    destruct Hstep as [-> HI']. apply IH; [lia..|done].
Qed.

End loop.

Lemma size_labels b cs :
  NoDup (map fst cs) ->
  size (BuilderNode b cs) = S (labels_size cs (sortStrings (map fst cs))).
Proof.
  intros Hnd. simpl. by rewrite (labels_size_perm _ _ _ (sortStrings_perm _)), labels_size_all.
Qed.

Lemma buildFlat_leaf fuel b nodes trans :
  (Z.of_nat (length nodes) < 2 ^ 32)%Z ->
  built (BuilderNode b []) nodes trans (buildFlat fuel (BuilderNode b []) nodes trans).
Proof.
  intros Hn.
  assert (buildFlat fuel (BuilderNode b []) nodes trans =
    (Z.of_nat (length nodes), nodes ++ [FlatNode b 0 0], trans)) as ->.
  { destruct fuel; simpl; rewrite u32_small by lia; done. }
  split_and!; [done|by eexists|by exists []; rewrite app_nil_r|].
  apply Rep_node with (first := 0%Z) (labels := []) (ci := fun _ => 0%Z); simpl;
    rewrite ?length_app, ?Nat2Z.id; simpl; try lia; try done.
  - by rewrite lookup_app_r, Nat.sub_diag by lia.
  - intros l. split; [intros [? ?]; done|]. intros Hl; inv Hl.
  - constructor.
Qed.

Lemma loop_inv_built b cs labels nodes trans nodes' trans' :
  loop_inv cs labels (nodes ++ [FlatNode b 0 0]) trans (length labels) nodes' trans' ->
  (forall l, is_Some (child cs l) <-> l ∈ labels) ->
  StronglySorted bytes_le labels ->
  size (BuilderNode b cs) = S (labels_size cs labels) ->
  built (BuilderNode b cs) nodes trans
    (Z.of_nat (length nodes),
     alter (fun fn => FlatNode (fn_blocked fn) (Z.of_nat (length trans)) (Z.of_nat (length labels)))
       (length nodes) nodes', trans').
Proof.
  intros (ns & ts & lab & ci & -> & -> & Hlen & Hlab & Hrep & Hns & Hts) Hdom Hsort Hsz.
  rewrite take_ge in Hns by lia.
  assert (Hlook : forall i, i <> length nodes ->
    alter (fun fn => FlatNode (fn_blocked fn) (Z.of_nat (length trans)) (Z.of_nat (length labels)))
       (length nodes) ((nodes ++ [FlatNode b 0 0]) ++ ns) !! i =
    ((nodes ++ [FlatNode b 0 0]) ++ ns) !! i).
  { intros i Hi. by apply list_lookup_alter_ne. }
  assert (Heq : alter (fun fn => FlatNode (fn_blocked fn) (Z.of_nat (length trans)) (Z.of_nat (length labels)))
       (length nodes) ((nodes ++ [FlatNode b 0 0]) ++ ns) =
       nodes ++ FlatNode b (Z.of_nat (length trans)) (Z.of_nat (length labels)) :: ns).
  { rewrite <- app_assoc. simpl. rewrite alter_app_r_alt, Nat.sub_diag by lia. done. }
  rewrite Heq in *. split_and!.
  - done.
  - eexists; split; [done|]. simpl in *. lia.
  - eexists; split; [done|]. rewrite length_app. simpl in *. lia.
  - apply Rep_node with (first := Z.of_nat (length trans)) (labels := labels) (ci := ci);
      rewrite ?Nat2Z.id, ?length_app; simpl; try lia; try done.
    + by rewrite lookup_app_r, Nat.sub_diag by lia.
    + intros i l Hi. pose proof (lookup_lt_Some _ _ _ Hi).
      rewrite lookup_app_r, lookup_app_l by lia.
      replace (length trans + i - length trans) with i by lia.
      rewrite (Hlab _ _ Hi), decide_True by done. done.
    + intros i l c Hi Hc. pose proof (lookup_lt_Some _ _ _ Hi).
      eapply Rep_frame; [eapply (Hrep i); eauto|..]; rewrite ?length_app; simpl; try lia; [|done].
      intros j Hj. apply Hlook. lia.
Qed.

Lemma buildFlat_node fuel b cs nodes trans :
  cs <> [] ->
  buildFlat (S fuel) (BuilderNode b cs) nodes trans =
  let labels := sortStrings (map fst cs) in
  let nodeIdx := u32 (Z.of_nat (length nodes)) in
  let '(_, nodes', trans') :=
    fold_left (build_step (buildFlat fuel) cs trans) labels
      (0, nodes ++ [FlatNode b 0 0], trans ++ map (fun l => FlatTransition l 0) labels) in
  (nodeIdx,
   alter (fun fn => FlatNode (fn_blocked fn) (u32 (Z.of_nat (length trans)))
                      (u32 (Z.of_nat (length labels)))) (Z.to_nat nodeIdx) nodes', trans').
Proof. by destruct cs. Qed.

Lemma buildFlat_spec fuel n nodes trans :
  height n <= fuel -> wf n ->
  (Z.of_nat (length nodes + size n) <= 2 ^ 32)%Z ->
  (Z.of_nat (length trans + size n) <= 2 ^ 32)%Z ->
  built n nodes trans (buildFlat fuel n nodes trans).
Proof.
  revert n nodes trans. induction fuel as [|fuel IH]; intros [b cs] nodes trans Hh Hwf Hn Ht.
  { simpl in Hh. lia. }
  pose proof (size_pos (BuilderNode b cs)).
  destruct (decide (cs = [])) as [->|Hcs]; [apply buildFlat_leaf; lia|].
  assert (Hnd : NoDup (map fst cs)) by by inv Hwf.
  pose proof (size_labels b cs Hnd) as Hsz. rewrite Hsz in Hn, Ht.
  assert (Hdom : forall l, is_Some (child cs l) <-> l ∈ sortStrings (map fst cs)).
  { intros l. by rewrite child_is_Some, sortStrings_perm. }
  pose proof (sortStrings_sorted (map fst cs)) as Hsort.
  rewrite buildFlat_node by done. cbv zeta.
  set (labels := sortStrings (map fst cs)) in *. clearbody labels.
  pose proof (labels_size_length cs labels (fun l => proj2 (Hdom l))) as Hlen.
  rewrite !u32_small by lia. rewrite Nat2Z.id.
  pose proof (build_loop_inv (buildFlat fuel) cs labels (nodes ++ [FlatNode b 0 0]) trans) as HL.
  specialize (fun A B C D => HL A B C D _ _ 0 (Nat.le_0_l _) (build_loop_init _ _ _ _)).
  rewrite drop_0 in HL.
  destruct (fold_left _ _ _) as [[? nodes'] trans'].
  apply loop_inv_built; try done. apply HL.
  - intros l c nodes1 trans1 Hc ? ?. pose proof (height_child b cs l c Hc).
    apply IH; [lia|by eapply wf_child|done..].
  - intros l. apply Hdom.
  - rewrite length_app. simpl. lia.
  - lia.
Qed.

(** ** Binary search on a block of sorted transitions *)

Lemma sorted_lookup_le labels i j a b :
  StronglySorted bytes_le labels -> labels !! i = Some a -> labels !! j = Some b ->
  i <= j -> bytes_le a b.
Proof.
  intros HS. revert i j. induction HS as [|x l HS IH HF]; intros i j Hi Hj Hij; [done|].
  destruct i as [|i], j as [|j]; simplify_eq/=; try lia.
  - unfold bytes_le. apply bytes_ltb_irrefl.
  - rewrite Forall_forall in HF. apply HF. by eapply list_elem_of_lookup_2.
  - apply (IH i j); [done..|lia].
Qed.

Section search.
Context (trans : list flatTransition) (first : nat) (labels : list bytes).
Context (Hblock : forall i l, labels !! i = Some l ->
  exists z, trans !! (first + i) = Some (FlatTransition l z)).
Context (Hsorted : StronglySorted bytes_le labels).
Context (Hbound : (Z.of_nat (first + length labels) < 2 ^ 32)%Z).

Lemma search_loop_spec fuel lo hi label :
  hi - lo < fuel -> hi <= length labels ->
  (forall i, labels !! i = Some label -> lo <= i < hi) ->
  match search_loop fuel trans (Z.of_nat (first + lo)) (Z.of_nat (first + hi)) label with
  | Some z => exists i, z = Z.of_nat (first + i) /\ labels !! i = Some label
  | None => label ∉ labels
  end.
Proof.
  revert lo hi. induction fuel as [|fuel IH]; intros lo hi Hf Hhi Hin; [lia|].
  cbn [search_loop]. destruct (Z.ltb_spec (Z.of_nat (first + lo)) (Z.of_nat (first + hi))) as [Hlt|Hge].
  2:{ intros [i Hi]%list_elem_of_lookup. specialize (Hin i Hi). lia. }
  set (m := lo + (hi - lo) / 2).
  assert (Hm : lo <= m < hi).
  { pose proof (Nat.div_lt (hi - lo) 2). unfold m. lia. }
  assert (u32 (Z.of_nat (first + lo) + u32 (Z.of_nat (first + hi) - Z.of_nat (first + lo)) / 2)
          = Z.of_nat (first + m)) as ->.
  { rewrite (u32_small (_ - _)) by lia.
    replace (Z.of_nat (first + hi) - Z.of_nat (first + lo))%Z with (Z.of_nat (hi - lo)) by lia.
    change 2%Z with (Z.of_nat 2). rewrite <- Nat2Z.inj_div. fold m.
    rewrite u32_small; unfold m in *; lia. }
  rewrite Nat2Z.id. destruct (lookup_lt_is_Some_2 labels m) as [l Hl]; [lia|].
  destruct (Hblock m l Hl) as [z ->]. cbn [ft_label].
  destruct (decide (l = label)) as [->|Hne]; [eauto|].
  destruct (bytes_ltb l label) eqn:Elt.
  - replace (u32 (Z.of_nat (first + m) + 1)) with (Z.of_nat (first + S m))
      by (rewrite u32_small; lia).
    apply IH; [lia..|]. intros i Hi. specialize (Hin i Hi).
    destruct (decide (i <= m)); [|lia].
    pose proof (sorted_lookup_le labels i m _ _ Hsorted Hi Hl ltac:(done)) as Hle.
    unfold bytes_le in Hle. congruence.
  - apply IH; [lia..|]. intros i Hi. specialize (Hin i Hi).
    destruct (decide (m <= i)) as [Hmi|]; [|lia].
    destruct (decide (m = i)) as [->|]; [congruence|].
    pose proof (sorted_lookup_le labels m i _ _ Hsorted Hl Hi ltac:(done)) as Hle.
    unfold bytes_le in Hle. pose proof (bytes_ltb_total l label Hne Elt). congruence.
Qed.
End search.

(** ** The matching loop walks the tree *)

Lemma lastLabel_spec host stop label stop' :
  0 < stop <= length host -> lastLabel host stop = (label, stop') ->
  stop' < stop /\
  FieldsByte (take stop host) "." =
  FieldsByte (take stop' host) "." ++ (if decide (label = []) then [] else [label]).
Proof.
  intros Hstop. unfold lastLabel. destruct (LastIndexByte _ _) as [i|] eqn:E; intros; simplify_eq.
  - apply LastIndexByte_Some in E as [Hs Hn].
    assert (Hi : stop' < stop).
    { apply (f_equal length) in Hs. rewrite length_app in Hs. simpl in Hs.
      rewrite !length_take in Hs. rewrite length_drop, !length_take in Hs. lia. }
    split; [done|]. rewrite Hs at 1. rewrite FieldsByte_snoc by done.
    by rewrite take_take, Nat.min_l by lia.
  - split; [lia|]. apply LastIndexByte_None in E. by apply FieldsByte_none.
Qed.

Lemma search_child t n0 n1 t0 t1 idx n label :
  Rep (flatNodes t) (flatTransitions t) n0 n1 t0 t1 idx n ->
  (Z.of_nat t1 < 2 ^ 32)%Z ->
  exists node,
    flatNodes t !! Z.to_nat idx = Some node /\ fn_blocked node = bn_blocked n /\
    (if (childCount node =? 0)%Z then child (bn_children n) label = None
     else match binarySearchTransition t (firstChild node)
                  (u32 (firstChild node + childCount node)) label with
     | None => child (bn_children n) label = None
     | Some found =>
         exists c tr, child (bn_children n) label = Some c /\
           flatTransitions t !! Z.to_nat found = Some tr /\
           Rep (flatNodes t) (flatTransitions t) n0 n1 t0 t1 (ft_node tr) c
     end).
Proof.
  intros HR Ht1. destruct HR as [idx n first labels ci ? ? Hidx Hfirst Hnode Hdom Hsort Htr Hch].
  eexists; split_and!; [done..|]. cbn [childCount firstChild].
  assert (Hnone : label ∉ labels -> child (bn_children n) label = None).
  { intros Hl. rewrite <- Hdom in Hl. by apply eq_None_not_Some. }
  destruct (Z.eqb_spec (Z.of_nat (length labels)) 0) as [Hz|Hz].
  { apply Hnone. assert (labels = []) as -> by (apply nil_length_inv; lia). set_solver. }
  specialize (Hfirst ltac:(by intros ->)).
  rewrite u32_small by lia. unfold binarySearchTransition.
  pose proof (search_loop_spec (flatTransitions t) (Z.to_nat first) labels
    ltac:(eauto) Hsort ltac:(lia)
    (S (Z.to_nat (first + Z.of_nat (length labels) - first))) 0 (length labels) label) as HS.
  replace (Z.of_nat (Z.to_nat first + 0)) with first in HS by lia.
  replace (Z.of_nat (Z.to_nat first + length labels)) with (first + Z.of_nat (length labels))%Z in HS by lia.
  specialize (HS ltac:(lia) ltac:(lia)
    ltac:(intros i Hi; pose proof (lookup_lt_Some _ _ _ Hi); lia)).
  destruct (search_loop _ _ _ _ _) as [found|]; [|by apply Hnone].
  destruct HS as (i & -> & Hi). rewrite Nat2Z.id, (Htr _ _ Hi).
  destruct (proj2 (Hdom label)) as [c Hc]; [by eapply list_elem_of_lookup_2|].
  eauto 10.
Qed.

Lemma match_loop_spec t n0 n1 t0 t1 fuel host stop idx n :
  Rep (flatNodes t) (flatTransitions t) n0 n1 t0 t1 idx n ->
  (Z.of_nat t1 < 2 ^ 32)%Z -> bn_blocked n = false ->
  stop < fuel -> stop <= length host ->
  match_loop fuel t host stop idx =
  Some (tree_match n (rev (FieldsByte (take stop host) "."))).
Proof.
  intros HR Ht1. revert stop idx n HR.
  induction fuel as [|fuel IH]; intros stop idx n HR Hb Hf Hstop; [lia|].
  cbn [match_loop]. destruct stop as [|k] eqn:Ek.
  { destruct (search_child _ _ _ _ _ _ _ [] HR Ht1) as (node & -> & Hnb & _).
    rewrite take_0. simpl. by rewrite Hnb, Hb. }
  assert (0 < stop) by lia. rewrite <- Ek in Hf, Hstop |- *. destruct (lastLabel host stop) as [label stop'] eqn:EL.
  destruct (lastLabel_spec host stop label stop' ltac:(lia) EL) as [Hlt ->].
  destruct (decide (label = [])) as [|Hl].
  { rewrite app_nil_r. apply IH; [done..|lia|lia]. }
  destruct (search_child _ _ _ _ _ _ _ label HR Ht1) as (node & -> & _ & Hs).
  rewrite rev_app_distr. simpl. destruct (childCount node =? 0)%Z; [by rewrite Hs|].
  destruct (binarySearchTransition _ _ _ _); [|by rewrite Hs].
  destruct Hs as (c & tr & -> & -> & HRc).
  destruct (search_child _ _ _ _ _ _ _ label HRc Ht1) as (next & Hnext & Hnb & _).
  simpl. rewrite Hnext. simpl. rewrite Hnb.
  destruct (bn_blocked c) eqn:Ebc; [done|]. simpl. apply IH; [done..|lia|lia].
Qed.

(** ** The tree built by a sequence of additions *)

Section additions.
Context `{UnicodeTables}.

Definition paths (domains : list bytes) : list (list bytes) :=
  map (fun d => rev (normalizedDomainLabels d))
    (filter (fun d => normalizedDomainLabels d <> []) domains).

Definition treeOf (domains : list bytes) : builderNode :=
  fold_left insertPath (paths domains) (BuilderNode false []).

Lemma Add_paths domains root :
  fold_left Add domains (DomainTrie (Some root) [] [] false false) =
  DomainTrie (Some (fold_left insertPath (paths domains) root)) [] [] false false.
Proof.
  revert root. induction domains as [|d domains IH]; intros root; [done|].
  unfold paths. rewrite filter_cons. cbn [fold_left]. unfold Add at 2.
  destruct (decide (normalizedDomainLabels d = [])) as [E|E].
  - rewrite decide_False by naive_solver. apply IH.
  - rewrite decide_True by naive_solver. apply IH.
Qed.

Lemma Add_paths_empty domains :
  fold_left Add domains emptyTrie =
  DomainTrie (if decide (paths domains = []) then None else Some (treeOf domains)) [] [] false false.
Proof.
  induction domains as [|d domains IH]; [done|].
  unfold treeOf, paths. rewrite filter_cons. cbn [fold_left]. unfold Add at 2.
  destruct (decide (normalizedDomainLabels d = [])) as [E|E].
  - rewrite (decide_False (P:=_ <> _)) by naive_solver. apply IH.
  - rewrite (decide_True (P:=_ <> _)) by naive_solver. cbn [map fold_left].
    rewrite (decide_False (P:=_ :: _ = [])) by done. apply Add_paths.
Qed.

Lemma insertPaths_blocked ps n :
  Forall (fun p => p <> []) ps -> bn_blocked (fold_left insertPath ps n) = bn_blocked n.
Proof.
  intros HF. revert n. induction HF as [|p ps Hp HF IH]; intros n; [done|].
  simpl. by rewrite IH, insertPath_blocked.
Qed.

Lemma insertPaths_wf ps n : wf n -> wf (fold_left insertPath ps n).
Proof. revert n. induction ps; simpl; eauto using insertPath_wf. Qed.

Lemma insertPaths_reach ps n q :
  tree_reach (fold_left insertPath ps n) q = true <->
  tree_reach n q = true \/ Exists (fun p => p `prefix_of` q) ps.
Proof.
  revert n. induction ps as [|p ps IH]; intros n; simpl.
  - rewrite Exists_nil. naive_solver.
  - rewrite IH, insertPath_reach, Exists_cons, orb_true_iff, bool_decide_eq_true. naive_solver.
Qed.

Lemma insertPaths_size ps n :
  wf n -> size (fold_left insertPath ps n) <= size n + sum_list_with length ps.
Proof.
  revert n. induction ps as [|p ps IH]; intros n Hwf; simpl; [lia|].
  pose proof (insertPath_size p n Hwf). pose proof (IH _ (insertPath_wf p n Hwf)). lia.
Qed.

Lemma paths_nonempty domains : Forall (fun p => p <> []) (paths domains).
Proof.
  unfold paths. rewrite Forall_forall. intros p. change (map ?f) with (fmap (M:=list) f).
  rewrite list_elem_of_fmap. intros (d & -> & [Hd _]%list_elem_of_filter) E.
  apply Hd. by rewrite <- (rev_involutive (normalizedDomainLabels d)), E.
Qed.

Lemma treeOf_match domains q :
  tree_match (treeOf domains) q = true <-> Exists (fun p => p `prefix_of` q) (paths domains).
Proof.
  pose proof (insertPaths_reach (paths domains) (BuilderNode false []) q) as Hr.
  unfold tree_reach in Hr at 1. rewrite insertPaths_blocked in Hr by apply paths_nonempty.
  simpl in Hr. fold (treeOf domains) in Hr. rewrite Hr.
  assert (tree_reach (BuilderNode false []) q = false) as -> by by destruct q.
  naive_solver.
Qed.

Definition total_labels (domains : list bytes) : nat :=
  sum_list_with (fun d => length (normalizedDomainLabels d)) domains.

Lemma paths_size domains : sum_list_with length (paths domains) <= total_labels domains.
Proof.
  unfold paths, total_labels. induction domains as [|d domains IH]; [done|].
  rewrite filter_cons. case_decide; cbn [map sum_list_with]; [rewrite length_rev|]; lia.
Qed.

Lemma spec_Match_paths domains host :
  spec.Match domains host <->
  Exists (fun p => p `prefix_of` rev (normalizedDomainLabels host)) (paths domains).
Proof.
  unfold spec.Match, paths, spec.covers. induction domains as [|d domains IH].
  { by rewrite !Exists_nil. }
  rewrite filter_cons, Exists_cons.
  assert (normalizedDomainLabels d `suffix_of` normalizedDomainLabels host <->
          rev (normalizedDomainLabels d) `prefix_of` rev (normalizedDomainLabels host)) as ->.
  { rewrite suffix_prefix_reverse. by rewrite !reverse_rev || by unfold reverse; rewrite <- !rev_alt. }
  destruct (decide (normalizedDomainLabels d <> [])).
  - cbn [map]. rewrite Exists_cons, IH. tauto.
  - rewrite IH. tauto.
Qed.

Lemma normalizedDomainLabels_fields host :
  normalizedDomainLabels host = FieldsByte (normalizedDomain host) ".".
Proof.
  unfold normalizedDomainLabels. destruct (_ || _) eqn:E; [|done].
  rewrite orb_true_iff, bytes_eqb_eq in E. destruct E as [->|E]; [done|].
  unfold normalizedDomain in E |- *. cbv zeta in *.
  destruct (_ || _) eqn:E'; [done|]. rewrite E, orb_true_r in E'. done.
Qed.

(** A compiled trie answers, without a panic, whether one of its domains
    covers the host. *)
Lemma trieOf_match domains host :
  (Z.of_nat (S (total_labels domains)) <= 2 ^ 32)%Z ->
  match_compiled (trieOf domains) host =
  Some (tree_match (treeOf domains) (rev (normalizedDomainLabels host))).
Proof.
  intros Hb. pose proof (paths_size domains) as Hps.
  pose proof (insertPaths_size (paths domains) (BuilderNode false []) ltac:(constructor; [constructor|set_solver])) as Hsz.
  pose proof (insertPaths_wf (paths domains) (BuilderNode false []) ltac:(constructor; [constructor|set_solver])) as Hwf.
  fold (treeOf domains) in Hsz, Hwf. simpl in Hsz.
  unfold match_compiled. rewrite normalizedDomainLabels_fields.
  destruct (decide (normalizedDomain host = [])) as [->|Hne]; [done|].
  unfold trieOf. rewrite Add_paths_empty. destruct (decide (paths domains = [])) as [E|E].
  { simpl. unfold treeOf. rewrite E. simpl. by destruct (rev _). }
  unfold Compile. cbn [compiled builderRoot].
  pose proof (buildFlat_spec (height (treeOf domains)) (treeOf domains) [] [] ltac:(lia) Hwf
    ltac:(simpl; lia) ltac:(simpl; lia)) as HB.
  destruct (buildFlat _ _ _ _) as [[idx nodes] trans].
  destruct HB as (-> & (ns & -> & Hns) & (ts & -> & Hts) & HR).
  cbn [flatRootBlocked flatNodes].
  assert (Hroot : bn_blocked (treeOf domains) = false) by (by apply insertPaths_blocked, paths_nonempty).
  rewrite Hroot. pose proof (size_pos (treeOf domains)).
  rewrite decide_False by (simpl; intros ->; simpl in Hns; lia).
  erewrite match_loop_spec; [|exact HR|simpl; lia|done|lia|lia].
  by rewrite take_ge by lia.
Qed.

Lemma Compile_trieOf domains : Compile (trieOf domains) = trieOf domains.
Proof.
  unfold trieOf, Compile at 1. rewrite Add_paths_empty.
  destruct (decide _); cbn; [done|]. by destruct (buildFlat _ _ _ _) as [[? ?] ?].
Qed.

Lemma Compile_Add t t' d :
  builderRoot t = builderRoot t' -> normalizedDomainLabels d <> [] ->
  Compile (Add t d) = Compile (Add t' d).
Proof.
  intros Ht Hd. unfold Add. rewrite !decide_False, Ht by done.
  unfold Compile. cbn [compiled builderRoot]. by destruct (buildFlat _ _ _ _) as [[? ?] ?].
Qed.

Lemma trieOf_builderRoot domains : builderRoot (trieOf domains) = None.
Proof.
  unfold trieOf. rewrite Add_paths_empty. destruct (decide _); [done|].
  unfold Compile. cbn [compiled builderRoot]. by destruct (buildFlat _ _ _ _) as [[? ?] ?].
Qed.

(** [Add] on a trie that is already compiled starts a new tree: the domains
    compiled before are forgotten. *)
Lemma Compile_Add_compiled domains d :
  normalizedDomainLabels d <> [] -> Compile (Add (trieOf domains) d) = trieOf [d].
Proof. intros Hd. apply Compile_Add; [apply trieOf_builderRoot|done]. Qed.

(** C6.  A trie compiled from any list of domains, of at most 2^32 - 1 labels
    in all, answers [Match] without a run-time panic, and the answer is true
    exactly when the labels of one of the domains are a suffix of the labels
    of the host: the flat arrays, the binary search and the label scan
    implement the specification. *)
Theorem trie_Match_correct domains host :
  (Z.of_nat (S (total_labels domains)) <= 2 ^ 32)%Z ->
  exists b, fst (MatchCompile (trieOf domains) host) = Some b /\
            Match (trieOf domains) host = b /\
            (b = true <-> spec.Match domains host).
Proof.
  intros Hb. unfold Match, MatchCompile. cbn [fst].
  rewrite Compile_trieOf, (trieOf_match _ _ Hb). eexists; split_and!; [done..|].
  by rewrite spec_Match_paths, <- treeOf_match.
Qed.

End additions.

Lemma trie_Match_correct_witness :
  let domains := [str "example.com"; str ".Bad.ORG."] in
  exists b, fst (@MatchCompile ascii_tables (@trieOf ascii_tables domains) (str "www.bad.org")) = Some b /\
            @Match ascii_tables (@trieOf ascii_tables domains) (str "www.bad.org") = b /\
            (b = true <-> @spec.Match ascii_tables domains (str "www.bad.org")).
Proof. apply (@trie_Match_correct ascii_tables). vm_compute. discriminate. Defined.
