(* ===== verification/DomainRules.v ===== *)
(** * Domain rules (proxy/domain_rules.go, proxy/matchers.go)

    The decision on a host from six lists of domains, two lists of regular
    expressions and two lists of top-level domains, and the public
    [DomainMatcher]. *)

From S2P Require Import Prelude GoStrings GoRegexp DomainTrie.

(** ** PolicyDecision (proxy/policy.go) *)

Record PolicyDecision := MkDecision {
  Blocked : bool;
  Redirect : bool;
  RedirectURL : bytes;
  MatchType : bytes;
  Value : bytes;
  BypassFilters : bool;
}.

Definition noDecision : PolicyDecision := MkDecision false false [] [] [] false.
Definition blockDecision (matchType value : bytes) : PolicyDecision :=
  MkDecision true false [] matchType value false.
Definition bypassDecision (matchType value : bytes) : PolicyDecision :=
  MkDecision false false [] matchType value true.
Definition greyDecision (matchType value : bytes) : PolicyDecision :=
  MkDecision false false [] matchType value false.

(** ** Errors of the constructors, with the data of their messages *)

Inductive policyError :=
| ErrEmptyRegex (source : bytes)
| ErrCompileRegex (source pattern err : bytes)
| ErrAddHeaderFormat (source pattern : bytes)
| ErrPrefix (listName entry : bytes).

Record RegexRule := MkRegexRule { rr_Pattern : bytes; rr_Source : bytes }.

Record DomainRulesConfig := MkDomainRulesConfig {
  cfg_LocalExceptions : list bytes;
  cfg_LocalGrey : list bytes;
  cfg_LocalBlocked : list bytes;
  cfg_Exceptions : list bytes;
  cfg_Grey : list bytes;
  cfg_Blocked : list bytes;
  cfg_BlockRegex : list RegexRule;
  cfg_AllowRegex : list RegexRule;
  cfg_AllowedTLDs : list bytes;
  cfg_BlanketBlockTLDs : list bytes;
}.

Section domain_rules.
Context `{UnicodeTables} `{Regexp}.

Record DomainRules := MkDomainRules {
  localExceptions : domainTrie;
  localGrey : domainTrie;
  localBlocked : domainTrie;
  exceptions : domainTrie;
  grey : domainTrie;
  blocked : domainTrie;
  blockRegex : list regexp;
  allowRegex : list regexp;
  allowedTLDs : gset bytes;
  blanketBlockTLDs : gset bytes;
}.

Definition compilePolicyRegex (rule : RegexRule) : result policyError regexp :=
  if bytes_eqb (TrimSpace (rr_Pattern rule)) [] then Err (ErrEmptyRegex (rr_Source rule))
  else match regexp_Compile (rr_Pattern rule) with
       | Err e => Err (ErrCompileRegex (rr_Source rule) (rr_Pattern rule) e)
       | Ok rx => Ok rx
       end.

(** [for _, rule := range rules { compiled, err := compilePolicyRegex(rule);
    if err != nil { return nil, err }; out = append(out, compiled) }]. *)
Definition compileRegexes (rules : list RegexRule) : result policyError (list regexp) :=
  foldM (fun out rule => rx ← compilePolicyRegex rule; Ok (out ++ [rx])) rules [].

Definition tldSet (tlds : list bytes) : gset bytes :=
  list_to_set (map (fun tld => TrimSpace (ToLower tld)) tlds).

Definition NewDomainRulesConfig (cfg : DomainRulesConfig) : result policyError DomainRules :=
  blockRx ← compileRegexes (cfg_BlockRegex cfg);
  allowRx ← compileRegexes (cfg_AllowRegex cfg);
  Ok (MkDomainRules
        (trieOf (cfg_LocalExceptions cfg)) (trieOf (cfg_LocalGrey cfg))
        (trieOf (cfg_LocalBlocked cfg)) (trieOf (cfg_Exceptions cfg))
        (trieOf (cfg_Grey cfg)) (trieOf (cfg_Blocked cfg))
        blockRx allowRx (tldSet (cfg_AllowedTLDs cfg)) (tldSet (cfg_BlanketBlockTLDs cfg))).

Definition NewDomainRules (domains : list bytes) : result policyError DomainRules :=
  NewDomainRulesConfig (MkDomainRulesConfig [] [] [] [] [] domains [] [] [] []).

(** [Compile] of an already compiled trie changes nothing. *)
Definition DomainRules_Compile (r : DomainRules) : DomainRules :=
  MkDomainRules
    (Compile (localExceptions r)) (Compile (localGrey r)) (Compile (localBlocked r))
    (Compile (exceptions r)) (Compile (grey r)) (Compile (blocked r))
    (blockRegex r) (allowRegex r) (allowedTLDs r) (blanketBlockTLDs r).

Definition digit_byte (c : byte) : bool := N.leb 48 (byte_val c) && N.leb (byte_val c) 57.

(** The loop of [isIPAddress] over the bytes, with its two counters. *)
Fixpoint isIPAddress_loop (host : bytes) (dots digits : nat) : bool :=
  match host with
  | [] => (dots =? 3) && (0 <? digits)
  | c :: host' =>
      if digit_byte c then isIPAddress_loop host' dots (S digits)
      else if decide (c = "."%byte) then isIPAddress_loop host' (S dots) digits
      else false
  end.

Definition isIPAddress (host : bytes) : bool :=
  if Contains host (str ":") then true else isIPAddress_loop host 0 0.

Definition lastTLD (host : bytes) : bytes :=
  match LastIndexByte host "." with
  | None => host
  | Some lastDot => drop (S lastDot) host
  end.

(** The TLD blanket check: does it block the host? *)
Definition tldBlanket (r : DomainRules) (host : bytes) : bool :=
  if bool_decide (allowedTLDs r <> ∅) || bool_decide (blanketBlockTLDs r <> ∅) then
    if isIPAddress host then false
    else
      let tld := lastTLD host in
      (bool_decide (allowedTLDs r <> ∅) && bool_decide (tld ∉ allowedTLDs r))
      || (bool_decide (blanketBlockTLDs r <> ∅) && bool_decide (tld ∈ blanketBlockTLDs r))
  else false.

Definition firstRegex (rxs : list regexp) (s : bytes) : option regexp :=
  find (fun rx => regexp_MatchString rx s) rxs.

Definition DomainRules_Decision (r : DomainRules) (host : bytes) : PolicyDecision :=
  let host := normalizedDomain host in
  if decide (host = []) then noDecision
  else if Match (localExceptions r) host then bypassDecision (str "domain_local_exception") host
  else if Match (localGrey r) host then greyDecision (str "domain_local_grey") host
  else if Match (localBlocked r) host then blockDecision (str "domain_local") host
  else if Match (exceptions r) host then bypassDecision (str "domain_exception") host
  else match firstRegex (allowRegex r) host with
  | Some rx => bypassDecision (str "domain_exception_regex") (regexp_String rx)
  | None =>
      if Match (grey r) host then greyDecision (str "domain_grey") host
      else if tldBlanket r host then blockDecision (str "tld_blanket") host
      else if Match (blocked r) host then blockDecision (str "domain") host
      else match firstRegex (blockRegex r) host with
      | Some rx => blockDecision (str "domain_regex") (regexp_String rx)
      | None => noDecision
      end
  end.

Definition DomainRules_Blocked (r : DomainRules) (host : bytes) : bool :=
  Blocked (DomainRules_Decision r host).

(** ** DomainMatcher (proxy/matchers.go) *)

Definition NewDomainMatcher (domains : list bytes) : domainTrie :=
  trieOf (map (fun d => TrimPrefix d (str "*.")) domains).

Definition DomainMatcher_Match (m : option domainTrie) (host : bytes) : bool :=
  match m with None => false | Some m => Match m host end.

(** ** Specification

    The lists of the configuration, by set of hosts they cover, and the
    order in which they decide. *)

Definition regex_hits (rules : list RegexRule) (host : bytes) : Prop :=
  Exists (fun rule => exists rx, regexp_Compile (rr_Pattern rule) = Ok rx /\
                                 regexp_MatchString rx host = true) rules.

Definition tld_blocks (cfg : DomainRulesConfig) (host : bytes) : Prop :=
  isIPAddress host = false /\
  ((cfg_AllowedTLDs cfg <> [] /\ lastTLD host ∉ tldSet (cfg_AllowedTLDs cfg)) \/
   lastTLD host ∈ tldSet (cfg_BlanketBlockTLDs cfg)).

Inductive verdict := VPass | VBypass | VGrey | VBlock.

(** [decides cfg host v]: the first list, in the documented order, that
    covers the host gives the verdict. *)
Inductive decides (cfg : DomainRulesConfig) (h : bytes) : verdict -> Prop :=
| D_local_exception :
    spec.Match (cfg_LocalExceptions cfg) h -> decides cfg h VBypass
| D_local_grey :
    ~ spec.Match (cfg_LocalExceptions cfg) h -> spec.Match (cfg_LocalGrey cfg) h ->
    decides cfg h VGrey
| D_local_blocked :
    ~ spec.Match (cfg_LocalExceptions cfg) h -> ~ spec.Match (cfg_LocalGrey cfg) h ->
    spec.Match (cfg_LocalBlocked cfg) h -> decides cfg h VBlock
| D_main v :
    ~ spec.Match (cfg_LocalExceptions cfg) h -> ~ spec.Match (cfg_LocalGrey cfg) h ->
    ~ spec.Match (cfg_LocalBlocked cfg) h -> decides_main cfg h v -> decides cfg h v
with decides_main (cfg : DomainRulesConfig) (h : bytes) : verdict -> Prop :=
| D_exception :
    spec.Match (cfg_Exceptions cfg) h \/ regex_hits (cfg_AllowRegex cfg) h ->
    decides_main cfg h VBypass
| D_grey :
    ~ spec.Match (cfg_Exceptions cfg) h -> ~ regex_hits (cfg_AllowRegex cfg) h ->
    spec.Match (cfg_Grey cfg) h -> decides_main cfg h VGrey
| D_blocked :
    ~ spec.Match (cfg_Exceptions cfg) h -> ~ regex_hits (cfg_AllowRegex cfg) h ->
    ~ spec.Match (cfg_Grey cfg) h ->
    tld_blocks cfg h \/ spec.Match (cfg_Blocked cfg) h \/ regex_hits (cfg_BlockRegex cfg) h ->
    decides_main cfg h VBlock
| D_pass :
    ~ spec.Match (cfg_Exceptions cfg) h -> ~ regex_hits (cfg_AllowRegex cfg) h ->
    ~ spec.Match (cfg_Grey cfg) h -> ~ tld_blocks cfg h ->
    ~ spec.Match (cfg_Blocked cfg) h -> ~ regex_hits (cfg_BlockRegex cfg) h ->
    decides_main cfg h VPass.

(** A blocked, a bypassing and any other decision. *)
Definition decision_verdict (d : PolicyDecision) : verdict :=
  if Blocked d then VBlock else if BypassFilters d then VBypass
  else if bytes_eqb (MatchType d) [] then VPass else VGrey.

(** ** Lemmas *)

Lemma compileRegexes_acc rules out rxs :
  foldM (fun out rule => rx ← compilePolicyRegex rule; Ok (out ++ [rx])) rules out = Ok rxs ->
  exists new, rxs = out ++ new /\
    Forall2 (fun rule rx => regexp_Compile (rr_Pattern rule) = Ok rx) rules new.
Proof.
  revert out. induction rules as [|rule rules IH]; intros out; simpl.
  - intros [= <-]. exists []. by rewrite app_nil_r.
  - unfold compilePolicyRegex at 1. destruct (bytes_eqb _ _); simpl; [done|].
    destruct (regexp_Compile (rr_Pattern rule)) as [rx|e] eqn:E; simpl; [|done].
    intros (new & -> & HF)%IH. exists (rx :: new). rewrite <- app_assoc. eauto.
Qed.

Lemma firstRegex_hits rules rxs host :
  Forall2 (fun rule rx => regexp_Compile (rr_Pattern rule) = Ok rx) rules rxs ->
  regex_hits rules host <-> is_Some (firstRegex rxs host).
Proof.
  unfold regex_hits, firstRegex. induction 1 as [|rule rx rules rxs Hrx HF IH]; simpl.
  - rewrite Exists_nil. split; [done|]. by intros [? ?].
  - rewrite Exists_cons, IH. destruct (regexp_MatchString rx host) eqn:E; split; try by eauto 10.
    intros [(rx' & Hrx' & E')|]; [congruence|done].
Qed.

Lemma tldSet_empty tlds : tldSet tlds = ∅ <-> tlds = [].
Proof. unfold tldSet. destruct tlds; simpl; [done|]. split; [set_solver|done]. Qed.

Definition cfg_bounded (cfg : DomainRulesConfig) : Prop :=
  Forall (fun ds => (Z.of_nat (S (total_labels ds)) <= 2 ^ 32)%Z)
    [cfg_LocalExceptions cfg; cfg_LocalGrey cfg; cfg_LocalBlocked cfg;
     cfg_Exceptions cfg; cfg_Grey cfg; cfg_Blocked cfg].

Lemma Match_reflect domains host :
  (Z.of_nat (S (total_labels domains)) <= 2 ^ 32)%Z ->
  BoolSpec (spec.Match domains host) (~ spec.Match domains host) (Match (trieOf domains) host).
Proof.
  intros Hb. unfold Match, MatchCompile. cbn [fst].
  rewrite Compile_trieOf, (trieOf_match _ _ Hb). cbn [default from_option id].
  pose proof (spec_Match_paths domains host) as Hs. rewrite <- treeOf_match in Hs.
  destruct (tree_match _ _); constructor; rewrite Hs; done.
Qed.

Lemma tldBlanket_reflect cfg r host :
  allowedTLDs r = tldSet (cfg_AllowedTLDs cfg) ->
  blanketBlockTLDs r = tldSet (cfg_BlanketBlockTLDs cfg) ->
  BoolSpec (tld_blocks cfg host) (~ tld_blocks cfg host) (tldBlanket r host).
Proof.
  intros HA HB. apply bool_spec_iff. unfold tldBlanket, tld_blocks. rewrite HA, HB.
  rewrite (bool_decide_ext (tldSet (cfg_AllowedTLDs cfg) <> ∅) (cfg_AllowedTLDs cfg <> []))
    by by rewrite tldSet_empty.
  rewrite (bool_decide_ext (tldSet (cfg_BlanketBlockTLDs cfg) <> ∅) (cfg_BlanketBlockTLDs cfg <> []))
    by by rewrite tldSet_empty.
  assert (cfg_BlanketBlockTLDs cfg = [] -> lastTLD host ∉ tldSet (cfg_BlanketBlockTLDs cfg)).
  { intros ->. set_solver. }
  repeat case_bool_decide; simpl; destruct (isIPAddress host); simpl; naive_solver.
Qed.

Lemma decides_functional cfg h v v' : decides cfg h v -> decides cfg h v' -> v = v'.
Proof.
  assert (Hm : forall v v', decides_main cfg h v -> decides_main cfg h v' -> v = v').
  { intros w w' [] []; tauto. }
  intros [] []; try tauto; eauto.
Qed.

Lemma decision_decides cfg r host :
  NewDomainRulesConfig cfg = Ok r -> cfg_bounded cfg -> normalizedDomain host <> [] ->
  decides cfg (normalizedDomain host) (decision_verdict (DomainRules_Decision r host)).
Proof.
  unfold NewDomainRulesConfig. intros Hnew Hb Hne.
  destruct (compileRegexes (cfg_BlockRegex cfg)) as [brx|] eqn:Ebrx; [|done].
  destruct (compileRegexes (cfg_AllowRegex cfg)) as [arx|] eqn:Earx; [|done].
  simpl in Hnew. injection Hnew as <-.
  apply compileRegexes_acc in Ebrx as (? & -> & Hbrx), Earx as (? & -> & Harx).
  unfold cfg_bounded in Hb. rewrite !Forall_cons in Hb. destruct Hb as (B1 & B2 & B3 & B4 & B5 & B6 & _).
  pose proof (firstRegex_hits _ _ (normalizedDomain host) Hbrx) as Hbh.
  pose proof (firstRegex_hits _ _ (normalizedDomain host) Harx) as Hah.
  unfold DomainRules_Decision. rewrite decide_False by done. cbn -[Match trieOf str tldBlanket firstRegex].
  destruct (Match_reflect _ (normalizedDomain host) B1); [by apply D_local_exception|].
  destruct (Match_reflect _ (normalizedDomain host) B2); [by apply D_local_grey|].
  destruct (Match_reflect _ (normalizedDomain host) B3); [by apply D_local_blocked|].
  apply D_main; [done..|].
  destruct (Match_reflect _ (normalizedDomain host) B4); [by apply D_exception; left|].
  destruct (firstRegex _ (normalizedDomain host)) eqn:Ea in Hah |- *; [apply D_exception; right; by apply Hah|].
  assert (~ regex_hits (cfg_AllowRegex cfg) (normalizedDomain host)) by (rewrite Hah; by intros [? ?]).
  destruct (Match_reflect _ (normalizedDomain host) B5); [by apply D_grey|].
  match goal with |- context [tldBlanket ?r ?h] =>
    destruct (tldBlanket_reflect cfg r h eq_refl eq_refl) end; [apply D_blocked; tauto|].
  destruct (Match_reflect _ (normalizedDomain host) B6); [apply D_blocked; tauto|].
  destruct (firstRegex _ (normalizedDomain host)) eqn:Eb in Hbh |- *; [apply D_blocked; try tauto; right; right; by apply Hbh|].
  apply D_pass; try done. rewrite Hbh. by intros [? ?].
Qed.

(** C9.  Domain rules built from a configuration decide every host by the
    first list that covers it, in the order local exception, local grey,
    local ban, exception (or its expressions), grey, top-level-domain
    blanket, ban (or its expressions): the verdict of [Decision] is the one
    of the specification, and the only one. *)
Theorem DomainRules_Decision_precedence cfg r host v :
  NewDomainRulesConfig cfg = Ok r -> cfg_bounded cfg -> normalizedDomain host <> [] ->
  decision_verdict (DomainRules_Decision r host) = v <-> decides cfg (normalizedDomain host) v.
Proof.
  intros Hnew Hb Hne. pose proof (decision_decides cfg r host Hnew Hb Hne) as Hd.
  split; [by intros <-|]. by apply decides_functional.
Qed.

End domain_rules.

Lemma DomainRules_Decision_precedence_witness :
  let cfg := MkDomainRulesConfig [] [str "ok.bad.org"] [] [] [] [str "bad.org"]
               [MkRegexRule (str "ads") []] [] [] [str "zip"] in
  exists r, @NewDomainRulesConfig ascii_tables literal_regexp cfg = Ok r /\
    (@decision_verdict (@DomainRules_Decision ascii_tables literal_regexp r (str "www.Bad.org")) = VBlock <->
     @decides ascii_tables literal_regexp cfg (str "www.bad.org") VBlock).
Proof.
  eexists. split; [reflexivity|].
  apply (@DomainRules_Decision_precedence ascii_tables literal_regexp).
  - reflexivity.
  - repeat constructor; vm_compute; discriminate.
  - vm_compute. discriminate.
Defined.
