(* ===== verification/Http.v ===== *)
(** * Messages (package net/http, as the proxy uses it)

    Headers, requests and responses.  An [http.Header] is a Go map from
    canonical names to lists of values; here it is an association list, in
    the order a [range] over the map visits it, without repeated keys. *)

From S2P Require Import Prelude GoStrings GoUrl.

Abbreviation Header := (list (bytes * list bytes)).

(** ** Names *)

(** [validHeaderFieldByte]: the token characters of RFC 7230. *)
Definition headerFieldByte (c : byte) : bool :=
  isLetter c || isDigit c || oneOf c (str "!#$%&'*+-.^_`|~").

Definition upperASCII (b : byte) : byte :=
  if between 97 122 b then byte_of (byte_val b - 32) else b.

Fixpoint canonical_loop (upper : bool) (s : bytes) : bytes :=
  match s with
  | [] => []
  | c :: s' =>
      (if upper then upperASCII c else lowerASCII c)
      :: canonical_loop (bool_decide (c = "-"%byte)) s'
  end.

(** [http.CanonicalHeaderKey]: a name with an invalid byte is unchanged. *)
Definition CanonicalHeaderKey (s : bytes) : bytes :=
  if forallb headerFieldByte s then canonical_loop true s else s.

(** ** Operations *)

Fixpoint hlookup (h : Header) (key : bytes) : list bytes :=
  match h with
  | [] => []
  | (k, vs) :: h' => if decide (k = key) then vs else hlookup h' key
  end.

Definition hmem (h : Header) (key : bytes) : bool := existsb (fun kv => bytes_eqb kv.1 key) h.

(** [h[key] = vs], at the place of [key] or at the end. *)
Fixpoint hset (h : Header) (key : bytes) (vs : list bytes) : Header :=
  match h with
  | [] => [(key, vs)]
  | (k, ws) :: h' => if decide (k = key) then (k, vs) :: h' else (k, ws) :: hset h' key vs
  end.

Definition hdelete (h : Header) (key : bytes) : Header :=
  filter (fun kv => kv.1 <> key) h.

Definition Header_Values (h : Header) (key : bytes) : list bytes :=
  hlookup h (CanonicalHeaderKey key).

Definition Header_Get (h : Header) (key : bytes) : bytes :=
  match Header_Values h key with v :: _ => v | [] => [] end.

Definition Header_Del (h : Header) (key : bytes) : Header := hdelete h (CanonicalHeaderKey key).

Definition Header_Add (h : Header) (key value : bytes) : Header :=
  let key := CanonicalHeaderKey key in hset h key (hlookup h key ++ [value]).

Definition Header_Set (h : Header) (key value : bytes) : Header :=
  hset h (CanonicalHeaderKey key) [value].

(** A map has one entry per key. *)
Definition header_wf (h : Header) : Prop := NoDup (map fst h).

(** ** Messages *)

Record Request := MkRequest {
  Method : bytes;
  rq_URL : option URL;
  rq_Header : Header;
  rq_Host : bytes;
  rq_ContentLength : Z;
  rq_TransferEncoding : list bytes;
  rq_Close : bool;
  rq_HasBody : bool;
}.

Record Response := MkResponse {
  Status : bytes;
  StatusCode : Z;
  rs_Header : Header;
  rs_ContentLength : Z;
  rs_TransferEncoding : list bytes;
  rs_Close : bool;
  rs_HasBody : bool;
  rs_Request : option Request;
}.

(** ** Lemmas on headers *)

Lemma hlookup_hset h k vs k' :
  hlookup (hset h k vs) k' = if decide (k = k') then vs else hlookup h k'.
Proof.
  induction h as [|[k0 ws] h IH]; simpl; [done|].
  destruct (decide (k0 = k)) as [->|Hne]; simpl.
  - repeat case_decide; congruence.
  - rewrite IH. repeat case_decide; congruence.
Qed.

Lemma hlookup_hdelete h k k' :
  hlookup (hdelete h k) k' = if decide (k = k') then [] else hlookup h k'.
Proof.
  unfold hdelete. induction h as [|[k0 ws] h IH]; [cbn; by case_decide|].
  rewrite filter_cons. cbn [fst]. destruct (decide (k0 <> k)) as [Hne|Heq]; cbn [hlookup].
  - rewrite IH. repeat case_decide; congruence.
  - rewrite IH. apply dec_stable in Heq. repeat case_decide; congruence.
Qed.

Lemma Header_Get_Del h k : Header_Get (Header_Del h k) k = [].
Proof. unfold Header_Get, Header_Values, Header_Del. by rewrite hlookup_hdelete, decide_True. Qed.

Lemma Header_Del_other h k k' :
  CanonicalHeaderKey k <> CanonicalHeaderKey k' -> Header_Values (Header_Del h k) k' = Header_Values h k'.
Proof. intros Hne. unfold Header_Values, Header_Del. by rewrite hlookup_hdelete, decide_False. Qed.

Lemma Header_Values_Add h k v k' :
  Header_Values (Header_Add h k v) k' =
  if decide (CanonicalHeaderKey k = CanonicalHeaderKey k') then Header_Values h k' ++ [v]
  else Header_Values h k'.
Proof.
  unfold Header_Values, Header_Add. cbv zeta. rewrite hlookup_hset. case_decide as Hk; [|done]. by rewrite Hk.
Qed.
