(* ===== verification/Access.v ===== *)
(** * Client access rules (proxy/access_rules.go, proxy/matchers.go)

    Profiles by client network, bans and exceptions to them, over the
    longest-prefix table. *)

From S2P Require Import Prelude GoStrings GoConv GoUrl GoNetip.

(** [None] is a nil pointer. *)
Record AccessProfile := MkAccessProfile {
  ap_Name : bytes;
  ap_Clients : list bytes;
  ap_Default : bool;
  ap_MaxConns : option Z;
  ap_RateLimit : option float64;
  ap_RateBurst : option Z;
}.

Inductive accessError :=
| ErrEmptyProfileName
| ErrMultipleDefaults
| ErrProfileClient (profile client : bytes)
| ErrBannedClient (entry : bytes)
| ErrExceptionClient (entry : bytes).

Section access.
Context `{PrefixTable}.

Record AccessRules := MkAccessRules {
  entries : table bytes;
  defaultProfile : bytes;
  banned : table bool;
  exceptions : table bool;
  profiles : gmap bytes AccessProfile;
}.

Definition emptyRules : AccessRules := MkAccessRules table_empty [] table_empty table_empty ∅.

(** The clients of one profile. *)
Definition addClients (name : bytes) (clients : list bytes) (t : table bytes)
    : result accessError (table bytes) :=
  foldM (fun t client =>
           match parsePrefixOrAddr client with
           | None => Err (ErrProfileClient name client)
           | Some p => Ok (table_Insert t (Masked p) name)
           end) clients t.

Definition addProfile (rules : AccessRules) (p : AccessProfile) : result accessError AccessRules :=
  if decide (ap_Name p = []) then Err ErrEmptyProfileName
  else
    let ps := <[ap_Name p := p]> (profiles rules) in
    def ← (if ap_Default p then
             if decide (defaultProfile rules = []) then Ok (ap_Name p) else Err ErrMultipleDefaults
           else Ok (defaultProfile rules));
    es ← addClients (ap_Name p) (ap_Clients p) (entries rules);
    Ok (MkAccessRules es def (banned rules) (exceptions rules) ps).

Definition NewAccessRules (ps : list AccessProfile) : result accessError AccessRules :=
  if decide (ps = []) then
    Ok (MkAccessRules table_empty (str "default") table_empty table_empty ∅)
  else foldM addProfile ps emptyRules.

(** The prefixes of a list of clients; the table keeps the entries before an
    invalid one. *)
Fixpoint insertEntries (mkErr : bytes -> accessError) (l : list bytes) (t : table bool)
    : table bool * option accessError :=
  match l with
  | [] => (t, None)
  | entry :: l' =>
      match parsePrefixOrAddr entry with
      | None => (t, Some (mkErr entry))
      | Some p => insertEntries mkErr l' (table_Insert t (Masked p) true)
      end
  end.

Definition SetBanned (r : AccessRules) (l : list bytes) : AccessRules * option accessError :=
  let '(t, err) := insertEntries ErrBannedClient l table_empty in
  (MkAccessRules (entries r) (defaultProfile r) t (exceptions r) (profiles r), err).

Definition SetExceptions (r : AccessRules) (l : list bytes) : AccessRules * option accessError :=
  let '(t, err) := insertEntries ErrExceptionClient l table_empty in
  (MkAccessRules (entries r) (defaultProfile r) (banned r) t (profiles r), err).

(** [None] for the nil receiver admits everyone. *)
Definition ProfileForRemoteAddr (r : option AccessRules) (remoteAddr : bytes) : bytes * bool :=
  match r with
  | None => ([], true)
  | Some r =>
      let host := match SplitHostPort remoteAddr with Some (h, _) => h | None => remoteAddr end in
      match ParseAddr host with
      | None => ([], false)
      | Some addr =>
          let excepted := match table_Lookup (exceptions r) addr with Some _ => true | None => false end in
          let ban := match table_Lookup (banned r) addr with Some _ => true | None => false end in
          if negb excepted && ban then ([], false)
          else match table_Lookup (entries r) addr with
          | Some profile => (profile, true)
          | None => if decide (defaultProfile r = []) then ([], false) else (defaultProfile r, true)
          end
      end
  end.

Definition ProfileLimits (r : option AccessRules) (name : bytes)
    : option (option Z * option float64 * option Z) :=
  r ← r; p ← profiles r !! name; Some (ap_MaxConns p, ap_RateLimit p, ap_RateBurst p).

(** ** IPMatcher (proxy/matchers.go) and insertIPPrefixes (proxy/policy.go) *)

(** Blank entries are skipped; [Err] has the offending entry. *)
Definition insertIPPrefixes (t : table bool) (l : list bytes) : result bytes (table bool) :=
  foldM (fun t entry =>
           let entry := TrimSpace entry in
           if decide (entry = []) then Ok t
           else match parsePrefixOrAddr entry with
           | None => Err entry
           | Some p => Ok (table_Insert t (Masked p) true)
           end) l t.

Definition NewIPMatcher (prefixes : list bytes) : result bytes (table bool) :=
  insertIPPrefixes table_empty prefixes.

Definition IPMatcher_Match (m : option (table bool)) (ip : Addr) : bool :=
  match m with
  | None => false
  | Some t => match table_Lookup t ip with Some _ => true | None => false end
  end.

(** ** Specification

    The configuration by the networks its entries name. *)

Definition covers_addr (l : list bytes) (a : Addr) : Prop :=
  Exists (fun entry => exists p, parsePrefixOrAddr entry = Some p /\ PrefixContains (Masked p) a = true) l.

(** The prefixes of the profiles with their names, in order. *)
Definition profile_prefixes (ps : list AccessProfile) : list (Prefix * bytes) :=
  concat (map (fun p => omap (fun c => (fun x => (Masked x, ap_Name p)) <$> parsePrefixOrAddr c) (ap_Clients p)) ps).

Definition default_profile (ps : list AccessProfile) : bytes :=
  match ps with
  | [] => str "default"
  | _ => match List.find ap_Default ps with Some p => ap_Name p | None => [] end
  end.

(** ** Lemmas *)

Definition entry_prefixes (l : list bytes) : list (Prefix * bool) :=
  omap (fun e => (fun p => (Masked p, true)) <$> parsePrefixOrAddr e) l.

Lemma table_of_snoc {V} (ins : list (Prefix * V)) p v :
  table_Insert (table_of ins) p v = table_of (ins ++ [(p, v)]).
Proof. unfold table_of. by rewrite fold_left_app. Qed.

Lemma insertEntries_ok mkErr l ins t :
  insertEntries mkErr l (table_of ins) = (t, None) -> t = table_of (ins ++ entry_prefixes l).
Proof.
  revert ins. induction l as [|e l IH]; intros ins; simpl.
  { intros [= <-]. by rewrite app_nil_r. }
  destruct (parsePrefixOrAddr e) as [p|] eqn:E; [|done].
  rewrite table_of_snoc. intros ->%IH. unfold entry_prefixes. cbn [fmap option_fmap option_map].
  by rewrite <- app_assoc.
Qed.

Lemma entry_prefixes_covers l a :
  covers_addr l a <-> lpm (entry_prefixes l) a <> None.
Proof.
  rewrite lpm_None. unfold covers_addr, entry_prefixes.
  induction l as [|e l IH]; simpl.
  { rewrite Exists_nil. split; [done|]. intros Hn. destruct Hn. constructor. }
  rewrite Exists_cons, IH. destruct (parsePrefixOrAddr e) as [p|] eqn:E; simpl.
  - rewrite Forall_cons. simpl. destruct (PrefixContains (Masked p) a) eqn:Ep.
    + split; [intros _ [? _]; congruence|intros _; left; eauto].
    + split; [intros [(p0 & [= <-] & ?)|Hn] [_ HF]; [congruence|auto]|].
      intros Hn; right; intros HF; apply Hn; auto.
  - split; [intros [(? & ? & _)|]; done|by right].
Qed.

Lemma addClients_ok name clients ins t :
  addClients name clients (table_of ins) = Ok t ->
  t = table_of (ins ++ omap (fun c => (fun x => (Masked x, name)) <$> parsePrefixOrAddr c) clients).
Proof.
  revert ins. unfold addClients. induction clients as [|c clients IH]; intros ins; simpl.
  { intros [= <-]. by rewrite app_nil_r. }
  destruct (parsePrefixOrAddr c) as [p|] eqn:E; [|done].
  rewrite table_of_snoc. intros ->%IH. cbn. by rewrite <- app_assoc.
Qed.

(** The accumulated profiles: their networks and the first default. *)
Lemma addProfiles_ok ps ins def r r' :
  entries r = table_of ins -> defaultProfile r = def ->
  foldM addProfile ps r = Ok r' ->
  entries r' = table_of (ins ++ profile_prefixes ps) /\
  defaultProfile r' = (if decide (def = []) then match List.find ap_Default ps with Some p => ap_Name p | None => [] end else def).
Proof.
  revert ins def r. induction ps as [|p ps IH]; intros ins def r He Hd; simpl.
  { intros [= <-]. unfold profile_prefixes. simpl. rewrite app_nil_r. split; [done|]. rewrite Hd. by case_decide. }
  unfold addProfile at 1. destruct (decide (ap_Name p = [])) as [|Hn]; [done|].
  rewrite He, Hd. unfold profile_prefixes. cbn [map concat]. rewrite app_assoc.
  destruct (ap_Default p) eqn:Edef; simpl.
  - destruct (decide (def = [])) as [->|]; simpl; [|done].
    destruct (addClients _ _ _) as [es|] eqn:Ec; simpl; [|done]. apply addClients_ok in Ec.
    intros Hf. destruct (IH _ (ap_Name p) (MkAccessRules es (ap_Name p) (banned r) (exceptions r) (<[ap_Name p:=p]> (profiles r))) Ec eq_refl Hf) as [-> ->].
    by rewrite decide_False by done.
  - destruct (addClients _ _ _) as [es|] eqn:Ec; simpl; [|done]. apply addClients_ok in Ec.
    intros Hf. by destruct (IH _ def (MkAccessRules es def (banned r) (exceptions r) (<[ap_Name p:=p]> (profiles r))) Ec eq_refl Hf) as [-> ->].
Qed.

Lemma NewAccessRules_ok ps r :
  NewAccessRules ps = Ok r ->
  entries r = table_of (profile_prefixes ps) /\ defaultProfile r = default_profile ps.
Proof.
  unfold NewAccessRules. destruct ps as [|p ps]; simpl; [by intros [= <-]|].
  intros Hf. by apply (addProfiles_ok (p :: ps) [] [] emptyRules r) in Hf.
Qed.

Context `{!PrefixTableLaws}.

(** What the configuration promises for an address. *)
Definition access_spec (ps : list AccessProfile) (a : Addr) : bytes * bool :=
  match snd <$> lpm (profile_prefixes ps) a with
  | Some profile => (profile, true)
  | None => if decide (default_profile ps = []) then ([], false) else (default_profile ps, true)
  end.

(** C10.  Access control: a client whose address is in a banned network and
    in no excepted one is refused; any other client has the profile of the
    longest network that contains it, or the default profile, or is refused
    when there is none. *)
Theorem access_correct ps bans excs r0 r1 r2 remote host port addr :
  NewAccessRules ps = Ok r0 -> SetBanned r0 bans = (r1, None) -> SetExceptions r1 excs = (r2, None) ->
  SplitHostPort remote = Some (host, port) -> ParseAddr host = Some addr -> a_zone addr = [] ->
  (covers_addr bans addr /\ ~ covers_addr excs addr -> ProfileForRemoteAddr (Some r2) remote = ([], false)) /\
  (~ (covers_addr bans addr /\ ~ covers_addr excs addr) ->
     ProfileForRemoteAddr (Some r2) remote = access_spec ps addr).
Proof.
  intros Hnew Hban Hexc Hsplit Haddr Hz. apply NewAccessRules_ok in Hnew as [He Hd].
  unfold SetBanned in Hban. destruct (insertEntries ErrBannedClient bans table_empty) as [tb ?] eqn:Eb.
  injection Hban as <- ->. unfold SetExceptions in Hexc.
  destruct (insertEntries ErrExceptionClient excs table_empty) as [te ?] eqn:Ee. injection Hexc as <- ->.
  apply (insertEntries_ok _ _ []) in Eb, Ee. rewrite !entry_prefixes_covers.
  unfold ProfileForRemoteAddr. rewrite Hsplit, Haddr. cbn [exceptions banned entries defaultProfile].
  rewrite Eb, Ee, He, Hd, !Lookup_longest by done. cbn [app]. unfold access_spec.
  destruct (lpm (entry_prefixes excs) addr), (lpm (entry_prefixes bans) addr); simpl; split; intros HH; try done;
    exfalso; naive_solver.
Qed.

End access.

Lemma access_correct_witness :
  let ps := [MkAccessProfile (str "staff") [str "10.0.0.0/8"] false None None None;
             MkAccessProfile (str "guest") [] true None None None] in
  exists r0 r1 r2, @NewAccessRules list_table ps = Ok r0 /\
    @SetBanned list_table r0 [str "10.1.0.0/16"] = (r1, None) /\
    @SetExceptions list_table r1 [str "10.1.2.3"] = (r2, None) /\
    (@covers_addr [str "10.1.0.0/16"] (MkAddr false 167838211 []) /\ ~ @covers_addr [str "10.1.2.3"] (MkAddr false 167838211 []) ->
       @ProfileForRemoteAddr list_table (Some r2) (str "10.1.2.3:5555") = ([], false)) /\
    (~ (@covers_addr [str "10.1.0.0/16"] (MkAddr false 167838211 []) /\ ~ @covers_addr [str "10.1.2.3"] (MkAddr false 167838211 [])) ->
       @ProfileForRemoteAddr list_table (Some r2) (str "10.1.2.3:5555") = access_spec ps (MkAddr false 167838211 [])).
Proof.
  eexists _, _, _. split; [reflexivity|]. split; [reflexivity|]. split; [reflexivity|].
  eapply (@access_correct list_table list_table_laws _ _ _ _ _ _ _ (str "10.1.2.3") (str "5555"));
    reflexivity.
Defined.
