(* ===== verification/LeafCache.v ===== *)
(** * The certificate cache (pki/leaf.go)

    [LeafCache.Get] serves a certificate for a host from a bounded cache, and
    lets concurrent requests for a host that is not cached share one
    generation.  A request is a thread; its steps are the critical sections
    under the mutex, the generation, and the wait for another thread's result.
    Signing is the business of the crypto packages: a generation may fail, and
    the certificate it gives has the fields of the template. *)

From S2P Require Import Prelude GoStrings GoUrl GoNetip DList Lru.

Definition second : Z := 1000000000.

(** The fields of the template, as [x509.ParseCertificate] reads them back. *)
Record certificate := MkCert {
  CommonName : bytes;
  NotBefore : Z;
  NotAfter : Z;
  IPAddresses : list Addr;
  DNSNames : list bytes;
}.

Record rootCA := MkRoot { ca_IsCA : bool; ca_NotAfter : Z }.

Inductive leafError := ErrEmptyHostname | ErrNotSigner | ErrNotCA | ErrCrypto.

Definition leafValidity : Z := 24 * 3600 * second.

Section leaf.
Context `{UnicodeTables}.

Definition normalizeHostname (hostname : bytes) : bytes :=
  let host := TrimSpace hostname in
  if bytes_eqb host [] then []
  else
    let host := match SplitHostPort host with Some (h, _) => h | None => host end in
    ToLower (Trim host (str "[]")).

(** The template that is signed; [signer] says that the root key can sign and
    [crypto] that the calls to the crypto packages succeed. *)
Definition GenerateLeafCert (signer crypto : bool) (root : option rootCA) (hostname : bytes) (now : Z)
  : result leafError certificate :=
  let host := normalizeHostname hostname in
  if bytes_eqb host [] then Err ErrEmptyHostname
  else if negb signer then Err ErrNotSigner
  else match root with
       | Some ca =>
           if negb (ca_IsCA ca) then Err ErrNotCA
           else if negb crypto then Err ErrCrypto
           else
             let notAfter := now + leafValidity in
             let notAfter := if Z.ltb (ca_NotAfter ca) notAfter then ca_NotAfter ca else notAfter in
             let '(ips, names) := match ParseAddr host with Some ip => ([ip], []) | None => ([], [host]) end in
             Ok (MkCert host (now - 60 * second) notAfter ips names)
       | None => Err ErrNotCA
       end%Z.

(** At least an hour is left. *)
Definition leafStillValid (now : Z) (c : certificate) : bool := Z.ltb (3600 * second) (time_Sub (NotAfter c) now).

(** ** Threads *)

Inductive thread :=
| Start (hostname : bytes)
| Checking (host : bytes) (cert : certificate)
| Waiting (host : bytes) (p : nat)
| Generating (host : bytes) (p : nat)
| Finishing (host : bytes) (p : nat) (r : result leafError certificate)
| Done (host : bytes) (r : result leafError certificate).

(** The cache, the pending generations by host, the results of the closed
    ones, and the number of pending generations made so far. *)
Record shared := MkShared {
  lruc : @lru certificate;
  pending : gmap bytes nat;
  results : gmap nat (result leafError certificate);
  created : nat;
}.

Definition DefaultLeafCacheSize : nat := Nat.mul 64 64.

Definition NewLeafCacheWithSize (maxEntries : Z) : shared :=
  MkShared (newLRUCache (if Z.leb maxEntries 0 then DefaultLeafCacheSize else Z.to_nat maxEntries)) ∅ ∅ 0.

(** [if pending, ok := c.pending[host]; ok], under the mutex. *)
Definition joinPending (s : shared) (host : bytes) : shared * thread :=
  match pending s !! host with
  | Some p => (s, Waiting host p)
  | None =>
      (MkShared (lruc s) (<[host := created s]> (pending s)) (results s) (S (created s)), Generating host (created s))
  end.

(** The first critical section. *)
Definition enter (s : shared) (hostname : bytes) : shared * thread :=
  let host := normalizeHostname hostname in
  if bytes_eqb host [] then (s, Done hostname (Err ErrEmptyHostname))
  else
    let '(c, found) := lru_get (lruc s) host in
    let s := MkShared c (pending s) (results s) (created s) in
    match found with
    | Some cert => (s, Checking host cert)
    | None => joinPending s host
    end.

(** The check of a cached certificate, and the second critical section when
    it is about to expire. *)
Definition check (s : shared) (now : Z) (host : bytes) (cert : certificate) : shared * thread :=
  if leafStillValid now cert then (s, Done host (Ok cert))
  else joinPending (MkShared (lru_remove (lruc s) host) (pending s) (results s) (created s)) host.

(** [pending.cert, pending.err = cert, err; close(pending.done)]. *)
Definition publish (s : shared) (host : bytes) (p : nat) (r : result leafError certificate) : shared * thread :=
  (MkShared (lruc s) (pending s) (<[p := r]> (results s)) (created s), Finishing host p r).

(** The last critical section. *)
Definition finish (s : shared) (host : bytes) (r : result leafError certificate) : shared * thread :=
  (MkShared (match r with Ok cert => lru_put (lruc s) host cert | Err _ => lruc s end)
     (delete host (pending s)) (results s) (created s), Done host r).

(** A thread moves. *)
Inductive moves (signer : bool) (root : option rootCA) (s : shared) : thread -> shared * thread -> Prop :=
| move_enter hostname : moves signer root s (Start hostname) (enter s hostname)
| move_check now host cert : moves signer root s (Checking host cert) (check s now host cert)
| move_generate now crypto host p :
    moves signer root s (Generating host p) (publish s host p (GenerateLeafCert signer crypto root host now))
| move_finish host p r : moves signer root s (Finishing host p r) (finish s host r)
| move_wait host p r : results s !! p = Some r -> moves signer root s (Waiting host p) (s, Done host r).

(** A new request, or a step of a thread. *)
Inductive get_step (signer : bool) (root : option rootCA) : shared * gmap nat thread -> shared * gmap nat thread -> Prop :=
| step_request s ts t hostname :
    ts !! t = None -> get_step signer root (s, ts) (s, <[t := Start hostname]> ts)
| step_thread s ts t th s' th' :
    ts !! t = Some th -> moves signer root s th (s', th') -> get_step signer root (s, ts) (s', <[t := th']> ts).

(** A step of a thread that is already there. *)
Definition thread_step (signer : bool) (root : option rootCA) (st st' : shared * gmap nat thread) : Prop :=
  exists t th th', st.2 !! t = Some th /\ moves signer root st.1 th (st'.1, th') /\ st'.2 = <[t := th']> st.2.

(** A schedule: which thread is next, and the clock and the outcome of the
    crypto packages it sees. *)
Inductive event := Request (t : nat) (hostname : bytes) | Step (t : nat) (now : Z) (crypto : bool).

Definition exec1 (signer : bool) (root : option rootCA) (ev : event) (st : shared * gmap nat thread)
  : option (shared * gmap nat thread) :=
  let '(s, ts) := st in
  match ev with
  | Request t hostname => match ts !! t with None => Some (s, <[t := Start hostname]> ts) | Some _ => None end
  | Step t now crypto =>
      th ← ts !! t;
      '(s, th) ← match th with
      | Start hostname => Some (enter s hostname)
      | Checking host cert => Some (check s now host cert)
      | Generating host p => Some (publish s host p (GenerateLeafCert signer crypto root host now))
      | Finishing host p r => Some (finish s host r)
      | Waiting host p => r ← results s !! p; Some (s, Done host r)
      | Done _ _ => None
      end;
      Some (s, <[t := th]> ts)
  end.

Fixpoint exec (signer : bool) (root : option rootCA) (evs : list event) (st : shared * gmap nat thread)
  : option (shared * gmap nat thread) :=
  match evs with
  | [] => Some st
  | ev :: evs' => st ← exec1 signer root ev st; exec signer root evs' st
  end.

(** ** Specification *)

(** The thread generates for [host]. *)
Definition flying (th : thread) (host : bytes) (p : nat) : Prop :=
  th = Generating host p \/ exists r, th = Finishing host p r.

(** The certificate is for the host it is served to. *)
Definition cert_for (host : bytes) (c : certificate) : Prop :=
  CommonName c = normalizeHostname host /\ CommonName c <> [] /\
  (forall name, name ∈ DNSNames c -> name = CommonName c).

Definition result_for (host : bytes) (r : result leafError certificate) : Prop :=
  match r with Ok c => cert_for host c | Err _ => True end.

Definition thread_ok (s : shared) (ts : gmap nat thread) (th : thread) : Prop :=
  match th with
  | Start _ => True
  | Checking host cert => cert_for host cert
  | Waiting host p =>
      match results s !! p with Some r => result_for host r | None => exists t, ts !! t = Some (Generating host p) end
  | Generating host p => pending s !! host = Some p /\ results s !! p = None /\ p < created s
  | Finishing host p r => pending s !! host = Some p /\ results s !! p = Some r /\ result_for host r /\ p < created s
  | Done host r => result_for host r
  end.

Definition cache_ok (s : shared) : Prop :=
  exists l, holds (lruc s) l /\ Forall (fun e => cert_for e.1 e.2) l.

Record leaf_ok (st : shared * gmap nat thread) : Prop := MkLeafOk {
  lo_cache : cache_ok st.1;
  lo_threads : map_Forall (fun _ th => thread_ok st.1 st.2 th) st.2;
  lo_pending : forall host p, pending st.1 !! host = Some p -> exists t th, st.2 !! t = Some th /\ flying th host p;
  lo_single : forall t1 t2 th1 th2 host p1 p2, st.2 !! t1 = Some th1 -> st.2 !! t2 = Some th2 ->
    flying th1 host p1 -> flying th2 host p2 -> t1 = t2;
  lo_injective : forall h1 h2 p, pending st.1 !! h1 = Some p -> pending st.1 !! h2 = Some p -> h1 = h2;
  lo_fresh : forall p r, results st.1 !! p = Some r -> p < created st.1;
}.

(** ** Lemmas *)

Lemma others_Forall {V} (P : bytes * V -> Prop) k l : Forall P l -> Forall P (others k l).
Proof. rewrite !Forall_forall. intros Hl e [_ He]%list_elem_of_filter. by apply Hl. Qed.

Lemma cache_get s k :
  cache_ok s ->
  let '(c, found) := lru_get (lruc s) k in
  cache_ok (MkShared c (pending s) (results s) (created s)) /\ (forall cert, found = Some cert -> cert_for k cert).
Proof.
  intros (l & Hl & Hf). pose proof (run_op_holds _ _ (Get k) Hl) as Hr. cbn [run_op spec_op] in Hr.
  destruct (lru_get (lruc s) k) as [c found]. rewrite Forall_forall in Hf.
  destruct (valueOf k l) as [v|] eqn:Ev; destruct Hr as (Hh & -> & _); (split; [|intros cert [=]]).
  - eexists. split; [exact Hh|]. constructor; [apply (Hf (k, v)), (valueOf_in _ _ _ Ev)|].
    by apply others_Forall, Forall_forall.
  - subst v. apply (Hf (k, cert)), (valueOf_in _ _ _ Ev).
  - exists l. split; [done|by apply Forall_forall].
Qed.

Lemma cache_remove s k p r n : cache_ok s -> cache_ok (MkShared (lru_remove (lruc s) k) p r n).
Proof.
  intros (l & Hl & Hf). pose proof (run_op_holds _ _ (Remove k) Hl) as Hr. cbn [run_op spec_op] in Hr.
  destruct Hr as (Hh & _). exists (others k l). split; [done|]. by apply others_Forall.
Qed.

Lemma cache_put s k cert p r n : cert_for k cert -> cache_ok s -> cache_ok (MkShared (lru_put (lruc s) k cert) p r n).
Proof.
  intros Hc (l & Hl & Hf). pose proof (run_op_holds _ _ (Put k cert) Hl) as Hr. cbn [run_op spec_op] in Hr.
  destruct Hr as (Hh & _). eexists. split; [exact Hh|]. unfold spec_put. destruct (valueOf k l).
  - constructor; [done|]. by apply others_Forall.
  - apply Forall_take. by constructor.
Qed.

Lemma GenerateLeafCert_for signer crypto root host now : result_for host (GenerateLeafCert signer crypto root host now).
Proof.
  unfold GenerateLeafCert. destruct (bytes_eqb (normalizeHostname host) []) eqn:E; [done|]. destruct signer; [|done]. cbn [negb].
  destruct root as [ca|]; [|done]. destruct (ca_IsCA ca); [|done]. cbn [negb]. destruct crypto; [|done]. cbn [negb].
  apply bool_decide_eq_false in E. destruct (ParseAddr _); split_and!; cbn; try done; set_solver.
Qed.

(** Threads that only look at the cache are not [flying]. *)
Lemma flying_ok s ts th host p : thread_ok s ts th -> flying th host p -> pending s !! host = Some p /\ p < created s.
Proof. intros Hok [->|[r ->]]; cbn in Hok; naive_solver. Qed.

(** Another thread's view when thread [t] moves and the results only grow. *)
Lemma thread_frame s ts s' t th' th2 :
  thread_ok s ts th2 ->
  (forall host p, flying th2 host p -> pending s' !! host = Some p /\ results s' !! p = results s !! p) ->
  (forall p r, results s !! p = Some r -> results s' !! p = Some r) ->
  (forall host p, ts !! t = Some (Generating host p) -> results s !! p = None ->
     th' = Generating host p \/ exists r, results s' !! p = Some r /\
       forall h, th2 = Waiting h p -> result_for h r) ->
  (forall p r, results s !! p = None -> results s' !! p = Some r ->
     forall h, th2 = Waiting h p -> result_for h r) ->
  created s <= created s' ->
  thread_ok s' (<[t := th']> ts) th2.
Proof.
  intros Hok Hfl Hgrow Hgen Hnew Hle. destruct th2 as [h|h c|h p|h p|h p r|h r]; cbn in *; try done.
  - destruct (results s !! p) as [r|] eqn:Er; [by rewrite (Hgrow _ _ Er)|].
    destruct Hok as [t0 Ht0]. destruct (results s' !! p) as [r|] eqn:Er'; [by eapply Hnew|].
    destruct (decide (t0 = t)) as [->|Hne].
    + destruct (Hgen _ _ Ht0 Er) as [->|(r & Hr & _)]; [|congruence]. exists t. by rewrite lookup_insert_eq.
    + exists t0. by rewrite lookup_insert_ne by done.
  - destruct Hok as (Hp & Hr & Hc). destruct (Hfl h p) as [Hp' Hr']; [by left|]. rewrite Hr'. split_and!; [done|done|lia].
  - destruct Hok as (Hp & Hr & Hres & Hc). destruct (Hfl h p) as [Hp' Hr']; [right; by eexists|]. rewrite Hr'.
    split_and!; [done|done|done|lia].
Qed.

(** The thread [t] moves to [th']: what is left to show of the new state. *)
Lemma leaf_move s ts s' t th th' :
  leaf_ok (s, ts) -> ts !! t = Some th ->
  cache_ok s' -> thread_ok s' (<[t := th']> ts) th' ->
  (forall t2 th2, t2 <> t -> ts !! t2 = Some th2 -> thread_ok s' (<[t := th']> ts) th2) ->
  (forall host p, pending s' !! host = Some p -> flying th' host p \/ (pending s !! host = Some p /\ ~ flying th host p)) ->
  (forall host p, flying th' host p -> flying th host p \/ pending s !! host = None) ->
  (forall h1 h2 p, pending s' !! h1 = Some p -> pending s' !! h2 = Some p -> h1 = h2) ->
  (forall p r, results s' !! p = Some r -> p < created s') ->
  leaf_ok (s', <[t := th']> ts).
Proof.
  intros [Hc Hth Hpe Hsi Hin Hfr] Ht Hc' Hok' Hothers Hpe' Hfl Hin' Hfr'. cbn in *.
  constructor; cbn; [done| | | |done|done].
  - intros t2 th2 Ht2. destruct (decide (t2 = t)) as [->|Hne]; [rewrite lookup_insert_eq in Ht2; by simplify_eq|].
    rewrite lookup_insert_ne in Ht2 by done. by eapply Hothers.
  - intros host p [Hf|[Hp Hnf]]%Hpe'; [exists t, th'; by rewrite lookup_insert_eq|].
    destruct (Hpe _ _ Hp) as (t2 & th2 & Ht2 & Hf2). exists t2, th2. split; [|done].
    rewrite lookup_insert_ne; [done|]. intros <-. by simplify_eq.
  - assert (Hnew : forall t2 th2 host p p2, t2 <> t -> ts !! t2 = Some th2 -> flying th' host p -> flying th2 host p2 -> False).
    { intros t2 th2 host p p2 Hne Ht2 Hf Hf2. destruct (Hfl _ _ Hf) as [Hfo|Hno].
      - apply Hne. by eapply Hsi.
      - destruct (flying_ok _ _ _ _ _ (Hth _ _ Ht2) Hf2). congruence. }
    intros t1 t2 th1 th2 host p1 p2 H1 H2 F1 F2.
    destruct (decide (t1 = t)) as [->|N1], (decide (t2 = t)) as [->|N2]; [done| | |].
    + rewrite lookup_insert_eq in H1. rewrite lookup_insert_ne in H2 by done. simplify_eq. by destruct (Hnew _ _ _ _ _ N2 H2 F1 F2).
    + rewrite lookup_insert_eq in H2. rewrite lookup_insert_ne in H1 by done. simplify_eq. by destruct (Hnew _ _ _ _ _ N1 H1 F2 F1).
    + rewrite lookup_insert_ne in H1, H2 by done. by eapply Hsi.
Qed.

(** Steps that leave the pending generations alone. *)
Lemma leaf_quiet s ts c t th th' :
  leaf_ok (s, ts) -> ts !! t = Some th ->
  let s' := MkShared c (pending s) (results s) (created s) in
  cache_ok s' -> thread_ok s' (<[t := th']> ts) th' ->
  (forall host p, ~ flying th host p) -> (forall host p, ~ flying th' host p) ->
  leaf_ok (s', <[t := th']> ts).
Proof.
  intros Hok Ht s' Hc' Hth' Hn Hn'. destruct Hok as [Hc Hth Hpe Hsi Hin Hfr] eqn:E. clear E. cbn in *.
  eapply leaf_move; [by constructor|done|done|done| | | |done|done].
  - intros t2 th2 Hne Ht2. eapply thread_frame; [by eapply Hth|intros host p Hf|done|intros host p Hg|intros q0 r0 Hq1 Hq2; cbn in Hq2; congruence|done].
    + destruct (flying_ok _ _ _ _ _ (Hth _ _ Ht2) Hf). done.
    + rewrite Ht in Hg. simplify_eq. destruct (Hn host p). by left.
  - intros host p Hp. right. split; [done|apply Hn].
  - intros host p Hf. by destruct (Hn' host p).
Qed.

Lemma leaf_join s ts c t th host :
  leaf_ok (s, ts) -> ts !! t = Some th -> (forall host p, ~ flying th host p) ->
  cache_ok (MkShared c (pending s) (results s) (created s)) ->
  let '(s', th') := joinPending (MkShared c (pending s) (results s) (created s)) host in
  leaf_ok (s', <[t := th']> ts).
Proof.
  intros Hok Ht Hn Hc'. unfold joinPending. cbn [pending results created lruc].
  destruct Hok as [Hc Hth Hpe Hsi Hin Hfr] eqn:E. clear E. cbn in *.
  destruct (pending s !! host) as [p|] eqn:Ep.
  - apply (leaf_quiet s ts c t th); [done|done|done| |done|by intros h q [|[]]]. cbn.
    destruct (Hpe _ _ Ep) as (t2 & th2 & Ht2 & Hf). pose proof (Hth _ _ Ht2) as Hok2. cbn in Hok2.
    destruct Hf as [->|[r ->]]; cbn in Hok2.
    + destruct Hok2 as (_ & -> & _). exists t2. rewrite lookup_insert_ne; [done|]. intros <-. simplify_eq. destruct (Hn host p). by left.
    + by destruct Hok2 as (_ & -> & Hr & _).
  - assert (Hlt : forall h q, pending s !! h = Some q -> q < created s).
    { intros h q (t2 & th2 & Ht2 & Hf)%Hpe. by destruct (flying_ok _ _ _ _ _ (Hth _ _ Ht2) Hf). }
    assert (Hnone : results s !! created s = None).
    { destruct (results s !! created s) as [r|] eqn:Er; [|done]. apply Hfr in Er. lia. }
    eapply leaf_move; [by constructor|done|done| | | | | |]; cbn [pending results created].
    + cbn. rewrite lookup_insert_eq. split_and!; [done|done|lia].
    + intros t2 th2 Hne Ht2. eapply thread_frame; [by eapply Hth|intros h q Hf|done|intros h q Hg|intros q0 r0 Hq1 Hq2; cbn in Hq2; congruence|cbn; lia].
      * destruct (flying_ok _ _ _ _ _ (Hth _ _ Ht2) Hf) as [Hp _]. cbn. rewrite lookup_insert_ne by congruence. done.
      * rewrite Ht in Hg. simplify_eq. destruct (Hn h q). by left.
    + intros h q Hp. destruct (decide (h = host)) as [->|Hne].
      * rewrite lookup_insert_eq in Hp. left. simplify_eq. by left.
      * rewrite lookup_insert_ne in Hp by done. right. split; [done|apply Hn].
    + intros h q [[= <- <-]|[r [=]]]. by right.
    + intros h1 h2 q H1 H2. destruct (decide (h1 = host)) as [->|N1], (decide (h2 = host)) as [->|N2]; [done| | |].
      * rewrite lookup_insert_eq in H1. rewrite lookup_insert_ne in H2 by done. simplify_eq. apply Hlt in H2. lia.
      * rewrite lookup_insert_eq in H2. rewrite lookup_insert_ne in H1 by done. simplify_eq. apply Hlt in H1. lia.
      * rewrite lookup_insert_ne in H1, H2 by done. by eapply Hin.
    + intros q r Hq%Hfr. lia.
Qed.

Lemma leaf_publish s ts t host p r :
  leaf_ok (s, ts) -> ts !! t = Some (Generating host p) -> result_for host r ->
  let '(s', th') := publish s host p r in leaf_ok (s', <[t := th']> ts).
Proof.
  intros Hok Ht Hr. unfold publish. destruct Hok as [Hc Hth Hpe Hsi Hin Hfr] eqn:E. clear E. cbn in *.
  destruct (Hth _ _ Ht) as (Hp & Hnone & Hlt). cbn in Hp, Hnone, Hlt.
  assert (Hother : forall t2 th2 h, t2 <> t -> ts !! t2 = Some th2 -> ~ flying th2 h p).
  { intros t2 th2 h Hne Ht2 Hf. destruct (flying_ok _ _ _ _ _ (Hth _ _ Ht2) Hf) as [Hp2 _]. cbn in Hp2.
    assert (h = host) as -> by (by eapply Hin). apply Hne. eapply Hsi; [done|done|done|by left]. }
  eapply leaf_move; [by constructor|done|done| | | | |done|]; cbn [pending results created].
  - cbn. rewrite lookup_insert_eq. done.
  - intros t2 th2 Hne Ht2. eapply thread_frame; [by eapply Hth| | | | |done]; cbn [pending results created].
    + intros h q Hf. destruct (flying_ok _ _ _ _ _ (Hth _ _ Ht2) Hf). split; [done|].
      rewrite lookup_insert_ne; [done|]. intros <-. by eapply Hother.
    + intros q r0 Hq. rewrite lookup_insert_ne; [done|]. congruence.
    + intros h q Hg _. rewrite Ht in Hg. simplify_eq. right. exists r. rewrite lookup_insert_eq. split; [done|].
      intros h' ->. pose proof (Hth _ _ Ht2) as Hw. cbn in Hw. rewrite Hnone in Hw. destruct Hw as [t3 Ht3].
      destruct (decide (t3 = t)) as [->|N3]; [rewrite Ht in Ht3; by simplify_eq|]. destruct (Hother _ _ h' N3 Ht3). by left.
    + intros q r0 Hq1 Hq2 h' ->. destruct (decide (q = p)) as [->|Nq]; [|rewrite lookup_insert_ne in Hq2 by done; congruence].
      rewrite lookup_insert_eq in Hq2. simplify_eq. pose proof (Hth _ _ Ht2) as Hw. cbn in Hw. rewrite Hnone in Hw. destruct Hw as [t3 Ht3].
      destruct (decide (t3 = t)) as [->|N3]; [rewrite Ht in Ht3; by simplify_eq|]. destruct (Hother _ _ h' N3 Ht3). by left.
  - intros h q Hq. destruct (decide (q = p)) as [->|Nq].
    + left. right. exists r. f_equal. by eapply Hin.
    + right. split; [done|]. intros [[=]|[? [=]]]; congruence.
  - intros h q [[=]|[r0 [= <- <- <-]]]. left. by left.
  - intros q r0 Hq. destruct (decide (q = p)) as [->|Nq]; [done|]. rewrite lookup_insert_ne in Hq by done. by eapply Hfr.
Qed.

Lemma leaf_finish s ts t host p r :
  leaf_ok (s, ts) -> ts !! t = Some (Finishing host p r) ->
  let '(s', th') := finish s host r in leaf_ok (s', <[t := th']> ts).
Proof.
  intros Hok Ht. unfold finish. destruct Hok as [Hc Hth Hpe Hsi Hin Hfr] eqn:E. clear E. cbn in *.
  destruct (Hth _ _ Ht) as (Hp & Hres & Hr & Hlt). cbn in Hp, Hres, Hr, Hlt.
  eapply leaf_move; [by constructor|done| | | | | | |done]; cbn [pending results created].
  - destruct r as [cert|e]; [by apply cache_put|]. destruct Hc as (l & ? & ?). by exists l.
  - done.
  - intros t2 th2 Hne Ht2. eapply thread_frame; [by eapply Hth|intros h q Hf|done|intros h q Hg|intros q0 r0 Hq1 Hq2; cbn in Hq2; congruence|done].
    + destruct (flying_ok _ _ _ _ _ (Hth _ _ Ht2) Hf) as [Hp2 _]. cbn. split; [|done]. rewrite lookup_delete_ne; [done|].
      intros <-. apply Hne. eapply Hsi; [done|done|done|right; by eexists].
    + rewrite Ht in Hg. done.
  - intros h q Hq. destruct (decide (h = host)) as [->|Nh]; [by rewrite lookup_delete_eq in Hq|].
    rewrite lookup_delete_ne in Hq by done. right. split; [done|]. intros [[=]|[? [=]]]; congruence.
  - intros h q [[=]|[? [=]]].
  - intros h1 h2 q H1 H2. apply lookup_delete_Some in H1 as [_ H1], H2 as [_ H2]. by eapply Hin.
Qed.

Lemma leaf_step signer root st st' : get_step signer root st st' -> leaf_ok st -> leaf_ok st'.
Proof.
  intros [s ts t hostname Hnone|s ts t th s' th' Ht Hm] Hok.
  - destruct Hok as [Hc Hth Hpe Hsi Hin Hfr]. constructor; cbn in *; [done| | | |done|done].
    + intros t2 th2 Ht2. destruct (decide (t2 = t)) as [->|Hne]; [rewrite lookup_insert_eq in Ht2; by simplify_eq|].
      rewrite lookup_insert_ne in Ht2 by done. eapply thread_frame; [by eapply Hth|intros h q Hf|done|intros h q Hg; congruence|congruence|done].
      by destruct (flying_ok _ _ _ _ _ (Hth _ _ Ht2) Hf).
    + intros h q (t2 & th2 & Ht2 & Hf)%Hpe. exists t2, th2. split; [|done]. rewrite lookup_insert_ne; [done|congruence].
    + intros t1 t2 th1 th2 h p1 p2 H1 H2 F1 F2.
      destruct (decide (t1 = t)) as [->|N1]; [rewrite lookup_insert_eq in H1; simplify_eq; by destruct F1 as [|[]]|].
      destruct (decide (t2 = t)) as [->|N2]; [rewrite lookup_insert_eq in H2; simplify_eq; by destruct F2 as [|[]]|].
      rewrite lookup_insert_ne in H1, H2 by done. by eapply Hsi.
  - pose proof (lo_cache _ Hok) as Hc. pose proof (lo_threads _ Hok _ _ Ht) as Hth. cbn in Hc, Hth.
    remember (s', th') as out eqn:Eout. destruct Hm as [hostname|now host cert|now crypto host p|host p r|host p r Hr].
    + revert Eout. unfold enter. destruct (bytes_eqb _ []).
      { intros [= <- <-]. destruct s as [c pe re cr].
        apply (leaf_quiet (MkShared c pe re cr) ts c t (Start hostname)); [done|done|done|done|by intros h q [|[]]|by intros h q [|[]]]. }
      pose proof (cache_get s (normalizeHostname hostname) Hc) as Hg. destruct (lru_get (lruc s) _) as [c found].
      destruct Hg as [Hc' Hfound]. destruct found as [cert|].
      * intros [= <- <-]. apply (leaf_quiet s ts c t (Start hostname)); [done|done|done|by apply Hfound|by intros h q [|[]]|by intros h q [|[]]].
      * intros Eout. pose proof (leaf_join s ts c t _ (normalizeHostname hostname) Hok Ht ltac:(by intros h q [|[]]) Hc') as Hj.
        rewrite Eout in Hj. done.
    + revert Eout. unfold check. destruct (leafStillValid now cert).
      { intros [= <- <-]. destruct s as [c pe re cr].
        apply (leaf_quiet (MkShared c pe re cr) ts c t (Checking host cert)); [done|done|done|done|by intros h q [|[]]|by intros h q [|[]]]. }
      intros Eout. pose proof (leaf_join s ts (lru_remove (lruc s) host) t _ host Hok Ht ltac:(by intros h q [|[]]) (cache_remove _ _ _ _ _ Hc)) as Hj.
      rewrite Eout in Hj. done.
    + pose proof (leaf_publish s ts t host p _ Hok Ht (GenerateLeafCert_for signer crypto root host now)) as Hj.
      unfold publish in *. by simplify_eq.
    + pose proof (leaf_finish s ts t host p r Hok Ht) as Hj. unfold finish in *. by simplify_eq.
    + simplify_eq. destruct s' as [c pe re cr]. cbn in Hr, Hth. rewrite Hr in Hth.
      apply (leaf_quiet (MkShared c pe re cr) ts c t (Waiting host p)); [done|done|done|done|by intros h q [|[]]|by intros h q [|[]]].
Qed.

Lemma leaf_initial n : leaf_ok (NewLeafCacheWithSize n, ∅).
Proof.
  constructor; cbn.
  - exists []. split; [|constructor]. apply empty_holds. destruct (Z.leb_spec n 0); [unfold DefaultLeafCacheSize; cbn; lia|lia].
  - apply map_Forall_empty.
  - intros host p Hp. by rewrite lookup_empty in Hp.
  - intros t1 t2 th1 th2 h p1 p2 Ht1. by rewrite lookup_empty in Ht1.
  - intros h1 h2 p Hp. by rewrite lookup_empty in Hp.
  - intros p r Hp. by rewrite lookup_empty in Hp.
Qed.

Lemma leaf_reachable signer root st st' : rtc (get_step signer root) st st' -> leaf_ok st -> leaf_ok st'.
Proof. induction 1 as [|st1 st2 st3 H12 _ IH]; [done|]. intros Hok. by eapply IH, leaf_step. Qed.

Lemma thread_step_get signer root st st' : thread_step signer root st st' -> get_step signer root st st'.
Proof. destruct st as [s ts], st' as [s' ts']. intros (t & th & th' & Ht & Hm & Hts). cbn in *. subst ts'. by eapply step_thread. Qed.

Lemma exec1_step signer root t now crypto st st' :
  exec1 signer root (Step t now crypto) st = Some st' -> thread_step signer root st st'.
Proof.
  destruct st as [s ts]. cbn. destruct (ts !! t) as [th|] eqn:Et; [|done]. cbn.
  enough (Hm : forall x, match th with
      | Start hostname => Some (enter s hostname)
      | Checking host cert => Some (check s now host cert)
      | Generating host p => Some (publish s host p (GenerateLeafCert signer crypto root host now))
      | Finishing host p r => Some (finish s host r)
      | Waiting host p => r ← results s !! p; Some (s, Done host r)
      | Done _ _ => None
      end = Some x -> moves signer root s th x).
  { destruct (match th with Start _ => _ | _ => _ end) as [[s' th']|] eqn:E; [|done]. intros [= <-]. exists t, th, th'. by auto. }
  intros x. destruct th as [hostname|host cert|host p|host p|host p r|host r]; cbn; try (intros [= <-]; by constructor).
  - destruct (results s !! p) eqn:Er; [|done]. intros [= <-]. by constructor.
Qed.

Lemma exec_sound signer root evs st st' : exec signer root evs st = Some st' -> rtc (get_step signer root) st st'.
Proof.
  revert st. induction evs as [|ev evs IH]; intros st; cbn [exec]; [intros [= <-]; apply rtc_refl|].
  destruct (exec1 signer root ev st) as [st1|] eqn:E; [|done]. intros He. eapply rtc_l; [|by apply IH]. clear IH He.
  destruct ev as [t hostname|t now crypto]; [|by eapply thread_step_get, exec1_step].
  destruct st as [s ts]. cbn in E. destruct (ts !! t) eqn:Et; [done|]. injection E as <-. by apply step_request.
Qed.

(** The same for a schedule without new requests. *)
Lemma exec_steps signer root evs st st' :
  Forall (fun ev => match ev with Step _ _ _ => True | Request _ _ => False end) evs ->
  exec signer root evs st = Some st' -> nsteps (thread_step signer root) (length evs) st st'.
Proof.
  intros Hev. revert st. induction Hev as [|ev evs Hs _ IH]; intros st; cbn [exec length]; [intros [= <-]; constructor|].
  destruct (exec1 signer root ev st) as [st1|] eqn:E; [|done]. intros He. eapply nsteps_l; [|by apply IH].
  destruct ev; [done|]. by eapply exec1_step.
Qed.


(** ** Termination *)

(** The steps a thread has left at most. *)
Definition rank (th : thread) : nat :=
  match th with
  | Start _ => 4 | Checking _ _ => 3 | Generating _ _ => 2 | Finishing _ _ _ => 1 | Waiting _ _ => 1 | Done _ _ => 0
  end.

Definition work (ts : gmap nat thread) : nat := map_fold (fun _ th n => rank th + n) 0 ts.

Definition all_done (ts : gmap nat thread) : Prop := map_Forall (fun _ th => exists host r, th = Done host r) ts.

Lemma work_insert_None ts t th : ts !! t = None -> work (<[t := th]> ts) = rank th + work ts.
Proof. intros Ht. unfold work. rewrite map_fold_insert_L; [done|intros; lia|done]. Qed.

Lemma work_insert ts t th th' : ts !! t = Some th -> work (<[t := th']> ts) + rank th = work ts + rank th'.
Proof.
  intros Ht. rewrite <- (insert_delete_id ts t th Ht) at 2. rewrite <- (insert_delete_eq ts t th').
  rewrite !work_insert_None by apply lookup_delete_eq. lia.
Qed.

Lemma joinPending_rank s host : rank (joinPending s host).2 <= 2.
Proof. unfold joinPending. destruct (pending s !! host); cbn; lia. Qed.

Lemma moves_rank signer root s th s' th' : moves signer root s th (s', th') -> rank th' < rank th.
Proof.
  intros Hm. change th' with (s', th').2. inversion Hm as [hostname|now host cert|now cr host p|host p r|host p r Hr];
    subst; cbn [rank snd publish finish]; try lia.
  - unfold enter. destruct (bytes_eqb _ []); [cbn; lia|]. destruct (lru_get _ _) as [c [cert|]]; [cbn; lia|].
    pose proof (joinPending_rank (MkShared c (pending s) (results s) (created s)) (normalizeHostname hostname)). lia.
  - unfold check. destruct (leafStillValid now cert); [cbn; lia|].
    pose proof (joinPending_rank (MkShared (lru_remove (lruc s) host) (pending s) (results s) (created s)) host). lia.
Qed.

Lemma thread_step_work signer root st st' : thread_step signer root st st' -> work st'.2 < work st.2.
Proof.
  intros (t & th & th' & Ht & Hm & ->). pose proof (moves_rank _ _ _ _ _ _ Hm). pose proof (work_insert _ _ _ th' Ht). lia.
Qed.

(** A thread that is not done can move, or waits for one that can. *)
Lemma leaf_progress signer root s ts :
  leaf_ok (s, ts) -> all_done ts \/ exists st', thread_step signer root (s, ts) st'.
Proof.
  intros Hok. destruct (decide (map_Forall (fun _ th => rank th = 0) ts)) as [Hd|Hn].
  { left. intros t th Ht. specialize (Hd _ _ Ht). destruct th; cbn in Hd; try lia. by eexists _, _. }
  right. apply map_not_Forall in Hn as (t & th & Ht & Hr); [|apply _].
  assert (Hgo : forall t th x, ts !! t = Some th -> moves signer root s th x -> exists st', thread_step signer root (s, ts) st').
  { intros t0 th0 [s1 th1] H0 Hm. exists (s1, <[t0 := th1]> ts). by exists t0, th0, th1. }
  destruct th as [hostname|host cert|host p|host p|host p r|host r].
  - eapply Hgo; [exact Ht|apply move_enter].
  - eapply Hgo; [exact Ht|apply (move_check _ _ _ 0)].
  - pose proof (lo_threads _ Hok _ _ Ht) as Hw. cbn in Hw. destruct (results s !! p) as [r|] eqn:Er.
    + eapply Hgo; [exact Ht|by constructor].
    + destruct Hw as [t' Ht']. eapply Hgo; [exact Ht'|apply (move_generate _ _ _ 0 true)].
  - eapply Hgo; [exact Ht|apply (move_generate _ _ _ 0 true)].
  - eapply Hgo; [exact Ht|apply move_finish].
  - by cbn in Hr.
Qed.

Lemma thread_steps_work signer root k st st' : nsteps (thread_step signer root) k st st' -> k + work st'.2 <= work st.2.
Proof. induction 1 as [|k st1 st2 st3 H12 _ IH]; [lia|]. apply thread_step_work in H12. lia. Qed.

(** Every request is answered, whatever the scheduler does: from any
    reachable state the threads make at most [work ts] more steps (four per
    request), and when no thread can move every request has its answer. *)
Theorem leaf_cache_answers signer root n s ts k st' :
  rtc (get_step signer root) (NewLeafCacheWithSize n, ∅) (s, ts) ->
  nsteps (thread_step signer root) k (s, ts) st' ->
  k <= work ts /\ ((forall st'', ~ thread_step signer root st' st'') -> all_done st'.2).
Proof.
  intros Hs Hk. split; [apply thread_steps_work in Hk; cbn in Hk; lia|]. intros Hstuck.
  assert (Hr : rtc (get_step signer root) (s, ts) st').
  { eapply rtc_nsteps_2, nsteps_congruence with (f := fun x => x); [|exact Hk]. intros x y. apply thread_step_get. }
  destruct st' as [s' ts']. destruct (leaf_progress signer root s' ts') as [Hd|[st'' Hst]]; [|exact Hd|].
  - eapply leaf_reachable; [|apply leaf_initial]. by etrans.
  - by destruct (Hstuck st'').
Qed.

End leaf.

Definition sample_root : option rootCA := Some (MkRoot true (1000 * leafValidity)).

(** Two requests for the same host share a generation. *)
Definition sample_schedule : list event :=
  [Request 1 (str "Example.org:443"); Request 2 (str "example.org"); Step 1 0 true; Step 2 0 true; Step 1 0 true;
   Step 2 0 true; Step 1 0 true].

Lemma leaf_cache_answers_witness :
  exists s ts st', @exec ascii_tables true sample_root (take 2 sample_schedule) (NewLeafCacheWithSize 2, ∅) = Some (s, ts) /\
  @exec ascii_tables true sample_root (drop 2 sample_schedule) (s, ts) = Some st' /\
  5 <= work ts /\
  ((forall st'', ~ @thread_step ascii_tables true sample_root st' st'') -> all_done st'.2).
Proof.
  destruct (@exec ascii_tables true sample_root (take 2 sample_schedule) (NewLeafCacheWithSize 2, ∅)) as [[s ts]|] eqn:E;
    [|exfalso; revert E; vm_compute; discriminate].
  destruct (@exec ascii_tables true sample_root (drop 2 sample_schedule) (s, ts)) as [st'|] eqn:E';
    [|exfalso; revert E'; vm_compute in E; injection E as <- <-; vm_compute; discriminate].
  exists s, ts, st'. split; [reflexivity|]. split; [exact E'|].
  apply (@leaf_cache_answers ascii_tables true sample_root 2 s ts 5 st').
  - apply exec_sound with (evs := take 2 sample_schedule). exact E.
  - apply exec_steps with (evs := drop 2 sample_schedule); [repeat constructor|exact E'].
Defined.


(** Two requests find the same certificate about to expire; the second one
    then drops the certificate the first has generated, and generates once
    more. *)
Definition expired_schedule : list event :=
  [Request 0 (str "h"); Step 0 0 true; Step 0 0 true; Step 0 0 true;
   Request 1 (str "h"); Request 2 (str "h"); Step 1 0 true; Step 2 0 true;
   Step 1 leafValidity true; Step 1 leafValidity true; Step 1 leafValidity true;
   Step 2 leafValidity true].

Lemma leaf_expired_regenerates :
  (fun '(s, ts) => (ts !! 2, created s, lru_len (lruc s),
     match ts !! 1 with Some (Done host (Ok c)) => Some (host, leafStillValid leafValidity c) | _ => None end))
  <$> @exec ascii_tables true sample_root expired_schedule (NewLeafCacheWithSize 2, ∅) =
  Some (Some (Generating (str "h") 2), 3, 0, Some (str "h", true)).
Proof. vm_compute. reflexivity. Qed.
