(* ===== verification/Ca.v ===== *)
(** * The root certificate (pki/ca.go)

    [LoadOrCreateCA] keeps the root certificate and its key as two PEM files.
    A disk has the files, with their permissions, and says which reads and
    writes fail; a write that fails after the file was opened leaves a prefix.
    Keys, signatures and DER are those of the crypto packages, a parameter
    with the laws the code relies on. *)

From S2P Require Import Prelude GoStrings GoPath GoPem GoNetip LeafCache.

(** ** Files *)

Inductive fileError := NotExist | FileFailed.

Record file := MkFile { f_data : bytes; f_perm : Z }.

(** What happens to a write: done, the file cannot be opened, or an error
    after [n] bytes. *)
Inductive writeOutcome := WriteDone | OpenFails | WriteStops (n : nat).

Record disk := MkDisk {
  d_files : gmap bytes file;
  d_readable : bytes -> bool;
  d_mkdir : bool;
  d_write : bytes -> writeOutcome;
  d_umask : Z;
}.

Definition ReadFile (d : disk) (p : bytes) : result fileError bytes :=
  if negb (d_readable d p) then Err FileFailed
  else match d_files d !! p with Some f => Ok (f_data f) | None => Err NotExist end.

(** [os.WriteFile]: the permissions only count for a new file. *)
Definition putFile (d : disk) (p data : bytes) (perm : Z) : disk :=
  MkDisk (<[p := MkFile data (match d_files d !! p with Some f => f_perm f | None => Z.ldiff perm (d_umask d) end)]> (d_files d))
    (d_readable d) (d_mkdir d) (d_write d) (d_umask d).

Definition WriteFile (d : disk) (p data : bytes) (perm : Z) : disk * bool :=
  match d_write d p with
  | WriteDone => (putFile d p data perm, true)
  | OpenFails => (d, false)
  | WriteStops n => (putFile d p (take n data) perm, false)
  end.

(** ** Certificates and keys *)

(** The fields of a certificate that the code sets or reads. *)
Record x509Certificate := MkX509 {
  x_SerialNumber : Z;
  x_CommonName : bytes;
  x_Organization : list bytes;
  x_NotBefore : Z;
  x_NotAfter : Z;
  x_KeyUsage : Z;
  x_BasicConstraintsValid : bool;
  x_IsCA : bool;
  x_MaxPathLen : Z;
}.

(** [MarshalEC] is of an ECDSA key.  A PKCS #8 key may be of a kind that does not sign.
    [AddYears n t] is [t.AddDate(n, 0, 0)] in the time zone of the machine. *)
Class Crypto : Type := {
  ecKey : Type;
  signer : Type;
  signerOf : ecKey -> signer;
  CreateCertificate : x509Certificate -> ecKey -> option bytes;
  ParseCertificate : bytes -> option x509Certificate;
  MarshalECPrivateKey : ecKey -> option bytes;
  ParseECPrivateKey : bytes -> option ecKey;
  ParsePKCS8PrivateKey : bytes -> option (option signer);
  AddYears : Z -> Z -> Z;
}.

(** What is written can be read; DER is never empty; a certificate says that
    it is an authority when its template did. *)
Class CryptoLaws `{Crypto} : Prop := {
  created_parses t k der : CreateCertificate t k = Some der ->
    der <> [] /\ forall c, ParseCertificate der = Some c -> x_BasicConstraintsValid t = true -> x_IsCA c = x_IsCA t;
  marshalled_parses k der : MarshalECPrivateKey k = Some der -> der <> [] /\ ParseECPrivateKey der = Some k;
}.

Section ca.
Context `{Crypto}.

Record CertificateAuthority := MkCA {
  Certificate : x509Certificate;
  PrivateKey : signer;
  CertPEM : bytes;
  KeyPEM : bytes;
}.

Inductive caError :=
| ErrReadCert (e : fileError) | ErrReadKey (e : fileError)
| ErrDecodeCert | ErrParseCert | ErrNotAuthority
| ErrDecodeKey | ErrParseEC | ErrParsePKCS8 | ErrKeyNotSigner | ErrKeyType (ty : bytes)
| ErrGenerateKey | ErrSerial | ErrCreateCert | ErrParseGenerated | ErrMarshalKey
| ErrEmptyAuthority | ErrCreateDir | ErrWriteCert | ErrWriteKey.

Definition CertFilename : bytes := str "ca.crt".
Definition KeyFilename : bytes := str "ca.key".
Definition rootCommonName : bytes := str "LucidGate Local Root CA".

(** [errors.Is(err, os.ErrNotExist)]. *)
Definition isNotExist (e : caError) : bool :=
  match e with ErrReadCert NotExist | ErrReadKey NotExist => true | _ => false end.

Definition parsePrivateKey (b : pemBlock) : result caError signer :=
  if bytes_eqb (pb_Type b) (str "EC PRIVATE KEY") then
    match ParseECPrivateKey (pb_Bytes b) with Some k => Ok (signerOf k) | None => Err ErrParseEC end
  else if bytes_eqb (pb_Type b) (str "PRIVATE KEY") then
    match ParsePKCS8PrivateKey (pb_Bytes b) with
    | None => Err ErrParsePKCS8
    | Some None => Err ErrKeyNotSigner
    | Some (Some s) => Ok s
    end
  else Err (ErrKeyType (pb_Type b)).

Definition LoadCA (d : disk) (dir : bytes) : result caError CertificateAuthority :=
  match ReadFile d (Join dir CertFilename) with
  | Err e => Err (ErrReadCert e)
  | Ok certPEM =>
  match ReadFile d (Join dir KeyFilename) with
  | Err e => Err (ErrReadKey e)
  | Ok keyPEM =>
  match pem_Decode certPEM with
  | None => Err ErrDecodeCert
  | Some certBlock =>
      if negb (bytes_eqb (pb_Type certBlock) (str "CERTIFICATE")) then Err ErrDecodeCert
      else match ParseCertificate (pb_Bytes certBlock) with
           | None => Err ErrParseCert
           | Some cert =>
               if negb (x_IsCA cert) then Err ErrNotAuthority
               else match pem_Decode keyPEM with
                    | None => Err ErrDecodeKey
                    | Some keyBlock =>
                        key ← parsePrivateKey keyBlock;
                        Ok (MkCA cert key certPEM keyPEM)
                    end
           end
  end end end.

(** The random source: a new key, and a number below the limit it is given. *)
Record entropy := MkEntropy { en_key : option ecKey; en_Int : Z -> option Z }.

Definition randomSerial (en : entropy) : result caError Z :=
  match en_Int en (Z.shiftl 1 128) with Some n => Ok n | None => Err ErrSerial end.

(** KeyUsageCertSign, KeyUsageCRLSign and KeyUsageDigitalSignature. *)
Definition rootKeyUsage : Z := Z.lor (Z.lor (Z.shiftl 1 5) (Z.shiftl 1 6)) (Z.shiftl 1 0).

Definition rootTemplate (serial now : Z) : x509Certificate :=
  MkX509 serial rootCommonName [str "LucidGate"] (now - 60 * second) (AddYears 10 now) rootKeyUsage true true 1.

Definition GenerateRootCA (en : entropy) (now : Z) : result caError CertificateAuthority :=
  match en_key en with
  | None => Err ErrGenerateKey
  | Some key =>
      serial ← randomSerial en;
      match CreateCertificate (rootTemplate serial now) key with
      | None => Err ErrCreateCert
      | Some der =>
          match ParseCertificate der with
          | None => Err ErrParseGenerated
          | Some cert =>
              match MarshalECPrivateKey key with
              | None => Err ErrMarshalKey
              | Some keyDER =>
                  Ok (MkCA cert (signerOf key) (EncodeToMemory (MkPemBlock (str "CERTIFICATE") der))
                        (EncodeToMemory (MkPemBlock (str "EC PRIVATE KEY") keyDER)))
              end
          end
      end
  end.

(** The disk, and the error. *)
Definition SaveCA (d : disk) (dir : bytes) (ca : option CertificateAuthority) : disk * option caError :=
  match ca with
  | None => (d, Some ErrEmptyAuthority)
  | Some ca =>
      if bytes_eqb (CertPEM ca) [] || bytes_eqb (KeyPEM ca) [] then (d, Some ErrEmptyAuthority)
      else if negb (d_mkdir d) then (d, Some ErrCreateDir)
      else
        let '(d, ok) := WriteFile d (Join dir CertFilename) (CertPEM ca) 420 in
        if negb ok then (d, Some ErrWriteCert)
        else
          let '(d, ok) := WriteFile d (Join dir KeyFilename) (KeyPEM ca) 384 in
          if negb ok then (d, Some ErrWriteKey) else (d, None)
  end.

Definition LoadOrCreateCA (d : disk) (dir : bytes) (en : entropy) (now : Z) : disk * result caError CertificateAuthority :=
  match LoadCA d dir with
  | Ok ca => (d, Ok ca)
  | Err e =>
      if negb (isNotExist e) then (d, Err e)
      else match GenerateRootCA en now with
           | Err e => (d, Err e)
           | Ok ca =>
               let '(d, err) := SaveCA d dir (Some ca) in
               match err with Some e => (d, Err e) | None => (d, Ok ca) end
           end
  end.

(** What the certificate cache is given. *)
Definition rootOf (ca : CertificateAuthority) : rootCA := MkRoot (x_IsCA (Certificate ca)) (x_NotAfter (Certificate ca)).

End ca.

(** ** Lemmas on the two files *)

Lemma join_slash_last l b : exists p, join_slash (l ++ [b]) = p ++ b.
Proof.
  induction l as [|e l IH]; [by exists []|]. destruct IH as [p Hp]. cbn [app join_slash].
  destruct (l ++ [b]) eqn:El; [by apply app_nil in El as [_ ?]|]. rewrite Hp.
  exists (e ++ str "/" ++ p). by rewrite <- !app_assoc.
Qed.

(** A name without slashes stays the last element of a path. *)
Lemma Clean_last a b :
  "/"%byte ∉ b -> b <> [] -> b <> str "." -> b <> str ".." -> exists p, Clean (a ++ str "/" ++ b) = p ++ b.
Proof.
  intros Hs H0 H1 H2. unfold Clean. change (a ++ str "/" ++ b) with (a ++ "/"%byte :: b).
  rewrite SplitByte_app, (SplitByte_none b), fold_left_app by done. cbn [fold_left].
  assert (He : forall rooted out, clean_elem rooted out b = b :: out).
  { intros rooted out. unfold clean_elem, bytes_eqb. by rewrite !bool_decide_eq_false_2. }
  rewrite He. cbn [rev]. set (l := rev _). destruct (join_slash_last l b) as [p Hp].
  destruct (IsAbs _).
  - exists (str "/" ++ p). by rewrite Hp, <- app_assoc.
  - exists p. destruct (l ++ [b]) eqn:El; [by apply app_nil in El as [_ ?]|]. by rewrite Hp.
Qed.

Lemma Join_file dir b :
  "/"%byte ∉ b -> b <> [] -> b <> str "." -> b <> str ".." -> exists p, Join dir b = p ++ b.
Proof.
  intros Hs H0 H1 H2. unfold Join, bytes_eqb. case_bool_decide; [|by apply Clean_last].
  rewrite bool_decide_eq_false_2 by done. unfold Clean. rewrite (SplitByte_none b) by done. cbn [fold_left].
  unfold clean_elem, bytes_eqb. rewrite !bool_decide_eq_false_2 by done. cbn [orb rev app join_slash].
  destruct (IsAbs b); [by exists (str "/")|by exists []].
Qed.

Lemma ca_files_differ dir : Join dir CertFilename <> Join dir KeyFilename.
Proof.
  destruct (Join_file dir CertFilename) as [p ->]; [by apply (bool_decide_eq_true_1 _); vm_compute|done..|].
  destruct (Join_file dir KeyFilename) as [q ->]; [by apply (bool_decide_eq_true_1 _); vm_compute|done..|].
  intros He. apply (f_equal last) in He. by rewrite !last_app in He.
Qed.

Section theorems.
Context `{CryptoLaws}.

Lemma GenerateRootCA_ok en now ca :
  GenerateRootCA en now = Ok ca ->
  exists der key keyDER,
    ca = MkCA (Certificate ca) (signerOf key) (EncodeToMemory (MkPemBlock (str "CERTIFICATE") der))
           (EncodeToMemory (MkPemBlock (str "EC PRIVATE KEY") keyDER)) /\
    der <> [] /\ ParseCertificate der = Some (Certificate ca) /\ x_IsCA (Certificate ca) = true /\
    keyDER <> [] /\ ParseECPrivateKey keyDER = Some key.
Proof.
  unfold GenerateRootCA. destruct (en_key en) as [key|]; [|done]. destruct (randomSerial en) as [serial|]; [|done].
  cbn [mbind result_bind]. destruct (CreateCertificate _ key) as [der|] eqn:Ec; [|done].
  destruct (ParseCertificate der) as [cert|] eqn:Ep; [|done]. destruct (MarshalECPrivateKey key) as [keyDER|] eqn:Em; [|done].
  intros [= <-]. destruct (created_parses _ _ _ Ec) as [Hne Hca]. destruct (marshalled_parses _ _ Em) as [Hk Hpk].
  exists der, key, keyDER. cbn [Certificate]. split_and!; try done. by apply (Hca cert Ep).
Qed.

(** Files with the text of a generated authority are loaded as that authority. *)
Lemma LoadCA_generated d dir en now ca :
  GenerateRootCA en now = Ok ca ->
  ReadFile d (Join dir CertFilename) = Ok (CertPEM ca) -> ReadFile d (Join dir KeyFilename) = Ok (KeyPEM ca) ->
  LoadCA d dir = Ok ca.
Proof.
  intros (der & key & keyDER & Hca & Hder & Hparse & His & Hkey & Hpk)%GenerateRootCA_ok Hc Hk.
  unfold LoadCA. rewrite Hc, Hk. destruct ca as [cert k cp kp]. cbn [Certificate CertPEM KeyPEM] in *. injection Hca as -> -> ->.
  rewrite pem_roundtrip by (done || by left). cbn [pb_Type pb_Bytes].
  change (bytes_eqb (str "CERTIFICATE") (str "CERTIFICATE")) with true. cbn [negb]. rewrite Hparse, His. cbn [negb].
  rewrite pem_roundtrip by (done || by right). unfold parsePrivateKey. cbn [pb_Type pb_Bytes].
  change (bytes_eqb (str "EC PRIVATE KEY") (str "EC PRIVATE KEY")) with true. cbv iota. by rewrite Hpk.
Qed.

Lemma LoadCA_IsCA d dir ca : LoadCA d dir = Ok ca -> x_IsCA (Certificate ca) = true.
Proof.
  unfold LoadCA. do 2 (destruct (ReadFile _ _); [|done]). destruct (pem_Decode _); [|done].
  destruct (negb _); [done|]. destruct (ParseCertificate _) as [c|]; [|done].
  destruct (x_IsCA c) eqn:E; [|done]. cbn [negb]. destruct (pem_Decode _); [|done].
  destruct (parsePrivateKey _); [|done]. by intros [= <-].
Qed.

Lemma LoadCA_not_exist d dir e :
  LoadCA d dir = Err e -> isNotExist e = true ->
  d_files d !! Join dir CertFilename = None \/ d_files d !! Join dir KeyFilename = None.
Proof.
  unfold LoadCA, ReadFile. destruct (negb (d_readable d (Join dir CertFilename))); [by intros [= <-]|].
  destruct (d_files d !! Join dir CertFilename); [|by left]. destruct (negb (d_readable d (Join dir KeyFilename))); [by intros [= <-]|].
  destruct (d_files d !! Join dir KeyFilename); [|by right].
  destruct (pem_Decode _); [|by intros [= <-]]. destruct (negb _); [by intros [= <-]|].
  destruct (ParseCertificate _) as [c|]; [|by intros [= <-]]. destruct (negb _); [by intros [= <-]|].
  destruct (pem_Decode _); [|by intros [= <-]]. unfold parsePrivateKey. cbn [mbind result_bind].
  repeat destr_match; by intros [= <-].
Qed.

(** A successful save leaves the texts of both files, readable as before. *)
Lemma SaveCA_ok d dir ca d' :
  SaveCA d dir (Some ca) = (d', None) ->
  d_readable d' = d_readable d /\
  f_data <$> d_files d' !! Join dir CertFilename = Some (CertPEM ca) /\
  f_data <$> d_files d' !! Join dir KeyFilename = Some (KeyPEM ca).
Proof.
  unfold SaveCA, WriteFile. destruct (_ || _); [done|]. destruct (negb _); [done|].
  destruct (d_write d (Join dir CertFilename)); try done. cbn [negb putFile d_write d_files d_umask].
  destruct (d_write d (Join dir KeyFilename)); try done. intros [= <-]. cbn.
  rewrite lookup_insert_ne by (symmetry; apply ca_files_differ). by rewrite !lookup_insert_eq.
Qed.

(** The permissions of a key file that was not there. *)
Lemma SaveCA_perm d dir ca d' err f :
  SaveCA d dir ca = (d', err) -> d_files d !! Join dir KeyFilename = None ->
  d_files d' !! Join dir KeyFilename = Some f -> f_perm f = Z.ldiff 384 (d_umask d).
Proof.
  intros Hs Hn Hf. pose proof (ca_files_differ dir) as Hne. revert Hs.
  unfold SaveCA, WriteFile. destruct ca as [ca|]; [|by intros [= <- _]; rewrite Hn in Hf].
  destruct (_ || _); [by intros [= <- _]; rewrite Hn in Hf|]. destruct (negb _); [by intros [= <- _]; rewrite Hn in Hf|].
  destruct (d_write d (Join dir CertFilename)); cbn [negb putFile d_write d_files d_umask].
  2-3: intros [= <- _]; cbn [d_files putFile] in Hf; try rewrite lookup_insert_ne in Hf by done; by rewrite Hn in Hf.
  destruct (d_write d (Join dir KeyFilename)); cbn [negb]; intros [= <- _]; cbn [d_files putFile] in Hf;
    rewrite ?(lookup_insert_ne _ _ _ _ Hne), ?Hn, ?lookup_insert_eq in Hf by done; by simplify_eq.
Qed.

Lemma owner_only umask : Z.land (Z.ldiff 384 umask) 63 = 0%Z.
Proof.
  apply Z.bits_inj'. intros n Hn. rewrite Z.land_spec, Z.ldiff_spec, Z.bits_0.
  rewrite (andb_comm (Z.testbit 384 n)), <- andb_assoc, <- Z.land_spec.
  change (Z.land 384 63) with 0%Z. by rewrite Z.bits_0, andb_false_r.
Qed.

Lemma LoadOrCreateCA_present d dir en now :
  is_Some (d_files d !! Join dir CertFilename) -> is_Some (d_files d !! Join dir KeyFilename) ->
  LoadOrCreateCA d dir en now = (d, LoadCA d dir).
Proof.
  intros [c Hc] [k Hk]. unfold LoadOrCreateCA. destruct (LoadCA d dir) as [ca|e] eqn:El; [done|].
  destruct (isNotExist e) eqn:Ee; [|done]. destruct (LoadCA_not_exist _ _ _ El Ee); congruence.
Qed.

Lemma LoadOrCreateCA_perm d dir en now f :
  d_files d !! Join dir KeyFilename = None ->
  d_files (LoadOrCreateCA d dir en now).1 !! Join dir KeyFilename = Some f -> Z.land (f_perm f) 63 = 0%Z.
Proof.
  intros Hn. unfold LoadOrCreateCA. destruct (LoadCA d dir) as [ca|e]; [by cbn [fst]; rewrite Hn|].
  destruct (negb _); [by cbn [fst]; rewrite Hn|]. destruct (GenerateRootCA en now) as [ca|]; [|by cbn [fst]; rewrite Hn].
  destruct (SaveCA d dir (Some ca)) as [d' err] eqn:Es. replace (match err with Some e => _ | None => _ end).1 with d' by (by destruct err).
  intros Hf. rewrite (SaveCA_perm _ _ _ _ _ _ Es Hn Hf). apply owner_only.
Qed.

Lemma LoadOrCreateCA_stable d dir en now d' ca :
  d_readable d (Join dir CertFilename) = true -> d_readable d (Join dir KeyFilename) = true ->
  LoadOrCreateCA d dir en now = (d', Ok ca) -> LoadCA d' dir = Ok ca.
Proof.
  intros Hrc Hrk. unfold LoadOrCreateCA. destruct (LoadCA d dir) as [ca0|e] eqn:El; [by intros [= <- <-]|].
  destruct (negb _); [done|]. destruct (GenerateRootCA en now) as [ca0|] eqn:Eg; [|done].
  destruct (SaveCA d dir (Some ca0)) as [d1 [err|]] eqn:Es; [done|]. intros [= <- <-].
  apply SaveCA_ok in Es as (Hr & (f & Hf & Hc)%fmap_Some & (g & Hg & Hk)%fmap_Some).
  apply (LoadCA_generated _ _ _ _ _ Eg); unfold ReadFile; rewrite Hr.
  - by rewrite Hrc, Hf, Hc.
  - by rewrite Hrk, Hg, Hk.
Qed.


End theorems.

(** ** An instance *)

#[global] Instance x509Certificate_eq_dec : EqDecision x509Certificate.
Proof. solve_decision. Defined.

(** A list of codes stays short, nested pairs do not. *)
Definition certCodes (c : x509Certificate) : list positive :=
  [encode (x_SerialNumber c); encode (x_CommonName c); encode (x_Organization c); encode (x_NotBefore c);
   encode (x_NotAfter c); encode (x_KeyUsage c); encode (x_BasicConstraintsValid c); encode (x_IsCA c); encode (x_MaxPathLen c)].

Definition certOfCodes (l : list positive) : option x509Certificate :=
  match l with
  | [a; b; c; d; e; f; g; h; i] =>
      a ← decode a; b ← decode b; c ← decode c; d ← decode d; e ← decode e; f ← decode f; g ← decode g;
      h ← decode h; i ← decode i; Some (MkX509 a b c d e f g h i)
  | _ => None
  end.

#[global] Instance x509Certificate_countable : Countable x509Certificate.
Proof. apply (inj_countable certCodes certOfCodes). intros []. unfold certCodes, certOfCodes. by rewrite !decode_encode. Defined.

(** A text for every value of a countable type. *)
Fixpoint toyText (p : positive) : bytes :=
  match p with
  | xH => str "."
  | xO p => "0"%byte :: toyText p
  | xI p => "1"%byte :: toyText p
  end.

Fixpoint toyRead (s : bytes) : option positive :=
  match s with
  | [] => None
  | b :: s => if decide (b = "."%byte) then Some xH
              else if decide (b = "0"%byte) then xO <$> toyRead s else xI <$> toyRead s
  end.

Lemma toyRead_Text p : toyRead (toyText p) = Some p.
Proof. induction p as [p IH|p IH|]; cbn; [by rewrite IH..|done]. Qed.

(** Certificates without a signature and keys that are numbers. *)
Definition toyCrypto : Crypto := {|
  ecKey := N; signer := N; signerOf k := k;
  CreateCertificate c k := Some (toyText (encode (c, k)));
  ParseCertificate der := p ← toyRead der; ck ← decode (A := x509Certificate * N) p; Some (fst ck);
  MarshalECPrivateKey k := Some (toyText (encode k));
  ParseECPrivateKey der := toyRead der ≫= decode;
  ParsePKCS8PrivateKey _ := None;
  AddYears n t := (t + n * 365 * 24 * 3600 * second)%Z;
|}.

Lemma toyText_nonempty p : toyText p <> [].
Proof. by destruct p. Qed.

Lemma toyCrypto_laws : CryptoLaws (H := toyCrypto).
Proof.
  split; cbn.
  - intros t k der [= <-]. split; [apply toyText_nonempty|]. intros c. rewrite toyRead_Text. cbn.
    rewrite decode_encode. by intros [= <-].
  - intros k der [= <-]. split; [apply toyText_nonempty|]. rewrite toyRead_Text. cbn. apply decode_encode.
Qed.

Definition toyDisk (files : gmap bytes file) : disk := MkDisk files (fun _ => true) true (fun _ => WriteDone) 18.
Definition toyEntropy (k : N) (serial : Z) : entropy (H := toyCrypto) :=
  @MkEntropy toyCrypto (Some k) (fun limit => Some (serial mod limit)%Z).


(** A start without the key file replaces the certificate that clients trust:
    the file had the serial number 5 and has 6 afterwards. *)
Lemma missing_key_replaces_root :
  let d := (LoadOrCreateCA (H := toyCrypto) (toyDisk ∅) (str "/ca") (toyEntropy 7 5) 0).1 in
  let d := toyDisk (delete (str "/ca/ca.key") (d_files d)) in
  let d' := (LoadOrCreateCA (H := toyCrypto) d (str "/ca") (toyEntropy 8 6) 0).1 in
  let serial d := f ← d_files d !! str "/ca/ca.crt"; b ← pem_Decode (f_data f);
                  c ← ParseCertificate (Crypto := toyCrypto) (pb_Bytes b); Some (x_SerialNumber c) in
  serial d = Some 5%Z /\ serial d' = Some 6%Z.
Proof. vm_compute. done. Qed.

(** A key that is not the one of the certificate is accepted: the key of one
    authority beside the certificate of another. *)
Lemma mismatched_key_loads :
  let d1 := (LoadOrCreateCA (H := toyCrypto) (toyDisk ∅) (str "/ca") (toyEntropy 7 5) 0).1 in
  let d2 := (LoadOrCreateCA (H := toyCrypto) (toyDisk ∅) (str "/ca") (toyEntropy 8 6) 0).1 in
  match d_files d2 !! str "/ca/ca.key" with
  | Some key =>
      match LoadCA (H := toyCrypto) (toyDisk (<[str "/ca/ca.key" := key]> (d_files d1))) (str "/ca") with
      | Ok ca => x_SerialNumber (Certificate ca) = 5%Z /\ PrivateKey ca = 8%N
      | Err _ => False
      end
  | None => False
  end.
Proof. vm_compute. done. Qed.
