(* ===== verification/Schedule.v ===== *)
(** * Schedules (proxy/schedule_rules.go)

    The weekly windows in which the clients of a profile may use the proxy:
    their compilation from text and the decision at an instant. *)

From S2P Require Import Prelude GoStrings.

Record ScheduleWindow := MkScheduleWindow {
  sw_Profile : bytes;
  sw_Days : list bytes;
  sw_Start : bytes;
  sw_End : bytes;
}.

(** The compiled window: [days] is indexed by [time.Weekday], Sunday first, and
    the times are minutes of the day. *)
Record scheduleWindow := MkWindow { days : list bool; start : Z; stop : Z }.

Record ScheduleRules := MkScheduleRules { byProfile : gmap bytes (list scheduleWindow) }.

(** What [Allowed] reads of a [time.Time]. *)
Record clock := MkClock { weekday : nat; hour : Z; minute : Z }.

Inductive scheduleError :=
| ErrProfileEmpty
| ErrWeekday (value : bytes)
| ErrClock (value : bytes)
| ErrNumber (value : bytes)
| ErrStart (e : scheduleError)
| ErrEnd (e : scheduleError)
| ErrEndNotAfterStart
| ErrProfile (name : bytes) (e : scheduleError).

Section schedule.
Context `{UnicodeTables}.

Definition parseWeekday (value : bytes) : result scheduleError nat :=
  let v := ToLower (TrimSpace value) in
  if bool_decide (v ∈ [str "sun"; str "sunday"]) then Ok 0
  else if bool_decide (v ∈ [str "mon"; str "monday"]) then Ok 1
  else if bool_decide (v ∈ [str "tue"; str "tues"; str "tuesday"]) then Ok 2
  else if bool_decide (v ∈ [str "wed"; str "wednesday"]) then Ok 3
  else if bool_decide (v ∈ [str "thu"; str "thur"; str "thurs"; str "thursday"]) then Ok 4
  else if bool_decide (v ∈ [str "fri"; str "friday"]) then Ok 5
  else if bool_decide (v ∈ [str "sat"; str "saturday"]) then Ok 6
  else Err (ErrWeekday value).

Definition parseClockMinute (value : bytes) : result scheduleError Z :=
  match Cut (TrimSpace value) (str ":") with
  | None => Err (ErrClock value)
  | Some (hourText, minuteText) =>
      match Atoi hourText with
      | None => Err (ErrNumber hourText)
      | Some hour =>
          match Atoi minuteText with
          | None => Err (ErrNumber minuteText)
          | Some minute =>
              if Z.eqb hour 24 && Z.eqb minute 0 then Ok (24 * 60)%Z
              else if Z.ltb hour 0 || Z.ltb 23 hour || Z.ltb minute 0 || Z.ltb 59 minute
              then Err (ErrClock value)
              else Ok (hour * 60 + minute)%Z
          end
      end
  end.

(** [out.days[weekday] = true] for each day of the list, in order. *)
Definition markDays (names : list bytes) : result scheduleError (list bool) :=
  foldM (fun ds day =>
    match parseWeekday day with
    | Ok weekday => Ok (<[weekday := true]> ds)
    | Err e => Err e
    end) names (replicate 7 false).

Definition compileScheduleWindow (window : ScheduleWindow) : result scheduleError scheduleWindow :=
  match (if Nat.eqb (length (sw_Days window)) 0 then Ok (replicate 7 true) else markDays (sw_Days window)) with
  | Err e => Err e
  | Ok ds =>
      match parseClockMinute (sw_Start window) with
      | Err e => Err (ErrStart e)
      | Ok s =>
          match parseClockMinute (sw_End window) with
          | Err e => Err (ErrEnd e)
          | Ok e => if Z.leb e s then Err ErrEndNotAfterStart else Ok (MkWindow ds s e)
          end
      end
  end.

Definition addWindow (m : gmap bytes (list scheduleWindow)) (window : ScheduleWindow)
  : result scheduleError (gmap bytes (list scheduleWindow)) :=
  if bytes_eqb (sw_Profile window) [] then Err ErrProfileEmpty
  else match compileScheduleWindow window with
       | Err e => Err (ErrProfile (sw_Profile window) e)
       | Ok compiled => Ok (<[sw_Profile window := default [] (m !! sw_Profile window) ++ [compiled]]> m)
       end.

Definition NewScheduleRules (windows : list ScheduleWindow) : result scheduleError ScheduleRules :=
  match foldM addWindow windows ∅ with
  | Ok m => Ok (MkScheduleRules m)
  | Err e => Err e
  end.

(** [window.days[day]] and [window.start <= minute && minute < window.end]. *)
Definition inWindow (now : clock) (window : scheduleWindow) : bool :=
  let m := (hour now * 60 + minute now)%Z in
  default false (days window !! weekday now) && (Z.leb (start window) m && Z.ltb m (stop window)).

Definition Allowed (r : option ScheduleRules) (profile : bytes) (now : clock) : bool :=
  match r with
  | None => true
  | Some r =>
      let windows := default [] (byProfile r !! profile) in
      if Nat.eqb (length windows) 0 then true else existsb (inWindow now) windows
  end.

(** ** Specification *)

Definition names_day (window : ScheduleWindow) (day : nat) : Prop :=
  sw_Days window = [] \/ exists d, d ∈ sw_Days window /\ parseWeekday d = Ok day.

(** The instant is on a day of the window, between its start and its end. *)
Definition covers_instant (window : ScheduleWindow) (now : clock) : Prop :=
  names_day window (weekday now) /\
  exists s e, parseClockMinute (sw_Start window) = Ok s /\ parseClockMinute (sw_End window) = Ok e /\
    (s <= hour now * 60 + minute now < e)%Z.

(** A non-empty interval of minutes of a day. *)
Definition in_day (c : scheduleWindow) : Prop := (0 <= start c /\ start c < stop c /\ stop c <= 1440)%Z.

(** ** Lemmas *)

Lemma parseWeekday_lt value d : parseWeekday value = Ok d -> d < 7.
Proof. unfold parseWeekday. repeat case_bool_decide; intros [= <-]; lia. Qed.

Lemma parseClockMinute_bounds value m : parseClockMinute value = Ok m -> (0 <= m <= 1440)%Z.
Proof.
  unfold parseClockMinute. destruct (Cut _ _) as [[h t]|]; [|done]. destruct (Atoi h) as [h'|]; [|done].
  destruct (Atoi t) as [t'|]; [|done]. destruct (_ && _); [intros [= <-]; lia|].
  destruct (Z.ltb_spec h' 0), (Z.ltb_spec 23 h'), (Z.ltb_spec t' 0), (Z.ltb_spec 59 t'); cbn; intros [= <-]; lia.
Qed.

Lemma markDays_spec names ds0 ds day :
  foldM (fun ds day =>
    match parseWeekday day with
    | Ok weekday => Ok (<[weekday := true]> ds)
    | Err e => Err e
    end) names ds0 = Ok ds ->
  length ds0 = 7 ->
  length ds = 7 /\
  (ds !! day = Some true <-> ds0 !! day = Some true \/ exists d, d ∈ names /\ parseWeekday d = Ok day).
Proof.
  revert ds0. induction names as [|n names IH]; intros ds0; cbn [foldM].
  { intros [= <-] ?. split; [done|]. split; [by left|]. intros [?|(d & Hd & _)]; [done|]. by apply elem_of_nil in Hd. }
  destruct (parseWeekday n) as [w|e] eqn:E; [|done]. intros Hf Hlen.
  destruct (IH _ Hf) as [H7 Hds]; [by rewrite length_insert|]. split; [done|]. rewrite Hds.
  pose proof (parseWeekday_lt _ _ E). destruct (decide (w = day)) as [->|Hne].
  - rewrite list_lookup_insert_eq by lia. split; [|by left]. intros _. right. exists n. split; [left|done].
  - rewrite list_lookup_insert_ne by done. split; intros [?|(d & Hd & Hp)]; try by left.
    + right. exists d. split; [by right|done].
    + apply elem_of_cons in Hd as [->|Hd]; [congruence|]. right. eauto.
Qed.

Lemma compile_window_spec w c :
  compileScheduleWindow w = Ok c ->
  in_day c /\
  forall now, weekday now < 7 -> (inWindow now c = true <-> covers_instant w now).
Proof.
  unfold compileScheduleWindow.
  destruct (if Nat.eqb _ 0 then _ else _) as [ds|e0] eqn:Ed; [|done].
  destruct (parseClockMinute (sw_Start w)) as [s|] eqn:Es; [|done].
  destruct (parseClockMinute (sw_End w)) as [e|] eqn:Ee; [|done].
  destruct (Z.leb_spec e s); [done|]. intros [= <-]. cbn [start stop].
  pose proof (parseClockMinute_bounds _ _ Es). pose proof (parseClockMinute_bounds _ _ Ee).
  split; [unfold in_day; cbn [start stop]; lia|].
  intros now Hday. unfold inWindow, covers_instant. cbn [start stop days].
  assert (Hd : default false (ds !! weekday now) = true <-> names_day w (weekday now)).
  { unfold names_day. destruct (sw_Days w) as [|n names].
    - assert (ds = replicate 7 true) as -> by (cbn [length Nat.eqb] in Ed; congruence). split; [by left|]. intros _. by rewrite lookup_replicate_2.
    - cbn [length Nat.eqb] in Ed. destruct (markDays_spec _ _ _ (weekday now) Ed) as [_ Hm]; [done|].
      transitivity (ds !! weekday now = Some true); [by destruct (ds !! _) as [[]|]|]. rewrite Hm.
      rewrite lookup_replicate. naive_solver. }
  rewrite andb_true_iff, Hd. split.
  - intros [? [?%Z.leb_le ?%Z.ltb_lt]%andb_true_iff]. split; [done|]. by exists s, e.
  - intros [? (s' & e' & Hs & He & ? & ?)]. assert (s' = s) as -> by congruence.
    assert (e' = e) as -> by congruence. split; [done|]. apply andb_true_iff. split; lia.
Qed.

Lemma foldM_addWindow ws m0 m p :
  foldM addWindow ws m0 = Ok m ->
  exists cs, default [] (m !! p) = default [] (m0 !! p) ++ cs /\
    Forall2 (fun w c => compileScheduleWindow w = Ok c) (filter (fun w => sw_Profile w = p) ws) cs.
Proof.
  revert m0. induction ws as [|w ws IH]; intros m0; cbn [foldM].
  { intros [= <-]. exists []. rewrite app_nil_r. split; [done|constructor]. }
  unfold addWindow at 1. destruct (bytes_eqb _ _); [done|].
  destruct (compileScheduleWindow w) as [c|] eqn:Ec; [|done]. intros (cs & Heq & Hcs)%IH.
  destruct (decide (sw_Profile w = p)) as [<-|Hne].
  - rewrite filter_cons_True by done. rewrite lookup_insert_eq in Heq. cbn in Heq. rewrite <- app_assoc in Heq.
    exists (c :: cs). split; [done|]. by constructor.
  - rewrite filter_cons_False by done. rewrite lookup_insert_ne in Heq by done. by exists cs.
Qed.

(** The list of the windows of a profile is empty, or one of them covers the
    instant. *)
Lemma allowed_spec ws cs now :
  Forall2 (fun w c => compileScheduleWindow w = Ok c) ws cs -> weekday now < 7 ->
  (if Nat.eqb (length cs) 0 then true else existsb (inWindow now) cs) = true <->
  ws = [] \/ exists w, w ∈ ws /\ covers_instant w now.
Proof.
  intros Hcs' Hday. destruct cs as [|c cs], ws as [|w ws]; try by inversion Hcs'. { split; [by left|done]. }
  cbn [length Nat.eqb].
  rewrite existsb_exists. split.
  - intros (x & Hx%list_elem_of_In & Hin). right.
    apply list_elem_of_lookup in Hx as [i Hi]. destruct (Forall2_lookup_r _ _ _ _ _ Hcs' Hi) as (y & Hy & Hyx).
    exists y. split; [by eapply list_elem_of_lookup_2|]. by apply (compile_window_spec _ _ Hyx).
  - intros [|(y & Hy & Hcov)]; [done|].
    apply list_elem_of_lookup in Hy as [i Hi]. destruct (Forall2_lookup_l _ _ _ _ _ Hcs' Hi) as (x & Hx & Hyx).
    exists x. split; [by eapply list_elem_of_In, list_elem_of_lookup_2|]. by apply (compile_window_spec _ _ Hyx).
Qed.

End schedule.

Lemma Allowed_spec `{UnicodeTables} ws r profile now :
  NewScheduleRules ws = Ok r -> weekday now < 7 ->
  (Allowed (Some r) profile now = true <->
     (forall w, w ∈ ws -> sw_Profile w <> profile) \/
     exists w, w ∈ ws /\ sw_Profile w = profile /\ covers_instant w now) /\
  Forall in_day (default [] (byProfile r !! profile)).
Proof.
  unfold NewScheduleRules. destruct (foldM addWindow ws ∅) as [m|] eqn:Ef; [|done]. intros [= <-] Hday.
  destruct (foldM_addWindow _ _ _ profile Ef) as (cs & Heq & Hcs). rewrite lookup_empty in Heq. cbn in Heq.
  cbn [byProfile Allowed]. rewrite Heq. split.
  - rewrite (allowed_spec _ _ now Hcs Hday). split.
    + intros [Hnil|(w & [Hp Hw]%list_elem_of_filter & Hcov)]; [left|right; by exists w].
      intros w Hw Hp. assert (w ∈ filter (fun w => sw_Profile w = profile) ws) as Hin by by apply list_elem_of_filter.
      rewrite Hnil in Hin. by apply elem_of_nil in Hin.
    + intros [Hno|(w & Hw & Hp & Hcov)].
      * left. destruct (filter _ ws) as [|w ws'] eqn:Ef'; [done|].
        assert (w ∈ filter (fun w => sw_Profile w = profile) ws) as [Hp Hw]%list_elem_of_filter by (rewrite Ef'; left).
        by destruct (Hno w Hw).
      * right. exists w. split; [by apply list_elem_of_filter|done].
  - clear Heq. induction Hcs as [|w c ws' cs' Hc _ IH]; constructor; [|done]. by apply (compile_window_spec w).
Qed.

(** C31.  Rules that compile allow an instant for a profile when the profile
    has no window at all, or when one of its windows names the day (or names
    none) and the instant is at or after its start and before its end; every
    compiled window lies within the day, "24:00" included. *)
Theorem schedule_allowed `{UnicodeTables} ws r profile now :
  NewScheduleRules ws = Ok r -> weekday now < 7 ->
  (Allowed (Some r) profile now = true <->
     (forall w, w ∈ ws -> sw_Profile w <> profile) \/
     exists w, w ∈ ws /\ sw_Profile w = profile /\ covers_instant w now) /\
  Forall in_day (default [] (byProfile r !! profile)).
Proof. apply Allowed_spec. Qed.

Lemma schedule_allowed_witness :
  let school := str "school" in
  let ws := [MkScheduleWindow school [str "Mon"; str "Tuesday"] (str "08:30") (str "24:00")] in
  let r := MkScheduleRules {[ school := [MkWindow [false; true; true; false; false; false; false] 510 1440] ]} in
  let now := MkClock 1 23 59 in
  (@Allowed (Some r) school now = true <->
     (forall w, w ∈ ws -> sw_Profile w <> school) \/
     exists w, w ∈ ws /\ sw_Profile w = school /\ @covers_instant ascii_tables w now) /\
  Forall in_day (default [] (byProfile r !! school)).
Proof. cbv zeta. apply (@schedule_allowed ascii_tables); [vm_compute; reflexivity|cbn; lia]. Defined.
