(* ===== verification/TimeBands.v ===== *)
(** * Time bands (rules.go)

    The time lists of an e2guardian configuration name bands of the week in
    which the proxy may not be used.  They are turned into the complement: the
    schedule windows of every profile, with the bands cut out.  The result is
    text, which [Schedule] compiles. *)

From S2P Require Import Prelude GoStrings GoPath ListLoader GoNetip Access Schedule.

Record e2TimeBand := MkBand { tb_path : bytes; tb_line : nat; tb_days : list bool; tb_start : Z; tb_end : Z }.

Record scheduleInterval := MkInterval { iv_start : Z; iv_end : Z }.

Inductive bandError :=
| ErrBandSyntax (ln : listLine)
| ErrBandNumber (ln : listLine) (raw : bytes)
| ErrBandDay (ln : listLine) (ch : N)
| ErrBandDaysEmpty (ln : listLine)
| ErrWindow (profile : bytes) (start stop : bytes)
| ErrWindowDay (profile : bytes) (raw : bytes).

(** ** Parsing *)

Definition parseE2TimePart (raw : bytes) (min max : Z) : option Z :=
  v ← Atoi raw; if Z.ltb v min || Z.ltb max v then None else Some v.

(** [Monday] is 0 in the lists. *)
Definition e2GuardianDayToWeekday (ch : N) : option nat :=
  match ch with
  | 48%N => Some 1 | 49%N => Some 2 | 50%N => Some 3 | 51%N => Some 4
  | 52%N => Some 5 | 53%N => Some 6 | 54%N => Some 0
  | _ => None
  end.

Definition bandDays (ln : listLine) (text : bytes) : result bandError (list bool) :=
  ds ← foldM (fun ds ch =>
    match e2GuardianDayToWeekday ch with
    | Some day => Ok (<[day := true]> ds)
    | None => Err (ErrBandDay ln ch)
    end) (runes text) (replicate 7 false);
  if bool_decide (ds = replicate 7 false) then Err (ErrBandDaysEmpty ln) else Ok ds.

Definition part (ln : listLine) (raw : bytes) (max : Z) : result bandError Z :=
  match parseE2TimePart raw 0 max with Some v => Ok v | None => Err (ErrBandNumber ln raw) end.

Definition parseBand (ln : listLine) : result bandError e2TimeBand :=
  match Fields (ln_Text ln) with
  | [f0; f1; f2; f3; f4] =>
      startHour ← part ln f0 23;
      startMin ← part ln f1 59;
      endHour ← part ln f2 23;
      endMin ← part ln f3 59;
      ds ← bandDays ln f4;
      Ok (MkBand (ln_Path ln) (ln_Line ln) ds (startHour * 60 + startMin) (endHour * 60 + endMin + 1))
  | _ => Err (ErrBandSyntax ln)
  end.

Definition parseE2GuardianTimeBands (lines : list listLine) : result bandError (list e2TimeBand) :=
  foldM (fun out ln =>
    if bytes_eqb (ln_Text ln) [] then Ok out else b ← parseBand ln; Ok (out ++ [b])) lines [].

(** ** Intervals *)

Abbreviation week := (list (list scheduleInterval)).

(** [blocked[day] = append(blocked[day], iv)]. *)
Definition push (w : week) (day : nat) (iv : scheduleInterval) : week := alter (fun l => l ++ [iv]) day w.

(** One day of a band; a band that ends before it starts goes on the next
    day. *)
Definition blockDay (band : e2TimeBand) (w : week) (day : nat) : week :=
  if default false (tb_days band !! day) then
    if Z.ltb (tb_start band) (tb_end band) then
      push w day (MkInterval (tb_start band) (Z.min (tb_end band) (24 * 60)))
    else
      let w := push w day (MkInterval (tb_start band) (24 * 60)) in
      let nextDay := (day + 1) mod 7 in
      if Z.ltb 0 (tb_end band) then push w nextDay (MkInterval 0 (tb_end band)) else w
  else w.

Definition blockedIntervalsByDay (bands : list e2TimeBand) : week :=
  fold_left (fun w band => fold_left (blockDay band) (seq 0 7) w) bands (replicate 7 []).

(** [next := out[:0]] shares the array of [out]: the first [n] elements of
    [arr] are [out], and an append writes into [arr] as long as the capacity
    of [n + spare] is not exceeded; then it moves to an array of its own. *)
Record appending := MkAppending { arr : list scheduleInterval; next : list scheduleInterval; shared : bool }.

Definition append (spare : nat) (st : appending) (x : scheduleInterval) : appending :=
  if shared st && Nat.ltb (length (next st)) (length (arr st) + spare)
  then MkAppending (<[length (next st) := x]> (arr st)) (next st ++ [x]) true
  else MkAppending (arr st) (next st ++ [x]) false.

(** One iteration of [for _, cur := range out], which reads [out[i]] now. *)
Definition cut (spare : nat) (block : scheduleInterval) (st : appending) (i : nat) : appending :=
  match arr st !! i with
  | None => st
  | Some cur =>
      if Z.leb (iv_end block) (iv_start cur) || Z.leb (iv_end cur) (iv_start block) then append spare st cur
      else
        let st := if Z.ltb (iv_start cur) (iv_start block)
                  then append spare st (MkInterval (iv_start cur) (iv_start block)) else st in
        if Z.ltb (iv_end block) (iv_end cur)
        then append spare st (MkInterval (iv_end block) (iv_end cur)) else st
  end.

(** [spare n] is the capacity beyond [n] of a copy of [n] elements. *)
Definition subtractIntervals (spare : nat -> nat) (allowed blocked : list scheduleInterval) : list scheduleInterval :=
  fold_left (fun out block =>
    next (fold_left (cut (spare (length out)) block) (seq 0 (length out)) (MkAppending out [] true))) blocked allowed.

Section bands.
Context `{UnicodeTables} (spare : nat -> nat).

Definition scheduleWeekday (value : bytes) : option nat :=
  let v := ToLower (TrimSpace value) in
  if bool_decide (v ∈ [str "sun"; str "sunday"]) then Some 0
  else if bool_decide (v ∈ [str "mon"; str "monday"]) then Some 1
  else if bool_decide (v ∈ [str "tue"; str "tues"; str "tuesday"]) then Some 2
  else if bool_decide (v ∈ [str "wed"; str "wednesday"]) then Some 3
  else if bool_decide (v ∈ [str "thu"; str "thur"; str "thurs"; str "thursday"]) then Some 4
  else if bool_decide (v ∈ [str "fri"; str "friday"]) then Some 5
  else if bool_decide (v ∈ [str "sat"; str "saturday"]) then Some 6
  else None.

Definition scheduleWindowDays (profile : bytes) (names : list bytes) : result bandError (list bool) :=
  if Nat.eqb (length names) 0 then Ok (replicate 7 true)
  else foldM (fun ds raw =>
    match scheduleWeekday raw with
    | Some day => Ok (<[day := true]> ds)
    | None => Err (ErrWindowDay profile raw)
    end) names (replicate 7 false).

Definition parseScheduleClockMinute (value : bytes) : option Z :=
  '(hourText, minuteText) ← Cut (TrimSpace value) (str ":");
  hour ← Atoi hourText;
  minute ← Atoi minuteText;
  if Z.eqb hour 24 && Z.eqb minute 0 then Some (24 * 60)%Z
  else if Z.ltb hour 0 || Z.ltb 23 hour || Z.ltb minute 0 || Z.ltb 59 minute then None
  else Some (hour * 60 + minute)%Z.

(** One window of the profile. *)
Definition allowWindow (profile : bytes) (w : week) (window : ScheduleWindow) : result bandError week :=
  match parseScheduleClockMinute (sw_Start window), parseScheduleClockMinute (sw_End window) with
  | Some start, Some stop =>
      if Z.leb stop start then Err (ErrWindow profile (sw_Start window) (sw_End window))
      else
        ds ← scheduleWindowDays profile (sw_Days window);
        Ok (fold_left (fun w day => if default false (ds !! day) then push w day (MkInterval start stop) else w)
              (seq 0 7) w)
  | _, _ => Err (ErrWindow profile (sw_Start window) (sw_End window))
  end.

Definition allowedIntervalsByDay (profile : bytes) (windows : list ScheduleWindow) : result bandError week :=
  let mine := filter (fun w => sw_Profile w = profile) windows in
  if Nat.eqb (length mine) 0 then Ok (replicate 7 [MkInterval 0 (24 * 60)])
  else foldM (allowWindow profile) mine (replicate 7 []).

Definition addName (out : list bytes) (name : bytes) : list bytes :=
  let name := TrimSpace name in
  if bytes_eqb name [] || bool_decide (name ∈ out) then out else out ++ [name].

Definition scheduleProfileNames (windows : list ScheduleWindow) (profiles : list AccessProfile) : list bytes :=
  let out := fold_left addName (map sw_Profile windows) (fold_left addName (map ap_Name profiles) []) in
  if Nat.eqb (length out) 0 then [str "default"] else out.

Definition weekdayName (day : nat) : bytes :=
  match day with
  | 0 => str "sun" | 1 => str "mon" | 2 => str "tue" | 3 => str "wed"
  | 4 => str "thu" | 5 => str "fri" | 6 => str "sat" | _ => []
  end.

Definition minuteClock (minute : Z) : bytes :=
  if Z.leb (24 * 60) minute then str "24:00" else pad2 (minute / 60) ++ str ":" ++ pad2 (minute mod 60).

(** The windows of one day of a profile. *)
Definition dayWindows (profile : bytes) (blocked : week) (allowed : week) (day : nat) : list ScheduleWindow :=
  let left := subtractIntervals spare (default [] (allowed !! day)) (default [] (blocked !! day)) in
  map (fun iv => MkScheduleWindow profile [weekdayName day] (minuteClock (iv_start iv)) (minuteClock (iv_end iv)))
    (filter (fun iv => (iv_start iv < iv_end iv)%Z) left).

Definition restrictScheduleWindowsByTimeBands (windows : list ScheduleWindow) (profiles : list AccessProfile)
    (bands : list e2TimeBand) : result bandError (list ScheduleWindow) :=
  let blocked := blockedIntervalsByDay bands in
  foldM (fun out profile =>
    allowed ← allowedIntervalsByDay profile windows;
    Ok (out ++ concat (map (dayWindows profile blocked allowed) (seq 0 7))))
    (scheduleProfileNames windows profiles) [].

End bands.

(** ** Specification *)

Definition inside (iv : scheduleInterval) (m : Z) : Prop := (iv_start iv <= m < iv_end iv)%Z.

Definition covered (w : week) (day : nat) (m : Z) : Prop :=
  exists iv, iv ∈ default [] (w !! day) /\ inside iv m.

Definition active (band : e2TimeBand) (day : nat) : Prop := tb_days band !! day = Some true.

(** The minute [m] of [day] is in the band: between its start and its end, or,
    when it ends before it starts, after its start or before its end on the day
    after. *)
Definition in_band (band : e2TimeBand) (day : nat) (m : Z) : Prop :=
  (active band day /\ (tb_start band <= m)%Z /\ ((tb_start band < tb_end band)%Z -> (m < tb_end band)%Z)) \/
  ((tb_end band <= tb_start band)%Z /\ (m < tb_end band)%Z /\
   exists before, before < 7 /\ (before + 1) mod 7 = day /\ active band before).

(** ** Lemmas *)

Lemma push_length w day iv : length (push w day iv) = length w.
Proof. apply length_alter. Qed.

Lemma push_covered w d iv day m :
  length w = 7 -> d < 7 -> covered (push w d iv) day m <-> covered w day m \/ (d = day /\ inside iv m).
Proof.
  intros Hl Hd. unfold covered, push. destruct (decide (d = day)) as [->|Hne].
  - destruct (lookup_lt_is_Some_2 w day) as [l Hw]; [lia|]. rewrite list_lookup_alter_eq, Hw. cbn. split.
    + intros (x & [Hx|Hx]%elem_of_app & Hi); [left; by exists x|right]. apply list_elem_of_singleton in Hx as ->. done.
    + intros [(x & Hx & Hi)|[_ Hi]]; [exists x|exists iv]; (split; [|done]); set_solver.
  - rewrite list_lookup_alter_ne by done. naive_solver.
Qed.

Lemma fold_covered {A} (f : week -> A -> week) (hits : A -> nat -> Z -> Prop) l w :
  (forall w a, a ∈ l -> length w = 7 -> length (f w a) = 7 /\
     forall day m, (0 <= m < 1440)%Z -> day < 7 -> covered (f w a) day m <-> covered w day m \/ hits a day m) ->
  length w = 7 ->
  length (fold_left f l w) = 7 /\
  forall day m, (0 <= m < 1440)%Z -> day < 7 ->
    covered (fold_left f l w) day m <-> covered w day m \/ exists a, a ∈ l /\ hits a day m.
Proof.
  revert w. induction l as [|a l IH]; intros w Hf Hw; cbn [fold_left].
  { split; [done|]. intros day m _ _. split; [by left|]. intros [?|(a & Ha & _)]; [done|]. by apply elem_of_nil in Ha. }
  destruct (Hf w a) as [Hl Hc]; [left|done|]. destruct (IH (f w a)) as [Hl' Hc']; [|done|].
  { intros w' a' Ha'. apply Hf. by right. }
  split; [done|]. intros day m Hm Hd. rewrite (Hc' day m Hm Hd), (Hc day m Hm Hd). split.
  - intros [[?|?]|(b & Hb & Hh)]; [by left|right; exists a; split; [left|done]|right; exists b; split; [by right|done]].
  - intros [?|(b & [->|Hb]%elem_of_cons & Hh)]; [by left; left|by left; right|right; by exists b].
Qed.

Lemma blockDay_covered band w d :
  length w = 7 -> d < 7 ->
  length (blockDay band w d) = 7 /\
  forall day m, (0 <= m < 1440)%Z -> day < 7 ->
    covered (blockDay band w d) day m <->
    covered w day m \/
    (active band d /\
     ((d = day /\ (tb_start band <= m)%Z /\ ((tb_start band < tb_end band)%Z -> (m < tb_end band)%Z)) \/
      ((tb_end band <= tb_start band)%Z /\ (d + 1) mod 7 = day /\ (m < tb_end band)%Z))).
Proof.
  intros Hw Hd. unfold blockDay, active. destruct (tb_days band !! d) as [[]|]; cbn [default from_option id];
    [|split; [done|]; intros; split; [by left|by intros [?|[? _]]]..].
  destruct (Z.ltb_spec (tb_start band) (tb_end band)) as [Hlt|Hge].
  - rewrite push_length. split; [done|]. intros day m Hm Hday. rewrite push_covered by done. unfold inside. cbn [iv_start iv_end].
    split; (intros [?|Hx]; [by left|right]).
    + destruct Hx as (-> & ? & ?). split; [done|]. left. split; [done|]. split; [done|]. intros _. lia.
    + destruct Hx as [_ [(-> & ? & Hm')|(? & _ & _)]]; [|lia]. split; [done|]. specialize (Hm' Hlt). lia.
  - pose proof (Nat.mod_upper_bound (d + 1) 7 ltac:(lia)) as Hmod.
    destruct (Z.ltb_spec 0 (tb_end band)) as [Hpos|Hneg]; rewrite ?push_length; (split; [done|]);
      intros day m Hm Hday; rewrite ?push_covered by (rewrite ?push_length; done); unfold inside; cbn [iv_start iv_end];
      intuition lia.
Qed.

Lemma blocked_covered bands day m :
  (0 <= m < 1440)%Z -> day < 7 ->
  length (blockedIntervalsByDay bands) = 7 /\
  (covered (blockedIntervalsByDay bands) day m <-> exists band, band ∈ bands /\ in_band band day m).
Proof.
  intros Hm Hd. unfold blockedIntervalsByDay.
  destruct (fold_covered (fun w band => fold_left (blockDay band) (seq 0 7) w) in_band bands (replicate 7 [])) as [Hl Hc]; [|done|].
  - intros w band _ Hw.
    destruct (fold_covered (blockDay band) (fun d day m => active band d /\
     ((d = day /\ (tb_start band <= m)%Z /\ ((tb_start band < tb_end band)%Z -> (m < tb_end band)%Z)) \/
      ((tb_end band <= tb_start band)%Z /\ (d + 1) mod 7 = day /\ (m < tb_end band)%Z))) (seq 0 7) w) as [Hl Hc]; [|done|].
    { intros w' d Hin Hw'. apply elem_of_seq in Hin. apply blockDay_covered; [done|lia]. }
    split; [done|]. intros day' m' Hm' Hd'. rewrite Hc by done. apply or_iff_compat_l. unfold in_band. split.
    + intros (d & Hin%elem_of_seq & Hact & [(-> & ? & ?)|(? & ? & ?)]); [by left|right].
      split_and!; [done|done|]. exists d. split; [lia|done].
    + intros [(Hact & ? & ?)|(? & ? & d & Hlt & ? & Hact)].
      * exists day'. split; [apply elem_of_seq; lia|]. split; [done|]. by left.
      * exists d. split; [apply elem_of_seq; lia|]. split; [done|]. by right.
  - split; [done|]. rewrite (Hc day m Hm Hd). split; [|by right].
    intros [(iv & Hin & _)|?]; [|done]. rewrite lookup_replicate_2 in Hin by done. by apply elem_of_nil in Hin.
Qed.

(** ** Subtraction

    Every interval of the result lies in an allowed one and out of the blocked
    ones, whatever the shared array does to the intervals not yet read. *)

Definition appending_ok (P Q : scheduleInterval -> Prop) (st : appending) : Prop :=
  Forall P (arr st) /\ Forall Q (next st).

Lemma append_ok (P Q : scheduleInterval -> Prop) spare st x :
  (Q x -> P x) -> appending_ok P Q st -> Q x -> appending_ok P Q (append spare st x).
Proof.
  intros HQP [Ha Hn] Hx. unfold append. destruct (_ && _); split; cbn [arr next].
  - apply Forall_insert; [done|by apply HQP].
  - apply Forall_app. split; [done|]. by repeat constructor.
  - done.
  - apply Forall_app. split; [done|]. by repeat constructor.
Qed.

Definition within (out : list scheduleInterval) (x : scheduleInterval) : Prop :=
  (0 <= iv_start x)%Z /\ (iv_end x <= 1440)%Z /\ forall m, inside x m -> exists a, a ∈ out /\ inside a m.

Definition avoids (block x : scheduleInterval) : Prop := forall m, inside x m -> ~ inside block m.

Lemma cut_ok out spare block st i :
  appending_ok (within out) (fun x => within out x /\ avoids block x) st ->
  appending_ok (within out) (fun x => within out x /\ avoids block x) (cut spare block st i).
Proof.
  intros Hst. unfold cut. destruct (arr st !! i) as [cur|] eqn:Ei; [|done].
  assert (Hcur : within out cur) by (destruct Hst as [Ha _]; by eapply Forall_lookup_1).
  destruct Hcur as (H0 & H1 & Hsub).
  destruct (Z.leb_spec (iv_end block) (iv_start cur)), (Z.leb_spec (iv_end cur) (iv_start block)); cbn [orb].
  1-3: apply append_ok; [by intros []|done|]; split; [done|]; intros m ? ?; unfold inside in *; lia.
  assert (Hst' : appending_ok (within out) (fun x => within out x /\ avoids block x)
    (if Z.ltb (iv_start cur) (iv_start block) then append spare st (MkInterval (iv_start cur) (iv_start block)) else st)).
  { destruct (Z.ltb_spec (iv_start cur) (iv_start block)); [|done]. apply append_ok; [by intros []|done|].
    split; [split_and!; cbn; [lia|lia|]|]; unfold avoids, inside in *; cbn; intros m; [intros ?; apply Hsub|]; lia. }
  destruct (Z.ltb_spec (iv_end block) (iv_end cur)); [|done]. apply append_ok; [by intros []|done|].
  split; [split_and!; cbn; [lia|lia|]|]; unfold avoids, inside in *; cbn; intros m; [intros ?; apply Hsub|]; lia.
Qed.

Lemma cut_all_ok out spare block l st :
  appending_ok (within out) (fun x => within out x /\ avoids block x) st ->
  appending_ok (within out) (fun x => within out x /\ avoids block x) (fold_left (cut spare block) l st).
Proof. revert st. induction l as [|i l IH]; intros st Hst; [done|]. by apply IH, cut_ok. Qed.

(** What holds of the intervals after the blocks [bs]. *)
Definition cleared (allowed bs : list scheduleInterval) (x : scheduleInterval) : Prop :=
  within allowed x /\ forall b, b ∈ bs -> avoids b x.

Lemma pass_cleared spare allowed bs b out :
  Forall (cleared allowed bs) out ->
  Forall (cleared allowed (bs ++ [b])) (next (fold_left (cut spare b) (seq 0 (length out)) (MkAppending out [] true))).
Proof.
  intros Hout. rewrite Forall_forall in Hout.
  destruct (cut_all_ok out spare b (seq 0 (length out)) (MkAppending out [] true)) as [_ Hn].
  { split; cbn; [|constructor]. apply Forall_forall. intros y Hy.
    destruct (Hout y Hy) as [(? & ? & _) _]. split_and!; [done|done|by exists y]. }
  eapply Forall_impl; [exact Hn|]. intros y [(? & ? & Hsub) Hav]. split.
  - split_and!; [done|done|]. intros m (a & Ha & Hi)%Hsub. destruct (Hout a Ha) as [(_ & _ & Hs) _]. by apply Hs.
  - intros b' [Hb'|Hb']%elem_of_app.
    + intros m (a & Ha & Hi)%Hsub. destruct (Hout a Ha) as [_ Hd]. by apply (Hd b').
    + apply list_elem_of_singleton in Hb' as ->. done.
Qed.

Lemma subtract_sound spare allowed blocked :
  Forall (fun a => (0 <= iv_start a)%Z /\ (iv_end a <= 1440)%Z) allowed ->
  Forall (cleared allowed blocked) (subtractIntervals spare allowed blocked).
Proof.
  intros Hall. unfold subtractIntervals.
  assert (Hgen : forall bs dn out, Forall (cleared allowed dn) out ->
    Forall (cleared allowed (dn ++ bs)) (fold_left (fun out block =>
      next (fold_left (cut (spare (length out)) block) (seq 0 (length out)) (MkAppending out [] true))) bs out)).
  { induction bs as [|b bs IH]; intros dn out Hout; [by rewrite app_nil_r|]. cbn [fold_left].
    replace (dn ++ b :: bs) with ((dn ++ [b]) ++ bs) by (by rewrite <- app_assoc). apply IH. by apply pass_cleared. }
  apply (Hgen blocked []). apply Forall_forall. intros y Hy. rewrite Forall_forall in Hall. destruct (Hall y Hy).
  split; [split_and!; [done|done|by exists y]|]. by intros b ?%elem_of_nil.
Qed.

(** A block inside the first of two windows overwrites the second one before
    it is read: it is lost, and the rest of the first is there twice. *)
Lemma subtract_loses_window :
  subtractIntervals (fun _ => 0) [MkInterval 480 600; MkInterval 700 800] [MkInterval 500 510] =
  [MkInterval 480 500; MkInterval 510 600; MkInterval 510 600].
Proof. vm_compute. reflexivity. Qed.

(** ** Text *)

Lemma scheduleWeekday_parse `{UnicodeTables} v d : scheduleWeekday v = Some d <-> parseWeekday v = Ok d.
Proof. unfold scheduleWeekday, parseWeekday. repeat case_bool_decide; naive_solver. Qed.

Lemma parseScheduleClockMinute_parse v m : parseScheduleClockMinute v = Some m <-> parseClockMinute v = Ok m.
Proof.
  unfold parseScheduleClockMinute, parseClockMinute. destruct (Cut _ _) as [[h t]|]; cbn; [|done].
  destruct (Atoi h) as [h'|]; cbn; [|done]. destruct (Atoi t) as [t'|]; cbn; [|done].
  destruct (_ && _); [naive_solver|]. destruct (_ || _); naive_solver.
Qed.

Lemma weekdayName_parse `{UnicodeTables} d : d < 7 -> parseWeekday (weekdayName d) = Ok d.
Proof. intros Hd. do 7 (destruct d as [|d]; [vm_compute; reflexivity|]). lia. Qed.

Lemma minuteClock_parse m : (0 <= m <= 1440)%Z -> parseClockMinute (minuteClock m) = Ok m.
Proof.
  intros Hm. assert (Hall : forallb (fun n => match parseClockMinute (minuteClock (Z.of_nat n)) with
    | Ok r => Z.eqb r (Z.of_nat n) | Err _ => false end) (seq 0 1441) = true) by (vm_compute; reflexivity).
  rewrite forallb_forall in Hall. specialize (Hall (Z.to_nat m)). rewrite in_seq, Z2Nat.id in Hall by lia.
  specialize (Hall ltac:(lia)). destruct (parseClockMinute (minuteClock m)); [|done]. f_equal. by apply Z.eqb_eq.
Qed.

(** ** The windows *)

Definition allowed_before `{UnicodeTables} (ws : list ScheduleWindow) (profile : bytes) (now : clock) : Prop :=
  (forall w, w ∈ ws -> sw_Profile w <> profile) \/
  exists w, w ∈ ws /\ sw_Profile w = profile /\ covers_instant w now.

Definition minute_of (now : clock) : Z := (hour now * 60 + minute now)%Z.

Section windows.
Context `{UnicodeTables}.

(** The days a window names, by the two copies of the parser. *)
Lemma scheduleWindowDays_names profile window ds day :
  scheduleWindowDays profile (sw_Days window) = Ok ds -> day < 7 ->
  default false (ds !! day) = true -> names_day window day.
Proof.
  unfold scheduleWindowDays, names_day. destruct (Nat.eqb_spec (length (sw_Days window)) 0) as [Hz|_].
  { intros _ _ _. left. by apply nil_length_inv. }
  intros Hf Hday Hd. right.
  assert (Hgen : forall names (ds0 ds : list bool), foldM (fun ds raw =>
      match scheduleWeekday raw with
      | Some day => Ok (<[day := true]> ds)
      | None => Err (ErrWindowDay profile raw)
      end) names ds0 = Ok ds -> default false (ds !! day) = true ->
    default false (ds0 !! day) = true \/ exists d, d ∈ names /\ parseWeekday d = Ok day).
  { clear. induction names as [|n names IH]; intros ds0 ds; cbn [foldM]; [intros [= <-]; by left|].
    destruct (scheduleWeekday n) as [d|] eqn:E; [|done]. intros Hf Hd. destruct (IH _ _ Hf Hd) as [Hi|(x & Hx & Hp)].
    - destruct (decide (d = day)) as [->|Hne].
      + right. exists n. split; [left|by apply scheduleWeekday_parse].
      + rewrite list_lookup_insert_ne in Hi by done. by left.
    - right. exists x. split; [by right|done]. }
  destruct (Hgen _ _ _ Hf Hd) as [Hi|?]; [|done]. rewrite lookup_replicate_2 in Hi by done. done.
Qed.

Definition week_bounded (w : week) : Prop :=
  length w = 7 /\ Forall (Forall (fun a => (0 <= iv_start a)%Z /\ (iv_end a <= 1440)%Z)) w.

Lemma push_bounded w day iv :
  week_bounded w -> (0 <= iv_start iv)%Z -> (iv_end iv <= 1440)%Z -> week_bounded (push w day iv).
Proof.
  intros [Hl Hb] H0 H1. split; [by rewrite push_length|]. apply Forall_alter; [done|].
  intros l _ Hl'. apply Forall_app. split; [done|]. by repeat constructor.
Qed.

Lemma allowWindow_spec profile w window w' now :
  allowWindow profile w window = Ok w' -> week_bounded w -> weekday now < 7 ->
  week_bounded w' /\
  (covered w' (weekday now) (minute_of now) -> covered w (weekday now) (minute_of now) \/ covers_instant window now).
Proof.
  unfold allowWindow. destruct (parseScheduleClockMinute (sw_Start window)) as [s|] eqn:Es; [|done].
  destruct (parseScheduleClockMinute (sw_End window)) as [e|] eqn:Ee; [|done].
  destruct (Z.leb_spec e s); [done|]. destruct (scheduleWindowDays profile (sw_Days window)) as [ds|] eqn:Ed; [|done].
  cbn [mbind result_bind]. intros Hw'%(inj Ok) Hw Hday. subst w'. apply parseScheduleClockMinute_parse in Es, Ee.
  pose proof (parseClockMinute_bounds _ _ Es). pose proof (parseClockMinute_bounds _ _ Ee).
  assert (Hgen : forall l w, week_bounded w -> Forall (fun d => d < 7) l ->
    let w' := fold_left (fun w day => if default false (ds !! day) then push w day (MkInterval s e) else w) l w in
    week_bounded w' /\ (covered w' (weekday now) (minute_of now) ->
      covered w (weekday now) (minute_of now) \/ covers_instant window now)).
  { clear w Hw. induction l as [|d l IH]; intros w Hw Hl; [by auto|]. cbn [fold_left]. inversion Hl; subst.
    destruct (default false (ds !! d)) eqn:E; [|by apply IH].
    destruct (IH (push w d (MkInterval s e))) as [Hb Hc]; [apply push_bounded; cbn; [done|lia|lia]|done|].
    split; [done|]. intros [Hp|?]%Hc; [|by right]. apply push_covered in Hp as [?|[-> Hi]]; [by left| |by apply Hw|done].
    right. split; [by eapply scheduleWindowDays_names|]. exists s, e. done. }
  apply Hgen; [done|]. apply Forall_forall. intros d Hd%elem_of_seq. lia.
Qed.

Lemma allowedIntervals_spec profile ws w now :
  allowedIntervalsByDay profile ws = Ok w -> weekday now < 7 ->
  week_bounded w /\ (covered w (weekday now) (minute_of now) -> allowed_before ws profile now).
Proof.
  unfold allowedIntervalsByDay, allowed_before. set (mine := filter (fun x => sw_Profile x = profile) ws).
  assert (Hmine : forall x, x ∈ mine <-> sw_Profile x = profile /\ x ∈ ws)
    by (intros x; unfold mine; by rewrite list_elem_of_filter).
  destruct (Nat.eqb_spec (length mine) 0) as [Hz|_].
  { intros [= <-] _. split.
    - split; [done|]. repeat constructor; cbn; lia.
    - intros _. left. intros x Hx Hp. apply nil_length_inv in Hz. assert (x ∈ mine) as Hin by by apply Hmine.
      rewrite Hz in Hin. by apply elem_of_nil in Hin. }
  intros Hf Hday.
  assert (Hgen : forall l w0, (forall x, x ∈ l -> x ∈ mine) -> foldM (allowWindow profile) l w0 = Ok w -> week_bounded w0 ->
    week_bounded w /\ (covered w (weekday now) (minute_of now) -> covered w0 (weekday now) (minute_of now) \/
      exists x, x ∈ mine /\ covers_instant x now)).
  { clear Hf. induction l as [|x l IH]; intros w0 Hl; cbn [foldM]; [intros [= ->]; by auto|].
    destruct (allowWindow profile w0 x) as [w1|] eqn:E; [|done]. intros Hf Hw0.
    destruct (allowWindow_spec _ _ _ _ now E Hw0 Hday) as [Hw1 Hc1].
    destruct (IH w1 (fun y Hy => Hl y (list_elem_of_further _ _ _ Hy)) Hf Hw1) as [Hw Hc]. split; [done|].
    intros [[?|?]%Hc1|?]%Hc; [by left|right; exists x; split; [apply Hl; left|done]|by right]. }
  destruct (Hgen mine (replicate 7 [])) as [Hw Hc]; [done|done| |].
  { split; [done|]. apply Forall_replicate. constructor. }
  split; [done|]. intros [Hn|(x & Hx & Hcov)]%Hc.
  - destruct Hn as (iv & Hin & _). rewrite lookup_replicate_2 in Hin by done. by apply elem_of_nil in Hin.
  - right. apply Hmine in Hx as [? ?]. by exists x.
Qed.

End windows.

Section restrict.
Context `{UnicodeTables} (spare : nat -> nat).

Lemma clock_window profile day iv now :
  day < 7 -> (0 <= iv_start iv)%Z -> (iv_start iv < iv_end iv)%Z -> (iv_end iv <= 1440)%Z ->
  let w := MkScheduleWindow profile [weekdayName day] (minuteClock (iv_start iv)) (minuteClock (iv_end iv)) in
  is_ok (compileScheduleWindow w) = true /\
  (covers_instant w now -> weekday now = day /\ inside iv (minute_of now)).
Proof.
  intros Hd H0 Hlt H1 w.
  pose proof (minuteClock_parse (iv_start iv) ltac:(lia)) as Es. pose proof (minuteClock_parse (iv_end iv) ltac:(lia)) as Ee.
  split.
  - unfold compileScheduleWindow, w. cbn [sw_Days sw_Start sw_End length Nat.eqb]. unfold markDays. cbn [foldM].
    rewrite (weekdayName_parse day Hd), Es, Ee. by destruct (Z.leb_spec (iv_end iv) (iv_start iv)); [lia|].
  - intros [Hn (s & e & Hs & He & Hm)]. cbn [sw_Start sw_End w] in Hs, He. assert (s = iv_start iv) as -> by congruence.
    assert (e = iv_end iv) as -> by congruence. split; [|done].
    destruct Hn as [?|(x & Hx & Hp)]; [done|]. cbn [sw_Days w] in Hx. apply list_elem_of_singleton in Hx as ->.
    rewrite (weekdayName_parse day Hd) in Hp. congruence.
Qed.

Lemma dayWindows_spec profile blocked allowed day w :
  week_bounded allowed -> day < 7 -> w ∈ dayWindows spare profile blocked allowed day ->
  sw_Profile w = profile /\ is_ok (compileScheduleWindow w) = true /\
  forall now, covers_instant w now -> weekday now = day /\
    covered allowed day (minute_of now) /\ ~ covered blocked day (minute_of now).
Proof.
  intros [Hl Hb] Hd Hw. unfold dayWindows in Hw. apply list_elem_of_fmap in Hw as (iv & -> & Hiv).
  apply list_elem_of_filter in Hiv as [Hlt Hiv].
  assert (Hbd : Forall (fun a => (0 <= iv_start a)%Z /\ (iv_end a <= 1440)%Z) (default [] (allowed !! day))).
  { destruct (allowed !! day) as [l|] eqn:E; [|constructor]. cbn. by eapply Forall_lookup_1 in Hb. }
  pose proof (subtract_sound spare _ (default [] (blocked !! day)) Hbd) as Hs. rewrite Forall_forall in Hs.
  destruct (Hs iv Hiv) as [(H0 & H1 & Hsub) Hav]. split; [done|].
  split; [by apply (clock_window profile day iv (MkClock 0 0 0))|].
  intros now Hc. apply clock_window in Hc as [Hday Hi]; [|done..]. split; [done|]. split; [by apply Hsub|].
  intros (b & Hb' & Hib). by apply (Hav b Hb' (minute_of now)).
Qed.

Lemma scheduleProfileNames_nonempty ws ps name : name ∈ scheduleProfileNames ws ps -> name <> [].
Proof.
  unfold scheduleProfileNames.
  assert (Hadd : forall l out, Forall (fun n => n <> []) out -> Forall (fun n => n <> []) (fold_left addName l out)).
  { induction l as [|n l IH]; intros out Hout; [done|]. apply IH. unfold addName.
    destruct (bytes_eqb (TrimSpace n) []) eqn:E; [done|]. destruct (bool_decide _); [done|]. cbn.
    apply bool_decide_eq_false in E. apply Forall_app. split; [done|]. by repeat constructor. }
  assert (Hall := Hadd (map sw_Profile ws) _ (Hadd (map ap_Name ps) [] (Forall_nil_2 _))).
  destruct (Nat.eqb _ 0); [by intros ->%list_elem_of_singleton|]. rewrite Forall_forall in Hall. apply Hall.
Qed.

(** Every window of the result is one of [dayWindows]. *)
Lemma restrict_windows ws ps bands out w :
  restrictScheduleWindowsByTimeBands spare ws ps bands = Ok out -> w ∈ out ->
  exists profile allowed day, profile ∈ scheduleProfileNames ws ps /\ allowedIntervalsByDay profile ws = Ok allowed /\
    day < 7 /\ w ∈ dayWindows spare profile (blockedIntervalsByDay bands) allowed day.
Proof.
  unfold restrictScheduleWindowsByTimeBands. generalize (scheduleProfileNames ws ps) as names. intros names Hf Hw.
  assert (Hgen : forall l out0, foldM (fun out profile =>
    allowed ← allowedIntervalsByDay profile ws;
    Ok (out ++ concat (map (dayWindows spare profile (blockedIntervalsByDay bands) allowed) (seq 0 7)))) l out0 = Ok out ->
    w ∈ out0 \/ exists profile allowed day, profile ∈ l /\ allowedIntervalsByDay profile ws = Ok allowed /\
      day < 7 /\ w ∈ dayWindows spare profile (blockedIntervalsByDay bands) allowed day).
  { clear Hf names. induction l as [|n l IH]; intros out0; cbn [foldM]; [intros [= ->]; by left|].
    destruct (allowedIntervalsByDay n ws) as [allowed|] eqn:Ea; [|done]. cbn [mbind result_bind].
    intros [Hin|(p & a & d & Hp & Hrest)]%IH; [|right; exists p, a, d; split; [by right|done]].
    apply elem_of_app in Hin as [?|Hin]; [by left|right]. apply list_elem_of_In, in_concat in Hin as (dw & Hdw & Hin).
    apply in_map_iff in Hdw as (d & <- & Hd%in_seq). exists n, allowed, d. split; [left|]. split; [done|].
    split; [lia|by apply list_elem_of_In]. }
  destruct (Hgen names [] Hf) as [Hn|?]; [by apply elem_of_nil in Hn|done].
Qed.

Lemma NewScheduleRules_ok ws :
  (forall w, w ∈ ws -> sw_Profile w <> [] /\ is_ok (compileScheduleWindow w) = true) ->
  exists r, NewScheduleRules ws = Ok r.
Proof.
  intros Hws. unfold NewScheduleRules.
  assert (Hgen : forall m, exists m', foldM addWindow ws m = Ok m').
  { induction ws as [|w ws IH]; intros m; cbn [foldM]; [by eexists|]. unfold addWindow at 1.
    destruct (Hws w) as [Hp Hc]; [left|]. unfold bytes_eqb. rewrite bool_decide_eq_false_2 by done.
    destruct (compileScheduleWindow w) as [c|]; [|done]. apply IH. intros w' Hw'. apply Hws. by right. }
  destruct (Hgen ∅) as [m' ->]. by eexists.
Qed.

End restrict.

(** C32.  The windows that the time lists leave always compile, and a profile
    that keeps a window is allowed only at instants at which it was allowed
    before and which are in no band of the lists; for any capacity the runtime
    gives to the slices of the subtraction. *)
Theorem time_bands_enforced `{UnicodeTables} spare ws ps bands out :
  restrictScheduleWindowsByTimeBands spare ws ps bands = Ok out ->
  exists r, NewScheduleRules out = Ok r /\
  forall profile now, weekday now < 7 -> (0 <= hour now < 24)%Z -> (0 <= minute now < 60)%Z ->
    (exists w, w ∈ out /\ sw_Profile w = profile) -> Allowed (Some r) profile now = true ->
    allowed_before ws profile now /\
    forall band, band ∈ bands -> ~ in_band band (weekday now) (minute_of now).
Proof.
  intros Hout. destruct (NewScheduleRules_ok out) as [r Hr].
  { intros w (p & a & d & Hp & Ha & Hd & Hw)%(restrict_windows _ _ _ _ _ _ Hout).
    destruct (allowedIntervals_spec _ _ _ (MkClock 0 0 0) Ha) as [Hb _]; [cbn; lia|].
    destruct (dayWindows_spec _ _ _ _ _ _ Hb Hd Hw) as (-> & Hc & _). split; [|done].
    by eapply scheduleProfileNames_nonempty. }
  exists r. split; [done|]. intros profile now Hday Hh Hm (w0 & Hw0 & Hp0) Hal.
  apply (Allowed_spec _ _ _ _ Hr Hday) in Hal as [Hno|(w & Hw & Hp & Hcov)]; [by destruct (Hno w0 Hw0)|].
  apply (restrict_windows _ _ _ _ _ _ Hout) in Hw as (p & a & d & _ & Ha & Hd & Hw).
  destruct (allowedIntervals_spec _ _ _ now Ha Hday) as [Hb Hal].
  destruct (dayWindows_spec _ _ _ _ _ _ Hb Hd Hw) as (Hpw & _ & Hcw). destruct (Hcw now Hcov) as (<- & Hc & Hnb).
  split; [rewrite <- Hp, Hpw; by apply Hal|]. intros band Hband Hin. apply Hnb.
  apply blocked_covered; [unfold minute_of; lia|done|]. by exists band.
Qed.

Definition sample_bands : list e2TimeBand :=
  [MkBand (str "bannedtimelist") 1 [false; true; false; false; false; false; false] 1320 361].

Definition sample_out : list ScheduleWindow :=
  match @restrictScheduleWindowsByTimeBands ascii_tables (fun _ => 0) [] [] sample_bands with Ok out => out | Err _ => [] end.

Lemma time_bands_enforced_witness :
  exists r, @NewScheduleRules ascii_tables sample_out = Ok r /\
  Allowed (Some r) (str "default") (MkClock 1 21 59) = true /\
  Allowed (Some r) (str "default") (MkClock 2 6 0) = false /\
  forall band, band ∈ sample_bands -> ~ in_band band 1 1319.
Proof.
  assert (E : @restrictScheduleWindowsByTimeBands ascii_tables (fun _ => 0) [] [] sample_bands = Ok sample_out)
    by (vm_compute; reflexivity).
  destruct (@time_bands_enforced ascii_tables (fun _ => 0) [] [] sample_bands sample_out E) as (r & Hr & Hall).
  exists r. split; [exact Hr|].
  assert (Ha : Allowed (match @NewScheduleRules ascii_tables sample_out with Ok r => Some r | Err _ => None end)
    (str "default") (MkClock 1 21 59) = true) by (vm_compute; reflexivity).
  assert (Hb : Allowed (match @NewScheduleRules ascii_tables sample_out with Ok r => Some r | Err _ => None end)
    (str "default") (MkClock 2 6 0) = false) by (vm_compute; reflexivity).
  rewrite Hr in Ha, Hb. split; [exact Ha|]. split; [exact Hb|].
  apply (Hall (str "default") (MkClock 1 21 59)); [cbn; lia|cbn; lia|cbn; lia| |exact Ha].
  exists (MkScheduleWindow (str "default") [str "sun"] (str "00:00") (str "24:00")). split; [|reflexivity].
  vm_compute. left.
Defined.

(** When the bands fill the week no window is left, and a profile without
    windows is always allowed. *)
Lemma time_bands_fail_open :
  let bands := [MkBand (str "bannedtimelist") 1 (replicate 7 true) 0 1440] in
  @restrictScheduleWindowsByTimeBands ascii_tables (fun _ => 0) [] [] bands = Ok [] /\
  exists r, @NewScheduleRules ascii_tables [] = Ok r /\
    forall now, Allowed (Some r) (str "default") now = true /\
      ((weekday now < 7)%nat -> (0 <= minute_of now < 1440)%Z -> in_band (MkBand (str "bannedtimelist") 1 (replicate 7 true) 0 1440) (weekday now) (minute_of now)).
Proof.
  split; [vm_compute; reflexivity|]. eexists. split; [reflexivity|]. intros now. split; [reflexivity|].
  intros Hd Hm. left. unfold active. cbn [tb_days tb_start tb_end]. split; [by rewrite lookup_replicate_2|lia].
Qed.
