(* ===== verification/UpstreamPool.v ===== *)
(** * The pool of idle upstream connections (proxy/upstream_pool.go)

    Connections to upstream servers are leased to one exchange at a time and
    kept, when they may be reused, under the key they were dialled for.  A
    connection is the number of its dial.  The last section runs the pool
    against its clients and follows each connection from its dial to its
    close. *)

From S2P Require Import Prelude.

Record UpstreamPoolConfig := MkPoolConfig { MaxIdlePerHost : Z; IdleTimeout : Z }.

Record upstreamPoolKey := MkPoolKey {
  scheme : bytes;
  address : bytes;
  serverName : bytes;
  alpn : bytes;
  specID : bytes;
}.

#[global] Instance upstreamPoolKey_eq_dec : EqDecision upstreamPoolKey.
Proof. solve_decision. Defined.

#[global] Instance upstreamPoolKey_countable : Countable upstreamPoolKey.
Proof.
  refine (inj_countable' (fun k => (scheme k, address k, serverName k, alpn k, specID k))
    (fun '(a, b, c, d, e) => MkPoolKey a b c d e) _).
  by intros [].
Defined.

(** [reader] is what the buffered reader of the connection still holds. *)
Record pooledUpstreamConn := MkPooled { conn : nat; reader : bytes; lastUsed : Z }.

Record upstreamConnPool := MkPool {
  idle : gmap upstreamPoolKey (list pooledUpstreamConn);
  maxIdlePerHost : nat;
  idleTimeout : Z;
}.

Definition defaultUpstreamIdleTimeout : Z := 90 * 1000000000.

Definition newUpstreamConnPool (cfg : UpstreamPoolConfig) : option upstreamConnPool :=
  if Z.leb (MaxIdlePerHost cfg) 0 then None
  else Some (MkPool ∅ (Z.to_nat (MaxIdlePerHost cfg))
         (if Z.leb (IdleTimeout cfg) 0 then defaultUpstreamIdleTimeout else IdleTimeout cfg)).

Definition fresh_enough (timeout now : Z) (c : pooledUpstreamConn) : bool :=
  Z.leb (time_Sub now (lastUsed c)) timeout.

(** The loop of [takeIdle] on the list from its last element: the list left,
    the connection found and the connections closed. *)
Fixpoint take_loop (timeout now : Z) (ridle : list pooledUpstreamConn)
  : list pooledUpstreamConn * option pooledUpstreamConn * list nat :=
  match ridle with
  | [] => ([], None, [])
  | pooled :: ridle' =>
      if fresh_enough timeout now pooled then (rev ridle', Some pooled, [])
      else let '(rest, found, closed) := take_loop timeout now ridle' in (rest, found, conn pooled :: closed)
  end.

Definition takeIdle (p : upstreamConnPool) (key : upstreamPoolKey) (now : Z)
  : upstreamConnPool * option pooledUpstreamConn * list nat :=
  let '(rest, found, closed) := take_loop (idleTimeout p) now (rev (default [] (idle p !! key))) in
  let m := match found with
           | Some _ => if Nat.eqb (length rest) 0 then delete key (idle p) else <[key := rest]> (idle p)
           | None => delete key (idle p)
           end in
  (MkPool m (maxIdlePerHost p) (idleTimeout p), found, closed).

(** [release] at the instant [now]: the pool and the connections closed.  The
    reader is [None] when it is nil. *)
Definition release (p : option upstreamConnPool) (key : upstreamPoolKey) (c : nat) (reader : option bytes)
    (reusable : bool) (now : Z) : option upstreamConnPool * list nat :=
  match p, reader with
  | Some q, Some [] =>
      if reusable then
        let l := default [] (idle q !! key) in
        let '(l, closed) := if Nat.leb (maxIdlePerHost q) (length l)
                            then (tail l, match l with old :: _ => [conn old] | [] => [] end)
                            else (l, []) in
        (Some (MkPool (<[key := l ++ [MkPooled c [] now]]> (idle q)) (maxIdlePerHost q) (idleTimeout q)), closed)
      else (p, [c])
  | _, _ => (p, [c])
  end.

Definition closeIdle (p : option upstreamConnPool) : option upstreamConnPool * list nat :=
  match p with
  | None => (None, [])
  | Some q => (Some (MkPool ∅ (maxIdlePerHost q) (idleTimeout q)),
               concat (map (fun kl => map conn kl.2) (map_to_list (idle q))))
  end.

(** ** The pool and its clients *)

(** [dialled] connections so far, the leases with their key, and the closed
    connections. *)
Record system := MkSystem {
  pool : option upstreamConnPool;
  dialled : nat;
  leases : list (nat * upstreamPoolKey);
  closed : list nat;
}.

(** [acquire]: an idle connection, or the one that [dial] returns; [dial] may
    fail. *)
Definition acquire (s : system) (key : upstreamPoolKey) (now : Z) (dial_ok : bool) : system * option nat :=
  let '(p, found, cl) :=
    match pool s with
    | None => (None, None, [])
    | Some q => let '(q, found, cl) := takeIdle q key now in (Some q, found, cl)
    end in
  match found with
  | Some c => (MkSystem p (dialled s) ((conn c, key) :: leases s) (cl ++ closed s), Some (conn c))
  | None =>
      if dial_ok
      then (MkSystem p (S (dialled s)) ((dialled s, key) :: leases s) (cl ++ closed s), Some (dialled s))
      else (MkSystem p (dialled s) (leases s) (cl ++ closed s), None)
  end.

Inductive step : system -> system -> Prop :=
| step_acquire s key now dial_ok : step s (acquire s key now dial_ok).1
| step_release p n ls1 ls2 cl c key reader reusable now p' cl' :
    release p key c reader reusable now = (p', cl') ->
    step (MkSystem p n (ls1 ++ (c, key) :: ls2) cl) (MkSystem p' n (ls1 ++ ls2) (cl' ++ cl))
| step_closeIdle p n ls cl p' cl' :
    closeIdle p = (p', cl') -> step (MkSystem p n ls cl) (MkSystem p' n ls (cl' ++ cl)).

(** ** Specification *)

Definition idle_conns (m : gmap upstreamPoolKey (list pooledUpstreamConn)) : list nat :=
  concat (map (fun kl => map conn kl.2) (map_to_list m)).

Definition pool_conns (p : option upstreamConnPool) : list nat :=
  match p with Some q => idle_conns (idle q) | None => [] end.

(** Every connection dialled is in exactly one place: idle, leased or closed. *)
Definition accounted (s : system) : Prop :=
  pool_conns (pool s) ++ map fst (leases s) ++ closed s ≡ₚ seq 0 (dialled s).

(** No key has more idle connections than the limit, and none that holds bytes
    of an earlier exchange. *)
Definition pool_bounded (p : upstreamConnPool) : Prop :=
  0 < maxIdlePerHost p /\
  map_Forall (fun _ l => 0 < length l <= maxIdlePerHost p /\ Forall (fun c => reader c = []) l) (idle p).

Definition pool_ok (s : system) : Prop :=
  accounted s /\ match pool s with Some p => pool_bounded p | None => True end.

(** ** Lemmas *)

Lemma idle_conns_split m key : idle_conns m ≡ₚ map conn (default [] (m !! key)) ++ idle_conns (delete key m).
Proof.
  unfold idle_conns. destruct (m !! key) as [l|] eqn:E; cbn [default from_option].
  - rewrite <- (map_to_list_delete m key l E) at 1. done.
  - by rewrite delete_id.
Qed.

Lemma idle_conns_insert m key l : idle_conns (<[key := l]> m) ≡ₚ map conn l ++ idle_conns (delete key m).
Proof. rewrite (idle_conns_split _ key), lookup_insert_eq, delete_insert_eq. done. Qed.

Lemma take_loop_spec timeout now ridle rest found cl :
  take_loop timeout now ridle = (rest, found, cl) ->
  exists expired, Forall (fun c => fresh_enough timeout now c = false) expired /\ cl = map conn expired /\
    match found with
    | Some c => ridle = expired ++ c :: rev rest /\ fresh_enough timeout now c = true
    | None => ridle = expired /\ rest = []
    end.
Proof.
  revert rest found cl. induction ridle as [|c ridle IH]; intros rest found cl; cbn [take_loop].
  { intros [= <- <- <-]. by exists []. }
  destruct (fresh_enough timeout now c) eqn:E.
  - intros [= <- <- <-]. exists []. by rewrite rev_involutive.
  - destruct (take_loop timeout now ridle) as [[rest' found'] cl'] eqn:Et. intros [= <- <- <-].
    destruct (IH _ _ _ eq_refl) as (expired & Hex & -> & Hf). exists (c :: expired).
    split; [by constructor|]. split; [done|]. destruct found'; naive_solver.
Qed.

Lemma takeIdle_spec p key now p' found cl :
  takeIdle p key now = (p', found, cl) ->
  maxIdlePerHost p' = maxIdlePerHost p /\ idleTimeout p' = idleTimeout p /\
  delete key (idle p') = delete key (idle p) /\
  exists expired, Forall (fun c => fresh_enough (idleTimeout p) now c = false) expired /\ cl = map conn (rev expired) /\
    match found with
    | Some c => default [] (idle p !! key) = default [] (idle p' !! key) ++ c :: expired /\
                fresh_enough (idleTimeout p) now c = true
    | None => default [] (idle p !! key) = expired /\ idle p' !! key = None
    end /\ idle p' !! key <> Some [].
Proof.
  unfold takeIdle. destruct (take_loop _ _ _) as [[rest found'] cl'] eqn:E.
  intros [= <- <- <-]. cbn [maxIdlePerHost idleTimeout idle]. split_and!; [done|done| |].
  { destruct found'; [destruct (Nat.eqb _ 0)|]; [apply delete_delete_eq|apply delete_insert_eq|apply delete_delete_eq]. }
  destruct (take_loop_spec _ _ _ _ _ _ E) as (expired & Hex & -> & Hf). exists (rev expired).
  rewrite rev_involutive. split; [by apply Forall_rev|]. split; [done|]. destruct found' as [c|].
  - destruct Hf as [Hr Hfr]. apply (f_equal (@rev _)) in Hr. rewrite rev_involutive, rev_app_distr in Hr.
    cbn [rev] in Hr. rewrite rev_involutive, <- app_assoc in Hr. cbn in Hr.
    destruct (Nat.eqb_spec (length rest) 0) as [Hz|Hz].
    + apply nil_length_inv in Hz as ->. rewrite lookup_delete_eq. done.
    + rewrite lookup_insert_eq. split; [done|]. intros [= ->]. done.
  - destruct Hf as [Hr ->]. apply (f_equal (@rev _)) in Hr. rewrite rev_involutive in Hr. rewrite lookup_delete_eq. done.
Qed.

Lemma takeIdle_conns p key now p' found cl :
  takeIdle p key now = (p', found, cl) ->
  idle_conns (idle p) ≡ₚ idle_conns (idle p') ++ cl ++ match found with Some c => [conn c] | None => [] end.
Proof.
  intros (_ & _ & Hd & expired & _ & -> & Hf & _)%takeIdle_spec.
  rewrite (idle_conns_split (idle p) key), (idle_conns_split (idle p') key), Hd, map_rev.
  assert (map conn (default [] (idle p !! key)) ≡ₚ
    map conn (default [] (idle p' !! key)) ++ rev (map conn expired) ++ match found with Some c => [conn c] | None => [] end)
    as ->; [|solve_Permutation].
  rewrite <- Permutation_rev. destruct found as [c|].
  - destruct Hf as [-> _]. rewrite map_app. cbn. solve_Permutation.
  - destruct Hf as [-> ->]. cbn. by rewrite app_nil_r.
Qed.

Lemma takeIdle_bounded p key now p' found cl :
  takeIdle p key now = (p', found, cl) -> pool_bounded p -> pool_bounded p'.
Proof.
  intros (Hm & _ & Hd & expired & _ & _ & Hf & Hne)%takeIdle_spec [Hpos Hb]. unfold pool_bounded. rewrite Hm.
  split; [done|]. intros k l Hk. destruct (decide (k = key)) as [->|Hk'].
  - rewrite Hk in Hf, Hne. destruct found as [c|]; [|by destruct Hf]. destruct Hf as [Hl _]. cbn in Hl.
    destruct (idle p !! key) as [l0|] eqn:E0; cbn in Hl; [|by destruct l].
    destruct (Hb key l0 E0) as [Hlen Hr]. subst l0. rewrite length_app in Hlen. cbn in Hlen.
    apply Forall_app in Hr as [Hr _]. split; [|done]. destruct l; [done|cbn in *; lia].
  - apply (Hb k). rewrite <- (lookup_delete_ne _ key) by congruence. rewrite <- Hd.
    by rewrite lookup_delete_ne by congruence.
Qed.

Lemma release_conns p key c rd reusable now p' cl :
  release p key c rd reusable now = (p', cl) ->
  c :: pool_conns p ≡ₚ pool_conns p' ++ cl.
Proof.
  assert (Hclosed : c :: pool_conns p ≡ₚ pool_conns p ++ [c]) by solve_Permutation.
  unfold release. destruct p as [q|]; [|by intros [= <- <-]].
  destruct rd as [[|b rd]|]; [|by intros [= <- <-]|by intros [= <- <-]].
  destruct reusable; [|by intros [= <- <-]]. clear Hclosed. cbn [pool_conns].
  rewrite (idle_conns_split (idle q) key). set (l := default [] (idle q !! key)).
  destruct (if Nat.leb _ _ then _ else _) as [l' cl'] eqn:E. intros [= <- <-]. cbn [pool_conns idle].
  rewrite idle_conns_insert, map_app.
  assert (Hl : map conn l ≡ₚ map conn l' ++ cl').
  { destruct (Nat.leb _ _); [|injection E as <- <-; by rewrite app_nil_r].
    injection E as <- <-. destruct l; cbn; [done|solve_Permutation]. }
  rewrite Hl. cbn. solve_Permutation.
Qed.

Lemma release_bounded q key c rd reusable now p' cl :
  release (Some q) key c rd reusable now = (p', cl) -> pool_bounded q ->
  match p' with Some q' => pool_bounded q' | None => True end.
Proof.
  intros Hrel Hq. revert Hrel. unfold release. destruct rd as [[|b rd]|]; [|by intros [= <- _]|by intros [= <- _]].
  destruct reusable; [|by intros [= <- _]]. set (l := default [] (idle q !! key)).
  destruct (if Nat.leb _ _ then _ else _) as [l' cl'] eqn:E. intros [= <- _]. destruct Hq as [Hpos Hb].
  split; [done|]. cbn [idle maxIdlePerHost].
  assert (Hl : length l <= maxIdlePerHost q /\ Forall (fun c => reader c = []) l).
  { subst l. destruct (idle q !! key) as [l0|] eqn:El; cbn; [|split; [lia|constructor]]. destruct (Hb _ _ El); split; [lia|done]. }
  apply map_Forall_insert_2; [|done]. rewrite length_app. cbn.
  destruct (Nat.leb_spec (maxIdlePerHost q) (length l)); injection E as <- _.
  - destruct l as [|x l1]; cbn in *; [lia|]. destruct Hl as [Hlen Hl]. inversion Hl; subst.
    split; [lia|]. apply Forall_app. split; [done|]. by repeat constructor.
  - split; [lia|]. apply Forall_app. split; [apply Hl|]. by repeat constructor.
Qed.

Lemma acquire_ok s key now dial_ok : pool_ok s -> pool_ok (acquire s key now dial_ok).1.
Proof.
  intros [Hacc Hb]. unfold acquire. destruct s as [p n ls cl0]. cbn [pool dialled leases closed] in *.
  unfold accounted in Hacc. cbn [pool dialled leases closed] in Hacc.
  destruct (match p with Some q => _ | None => _ end) as [[p' found] cl] eqn:E.
  assert (pool_conns p ≡ₚ pool_conns p' ++ cl ++ match found with Some c => [conn c] | None => [] end /\
    match p' with Some q => pool_bounded q | None => True end) as [Hc Hb'].
  { destruct p as [q|]; [|by simplify_eq]. destruct (takeIdle q key now) as [[q' found'] cl'] eqn:Et. simplify_eq. split.
    - by eapply takeIdle_conns.
    - by eapply takeIdle_bounded. }
  rewrite Hc in Hacc. destruct found as [c|]; [|destruct dial_ok]; (split; [|done]); unfold accounted;
    cbn [pool dialled leases closed fst map]; rewrite ?seq_S; rewrite <- Hacc; solve_Permutation.
Qed.

Lemma step_ok s s' : step s s' -> pool_ok s -> pool_ok s'.
Proof.
  intros Hs. destruct Hs as [s key now dial_ok|p n ls1 ls2 cl c key rd reusable now p' cl' Hrel|p n ls cl p' cl' Hcl].
  - apply acquire_ok.
  - intros [Hacc Hb]. unfold pool_ok, accounted in *. cbn [pool dialled leases closed] in *. split.
    + rewrite <- Hacc, !map_app. cbn [map fst]. pose proof (release_conns _ _ _ _ _ _ _ _ Hrel) as Hc.
      transitivity ((c :: pool_conns p) ++ (map fst ls1 ++ map fst ls2) ++ cl); [|solve_Permutation].
      rewrite Hc. solve_Permutation.
    + destruct p as [q|]; [by eapply release_bounded|]. unfold release in Hrel. by simplify_eq.
  - intros [Hacc Hb]. unfold pool_ok, accounted in *. cbn [pool dialled leases closed] in *.
    destruct p as [q|]; cbn in Hcl; simplify_eq; [|done]. split.
    + rewrite <- Hacc. cbn [pool_conns idle]. unfold idle_conns at 1. rewrite map_to_list_empty.
      fold (idle_conns (idle q)). cbn. solve_Permutation.
    + destruct Hb. split; [done|]. apply map_Forall_empty.
Qed.

(** C28.  Whatever the exchanges do with the pool, every connection that was
    dialled is idle, leased or closed, and only one of them, once: none is
    leaked, shared by two exchanges, reused or closed again after its close.
    No key keeps more idle connections than the limit, and no idle connection
    holds bytes of an earlier exchange. *)
Theorem pool_accounts cfg s :
  rtc step (MkSystem (newUpstreamConnPool cfg) 0 [] []) s -> pool_ok s.
Proof.
  intros Hs. assert (H0 : pool_ok (MkSystem (newUpstreamConnPool cfg) 0 [] [])).
  { unfold newUpstreamConnPool. destruct (Z.leb_spec (MaxIdlePerHost cfg) 0); (split; [apply perm_nil|]); cbn; [done|].
    split; cbn; [lia|apply map_Forall_empty]. }
  induction Hs as [|s1 s2 s3 H12 _ IH]; [done|]. apply IH. by eapply step_ok.
Qed.

Definition sample_key : upstreamPoolKey := MkPoolKey (str "https") (str "a:443") (str "a") (str "http/1.1") [].

Lemma pool_accounts_witness :
  let s := MkSystem (Some (MkPool ∅ 1 5)) 2 [(1, sample_key); (0, sample_key)] [] in
  rtc step (MkSystem (newUpstreamConnPool (MkPoolConfig 1 5)) 0 [] []) s /\ pool_ok s.
Proof.
  cbv zeta. assert (Hs : rtc step (MkSystem (newUpstreamConnPool (MkPoolConfig 1 5)) 0 [] [])
    (MkSystem (Some (MkPool ∅ 1 5)) 2 [(1, sample_key); (0, sample_key)] [])).
  { eapply rtc_l; [apply (step_acquire _ sample_key 0 true)|]. eapply rtc_l; [apply (step_acquire _ sample_key 0 true)|].
    apply rtc_refl. }
  split; [exact Hs|]. apply (pool_accounts (MkPoolConfig 1 5)). exact Hs.
Defined.
