(* ===== verification/Limiter.v ===== *)
(** * Connection limits (proxy/server.go)

    A connection takes one unit of the semaphore of its profile, when the
    profile has a limit, and one of the global semaphore, and gives both back.
    A reload replaces the semaphores while connections hold units of the old
    ones, so a permit remembers the limiter it came from.  The calls of
    [acquireConnForProfile] interleave: each of its two acquisitions is a step
    of its own.

    The semaphores are those of golang.org/x/sync: a parameter, with what its
    documentation says of them. *)

From S2P Require Import Prelude GoStrings GoNetip Access.

(** ** Semaphores *)

Class Weighted : Type := {
  sem : Type;
  NewWeighted : Z -> sem;
  TryAcquire : sem -> Z -> option sem;  (* [None]: false *)
  Acquire : sem -> Z -> option sem;     (* [None]: still blocked *)
  Release : sem -> Z -> option sem;     (* [None]: it panics *)
  sem_size : sem -> Z;
  sem_held : sem -> Z;
}.

Class WeightedLaws `{Weighted} : Prop := {
  New_size n : sem_size (NewWeighted n) = n;
  New_held n : sem_held (NewWeighted n) = 0%Z;
  TryAcquire_held s n s' :
    TryAcquire s n = Some s' -> sem_size s' = sem_size s /\ sem_held s' = (sem_held s + n)%Z /\ (sem_held s' <= sem_size s)%Z;
  Acquire_held s n s' :
    Acquire s n = Some s' -> sem_size s' = sem_size s /\ sem_held s' = (sem_held s + n)%Z /\ (sem_held s' <= sem_size s)%Z;
  Release_held s n :
    (n <= sem_held s)%Z ->
    exists s', Release s n = Some s' /\ sem_size s' = sem_size s /\ sem_held s' = (sem_held s - n)%Z;
}.

(** An instance: a semaphore without a queue. *)
Definition counting : Weighted := {|
  sem := Z * Z;
  NewWeighted n := (n, 0%Z);
  TryAcquire s n := if (s.2 + n <=? s.1)%Z then Some (s.1, (s.2 + n)%Z) else None;
  Acquire s n := if (s.2 + n <=? s.1)%Z then Some (s.1, (s.2 + n)%Z) else None;
  Release s n := if (n <=? s.2)%Z then Some (s.1, (s.2 - n)%Z) else None;
  sem_size := fst;
  sem_held := snd;
|}.

Lemma counting_laws : @WeightedLaws counting.
Proof.
  constructor; cbn; try done.
  - intros [size held] n s'. cbn. destruct (Z.leb_spec (held + n) size); [|done]. intros [= <-]. cbn. lia.
  - intros [size held] n s'. cbn. destruct (Z.leb_spec (held + n) size); [|done]. intros [= <-]. cbn. lia.
  - intros [size held] n Hn. cbn in *. destruct (Z.leb_spec n held); [|lia]. eauto.
Qed.

Section limiter.
Context `{Weighted}.

(** ** The state *)

(** Pointers to semaphores are numbers. *)
Record connLimiter := MkLimiter { globalSem : option nat; profileSems : option (gmap bytes nat) }.

Record connLimiterPermit := MkPermit { pm_limiter : connLimiter; pm_profile : bytes; pm_hasProfile : bool }.

(** Where a call of [acquireConnForProfile] is, and what became of it. *)
Inductive call :=
| AtProfile (l : connLimiter) (profile : bytes) (waits : bool)
| AtGlobal (l : connLimiter) (profile : bytes) (acquiredProfile waits : bool)
| Holding (p : connLimiterPermit)
| Refused (reason : bytes)
| Finished.

Record limiterState := MkLimiterState {
  ls_sems : gmap nat sem;
  ls_next : nat;
  ls_current : option connLimiter;
  ls_calls : list call;
}.

Definition setSem (st : limiterState) (id : nat) (s : sem) : limiterState :=
  MkLimiterState (<[id := s]> (ls_sems st)) (ls_next st) (ls_current st) (ls_calls st).

Definition setCall (st : limiterState) (i : nat) (c : call) : limiterState :=
  MkLimiterState (ls_sems st) (ls_next st) (ls_current st) (<[i := c]> (ls_calls st)).

(** ** Configuration *)

Definition SetMaxConnections (max : Z) (st : limiterState) : limiterState :=
  let max := if (max <=? 0)%Z then 1%Z else max in
  let profileSems := match ls_current st with Some c => profileSems c | None => None end in
  MkLimiterState (<[ls_next st := NewWeighted max]> (ls_sems st)) (S (ls_next st))
    (Some (MkLimiter (Some (ls_next st)) profileSems)) (ls_calls st).

(** The semaphores of the profiles; of two with the same name the last one
    stays. *)
Definition addProfileSem (acc : gmap bytes nat * gmap nat sem * nat) (p : AccessProfile)
    : gmap bytes nat * gmap nat sem * nat :=
  let '(names, sems, next) := acc in
  match ap_MaxConns p with
  | Some n => if (0 <? n)%Z then (<[ap_Name p := next]> names, <[next := NewWeighted n]> sems, S next) else acc
  | None => acc
  end.

Definition SetProfileMaxConnections (profiles : list AccessProfile) (st : limiterState) : limiterState :=
  let current := match ls_current st with Some c => globalSem c | None => None end in
  let '(global, sems, next) := match current with
                               | Some g => (g, ls_sems st, ls_next st)
                               | None => (ls_next st, <[ls_next st := NewWeighted 1024]> (ls_sems st), S (ls_next st))
                               end in
  let '(names, sems, next) := fold_left addProfileSem profiles (∅, sems, next) in
  MkLimiterState sems next (Some (MkLimiter (Some global) (Some names))) (ls_calls st).

(** ** Acquisition *)

(** One unit, by [TryAcquire] or by an [Acquire] whose context may expire;
    [None] while it blocks, [Some None] when it is refused. *)
Definition takeUnit (waits expired : bool) (s : sem) : option (option sem) :=
  if waits then (if expired then Some None else Some <$> Acquire s 1) else Some (TryAcquire s 1).

Definition profSem (l : connLimiter) (profile : bytes) : option nat :=
  if bytes_eqb profile [] then None else m ← profileSems l; m !! profile.

(** [limiter := s.limiter.Load()] with the timeout. *)
Definition beginAcquire (profile : bytes) (timeout : Z) (st : limiterState) : limiterState :=
  match ls_current st with
  | Some l => MkLimiterState (ls_sems st) (ls_next st) (ls_current st)
                (ls_calls st ++ [AtProfile l profile (0 <? timeout)%Z])
  | None => st
  end.

Definition acquireProfile (i : nat) (expired : bool) (st : limiterState) : limiterState :=
  match ls_calls st !! i with
  | Some (AtProfile l profile waits) =>
      match profSem l profile with
      | Some id =>
          match ls_sems st !! id with
          | Some s =>
              match takeUnit waits expired s with
              | Some (Some s') => setCall (setSem st id s') i (AtGlobal l profile true waits)
              | Some None => setCall st i (Refused (str "profile_max_connections"))
              | None => st
              end
          | None => st
          end
      | None => setCall st i (AtGlobal l profile false waits)
      end
  | _ => st
  end.

(** [Release(1)]; [None] when it panics. *)
Definition releaseSem (id : nat) (st : limiterState) : option limiterState :=
  s ← ls_sems st !! id; s' ← Release s 1; Some (setSem st id s').

Definition acquireGlobal (i : nat) (expired : bool) (st : limiterState) : option limiterState :=
  match ls_calls st !! i with
  | Some (AtGlobal l profile acquiredProfile waits) =>
      let permit := Holding (MkPermit l profile acquiredProfile) in
      match globalSem l with
      | Some id =>
          match ls_sems st !! id with
          | Some s =>
              match takeUnit waits expired s with
              | Some (Some s') => Some (setCall (setSem st id s') i permit)
              | Some None =>
                  let st' := setCall st i (Refused (str "max_connections")) in
                  match acquiredProfile, profSem l profile with
                  | true, Some p => releaseSem p st'
                  | _, _ => Some st'
                  end
              | None => Some st
              end
          | None => Some st
          end
      | None => Some (setCall st i permit)
      end
  | _ => Some st
  end.

Definition releaseConn (i : nat) (st : limiterState) : option limiterState :=
  match ls_calls st !! i with
  | Some (Holding p) =>
      let st := setCall st i Finished in
      st ← match globalSem (pm_limiter p) with Some id => releaseSem id st | None => Some st end;
      if pm_hasProfile p then
        match profileSems (pm_limiter p) with
        | Some m => match m !! pm_profile p with Some id => releaseSem id st | None => Some st end
        | None => Some st
        end
      else Some st
  | _ => Some st
  end.

(** [IsSaturated]: a unit is taken and given back. *)
Definition IsSaturated (st : limiterState) : option (limiterState * bool) :=
  match ls_current st with
  | Some l =>
      match globalSem l with
      | Some id =>
          match ls_sems st !! id with
          | Some s => match TryAcquire s 1 with
                      | Some s' => st ← releaseSem id (setSem st id s'); Some (st, false)
                      | None => Some (st, true)
                      end
          | None => Some (st, false)
          end
      | None => Some (st, false)
      end
  | None => Some (st, false)
  end.

(** ** Runs *)

Inductive operation :=
| OpMax (n : Z) | OpProfiles (ps : list AccessProfile)
| OpBegin (profile : bytes) (timeout : Z) | OpProfile (i : nat) (expired : bool) | OpGlobal (i : nat) (expired : bool)
| OpRelease (i : nat) | OpSaturated.

Definition perform (op : operation) (st : limiterState) : option limiterState :=
  match op with
  | OpMax n => Some (SetMaxConnections n st)
  | OpProfiles ps => Some (SetProfileMaxConnections ps st)
  | OpBegin profile timeout => Some (beginAcquire profile timeout st)
  | OpProfile i expired => Some (acquireProfile i expired st)
  | OpGlobal i expired => acquireGlobal i expired st
  | OpRelease i => releaseConn i st
  | OpSaturated => fst <$> IsSaturated st
  end.

Fixpoint performAll (ops : list operation) (st : limiterState) : option limiterState :=
  match ops with [] => Some st | op :: ops => st ← perform op st; performAll ops st end.

Definition limiter0 : limiterState := MkLimiterState ∅ 0 None [].

(** ** What a call holds *)

Definition units (id : nat) (o : option nat) : Z := if decide (o = Some id) then 1%Z else 0%Z.

Definition heldBy (id : nat) (c : call) : Z :=
  match c with
  | AtGlobal l profile true _ => units id (profSem l profile)
  | Holding p => (units id (globalSem (pm_limiter p))
                  + if pm_hasProfile p then units id (profSem (pm_limiter p) (pm_profile p)) else 0)%Z
  | _ => 0%Z
  end.

Fixpoint total (id : nat) (cs : list call) : Z :=
  match cs with [] => 0%Z | c :: cs => (heldBy id c + total id cs)%Z end.

(** The semaphores a limiter names exist. *)
Definition limiter_wf (next : nat) (l : connLimiter) : Prop :=
  (forall id, globalSem l = Some id -> id < next) /\
  (forall m p id, profileSems l = Some m -> m !! p = Some id -> id < next).

Definition call_wf (next : nat) (c : call) : Prop :=
  match c with
  | AtProfile l _ _ => limiter_wf next l
  | AtGlobal l profile has _ => limiter_wf next l /\ (has = true -> is_Some (profSem l profile))
  | Holding p => limiter_wf next (pm_limiter p) /\ (pm_hasProfile p = true -> is_Some (profSem (pm_limiter p) (pm_profile p)))
  | _ => True
  end.

(** The semaphores count [f], which is no more than their size. *)
Record counts (f : nat -> Z) (st : limiterState) : Prop := MkCounts {
  co_dom : forall id, id < ls_next st <-> is_Some (ls_sems st !! id);
  co_held : forall id s, ls_sems st !! id = Some s -> sem_held s = f id /\ (sem_held s <= sem_size s)%Z;
  co_current : forall l, ls_current st = Some l -> limiter_wf (ls_next st) l;
  co_calls : Forall (call_wf (ls_next st)) (ls_calls st);
}.

(** They count what the calls hold. *)
Definition limiter_ok (st : limiterState) : Prop := counts (fun id => total id (ls_calls st)) st.

(** ** Lemmas *)

Lemma units_bounds id o : (0 <= units id o <= 1)%Z.
Proof. unfold units. case_decide; lia. Qed.

Lemma heldBy_nonneg id c : (0 <= heldBy id c)%Z.
Proof.
  destruct c as [| ? ? [] ?|[l p []]| |]; cbn; try lia;
    repeat match goal with |- context [units id ?o] => pose proof (units_bounds id o); generalize dependent (units id o); intros end; lia.
Qed.

Lemma total_app id cs cs' : total id (cs ++ cs') = (total id cs + total id cs')%Z.
Proof. induction cs as [|c cs IH]; cbn -[heldBy]; [done|]. rewrite IH. lia. Qed.

Lemma total_insert id cs i c c' :
  cs !! i = Some c -> total id (<[i := c']> cs) = (total id cs - heldBy id c + heldBy id c')%Z.
Proof.
  revert i. induction cs as [|d cs IH]; intros [|i]; try done.
  - intros [= ->]. cbn -[heldBy]. lia.
  - intros Hi. change (<[S i := c']> (d :: cs)) with (d :: <[i := c']> cs). cbn [total]. rewrite (IH i Hi). lia.
Qed.

Lemma total_nonneg id cs : (0 <= total id cs)%Z.
Proof. induction cs as [|d cs IH]; cbn -[heldBy]; [lia|]. pose proof (heldBy_nonneg id d). lia. Qed.

Lemma total_ge id cs i c : cs !! i = Some c -> (heldBy id c <= total id cs)%Z.
Proof.
  revert i. induction cs as [|d cs IH]; intros [|i]; try done.
  - intros [= ->]. cbn -[heldBy]. pose proof (total_nonneg id cs). lia.
  - intros Hi%IH. cbn -[heldBy]. pose proof (heldBy_nonneg id d). lia.
Qed.

Lemma counts_ext f g st : (forall id, f id = g id) -> counts f st -> counts g st.
Proof. intros E [? Hh ? ?]. split; try done. intros id s Hs. rewrite <- E. by apply Hh. Qed.

Lemma limiter_wf_mono n n' l : n <= n' -> limiter_wf n l -> limiter_wf n' l.
Proof. intros Hn [Hg Hp]. split; intros; [apply Hg in H0|apply Hp in H1]; try lia; eauto. Qed.

Lemma call_wf_mono n n' c : n <= n' -> call_wf n c -> call_wf n' c.
Proof. intros Hn. destruct c; cbn; naive_solver eauto using limiter_wf_mono. Qed.

Section laws.
Context `{!WeightedLaws}.

(** A call changes and [f] follows. *)
Lemma counts_setCall f st i c : counts f st -> call_wf (ls_next st) c -> counts f (setCall st i c).
Proof. intros [? ? ? ?] Hc. split; try done. cbn. by apply Forall_insert. Qed.

Lemma counts_setSem f st id s s' (d : Z) :
  counts f st -> ls_sems st !! id = Some s -> sem_size s' = sem_size s -> sem_held s' = (sem_held s + d)%Z ->
  (sem_held s' <= sem_size s)%Z ->
  counts (fun i => if decide (i = id) then f i + d else f i)%Z (setSem st id s').
Proof.
  intros [Hd Hh ? ?] Hs Esz Eh Hle. split; try done; cbn.
  - intros i. rewrite Hd, lookup_insert_is_Some. destruct (decide (i = id)); naive_solver.
  - intros i t. rewrite lookup_insert_Some. destruct (Hh _ _ Hs).
    intros [[<- <-]|[Hne Ht]]; [rewrite decide_True by done; lia|]. rewrite decide_False by done. by apply Hh.
Qed.

Lemma counts_release f st id :
  counts f st -> is_Some (ls_sems st !! id) -> (1 <= f id)%Z ->
  exists st', releaseSem id st = Some st' /\ counts (fun i => f i - units i (Some id))%Z st' /\
    ls_calls st' = ls_calls st /\ ls_next st' = ls_next st.
Proof.
  intros Hc [s Hs] Hf. destruct (co_held _ _ Hc _ _ Hs) as [Eh Hle].
  destruct (Release_held s 1) as (s' & Er & Esz & Eh'); [lia|].
  exists (setSem st id s'). unfold releaseSem. rewrite Hs. cbn. rewrite Er. split; [done|]. split; [|done].
  eapply counts_ext; [|apply (counts_setSem _ _ _ _ _ (-1) Hc Hs Esz)]; [|lia|lia].
  intros i. unfold units. destruct (decide (i = id)) as [->|].
  - rewrite decide_True by done. lia.
  - rewrite decide_False by naive_solver. lia.
Qed.

Lemma takeUnit_held waits expired s s' :
  takeUnit waits expired s = Some (Some s') ->
  sem_size s' = sem_size s /\ sem_held s' = (sem_held s + 1)%Z /\ (sem_held s' <= sem_size s)%Z.
Proof.
  unfold takeUnit. destruct waits; [|intros [= ?]; by apply TryAcquire_held].
  destruct expired; [done|]. destruct (Acquire s 1) eqn:E; [|done]. intros [= <-]. by apply Acquire_held.
Qed.

(** A call takes a unit of [id]. *)
Lemma counts_take st i c c' id s s' waits expired :
  limiter_ok st -> ls_calls st !! i = Some c -> ls_sems st !! id = Some s ->
  takeUnit waits expired s = Some (Some s') ->
  call_wf (ls_next st) c' -> (forall j, heldBy j c' = (heldBy j c + units j (Some id))%Z) ->
  limiter_ok (setCall (setSem st id s') i c').
Proof.
  intros Hok Hi Hs Ht Hw Hc'. destruct (takeUnit_held _ _ _ _ Ht) as (Esz & Eh & Hle).
  eapply counts_ext; [|apply counts_setCall, Hw; exact (counts_setSem _ _ _ _ _ 1 Hok Hs Esz Eh Hle)].
  intros j. cbn. rewrite (total_insert _ _ _ _ _ Hi), Hc'. unfold units.
  destruct (decide (j = id)) as [->|]; [rewrite decide_True by done|rewrite decide_False by naive_solver]; lia.
Qed.

Lemma profSem_wf n l profile id : limiter_wf n l -> profSem l profile = Some id -> id < n.
Proof.
  intros [_ Hp]. unfold profSem. destruct (bytes_eqb profile []); [done|].
  destruct (profileSems l) as [m|] eqn:E; [|done]. by apply Hp.
Qed.

(** A call that holds nothing more or less. *)
Lemma limiter_ok_setCall st i c c' :
  limiter_ok st -> ls_calls st !! i = Some c -> call_wf (ls_next st) c' -> (forall j, heldBy j c' = heldBy j c) ->
  limiter_ok (setCall st i c').
Proof.
  intros Hok Hi Hw Hc. eapply counts_ext; [|by apply counts_setCall].
  intros j. cbn. rewrite (total_insert _ _ _ _ _ Hi), Hc. lia.
Qed.

Lemma call_wf_at st i c : limiter_ok st -> ls_calls st !! i = Some c -> call_wf (ls_next st) c.
Proof. intros Hok Hi. by eapply Forall_lookup_1; [apply Hok|]. Qed.

Lemma acquireProfile_ok i expired st : limiter_ok st -> limiter_ok (acquireProfile i expired st).
Proof.
  intros Hok. unfold acquireProfile. destruct (ls_calls st !! i) as [[l profile waits| | | |]|] eqn:Hi; try done.
  pose proof (call_wf_at _ _ _ Hok Hi) as Hw. destruct (profSem l profile) as [id|] eqn:Ep.
  - destruct (ls_sems st !! id) as [s|] eqn:Es; [|done]. destruct (takeUnit waits expired s) as [[s'|]|] eqn:Et; [| |done].
    + eapply counts_take; try done. intros j. cbn. by rewrite Ep.
    + by eapply limiter_ok_setCall.
  - by eapply limiter_ok_setCall.
Qed.

(** The call [i] gives back a unit of [id] that it holds. *)
Lemma release_one f st id :
  counts f st -> id < ls_next st -> (1 <= f id)%Z ->
  exists st', releaseSem id st = Some st' /\ counts (fun j => f j - units j (Some id))%Z st' /\
    ls_calls st' = ls_calls st /\ ls_next st' = ls_next st.
Proof. intros Hc Hid Hf. apply counts_release; [done|by apply (co_dom _ _ Hc)|done]. Qed.

Lemma acquireGlobal_ok i expired st :
  limiter_ok st -> exists st', acquireGlobal i expired st = Some st' /\ limiter_ok st'.
Proof.
  intros Hok. unfold acquireGlobal. destruct (ls_calls st !! i) as [[|l profile has waits| | |]|] eqn:Hi; try by eauto.
  pose proof (call_wf_at _ _ _ Hok Hi) as [Hw Hhas]. destruct (globalSem l) as [id|] eqn:Eg.
  - destruct (ls_sems st !! id) as [s|] eqn:Es; [|by eauto].
    destruct (takeUnit waits expired s) as [[s'|]|] eqn:Et; [| |by eauto].
    + eexists. split; [done|]. eapply counts_take; try done.
      intros j. cbn. rewrite Eg. destruct has; lia.
    + destruct has; [|eexists; split; [done|]; by eapply limiter_ok_setCall].
      destruct (Hhas eq_refl) as [p Ep]. rewrite Ep.
      destruct (release_one (fun j => total j (ls_calls st)) (setCall st i (Refused (str "max_connections"))) p)
        as (st' & Er & Hc & Ec & En).
      * by apply counts_setCall.
      * cbn. by eapply profSem_wf.
      * pose proof (total_ge p _ _ _ Hi) as Hge. cbn in Hge. rewrite Ep in Hge. unfold units in Hge.
        by rewrite decide_True in Hge.
      * exists st'. split; [done|]. eapply counts_ext; [|exact Hc]. intros j. rewrite Ec. cbn -[heldBy].
        rewrite (total_insert _ _ _ _ _ Hi). cbn. rewrite Ep. lia.
  - eexists. split; [done|]. eapply limiter_ok_setCall; try done. intros j. cbn. rewrite Eg. by destruct has.
Qed.

Lemma hasProfile_lookup l profile id :
  profSem l profile = Some id -> exists m, profileSems l = Some m /\ m !! profile = Some id.
Proof.
  unfold profSem. destruct (bytes_eqb profile []); [done|]. destruct (profileSems l) as [m|]; [|done]. by eauto.
Qed.

Lemma releaseConn_ok i st :
  limiter_ok st -> exists st', releaseConn i st = Some st' /\ limiter_ok st'.
Proof.
  intros Hok. unfold releaseConn. destruct (ls_calls st !! i) as [[| |[l profile has]| |]|] eqn:Hi; try by eauto.
  pose proof (call_wf_at _ _ _ Hok Hi) as [Hw Hhas]. cbn [pm_limiter pm_profile pm_hasProfile] in *.
  pose proof (fun id => total_ge id _ _ _ Hi) as Hge. cbn in Hge.
  set (st0 := setCall st i Finished).
  assert (Hc0 : counts (fun j => total j (ls_calls st)) st0) by by apply counts_setCall.
  assert (Hg : exists st1, match globalSem l with Some id => releaseSem id st0 | None => Some st0 end = Some st1 /\
    counts (fun j => total j (ls_calls st) - units j (globalSem l))%Z st1 /\
    ls_calls st1 = ls_calls st0 /\ ls_next st1 = ls_next st).
  { destruct (globalSem l) as [g|] eqn:Eg.
    - apply (release_one _ st0 g Hc0); [by apply Hw|]. specialize (Hge g). unfold units in Hge at 1.
      rewrite decide_True in Hge by done. destruct has; pose proof (units_bounds g (profSem l profile)); lia.
    - exists st0. split_and!; try done. eapply counts_ext; [|exact Hc0]. intros j. unfold units. by rewrite decide_False, Z.sub_0_r. }
  destruct Hg as (st1 & -> & H1 & Ec1 & En1). cbn [mbind option_bind].
  destruct has.
  - destruct (Hhas eq_refl) as [p Ep]. destruct (hasProfile_lookup _ _ _ Ep) as (m & -> & ->).
    destruct (release_one _ st1 p H1) as (st2 & Er & H2 & Ec2 & En2).
    + rewrite En1. by eapply profSem_wf.
    + specialize (Hge p). rewrite Ep in Hge. unfold units in Hge at 2. rewrite decide_True in Hge by done. lia.
    + exists st2. split; [done|]. eapply counts_ext; [|exact H2]. intros j. rewrite Ec2, Ec1. cbn -[heldBy].
      rewrite (total_insert _ _ _ _ _ Hi). cbn. rewrite Ep. lia.
  - exists st1. split; [done|]. eapply counts_ext; [|exact H1]. intros j. rewrite Ec1. cbn -[heldBy].
    rewrite (total_insert _ _ _ _ _ Hi). cbn. lia.
Qed.

(** *** Configuration *)

Lemma total_unused st id : limiter_ok st -> ls_next st <= id -> total id (ls_calls st) = 0%Z.
Proof.
  intros Hok Hid. assert (Hun : forall c, call_wf (ls_next st) c -> heldBy id c = 0%Z).
  { assert (Hu : forall o, (forall n, o = Some n -> n < ls_next st) -> units id o = 0%Z).
    { intros o Ho. unfold units. case_decide as E; [|done]. apply Ho in E. lia. }
    intros [| l profile [] ?|[l profile has]| |]; cbn; try done.
    - intros [Hw _]. apply Hu. intros n. by apply profSem_wf.
    - intros [Hw _]. rewrite (Hu (globalSem l)) by apply Hw. destruct has; [|done].
      rewrite Hu; [done|]. intros n. by apply profSem_wf. }
  pose proof (co_calls _ _ Hok) as Hc. induction (ls_calls st) as [|c cs IH]; [done|].
  apply Forall_cons in Hc as [Hc Hcs]. cbn [total]. rewrite Hun, IH; done.
Qed.

(** Without regard to the current limiter. *)
Definition sems_ok (cs : list call) (sems : gmap nat sem) (next : nat) : Prop :=
  limiter_ok (MkLimiterState sems next None cs).

Lemma sems_ok_new cs sems next n :
  sems_ok cs sems next -> (0 <= n)%Z -> sems_ok cs (<[next := NewWeighted n]> sems) (S next).
Proof.
  intros Hok Hn. pose proof Hok as [Hd Hh Hc Hf]. cbn in *. split; cbn.
  - intros id. rewrite lookup_insert_is_Some, <- Hd. lia.
  - intros id s. rewrite lookup_insert_Some. intros [[<- <-]|[_ Hs]]; [|by apply Hh].
    rewrite New_size, New_held. pose proof (total_unused _ next Hok ltac:(cbn; lia)) as Ht. cbn in Ht. lia.
  - done.
  - eapply Forall_impl; [exact Hf|]. intros c. apply call_wf_mono. lia.
Qed.

Lemma sems_ok_limiter cs sems next l :
  sems_ok cs sems next -> limiter_wf next l -> limiter_ok (MkLimiterState sems next (Some l) cs).
Proof. intros [? ? ? ?] Hw. split; try done. by intros l' [= <-]. Qed.

Lemma limiter_sems_ok st : limiter_ok st -> sems_ok (ls_calls st) (ls_sems st) (ls_next st).
Proof. intros [? ? ? ?]. by split. Qed.

Lemma addProfileSems_ok cs ps names sems next :
  sems_ok cs sems next -> (forall p id, names !! p = Some id -> id < next) ->
  let '(names', sems', next') := fold_left addProfileSem ps (names, sems, next) in
  next <= next' /\ sems_ok cs sems' next' /\ (forall p id, names' !! p = Some id -> id < next').
Proof.
  revert names sems next. induction ps as [|p ps IH]; intros names sems next Hs Hn; [cbn; auto|].
  cbn [fold_left addProfileSem]. destruct (ap_MaxConns p) as [n|]; [|by apply IH].
  destruct (Z.ltb_spec 0 n); [|by apply IH].
  specialize (IH (<[ap_Name p := next]> names) (<[next := NewWeighted n]> sems) (S next)).
  destruct (fold_left _ ps _) as [[names' sems'] next'].
  destruct IH as (Hle & ? & ?); [apply sems_ok_new; [done|lia]| |split_and!; try done; lia].
  intros q id. rewrite lookup_insert_Some. intros [[_ <-]|[_ Hq%Hn]]; lia.
Qed.

Lemma SetMaxConnections_ok n st : limiter_ok st -> limiter_ok (SetMaxConnections n st).
Proof.
  intros Hok. apply sems_ok_limiter.
  - apply sems_ok_new; [by apply limiter_sems_ok|]. destruct (Z.leb_spec n 0); lia.
  - split; cbn.
    + intros id [= <-]. lia.
    + intros m p id Hm Hp. destruct (ls_current st) as [l|] eqn:El; [|done].
      destruct (co_current _ _ Hok _ El) as [_ Hl]. specialize (Hl _ _ _ Hm Hp). lia.
Qed.

Lemma SetProfileMaxConnections_ok ps st : limiter_ok st -> limiter_ok (SetProfileMaxConnections ps st).
Proof.
  intros Hok. unfold SetProfileMaxConnections.
  assert (Hg : let '(global, sems, next) :=
      match match ls_current st with Some c => globalSem c | None => None end with
      | Some g => (g, ls_sems st, ls_next st)
      | None => (ls_next st, <[ls_next st := NewWeighted 1024]> (ls_sems st), S (ls_next st))
      end in sems_ok (ls_calls st) sems next /\ global < next).
  { destruct (ls_current st) as [c|] eqn:Ec; [destruct (globalSem c) as [g|] eqn:Eg|].
    - split; [by apply limiter_sems_ok|]. by apply (co_current _ _ Hok _ Ec).
    - split; [|lia]. apply sems_ok_new; [by apply limiter_sems_ok|lia].
    - split; [|lia]. apply sems_ok_new; [by apply limiter_sems_ok|lia]. }
  destruct (match _ with Some g => _ | None => _ end) as [[global sems] next]. destruct Hg as [Hs Hg].
  pose proof (addProfileSems_ok (ls_calls st) ps ∅ sems next Hs ltac:(intros p id; by rewrite lookup_empty)) as Hp.
  destruct (fold_left _ ps _) as [[names sems'] next']. destruct Hp as (Hle & Hs' & Hn).
  apply sems_ok_limiter; [done|]. split; cbn; [intros id [= <-]; lia|]. intros m p id [= <-]. by apply Hn.
Qed.

Lemma IsSaturated_ok st : limiter_ok st -> exists st' b, IsSaturated st = Some (st', b) /\ limiter_ok st'.
Proof.
  intros Hok. unfold IsSaturated. destruct (ls_current st) as [l|]; [|by eauto].
  destruct (globalSem l) as [id|]; [|by eauto]. destruct (ls_sems st !! id) as [s|] eqn:Es; [|by eauto].
  destruct (TryAcquire s 1) as [s'|] eqn:Et; [|by eauto].
  destruct (TryAcquire_held _ _ _ Et) as (Esz & Eh & Hle).
  pose proof (counts_setSem _ _ _ _ _ 1 Hok Es Esz Eh Hle) as Hc.
  destruct (release_one _ (setSem st id s') id Hc) as (st' & -> & Hc' & Ecl & _).
  - cbn. apply (co_dom _ _ Hok). by eexists.
  - rewrite decide_True by done. pose proof (total_nonneg id (ls_calls st)). lia.
  - exists st', false. split; [done|]. eapply counts_ext; [|exact Hc']. intros j. rewrite Ecl. cbn. unfold units.
    destruct (decide (j = id)) as [->|]; [rewrite decide_True by done|rewrite decide_False by naive_solver]; lia.
Qed.

Lemma perform_ok op st : limiter_ok st -> exists st', perform op st = Some st' /\ limiter_ok st'.
Proof.
  intros Hok. destruct op; cbn [perform].
  - eexists. split; [done|]. by apply SetMaxConnections_ok.
  - eexists. split; [done|]. by apply SetProfileMaxConnections_ok.
  - eexists. split; [done|]. unfold beginAcquire. destruct (ls_current st) as [l|] eqn:El; [|done].
    pose proof Hok as [Hd Hh Hcu Hc]. split; cbn.
    + exact Hd.
    + intros id s Hs. destruct (Hh id s Hs). by rewrite total_app, Z.add_0_r.
    + by rewrite <- El.
    + apply Forall_app. split; [done|]. by apply Forall_singleton, (co_current _ _ Hok).
  - eexists. split; [done|]. by apply acquireProfile_ok.
  - by apply acquireGlobal_ok.
  - by apply releaseConn_ok.
  - destruct (IsSaturated_ok st Hok) as (st' & b & -> & ?). by eauto.
Qed.

Lemma performAll_ok ops : forall st, limiter_ok st -> exists st', performAll ops st = Some st' /\ limiter_ok st'.
Proof.
  induction ops as [|op ops IH]; intros st Hok; [by eauto|].
  destruct (perform_ok op st Hok) as (st' & E & Hok'). cbn [performAll]. rewrite E. by apply IH.
Qed.

Lemma limiter0_ok : limiter_ok limiter0.
Proof. split; try done. cbn. intros id. rewrite lookup_empty, is_Some_alt. split; [lia|done]. Qed.

End laws.

End limiter.


Section sample.
#[local] Existing Instances counting counting_laws.

(** A limit of one connection: the second is refused until the first ends. *)
Definition sample_ops : list operation :=
  [OpMax 1; OpBegin [] 0; OpBegin [] 0; OpProfile 0 false; OpGlobal 0 false; OpProfile 1 false; OpGlobal 1 false].


End sample.
