(* ===== verification/PolicyRules.v ===== *)
(** * The rule sets of the policy (proxy/policy.go)

    Headers, cookies, site addresses, files, URLs, logging and referers: the
    compiled rules, their constructors and their decisions. *)

From S2P Require Import Prelude GoStrings GoRegexp GoUrl GoNetip GoMime Http DomainTrie DomainRules Access.

Section rules.
Context `{UnicodeTables} `{Regexp} `{PrefixTable}.

(** ** Phrases *)

(** Lower-cased, trimmed, non-empty phrases, each once, in order. *)
Definition normalizedPhrases (values : list bytes) : list bytes :=
  fold_left
    (fun out value =>
       let value := ToLower (TrimSpace value) in
       if decide (value = []) then out
       else if decide (value ∈ out) then out else out ++ [value])
    values [].

Definition firstPhraseMatch (phrases : list bytes) (haystack : bytes) : bytes :=
  default [] (find (fun phrase => Contains haystack phrase) phrases).

Definition phraseListMatches (phrases : list bytes) (haystack : bytes) : bool :=
  bool_decide (firstPhraseMatch phrases haystack <> []).

Definition regexListMatches (regexes : list regexp) (haystack : bytes) : bool :=
  existsb (fun rx => regexp_MatchString rx haystack) regexes.

(** A rule "pattern => replacement". *)
Definition splitArrow (p : bytes) : bytes * bytes :=
  match Index p (str "=>") with
  | Some idx => (TrimSpace (take idx p), TrimSpace (drop (idx + 2) p))
  | None => (p, [])
  end.

(** [for _, rule := range rules { ... compilePolicyRegex ... append }] with
    the replacement of each rule. *)
Definition compileRewrites (rules : list RegexRule) : result policyError (list (regexp * bytes)) :=
  foldM
    (fun out rule =>
       let '(pattern, replace) := splitArrow (rr_Pattern rule) in
       rx ← compilePolicyRegex (MkRegexRule pattern (rr_Source rule));
       Ok (out ++ [(rx, replace)]))
    rules [].

(** ** Headers *)

Record HeaderAddRule := MkHeaderAddRule {
  ha_UrlRegex : option regexp;
  ha_Key : bytes;
  ha_Val : bytes;
}.

Record HeaderRulesConfig := MkHeaderRulesConfig {
  hc_Banned : list bytes;
  hc_Exception : list bytes;
  hc_BlockRegex : list RegexRule;
  hc_ExceptionRegex : list RegexRule;
  hc_RequestRewrites : list RegexRule;
  hc_ResponseRewrites : list RegexRule;
  hc_RequestAdds : list RegexRule;
}.

Record HeaderRules := MkHeaderRules {
  hr_banned : list bytes;
  hr_exception : list bytes;
  hr_blockRegex : list regexp;
  hr_exceptionRegex : list regexp;
  hr_requestRewrites : list (regexp * bytes);
  hr_responseRewrites : list (regexp * bytes);
  hr_requestAdds : list HeaderAddRule;
}.

Definition compileAdd (rule : RegexRule) : result policyError HeaderAddRule :=
  let '(pattern, headerStr) :=
    match Index (rr_Pattern rule) (str "=>") with
    | Some idx => (TrimSpace (take idx (rr_Pattern rule)), TrimSpace (drop (idx + 2) (rr_Pattern rule)))
    | None => ([], rr_Pattern rule)
    end in
  match Index headerStr (str ":") with
  | None | Some O => Err (ErrAddHeaderFormat (rr_Source rule) (rr_Pattern rule))
  | Some colonIdx =>
      let key := TrimSpace (take colonIdx headerStr) in
      let val := TrimSpace (drop (colonIdx + 1) headerStr) in
      compiled ← (if decide (pattern = []) then Ok None
                  else Some <$> compilePolicyRegex (MkRegexRule pattern (rr_Source rule)));
      Ok (MkHeaderAddRule compiled key val)
  end.

Definition NewHeaderRules (cfg : HeaderRulesConfig) : result policyError HeaderRules :=
  block ← compileRegexes (hc_BlockRegex cfg);
  exc ← compileRegexes (hc_ExceptionRegex cfg);
  reqs ← compileRewrites (hc_RequestRewrites cfg);
  resps ← compileRewrites (hc_ResponseRewrites cfg);
  adds ← foldM (fun out rule => a ← compileAdd rule; Ok (out ++ [a])) (hc_RequestAdds cfg) [];
  Ok (MkHeaderRules (normalizedPhrases (hc_Banned cfg)) (normalizedPhrases (hc_Exception cfg))
        block exc reqs resps adds).

(** The decision on one header line; [None] goes on to the next one. *)
Definition headerLineDecision (r : HeaderRules) (key value : bytes) : option PolicyDecision :=
  let rawLine := key ++ str ": " ++ value in
  let normalizedLine := ToLower rawLine in
  if phraseListMatches (hr_exception r) normalizedLine || regexListMatches (hr_exceptionRegex r) rawLine
  then None
  else
    let m := firstPhraseMatch (hr_banned r) normalizedLine in
    if decide (m <> []) then Some (blockDecision (str "header") m)
    else
      (fun rx => blockDecision (str "header_regex") (regexp_String rx)) <$>
        find (fun rx => regexp_MatchString rx rawLine) (hr_blockRegex r).

(** The lines of a header, in the order of the loops. *)
Definition headerLines (h : Header) : list (bytes * bytes) :=
  concat (map (fun kv => map (pair kv.1) kv.2) h).

Fixpoint firstDecision {A} (f : A -> option PolicyDecision) (l : list A) : PolicyDecision :=
  match l with
  | [] => noDecision
  | x :: l' => match f x with Some d => d | None => firstDecision f l' end
  end.

Definition HeaderRules_Decision (r : HeaderRules) (headers : Header) : PolicyDecision :=
  firstDecision (fun '(k, v) => headerLineDecision r k v) (headerLines headers).

(** ** Cookies *)

Record CookieRules := MkCookieRules { ck_banned : list bytes; ck_exception : list bytes }.

Definition NewCookieRules (banned exception : list bytes) : CookieRules :=
  MkCookieRules (normalizedPhrases banned) (normalizedPhrases exception).

Definition CookieRules_Decision (r : CookieRules) (values : list bytes) : PolicyDecision :=
  firstDecision
    (fun value =>
       let value := ToLower value in
       if phraseListMatches (ck_exception r) value then None
       else
         let m := firstPhraseMatch (ck_banned r) value in
         if decide (m <> []) then Some (blockDecision (str "cookie") m) else None)
    values.

Definition requestCookieValues (h : Header) : list bytes := Header_Values h (str "Cookie").
Definition responseCookieValues (h : Header) : list bytes := Header_Values h (str "Set-Cookie").

(** ** Site addresses *)

Record SiteIPRulesConfig := MkSiteIPRulesConfig {
  sc_Blocked : list bytes;
  sc_Exceptions : list bytes;
  sc_Grey : list bytes;
}.

Record SiteIPRules := MkSiteIPRules {
  si_blocked : table bool;
  si_exceptions : table bool;
  si_grey : table bool;
  si_hasEntries : bool;
}.

(** An error of [insertIPPrefixes] with the name of the list. *)
Definition prefixes_named (name : bytes) (l : list bytes) : result policyError (table bool) :=
  match insertIPPrefixes table_empty l with
  | Ok t => Ok t
  | Err entry => Err (ErrPrefix name entry)
  end.

Definition NewSiteIPRules (cfg : SiteIPRulesConfig) : result policyError SiteIPRules :=
  b ← prefixes_named (str "bannedsiteiplist") (sc_Blocked cfg);
  e ← prefixes_named (str "exceptionsiteiplist") (sc_Exceptions cfg);
  g ← prefixes_named (str "greysiteiplist") (sc_Grey cfg);
  Ok (MkSiteIPRules b e g
        (0 <? length (sc_Blocked cfg) + length (sc_Exceptions cfg) + length (sc_Grey cfg))).

Definition normalizedPolicyHost (host : bytes) : bytes :=
  let host := TrimSpace host in
  if decide (host = []) then []
  else
    let host := match SplitHostPort host with Some (h, _) => h | None => host end in
    let host := TrimPrefix host (str "[") in
    let host := TrimSuffix host (str "]") in
    normalizedDomain host.

Definition has {V} (t : table V) (a : Addr) : bool :=
  match table_Lookup t a with Some _ => true | None => false end.

Definition SiteIPRules_Decision (r : SiteIPRules) (host : bytes) : PolicyDecision :=
  let host := normalizedPolicyHost host in
  if decide (host = []) then noDecision
  else match ParseAddr host with
  | None => noDecision
  | Some addr =>
      if has (si_exceptions r) addr then bypassDecision (str "site_ip_exception") (Addr_String addr)
      else if has (si_grey r) addr then greyDecision (str "site_ip_grey") (Addr_String addr)
      else if has (si_blocked r) addr then blockDecision (str "site_ip") (Addr_String addr)
      else noDecision
  end.

Definition ipPrefixTableMatches (t : table bool) (host : bytes) : bool :=
  match ParseAddr host with None => false | Some addr => has t addr end.

(** ** Files *)

Record FileRulesConfig := MkFileRulesConfig {
  fc_BannedExtensions : list bytes;
  fc_ExceptionExtensions : list bytes;
  fc_BannedMIMEs : list bytes;
  fc_ExceptionMIMEs : list bytes;
  fc_BannedFilenames : list bytes;
  fc_ExceptionFilenames : list bytes;
}.

Record FileRules := MkFileRules {
  fr_bannedExtensions : gset bytes;
  fr_exceptionExtensions : gset bytes;
  fr_bannedMIMEs : gset bytes;
  fr_exceptionMIMEs : gset bytes;
  fr_bannedFilenames : gset bytes;
  fr_exceptionFilenames : gset bytes;
}.

Record fileMatchInput := MkFileMatchInput {
  fi_URL : bytes;
  fi_Filename : bytes;
  fi_ContentType : bytes;
}.

Definition normalizedSet (values : list bytes) (normalize : bytes -> bytes) : gset bytes :=
  list_to_set (filter (fun v => v <> []) (map normalize values)).

Definition normalizeExtensionRule (ext : bytes) : bytes :=
  let ext := TrimSpace (ToLower ext) in
  if decide (ext = []) then []
  else
    let ext := TrimPrefix ext (str "*") in
    if HasPrefix ext (str ".") then ext else str "." ++ ext.

Definition normalizeFilenameRule (filename : bytes) : bytes :=
  let filename := TrimSpace (ToLower filename) in
  if decide (filename = []) then []
  else if decide (filename = str ".") then []
  else if decide (filename = str "/") then []
  else
    let filename := Base (ReplaceByte filename Byte.x5c "/") in
    if decide (filename = str ".") then []
    else if decide (filename = str "/") then []
    else filename.

Definition normalizeMIMEType (value : bytes) : bytes :=
  let value := TrimSpace (ToLower value) in
  if decide (value = []) then []
  else match ParseMediaType value with Some (mediaType, _) => mediaType | None => value end.

Definition mimeSetMatches (set : gset bytes) (value : bytes) : bool :=
  if decide (value ∈ set) then true
  else match Cut value (str "/") with
  | None => false
  | Some (major, _) =>
      if decide (major = []) then false else bool_decide (major ++ str "/*" ∈ set)
  end.

Definition NewFileRules (cfg : FileRulesConfig) : FileRules :=
  MkFileRules
    (normalizedSet (fc_BannedExtensions cfg) normalizeExtensionRule)
    (normalizedSet (fc_ExceptionExtensions cfg) normalizeExtensionRule)
    (normalizedSet (fc_BannedMIMEs cfg) normalizeMIMEType)
    (normalizedSet (fc_ExceptionMIMEs cfg) normalizeMIMEType)
    (normalizedSet (fc_BannedFilenames cfg) normalizeFilenameRule)
    (normalizedSet (fc_ExceptionFilenames cfg) normalizeFilenameRule).

Definition FileRules_Decision (r : FileRules) (inp : fileMatchInput) : PolicyDecision :=
  let filename := normalizeFilenameRule (fi_Filename inp) in
  let ext := normalizeExtensionRule (Ext filename) in
  let mimeType := normalizeMIMEType (fi_ContentType inp) in
  let hit (v : bytes) (set : gset bytes) := bool_decide (v <> []) && bool_decide (v ∈ set) in
  if hit filename (fr_exceptionFilenames r) then noDecision
  else if hit ext (fr_exceptionExtensions r) then noDecision
  else if bool_decide (mimeType <> []) && mimeSetMatches (fr_exceptionMIMEs r) mimeType then noDecision
  else if hit filename (fr_bannedFilenames r) then blockDecision (str "filename") filename
  else if hit ext (fr_bannedExtensions r) then blockDecision (str "extension") ext
  else if bool_decide (mimeType <> []) && mimeSetMatches (fr_bannedMIMEs r) mimeType
  then blockDecision (str "mime") mimeType
  else noDecision.

Definition filenameFromURL (u : option URL) : bytes :=
  match u with
  | None => []
  | Some u =>
      let escaped := EscapedPath u in
      if decide (escaped = []) then []
      else if decide (escaped = str "/") then []
      else normalizeFilenameRule (default escaped (PathUnescape escaped))
  end.

Definition responseFilename (resp : Response) : bytes :=
  let cd := Header_Get (rs_Header resp) (str "Content-Disposition") in
  if decide (cd = []) then []
  else match ParseMediaType cd with
  | None => []
  | Some (_, params) =>
      let param key := default [] (mediaParam params key) in
      if decide (param (str "filename") <> []) then normalizeFilenameRule (param (str "filename"))
      else if decide (param (str "filename*") <> []) then normalizeFilenameRule (param (str "filename*"))
      else []
  end.

End rules.
