(* ===== verification/UrlRules.v ===== *)
(** * URL, logging and referer rules (proxy/policy.go)

    The URL lists and regexes with their six levels of precedence, the URL
    rewrites with the same-host guardrail, redirects, the canonical form of a
    request URL, the logging rules and the referer exceptions. *)

From S2P Require Import Prelude GoStrings GoRegexp GoUrl GoNetip GoMime Http DomainTrie DomainRules Access PolicyRules.

(** A sequence of [for ... { if ... { return d } }] loops: the first that
    returns decides. *)
Fixpoint firstSome {A} (l : list (option A)) : option A :=
  match l with
  | [] => None
  | Some a :: _ => Some a
  | None :: l' => firstSome l'
  end.

Section urls.
Context `{UnicodeTables} `{Regexp} `{PrefixTable}.

(** ** Canonical URLs *)

Definition urlRuleMatches (rawURL rule : bytes) : bool :=
  bool_decide (rawURL = rule) || HasPrefix rawURL rule.

Definition withQuery (s query : bytes) : bytes :=
  if decide (query = []) then s else s ++ str "?" ++ query.

Definition normalizePolicyURL (entry : bytes) : bytes :=
  match Parse entry with
  | Some parsed =>
      if bool_decide (u_Scheme parsed <> []) && bool_decide (u_Host parsed <> [])
      then withQuery (u_Scheme parsed ++ str "://" ++ ToLower (u_Host parsed) ++ EscapedPath parsed)
             (u_RawQuery parsed)
      else entry
  | None => entry
  end.

Definition normalizePolicyURLs (entries : list bytes) : list bytes :=
  map normalizePolicyURL (filter (fun e => e <> []) (map TrimSpace entries)).

Definition defaultPort (scheme port : bytes) : bool :=
  (bool_decide (scheme = str "http") && bool_decide (port = str "80"))
  || (bool_decide (scheme = str "https") && bool_decide (port = str "443")).

Definition canonicalPolicyURL (req : option Request) (fallbackScheme : bytes) : bytes :=
  match req with
  | None => []
  | Some req =>
  match rq_URL req with
  | None => []
  | Some u =>
      let scheme := ToLower (u_Scheme u) in
      let scheme := if decide (scheme = []) then ToLower (TrimSpace fallbackScheme) else scheme in
      let scheme := if decide (scheme = []) then str "http" else scheme in
      let host := if decide (u_Host u = []) then rq_Host req else u_Host u in
      if decide (host = []) then []
      else
        let host := ToLower host in
        let host :=
          match SplitHostPort host with
          | Some (splitHost, port) =>
              let splitHost := ToLower splitHost in
              if defaultPort scheme port then splitHost else JoinHostPort splitHost port
          | None => host
          end in
        let path := EscapedPath u in
        let path := if decide (path = []) then str "/" else path in
        withQuery (scheme ++ str "://" ++ host ++ path) (u_RawQuery u)
  end end.

Definition getHost (rawURL : bytes) : bytes :=
  match Parse rawURL with Some parsed => ToLower (u_Host parsed) | None => [] end.

(** ** URL rules *)

Record URLRulesConfig := MkURLRulesConfig {
  uc_LocalExceptions : list bytes;
  uc_LocalGrey : list bytes;
  uc_LocalBlocked : list bytes;
  uc_Exceptions : list bytes;
  uc_Grey : list bytes;
  uc_Blocked : list bytes;
  uc_BlockRegex : list RegexRule;
  uc_AllowRegex : list RegexRule;
  uc_Rewrites : list RegexRule;
  uc_Redirects : list RegexRule;
}.

Record URLRedirectRule := MkURLRedirectRule {
  rd_Regex : regexp;
  rd_Replace : bytes;
  rd_Status : Z;
}.

Record URLRules := MkURLRules {
  ur_localExceptions : list bytes;
  ur_localGrey : list bytes;
  ur_localBlocked : list bytes;
  ur_exceptions : list bytes;
  ur_grey : list bytes;
  ur_blocked : list bytes;
  ur_blockRegex : list regexp;
  ur_allowRegex : list regexp;
  ur_rewrites : list (regexp * bytes);
  ur_redirects : list URLRedirectRule;
}.

Definition NewURLRules (cfg : URLRulesConfig) : result policyError URLRules :=
  block ← compileRegexes (uc_BlockRegex cfg);
  allow ← compileRegexes (uc_AllowRegex cfg);
  rewrites ← compileRewrites (uc_Rewrites cfg);
  redirects ← compileRewrites (uc_Redirects cfg);
  Ok (MkURLRules
        (normalizePolicyURLs (uc_LocalExceptions cfg))
        (normalizePolicyURLs (uc_LocalGrey cfg))
        (normalizePolicyURLs (uc_LocalBlocked cfg))
        (normalizePolicyURLs (uc_Exceptions cfg))
        (normalizePolicyURLs (uc_Grey cfg))
        (normalizePolicyURLs (uc_Blocked cfg))
        block allow rewrites
        (map (fun '(rx, replace) => MkURLRedirectRule rx replace 302) redirects)).

Definition matchURL (l : list bytes) (rawURL : bytes) : option bytes := find (urlRuleMatches rawURL) l.

Definition URLRules_Decision (r : URLRules) (rawURL : bytes) : PolicyDecision :=
  if decide (rawURL = []) then noDecision
  else
    default noDecision (firstSome [
      bypassDecision (str "url_local_exception") <$> matchURL (ur_localExceptions r) rawURL;
      greyDecision (str "url_local_grey") <$> matchURL (ur_localGrey r) rawURL;
      blockDecision (str "url_local") <$> matchURL (ur_localBlocked r) rawURL;
      bypassDecision (str "url_exception") <$> matchURL (ur_exceptions r) rawURL;
      (bypassDecision (str "url_exception_regex") ∘ regexp_String) <$> firstRegex (ur_allowRegex r) rawURL;
      greyDecision (str "url_grey") <$> matchURL (ur_grey r) rawURL;
      blockDecision (str "url") <$> matchURL (ur_blocked r) rawURL;
      (blockDecision (str "url_regex") ∘ regexp_String) <$> firstRegex (ur_blockRegex r) rawURL ]).

(** One rewrite rule on (currentURL, modified); [rawURL] is the URL of the
    request, whose host every accepted rewrite keeps. *)
Definition rewriteStep (rawURL : bytes) (st : bytes * bool) (rule : regexp * bytes) : bytes * bool :=
  let '(currentURL, modified) := st in
  let '(rx, replace) := rule in
  if regexp_MatchString rx currentURL then
    let newURL := regexp_ReplaceAllString rx currentURL replace in
    if decide (getHost newURL = getHost rawURL) then (newURL, true) else st
  else st.

Definition RewriteURL (r : option URLRules) (rawURL : bytes) : bytes * bool :=
  match r with
  | None => (rawURL, false)
  | Some r => fold_left (rewriteStep rawURL) (ur_rewrites r) (rawURL, false)
  end.

(** The rule's status is not part of the decision. *)
Definition RedirectDecision (r : option URLRules) (rawURL : bytes) : option PolicyDecision :=
  match r with
  | None => None
  | Some r =>
      (fun rule => MkDecision false true (regexp_ReplaceAllString (rd_Regex rule) rawURL (rd_Replace rule))
                     (str "url_redirect") (regexp_String (rd_Regex rule)) false) <$>
        find (fun rule => regexp_MatchString (rd_Regex rule) rawURL) (ur_redirects r)
  end.

(** ** Referer exceptions *)

Record RefererRulesConfig := MkRefererRulesConfig {
  fc_ExceptionSites : list bytes;
  fc_ExceptionSiteIPs : list bytes;
  fc_ExceptionURLs : list bytes;
}.

Record RefererRules := MkRefererRules {
  rf_exceptionSites : domainTrie;
  rf_exceptionSiteIPs : table bool;
  rf_exceptionURLs : list bytes;
}.

Definition NewRefererRules (cfg : RefererRulesConfig) : result policyError RefererRules :=
  t ← prefixes_named (str "refererexceptionsiteiplist") (fc_ExceptionSiteIPs cfg);
  Ok (MkRefererRules (NewDomainMatcher (fc_ExceptionSites cfg)) t
        (normalizePolicyURLs (fc_ExceptionURLs cfg))).

Definition bracketed (host : bytes) : bytes :=
  if Contains host (str ":") then str "[" ++ host ++ str "]" else host.

Definition canonicalRefererURLAndHost (rawReferer : bytes) : bytes * bytes :=
  let rawReferer := TrimSpace rawReferer in
  if decide (rawReferer = []) then ([], [])
  else match Parse rawReferer with
  | None => ([], [])
  | Some parsed =>
      if bool_decide (u_Scheme parsed = []) || bool_decide (u_Host parsed = []) then ([], [])
      else
        let scheme := ToLower (u_Scheme parsed) in
        let host := normalizedPolicyHost (u_Host parsed) in
        if decide (host = []) then ([], [])
        else
          let done host urlHost :=
            (withQuery (scheme ++ str "://" ++ urlHost ++ EscapedPath parsed) (u_RawQuery parsed), host) in
          match SplitHostPort (u_Host parsed) with
          | Some (splitHost, port) =>
              let splitHost := normalizedPolicyHost splitHost in
              if decide (splitHost = []) then ([], [])
              else done splitHost
                     (if defaultPort scheme port then bracketed splitHost else JoinHostPort splitHost port)
          | None => done host (bracketed host)
          end
  end.

Definition RefererRules_Decision (r : RefererRules) (referer : bytes) : PolicyDecision :=
  let '(rawURL, host) := canonicalRefererURLAndHost referer in
  if bool_decide (rawURL = []) || bool_decide (host = []) then noDecision
  else if DomainMatcher_Match (Some (rf_exceptionSites r)) host
  then bypassDecision (str "referer_site_exception") host
  else if ipPrefixTableMatches (rf_exceptionSiteIPs r) host
  then bypassDecision (str "referer_site_ip_exception") host
  else
    default noDecision
      (bypassDecision (str "referer_url_exception") <$> matchURL (rf_exceptionURLs r) rawURL).

End urls.
