(* ===== verification/Policy.v ===== *)
(** * The policy (proxy/policy.go)

    Logging rules, header rewrites and additions, and the [Policy] that asks
    every rule set in turn: [NewPolicy], [EvaluateRequest],
    [EvaluateResponse], [EvaluateResolvedDestinationIP], [EvaluateLogging]. *)

From S2P Require Import Prelude GoStrings GoRegexp GoUrl GoNetip GoMime Http DomainTrie DomainRules Access PolicyRules UrlRules.

Section policy.
Context `{UnicodeTables} `{Regexp} `{PrefixTable}.

(** ** Logging rules *)

Record LogRulesConfig := MkLogRulesConfig {
  lc_LogURLs : list bytes;
  lc_ExceptionLogURLs : list bytes;
  lc_LogSites : list bytes;
  lc_LogSiteIPs : list bytes;
  lc_LogRegexURLs : list RegexRule;
  lc_ExceptionLogRegexURLs : list RegexRule;
  lc_LogRegexSites : list RegexRule;
  lc_ExceptionLogRegexSites : list RegexRule;
  lc_NoLogSites : list bytes;
  lc_NoLogSiteIPs : list bytes;
  lc_NoLogURLs : list bytes;
  lc_NoLogRegexURLs : list RegexRule;
  lc_NoLogExtensions : list bytes;
}.

Record LogRules := MkLogRules {
  lr_logURLs : list bytes;
  lr_exceptionLogURLs : list bytes;
  lr_logSites : domainTrie;
  lr_logSiteIPs : table bool;
  lr_logRegexURLs : list regexp;
  lr_exceptionLogRegexURLs : list regexp;
  lr_logRegexSites : list regexp;
  lr_exceptionLogRegexSites : list regexp;
  lr_noLogSites : domainTrie;
  lr_noLogSiteIPs : table bool;
  lr_noLogURLs : list bytes;
  lr_noLogRegexURLs : list regexp;
  lr_noLogExtensions : gset bytes;
}.

Definition NewLogRules (cfg : LogRulesConfig) : result policyError LogRules :=
  logIPs ← prefixes_named (str "logsiteiplist") (lc_LogSiteIPs cfg);
  noLogIPs ← prefixes_named (str "nologsiteiplist") (lc_NoLogSiteIPs cfg);
  logRx ← compileRegexes (lc_LogRegexURLs cfg);
  excRx ← compileRegexes (lc_ExceptionLogRegexURLs cfg);
  siteRx ← compileRegexes (lc_LogRegexSites cfg);
  excSiteRx ← compileRegexes (lc_ExceptionLogRegexSites cfg);
  noLogRx ← compileRegexes (lc_NoLogRegexURLs cfg);
  Ok (MkLogRules
        (normalizePolicyURLs (lc_LogURLs cfg))
        (normalizePolicyURLs (lc_ExceptionLogURLs cfg))
        (trieOf (lc_LogSites cfg))
        logIPs logRx excRx siteRx excSiteRx
        (trieOf (lc_NoLogSites cfg))
        noLogIPs
        (normalizePolicyURLs (lc_NoLogURLs cfg))
        noLogRx
        (normalizedSet (lc_NoLogExtensions cfg) normalizeExtensionRule)).

Definition requestURLExtension (req : option Request) : bytes :=
  match req with
  | None => []
  | Some req =>
      match rq_URL req with
      | None => []
      | Some u => normalizeExtensionRule (Ext (filenameFromURL (Some u)))
      end
  end.

(** The five results of [EvaluateLogging]. *)
Record logDecision := MkLogDecision {
  shouldLog : bool;
  suppressed : bool;
  ld_matchType : bytes;
  listName : bytes;
  matchVal : bytes;
}.

Definition noLogDecision : logDecision := MkLogDecision false false [] [] [].

Definition logDecisionOf (r : LogRules) (rawURL host ext : bytes) : logDecision :=
  let suppress kind name v := MkLogDecision false true (str kind) (str name) v in
  let log kind name v := MkLogDecision true false (str kind) (str name) v in
  let guardSome (b : bool) {A} (a : A) := if b then Some a else None in
  default noLogDecision (firstSome [
    suppress "url"%string "exceptionlogurllist"%string <$> matchURL (lr_exceptionLogURLs r) rawURL;
    (suppress "url_regex"%string "exceptionlogregexpurllist"%string ∘ regexp_String) <$>
      firstRegex (lr_exceptionLogRegexURLs r) rawURL;
    (suppress "site_regex"%string "exceptionlogregexpsitelist"%string ∘ regexp_String) <$>
      firstRegex (lr_exceptionLogRegexSites r) host;
    guardSome (Match (lr_noLogSites r) host) (suppress "site"%string "nologsitelist"%string host);
    guardSome (ipPrefixTableMatches (lr_noLogSiteIPs r) host)
      (suppress "site_ip"%string "nologsiteiplist"%string host);
    suppress "url"%string "nologurllist"%string <$> matchURL (lr_noLogURLs r) rawURL;
    (suppress "url_regex"%string "nologregexpurllist"%string ∘ regexp_String) <$>
      firstRegex (lr_noLogRegexURLs r) rawURL;
    guardSome (bool_decide (ext <> []) && bool_decide (ext ∈ lr_noLogExtensions r))
      (suppress "extension"%string "nologextensionlist"%string ext);
    guardSome (Match (lr_logSites r) host) (log "site"%string "logsitelist"%string host);
    guardSome (ipPrefixTableMatches (lr_logSiteIPs r) host)
      (log "site_ip"%string "logsiteiplist"%string host);
    log "url"%string "logurllist"%string <$> matchURL (lr_logURLs r) rawURL;
    (log "url_regex"%string "logregexpurllist"%string ∘ regexp_String) <$>
      firstRegex (lr_logRegexURLs r) rawURL;
    (log "site_regex"%string "logregexpsitelist"%string ∘ regexp_String) <$>
      firstRegex (lr_logRegexSites r) host ]).

(** ** Policies *)

Record PolicyConfig := MkPolicyConfig {
  pc_Domains : DomainRulesConfig;
  pc_SiteIPs : SiteIPRulesConfig;
  pc_URLs : URLRulesConfig;
  pc_Files : FileRulesConfig;
  pc_Headers : HeaderRulesConfig;
  pc_Cookies : list bytes * list bytes;
  pc_Log : LogRulesConfig;
  pc_Referer : RefererRulesConfig;
}.

(** Every field is a pointer of the code that a method tests against nil. *)
Record Policy := MkPolicy {
  po_domains : option DomainRules;
  po_siteIPs : option SiteIPRules;
  po_urls : option URLRules;
  po_files : option FileRules;
  po_headers : option HeaderRules;
  po_cookies : option CookieRules;
  po_log : option LogRules;
  po_referer : option RefererRules;
}.

Definition NewPolicy (cfg : PolicyConfig) : result policyError Policy :=
  domains ← NewDomainRulesConfig (pc_Domains cfg);
  siteIPs ← NewSiteIPRules (pc_SiteIPs cfg);
  urls ← NewURLRules (pc_URLs cfg);
  headers ← NewHeaderRules (pc_Headers cfg);
  referer ← NewRefererRules (pc_Referer cfg);
  log ← NewLogRules (pc_Log cfg);
  Ok (MkPolicy (Some domains) (Some siteIPs) (Some urls) (Some (NewFileRules (pc_Files cfg)))
        (Some headers) (Some (NewCookieRules (pc_Cookies cfg).1 (pc_Cookies cfg).2))
        (Some log) (Some referer)).

Definition RequiresResolvedSiteIP (p : option Policy) : bool :=
  match p with
  | Some p => match po_siteIPs p with Some r => si_hasEntries r | None => false end
  | None => false
  end.

Definition EvaluateResolvedDestinationIP (p : option Policy) (host : bytes) : PolicyDecision :=
  match p with
  | Some p => match po_siteIPs p with Some r => SiteIPRules_Decision r host | None => noDecision end
  | None => noDecision
  end.

Definition evaluateDomain (p : option Policy) (host : bytes) : PolicyDecision :=
  match p with
  | Some p =>
      match po_domains p with
      | Some r =>
          let d := DomainRules_Decision r host in
          if Blocked d then d else noDecision
      | None => noDecision
      end
  | None => noDecision
  end.

(** [if d := ...; d.Blocked { return d } else if d.BypassFilters &&
    !finalDecision.BypassFilters { finalDecision = d }]: [Err] is the early
    return. *)
Definition consider (d : option PolicyDecision) (finalDecision : PolicyDecision)
    : result PolicyDecision PolicyDecision :=
  match d with
  | None => Ok finalDecision
  | Some d =>
      if Blocked d then Err d
      else Ok (if BypassFilters d && negb (BypassFilters finalDecision) then d else finalDecision)
  end.

Definition decisionOf (r : result PolicyDecision PolicyDecision) : PolicyDecision :=
  match r with Ok d => d | Err d => d end.

Definition EvaluateRequest (p : option Policy) (host : bytes) (req : option Request)
    (scheme : bytes) : PolicyDecision :=
  match p with
  | None => noDecision
  | Some p =>
      decisionOf (
        final ← consider ((fun r => DomainRules_Decision r host) <$> po_domains p) noDecision;
        final ← consider ((fun r => SiteIPRules_Decision r host) <$> po_siteIPs p) final;
        match req with
        | None => Ok final
        | Some rq =>
            let rawURL := canonicalPolicyURL req scheme in
            final ← consider ((fun r => URLRules_Decision r rawURL) <$> po_urls p) final;
            final ← consider
              ((fun r => FileRules_Decision r (MkFileMatchInput rawURL (filenameFromURL (rq_URL rq)) []))
                 <$> po_files p) final;
            final ← consider ((fun r => HeaderRules_Decision r (rq_Header rq)) <$> po_headers p) final;
            final ← consider
              ((fun r => CookieRules_Decision r (requestCookieValues (rq_Header rq))) <$> po_cookies p) final;
            match po_referer p with
            | Some r =>
                if BypassFilters final then Ok final
                else
                  let d := RefererRules_Decision r (Header_Get (rq_Header rq) (str "Referer")) in
                  Ok (if BypassFilters d then d else final)
            | None => Ok final
            end
        end)
  end.

Definition EvaluateResponse (p : option Policy) (resp : option Response) (scheme : bytes) : PolicyDecision :=
  match p, resp with
  | Some p, Some resp =>
      let filename := responseFilename resp in
      let '(rawURL, filename) :=
        match rs_Request resp with
        | Some rq =>
            (canonicalPolicyURL (Some rq) scheme,
             if decide (filename = []) then filenameFromURL (rq_URL rq) else filename)
        | None => ([], filename)
        end in
      decisionOf (
        final ← consider
          ((fun r => FileRules_Decision r
                       (MkFileMatchInput rawURL filename (Header_Get (rs_Header resp) (str "Content-Type"))))
             <$> po_files p) noDecision;
        final ← consider ((fun r => HeaderRules_Decision r (rs_Header resp)) <$> po_headers p) final;
        consider ((fun r => CookieRules_Decision r (responseCookieValues (rs_Header resp))) <$> po_cookies p) final)
  | _, _ => noDecision
  end.

Definition EvaluateLogging (p : option Policy) (host : bytes) (req : option Request) (scheme : bytes) : logDecision :=
  match p with
  | Some p =>
      match po_log p with
      | Some r =>
          logDecisionOf r (canonicalPolicyURL req scheme) (normalizedPolicyHost host) (requestURLExtension req)
      | None => noLogDecision
      end
  | None => noLogDecision
  end.

(** ** Header rewrites and additions *)

Definition isDangerousRequestFramingHeader (key : bytes) : bool :=
  let canonicalKey := CanonicalHeaderKey key in
  bool_decide (canonicalKey = str "Content-Length")
  || bool_decide (canonicalKey = str "Transfer-Encoding")
  || bool_decide (canonicalKey = str "Host")
  || bool_decide (canonicalKey = str "Connection")
  || bool_decide (canonicalKey = str "Upgrade").

Definition isDangerousResponseFramingHeader (key : bytes) : bool :=
  let canonicalKey := CanonicalHeaderKey key in
  bool_decide (canonicalKey = str "Content-Length")
  || bool_decide (canonicalKey = str "Transfer-Encoding")
  || bool_decide (canonicalKey = str "Connection")
  || bool_decide (canonicalKey = str "Upgrade").

(** The rewrites of one line: (newLine, modified). *)
Definition rewriteLine (rules : list (regexp * bytes)) (line : bytes) (modified : bool) : bytes * bool :=
  fold_left
    (fun '(newLine, modified) '(rx, replace) =>
       if regexp_MatchString rx newLine
       then (regexp_ReplaceAllString rx newLine replace, true)
       else (newLine, modified))
    rules (line, modified).

(** The body of the loops over keys and values: (newHeader, modified). *)
Definition rewriteEntry (isFraming : bytes -> bool) (rules : list (regexp * bytes))
    (st : Header * bool) (entry : bytes * bytes) : Header * bool :=
  let '(newHeader, modified) := st in
  let '(key, val) := entry in
  let line := key ++ str ": " ++ val in
  let '(newLine, modified) := if isFraming key then (line, modified) else rewriteLine rules line modified in
  let newLine := TrimSpace newLine in
  if decide (newLine = []) then (newHeader, true)
  else match Index newLine (str ":") with
  | Some (S _ as idx) =>
      (Header_Add newHeader (TrimSpace (take idx newLine)) (TrimSpace (drop (idx + 1) newLine)), modified)
  | _ => (newHeader, true)
  end.

Definition rewriteHeaders (isFraming : bytes -> bool) (rules : list (regexp * bytes)) (header : Header) : Header :=
  if decide (length rules = 0) then header
  else
    let '(newHeader, modified) :=
      fold_left (rewriteEntry isFraming rules) (headerLines header) ([], false) in
    if modified
    then fold_left (fun h kv => hset h kv.1 kv.2) newHeader (fold_left Header_Del (map fst header) header)
    else header.

Definition RewriteRequestHeaders (p : option Policy) (header : Header) : Header :=
  match p ≫= po_headers with
  | Some r => rewriteHeaders isDangerousRequestFramingHeader (hr_requestRewrites r) header
  | None => header
  end.

Definition RewriteResponseHeaders (p : option Policy) (header : Header) : Header :=
  match p ≫= po_headers with
  | Some r => rewriteHeaders isDangerousResponseFramingHeader (hr_responseRewrites r) header
  | None => header
  end.

Definition addRequestHeader (rawURL : bytes) (header : Header) (rule : HeaderAddRule) : Header :=
  let skipped := match ha_UrlRegex rule with Some rx => negb (regexp_MatchString rx rawURL) | None => false end in
  if skipped then header
  else if decide (Header_Get header (ha_Key rule) = ha_Val rule) then header
  else if isDangerousRequestFramingHeader (ha_Key rule) then header
  else Header_Add header (ha_Key rule) (ha_Val rule).

Definition AddRequestHeaders (p : option Policy) (header : Header) (rawURL : bytes) : Header :=
  match p ≫= po_headers with
  | Some r => fold_left (addRequestHeader rawURL) (hr_requestAdds r) header
  | None => header
  end.

End policy.
