(* ===== verification/PolicyTheorems.v ===== *)
(** * Correctness of the policy

    What the rule lists of a configuration promise, level by level, and that
    the compiled rules and [EvaluateRequest] decide accordingly. *)

From S2P Require Import Prelude GoStrings GoRegexp GoUrl GoNetip GoMime Http DomainTrie DomainRules Access PolicyRules UrlRules Policy.

(** ** Levels of precedence *)

(** [decided d levels v]: the first level whose condition holds gives [v];
    [d] when none does. *)
Inductive decided {A} (d : A) : list (Prop * A) -> A -> Prop :=
| decided_none : decided d [] d
| decided_here (P : Prop) v l : P -> decided d ((P, v) :: l) v
| decided_later (P : Prop) v l w : ~ P -> decided d l w -> decided d ((P, v) :: l) w.

Lemma decided_functional {A} (d : A) l v w : decided d l v -> decided d l w -> v = w.
Proof. induction 1; inversion 1; subst; naive_solver. Qed.

(** An optional result against the condition and the value of its level. *)
Definition level_ok {A B} (f : A -> B) (o : option A) (lvl : Prop * B) : Prop :=
  match o with Some a => lvl.1 /\ f a = lvl.2 | None => ~ lvl.1 end.

Lemma firstSome_decided {A B} (f : A -> B) (d : A) (b : B) opts levels :
  f d = b -> Forall2 (level_ok f) opts levels -> decided b levels (f (default d (firstSome opts))).
Proof.
  intros <-. induction 1 as [|[a|] [P v] opts levels Hl HF IH]; simpl; [constructor| |].
  - destruct Hl as [HP Hv]. simpl in HP, Hv. subst v. by constructor.
  - by constructor.
Qed.

Section policy_spec.
Context `{UnicodeTables} `{Regexp} `{PrefixTable}.

(** ** What the lists promise *)

(** A list names a URL that is the one given or a prefix of it. *)
Definition url_listed (l : list bytes) (rawURL : bytes) : Prop :=
  Exists (fun e => TrimSpace e <> [] /\ normalizePolicyURL (TrimSpace e) `prefix_of` rawURL) l.

Definition url_levels (cfg : URLRulesConfig) (rawURL : bytes) : list (Prop * verdict) :=
  [ (url_listed (uc_LocalExceptions cfg) rawURL, VBypass);
    (url_listed (uc_LocalGrey cfg) rawURL, VGrey);
    (url_listed (uc_LocalBlocked cfg) rawURL, VBlock);
    (url_listed (uc_Exceptions cfg) rawURL, VBypass);
    (regex_hits (uc_AllowRegex cfg) rawURL, VBypass);
    (url_listed (uc_Grey cfg) rawURL, VGrey);
    (url_listed (uc_Blocked cfg) rawURL, VBlock);
    (regex_hits (uc_BlockRegex cfg) rawURL, VBlock) ].

(** Blank entries of an address list name nothing. *)
Definition ip_listed (l : list bytes) (a : Addr) : Prop :=
  covers_addr (filter (fun e => e <> []) (map TrimSpace l)) a.

Definition site_levels (cfg : SiteIPRulesConfig) (a : Addr) : list (Prop * verdict) :=
  [ (ip_listed (sc_Exceptions cfg) a, VBypass);
    (ip_listed (sc_Grey cfg) a, VGrey);
    (ip_listed (sc_Blocked cfg) a, VBlock) ].

(** A text contains one of the phrases, trimmed and lower-cased. *)
Definition phrase_listed (l : list bytes) (s : bytes) : Prop :=
  Exists (fun p => let p := ToLower (TrimSpace p) in p <> [] /\ Contains s p = true) l.

(** A header line that no exception covers has a banned phrase, or matches an
    expression. *)
Definition line_banned (cfg : HeaderRulesConfig) (key value : bytes) : Prop :=
  let line := key ++ str ": " ++ value in
  ~ phrase_listed (hc_Exception cfg) (ToLower line) /\ ~ regex_hits (hc_ExceptionRegex cfg) line /\
  (phrase_listed (hc_Banned cfg) (ToLower line) \/ regex_hits (hc_BlockRegex cfg) line).

Definition headers_banned (cfg : HeaderRulesConfig) (h : Header) : Prop :=
  exists key values value, (key, values) ∈ h /\ value ∈ values /\ line_banned cfg key value.

Definition cookies_banned (banned exception : list bytes) (values : list bytes) : Prop :=
  Exists (fun v => ~ phrase_listed exception (ToLower v) /\ phrase_listed banned (ToLower v)) values.

(** A name is one of the entries of a list, normalised. *)
Definition name_listed (l : list bytes) (normalize : bytes -> bytes) (name : bytes) : Prop :=
  name <> [] /\ Exists (fun e => normalize e = name) l.

(** A media type is listed as such or by its major type. *)
Definition mime_listed (l : list bytes) (mimeType : bytes) : Prop :=
  mimeType <> [] /\
  (name_listed l normalizeMIMEType mimeType \/
   exists major minor, Cut mimeType (str "/") = Some (major, minor) /\ major <> [] /\
                       name_listed l normalizeMIMEType (major ++ str "/*")).

Definition file_levels (cfg : FileRulesConfig) (filename ext mimeType : bytes) : list (Prop * verdict) :=
  [ (name_listed (fc_ExceptionFilenames cfg) normalizeFilenameRule filename \/
     name_listed (fc_ExceptionExtensions cfg) normalizeExtensionRule ext \/
     mime_listed (fc_ExceptionMIMEs cfg) mimeType, VPass);
    (name_listed (fc_BannedFilenames cfg) normalizeFilenameRule filename \/
     name_listed (fc_BannedExtensions cfg) normalizeExtensionRule ext \/
     mime_listed (fc_BannedMIMEs cfg) mimeType, VBlock) ].

(** ** Lemmas *)

Lemma urlRuleMatches_spec rawURL rule : urlRuleMatches rawURL rule = true <-> rule `prefix_of` rawURL.
Proof.
  unfold urlRuleMatches. rewrite orb_true_iff, bool_decide_eq_true, HasPrefix_spec.
  split; [intros [->|]; done|by right].
Qed.

Lemma matchURL_level {A B} (f : A -> B) (g : bytes -> A) (v : B) l rawURL :
  (forall e, f (g e) = v) ->
  level_ok f (g <$> matchURL (normalizePolicyURLs l) rawURL) (url_listed l rawURL, v).
Proof.
  intros Hf. unfold matchURL, normalizePolicyURLs, url_listed.
  destruct (find _ _) as [e|] eqn:E; simpl.
  - split; [|done]. apply find_some in E as [Hin Hm].
    apply list_elem_of_In, list_elem_of_fmap in Hin as (e' & -> & Hin).
    apply list_elem_of_filter in Hin as [Hne Hin]. apply list_elem_of_fmap in Hin as (e0 & -> & Hin).
    apply Exists_exists. exists e0. by rewrite <- urlRuleMatches_spec.
  - rewrite Exists_exists. intros (e & Hin & Hne & Hp).
    apply urlRuleMatches_spec in Hp. rewrite (find_none _ _ E) in Hp; [done|].
    apply list_elem_of_In, list_elem_of_fmap. exists (TrimSpace e). split; [done|].
    apply list_elem_of_filter. split; [done|]. apply list_elem_of_fmap. eauto.
Qed.

Lemma regex_level {A B} (f : A -> B) (g : bytes -> A) (v : B) rules rxs s :
  compileRegexes rules = Ok rxs -> (forall e, f (g e) = v) ->
  level_ok f ((g ∘ regexp_String) <$> firstRegex rxs s) (regex_hits rules s, v).
Proof.
  intros Hc Hf. apply compileRegexes_acc in Hc as (? & -> & HF).
  pose proof (firstRegex_hits _ _ s HF) as Hh. simpl. destruct (firstRegex _ s); simpl.
  - split; [|apply Hf]. apply Hh. eauto.
  - rewrite Hh. by intros [? ?].
Qed.

Lemma insertIPPrefixes_ok l ins t :
  insertIPPrefixes (table_of ins) l = Ok t ->
  t = table_of (ins ++ entry_prefixes (filter (fun e => e <> []) (map TrimSpace l))).
Proof.
  revert ins. unfold insertIPPrefixes. induction l as [|e l IH]; intros ins; simpl.
  { intros [= <-]. by rewrite app_nil_r. }
  rewrite filter_cons. destruct (decide (TrimSpace e = [])) as [He|He]; simpl.
  { rewrite decide_False by tauto. apply IH. }
  rewrite decide_True by done. destruct (parsePrefixOrAddr (TrimSpace e)) as [p|] eqn:E; [|done].
  simpl. rewrite table_of_snoc. intros ->%IH. unfold entry_prefixes. simpl. rewrite E. simpl.
  by rewrite <- app_assoc.
Qed.

Lemma normalizedPhrases_elem l x :
  x ∈ normalizedPhrases l <-> x <> [] /\ Exists (fun p => ToLower (TrimSpace p) = x) l.
Proof.
  unfold normalizedPhrases.
  match goal with |- context [fold_left ?f l []] =>
    assert (forall out, x ∈ fold_left f l out <-> x ∈ out \/ (x <> [] /\ Exists (fun p => ToLower (TrimSpace p) = x) l))
      as Hgen end.
  { induction l as [|p l IH]; intros out; simpl; [rewrite Exists_nil; tauto|].
    rewrite IH, Exists_cons. repeat case_decide; set_solver. }
  rewrite Hgen. set_solver.
Qed.

Lemma phraseListMatches_spec l s :
  phraseListMatches (normalizedPhrases l) s = true <-> phrase_listed l s.
Proof.
  unfold phraseListMatches, firstPhraseMatch, phrase_listed.
  rewrite bool_decide_eq_true, Exists_exists. cbv zeta. split.
  - destruct (find _ _) as [p|] eqn:E; simpl; [|done]. intros Hne.
    apply find_some in E as [Hin Hc]. apply list_elem_of_In, normalizedPhrases_elem in Hin as [_ Hin].
    apply Exists_exists in Hin as (e & He & <-). eauto.
  - intros (e & He & Hne & Hc). destruct (find _ _) as [p|] eqn:E; simpl.
    + apply find_some in E as [Hin _]. by apply list_elem_of_In, normalizedPhrases_elem in Hin as [? _].
    + rewrite (find_none _ _ E) in Hc; [done|]. apply list_elem_of_In, normalizedPhrases_elem.
      split; [done|]. apply Exists_exists. eauto.
Qed.

Lemma firstRegex_regexList rxs s : regexListMatches rxs s = true <-> is_Some (firstRegex rxs s).
Proof.
  unfold regexListMatches, firstRegex. induction rxs as [|rx l IH]; simpl; [split; [done|by intros [? ?]]|].
  destruct (regexp_MatchString rx s); [split; eauto|done].
Qed.

Lemma regexListMatches_spec rules rxs s :
  compileRegexes rules = Ok rxs -> regexListMatches rxs s = true <-> regex_hits rules s.
Proof.
  intros Hc. apply compileRegexes_acc in Hc as (? & -> & HF). rewrite (firstRegex_hits _ _ s HF). simpl. apply firstRegex_regexList.
Qed.

Lemma firstDecision_blocked {A} (f : A -> option PolicyDecision) l :
  (forall x d, f x = Some d -> Blocked d = true) ->
  Blocked (firstDecision f l) = true <-> Exists (fun x => is_Some (f x)) l.
Proof.
  intros Hf. induction l as [|x l IH]; simpl; [rewrite Exists_nil; done|].
  rewrite Exists_cons. destruct (f x) as [d|] eqn:E.
  - rewrite (Hf _ _ E). split; [eauto|done].
  - rewrite IH. split; [by right|intros [[? ?]|]; done].
Qed.

Lemma normalizedSet_elem l f x : x ∈ normalizedSet l f <-> x <> [] /\ Exists (fun e => f e = x) l.
Proof.
  unfold normalizedSet. rewrite elem_of_list_to_set, list_elem_of_filter, Exists_exists.
  rewrite list_elem_of_fmap. naive_solver.
Qed.

Lemma mimeSetMatches_spec l v :
  v <> [] -> mimeSetMatches (normalizedSet l normalizeMIMEType) v = true <-> mime_listed l v.
Proof.
  intros Hne. unfold mimeSetMatches, mime_listed, name_listed. case_decide as Hin.
  - apply normalizedSet_elem in Hin. naive_solver.
  - rewrite normalizedSet_elem in Hin. destruct (Cut v (str "/")) as [[major minor]|] eqn:E.
    + case_decide; [naive_solver|]. rewrite bool_decide_eq_true, normalizedSet_elem. naive_solver.
    + naive_solver.
Qed.

Context `{!PrefixTableLaws}.

Lemma prefixes_named_has name l t a :
  prefixes_named name l = Ok t -> a_zone a = [] -> has t a = true <-> ip_listed l a.
Proof.
  unfold prefixes_named. destruct (insertIPPrefixes table_empty l) eqn:E; [|done]. intros [= <-] Hz.
  apply (insertIPPrefixes_ok _ []) in E. subst. unfold has, ip_listed.
  rewrite entry_prefixes_covers, Lookup_longest by done. simpl.
  destruct (lpm _ _); simpl; split; done.
Qed.

(** ** The rule sets against their levels *)

Lemma site_decided cfg r host a :
  NewSiteIPRules cfg = Ok r -> ParseAddr (normalizedPolicyHost host) = Some a -> a_zone a = [] ->
  decided VPass (site_levels cfg a) (decision_verdict (SiteIPRules_Decision r host)).
Proof.
  unfold NewSiteIPRules. intros Hnew Ha Hz.
  destruct (prefixes_named _ (sc_Blocked cfg)) as [b|] eqn:Eb; [|done].
  destruct (prefixes_named _ (sc_Exceptions cfg)) as [e|] eqn:Ee; [|done].
  destruct (prefixes_named _ (sc_Grey cfg)) as [g|] eqn:Eg; [|done]. injection Hnew as <-.
  unfold SiteIPRules_Decision. destruct (decide (normalizedPolicyHost host = [])) as [E0|]; [by rewrite E0 in Ha|].
  rewrite Ha. cbn [si_exceptions si_grey si_blocked].
  pose proof (prefixes_named_has _ _ _ a Eb Hz) as Hb. pose proof (prefixes_named_has _ _ _ a Ee Hz) as He.
  pose proof (prefixes_named_has _ _ _ a Eg Hz) as Hg. unfold site_levels.
  destruct (has e a); [constructor; by apply He|]. apply decided_later; [by rewrite <- He|].
  destruct (has g a); [constructor; by apply Hg|]. apply decided_later; [by rewrite <- Hg|].
  destruct (has b a); [constructor; by apply Hb|]. apply decided_later; [by rewrite <- Hb|]. constructor.
Qed.

Lemma url_decided cfg r rawURL :
  NewURLRules cfg = Ok r -> rawURL <> [] ->
  decided VPass (url_levels cfg rawURL) (decision_verdict (URLRules_Decision r rawURL)).
Proof.
  unfold NewURLRules. intros Hnew Hne.
  destruct (compileRegexes (uc_BlockRegex cfg)) as [block|] eqn:Eb; [|done].
  destruct (compileRegexes (uc_AllowRegex cfg)) as [allow|] eqn:Ea; [|done].
  destruct (compileRewrites (uc_Rewrites cfg)); [|done].
  destruct (compileRewrites (uc_Redirects cfg)); [|done]. injection Hnew as <-.
  unfold URLRules_Decision. rewrite decide_False by done. apply firstSome_decided; [done|].
  unfold url_levels. cbn [ur_localExceptions ur_localGrey ur_localBlocked ur_exceptions ur_grey ur_blocked
    ur_blockRegex ur_allowRegex].
  repeat (apply Forall2_cons_2; [first [apply matchURL_level; done|eapply regex_level; [eassumption|done]]|]).
  constructor.
Qed.

Lemma file_decided cfg inp :
  decided VPass
    (file_levels cfg (normalizeFilenameRule (fi_Filename inp))
       (normalizeExtensionRule (Ext (normalizeFilenameRule (fi_Filename inp))))
       (normalizeMIMEType (fi_ContentType inp)))
    (decision_verdict (FileRules_Decision (NewFileRules cfg) inp)).
Proof.
  unfold FileRules_Decision, NewFileRules, file_levels. cbv zeta. cbn [fr_bannedExtensions
    fr_exceptionExtensions fr_bannedMIMEs fr_exceptionMIMEs fr_bannedFilenames fr_exceptionFilenames].
  generalize (normalizeFilenameRule (fi_Filename inp)) as f.
  intros f. generalize (normalizeExtensionRule (Ext f)) as e. generalize (normalizeMIMEType (fi_ContentType inp)) as m.
  intros m e.
  assert (Hn : forall l norm v, bool_decide (v <> []) && bool_decide (v ∈ normalizedSet l norm) = true <->
                                name_listed l norm v).
  { intros l norm v. rewrite andb_true_iff, !bool_decide_eq_true, normalizedSet_elem. unfold name_listed. tauto. }
  assert (Hm : forall l, bool_decide (m <> []) && mimeSetMatches (normalizedSet l normalizeMIMEType) m = true <->
                         mime_listed l m).
  { intros l. rewrite andb_true_iff, bool_decide_eq_true. split.
    - intros [Hne Hl]. by apply mimeSetMatches_spec.
    - intros Hl. assert (m <> []) as Hne by by destruct Hl. split; [done|]. by apply mimeSetMatches_spec. }
  repeat match goal with
  | |- context [if ?b then _ else _] =>
      let E := fresh "E" in destruct b eqn:E; [|apply not_true_iff_false in E];
      first [rewrite Hn in E|rewrite Hm in E]
  end; first [apply decided_here; tauto|apply decided_later; [tauto|]; first [apply decided_here; tauto|
    apply decided_later; [tauto|constructor]]].
Qed.

Lemma headerLine_banned cfg r k v :
  hr_banned r = normalizedPhrases (hc_Banned cfg) -> hr_exception r = normalizedPhrases (hc_Exception cfg) ->
  compileRegexes (hc_BlockRegex cfg) = Ok (hr_blockRegex r) ->
  compileRegexes (hc_ExceptionRegex cfg) = Ok (hr_exceptionRegex r) ->
  is_Some (headerLineDecision r k v) <-> line_banned cfg k v.
Proof.
  intros Hb He Ebrx Eerx. unfold headerLineDecision, line_banned. cbv zeta. rewrite Hb, He.
  set (line := k ++ str ": " ++ v).
  rewrite <- !phraseListMatches_spec, <- (regexListMatches_spec _ _ line Ebrx),
    <- (regexListMatches_spec _ _ line Eerx).
  destruct (phraseListMatches (normalizedPhrases (hc_Exception cfg)) _); simpl; [split; [by intros [? ?]|naive_solver]|].
  destruct (regexListMatches (hr_exceptionRegex r) line); simpl; [split; [by intros [? ?]|naive_solver]|].
  unfold phraseListMatches. case_decide as Hp; [split; [|eauto]; intros _; rewrite bool_decide_eq_true; naive_solver|].
  rewrite bool_decide_eq_true, fmap_is_Some, (firstRegex_regexList _ line). unfold firstRegex. naive_solver.
Qed.

Lemma header_blocked_iff cfg r h :
  NewHeaderRules cfg = Ok r -> Blocked (HeaderRules_Decision r h) = true <-> headers_banned cfg h.
Proof.
  unfold NewHeaderRules. intros Hnew.
  destruct (compileRegexes (hc_BlockRegex cfg)) as [block|] eqn:Eb; [|done].
  destruct (compileRegexes (hc_ExceptionRegex cfg)) as [exc|] eqn:Ee; [|done].
  destruct (compileRewrites (hc_RequestRewrites cfg)); [|done].
  destruct (compileRewrites (hc_ResponseRewrites cfg)); [|done].
  simpl in Hnew. destruct (foldM _ (hc_RequestAdds cfg) []); [|done]. injection Hnew as Hr.
  assert (Hline : forall k v, is_Some (headerLineDecision r k v) <-> line_banned cfg k v).
  { intros k v. apply headerLine_banned; by subst r. }
  unfold HeaderRules_Decision. rewrite firstDecision_blocked.
  2:{ intros [k v] d. unfold headerLineDecision. repeat case_match; intros; simplify_option_eq; done. }
  rewrite Exists_exists. unfold headers_banned, headerLines. split.
  - intros ([k v] & Hin & Hs). apply Hline in Hs. apply list_elem_of_In, in_concat in Hin as (lines & Hl & Hin).
    apply in_map_iff in Hl as ([k0 vs] & <- & Hl). apply in_map_iff in Hin as (v0 & [= -> ->] & Hin).
    exists k, vs, v. rewrite !list_elem_of_In. done.
  - intros (k & vs & v & Hin & Hv & Hb). exists (k, v). split; [|by apply Hline].
    apply list_elem_of_In, in_concat. exists (map (pair k) vs). split.
    + apply in_map_iff. exists (k, vs). split; [done|by apply list_elem_of_In].
    + apply in_map_iff. exists v. split; [done|by apply list_elem_of_In].
Qed.

Lemma cookie_blocked_iff banned exception values :
  Blocked (CookieRules_Decision (NewCookieRules banned exception) values) = true <->
  cookies_banned banned exception values.
Proof.
  unfold CookieRules_Decision, NewCookieRules, cookies_banned. cbn [ck_banned ck_exception].
  rewrite firstDecision_blocked.
  2:{ intros v d. cbv zeta. repeat case_match; intros; simplify_option_eq; done. }
  apply Exists_proper; [|done]. intros v. cbv zeta. rewrite <- !phraseListMatches_spec.
  destruct (phraseListMatches (normalizedPhrases exception) _); [split; [by intros [? ?]|naive_solver]|].
  unfold phraseListMatches. rewrite bool_decide_eq_true. case_decide; split; try naive_solver.
Qed.

(** ** Requests *)

Lemma find_app_option {A} (P : A -> bool) l1 l2 :
  find P (l1 ++ l2) = match find P l1 with Some x => Some x | None => find P l2 end.
Proof. induction l1 as [|x l1 IH]; simpl; [done|]. by destruct (P x). Qed.

(** The decisions of the rule sets of a policy, in the order the code asks
    them; a policy without a rule set, or a missing request, skips it. *)
Definition requestDecisions (p : Policy) (host : bytes) (req : option Request) (scheme : bytes)
    : list PolicyDecision :=
  omap id (
    [ (fun r => DomainRules_Decision r host) <$> po_domains p;
      (fun r => SiteIPRules_Decision r host) <$> po_siteIPs p ] ++
    match req with
    | None => []
    | Some rq =>
        let rawURL := canonicalPolicyURL req scheme in
        [ (fun r => URLRules_Decision r rawURL) <$> po_urls p;
          (fun r => FileRules_Decision r (MkFileMatchInput rawURL (filenameFromURL (rq_URL rq)) [])) <$> po_files p;
          (fun r => HeaderRules_Decision r (rq_Header rq)) <$> po_headers p;
          (fun r => CookieRules_Decision r (requestCookieValues (rq_Header rq))) <$> po_cookies p ]
    end).

Definition refererDecision (p : Policy) (req : option Request) : list PolicyDecision :=
  match req, po_referer p with
  | Some rq, Some r => [RefererRules_Decision r (Header_Get (rq_Header rq) (str "Referer"))]
  | _, _ => []
  end.

(** The first blocking decision of the list, else the first bypass of the
    list, else [final]. *)
Lemma consider_fold ds final :
  foldM (fun f d => consider d f) ds final =
  match find Blocked (omap id ds) with
  | Some d => Err d
  | None => Ok (if BypassFilters final then final else default final (find BypassFilters (omap id ds)))
  end.
Proof.
  revert final. induction ds as [|[d|] ds IH]; intros final; simpl.
  - by destruct (BypassFilters final).
  - destruct (Blocked d) eqn:Eb; simpl; [done|]. rewrite IH. destruct (find Blocked _); [done|].
    destruct (BypassFilters d) eqn:Ed, (BypassFilters final) eqn:Ef; simpl; rewrite ?Ed, ?Ef; done.
  - apply IH.
Qed.

Lemma considers_bind o1 o2 o3 o4 o5 o6 (k : PolicyDecision -> result PolicyDecision PolicyDecision) final :
  (final ← consider o1 final; final ← consider o2 final; final ← consider o3 final;
   final ← consider o4 final; final ← consider o5 final; final ← consider o6 final; k final) =
  (final ← foldM (fun f d => consider d f) [o1; o2; o3; o4; o5; o6] final; k final).
Proof.
  simpl. do 6 (match goal with |- context [consider ?o ?f] => destruct (consider o f); simpl; [|done] end).
  done.
Qed.

Lemma EvaluateRequest_consider p host req scheme :
  EvaluateRequest (Some p) host req scheme =
  match find Blocked (requestDecisions p host req scheme) with
  | Some d => d
  | None => default noDecision
              (find BypassFilters (requestDecisions p host req scheme ++ refererDecision p req))
  end.
Proof.
  unfold EvaluateRequest, requestDecisions, refererDecision. destruct req as [rq|].
  - etrans; [apply (f_equal decisionOf), considers_bind|]. rewrite consider_fold.
    cbn [BypassFilters noDecision app]. cbv zeta.
    set (ds := omap id _). destruct (find Blocked ds) as [d|]; [done|].
    rewrite find_app_option. simpl. destruct (po_referer p) as [r|]; [|by destruct (find BypassFilters ds)].
    destruct (find BypassFilters ds) as [d|] eqn:Ed; simpl.
    + apply find_some in Ed as [_ Ed]. by rewrite Ed.
    + by destruct (BypassFilters (RefererRules_Decision _ _)).
  - rewrite !app_nil_r.
    pose proof (consider_fold [(fun r => DomainRules_Decision r host) <$> po_domains p;
      (fun r => SiteIPRules_Decision r host) <$> po_siteIPs p] noDecision) as Hf.
    set (ds := omap id _) in *. destruct (find Blocked ds) as [d|]; simpl in Hf |- *;
      (destruct (consider _ noDecision) as [f|]; simpl in *; [destruct (consider _ f); simpl in *|]); congruence.
Qed.

(** A request that some list of the configuration blocks. *)
Definition request_blocked (cfg : PolicyConfig) (host : bytes) (rq : Request) (scheme : bytes) : Prop :=
  let rawURL := canonicalPolicyURL (Some rq) scheme in
  let filename := normalizeFilenameRule (filenameFromURL (rq_URL rq)) in
  (normalizedDomain host <> [] /\ decides (pc_Domains cfg) (normalizedDomain host) VBlock) \/
  (exists a, ParseAddr (normalizedPolicyHost host) = Some a /\ decided VPass (site_levels (pc_SiteIPs cfg) a) VBlock) \/
  (rawURL <> [] /\ decided VPass (url_levels (pc_URLs cfg) rawURL) VBlock) \/
  decided VPass (file_levels (pc_Files cfg) filename (normalizeExtensionRule (Ext filename)) []) VBlock \/
  headers_banned (pc_Headers cfg) (rq_Header rq) \/
  cookies_banned (pc_Cookies cfg).1 (pc_Cookies cfg).2 (requestCookieValues (rq_Header rq)).

Lemma verdict_block d : Blocked d = true <-> decision_verdict d = VBlock.
Proof. unfold decision_verdict. destruct (Blocked d); [done|]. by repeat case_match. Qed.

Lemma decided_block {levels d} :
  decided VPass levels (decision_verdict d) -> Blocked d = true <-> decided VPass levels VBlock.
Proof.
  intros Hd. rewrite verdict_block. split; [by intros <-|]. by apply decided_functional.
Qed.

Lemma domain_blocked_iff cfg r host :
  NewDomainRulesConfig cfg = Ok r -> cfg_bounded cfg ->
  Blocked (DomainRules_Decision r host) = true <->
  normalizedDomain host <> [] /\ decides cfg (normalizedDomain host) VBlock.
Proof.
  intros Hr Hb. destruct (decide (normalizedDomain host = [])) as [E|Hne].
  - unfold DomainRules_Decision. rewrite decide_True by done. split; [done|]. by intros [? _].
  - pose proof (decision_decides _ _ _ Hr Hb Hne) as Hd. rewrite verdict_block.
    split; [intros <-; done|]. intros [_ Hv]. by eapply decides_functional.
Qed.

Lemma site_blocked_iff cfg r host :
  NewSiteIPRules cfg = Ok r -> (forall a, ParseAddr (normalizedPolicyHost host) = Some a -> a_zone a = []) ->
  Blocked (SiteIPRules_Decision r host) = true <->
  exists a, ParseAddr (normalizedPolicyHost host) = Some a /\ decided VPass (site_levels cfg a) VBlock.
Proof.
  intros Hr Hz. destruct (ParseAddr (normalizedPolicyHost host)) as [a|] eqn:Ea.
  - rewrite (decided_block (site_decided _ _ _ _ Hr Ea (Hz _ eq_refl))). naive_solver.
  - unfold SiteIPRules_Decision. rewrite Ea. case_decide; naive_solver.
Qed.

Lemma url_blocked_iff cfg r rawURL :
  NewURLRules cfg = Ok r ->
  Blocked (URLRules_Decision r rawURL) = true <-> rawURL <> [] /\ decided VPass (url_levels cfg rawURL) VBlock.
Proof.
  intros Hr. destruct (decide (rawURL = [])) as [->|Hne]; [naive_solver|].
  rewrite (decided_block (url_decided _ _ _ Hr Hne)). tauto.
Qed.

Lemma referer_never_blocks r referer : Blocked (RefererRules_Decision r referer) = false.
Proof.
  unfold RefererRules_Decision. destruct (canonicalRefererURLAndHost referer) as [rawURL host].
  destruct (_ || _); [done|]. destruct (DomainMatcher_Match _ _); [done|].
  destruct (ipPrefixTableMatches _ _); [done|]. by destruct (matchURL _ _).
Qed.

Lemma EvaluateRequest_blocked p host req scheme :
  Blocked (EvaluateRequest (Some p) host req scheme) = true <->
  Exists (fun d => Blocked d = true) (requestDecisions p host req scheme).
Proof.
  rewrite EvaluateRequest_consider. split.
  - destruct (find Blocked _) as [d|] eqn:E.
    + intros Hd. apply find_some in E as [Hin _]. apply Exists_exists. exists d. by rewrite list_elem_of_In.
    + unfold refererDecision. rewrite find_app_option. destruct (find BypassFilters _) as [d|] eqn:Eb; simpl.
      * apply find_some in Eb as [Hin _]. apply list_elem_of_In in Hin.
        rewrite (find_none_elim _ _ d E Hin). done.
      * destruct req as [rq|], (po_referer p) as [r|]; simpl; try done.
        destruct (BypassFilters _) eqn:Er; simpl; [|done]. by rewrite referer_never_blocks.
  - intros (d & Hin & Hd)%Exists_exists. destruct (find Blocked _) as [d'|] eqn:E.
    + by apply find_some in E as [_ ?].
    + by rewrite (find_none_elim _ _ d E Hin) in Hd.
Qed.

Lemma NewPolicy_inv cfg p :
  NewPolicy cfg = Ok p ->
  exists dr sr ur hr rr lr,
    NewDomainRulesConfig (pc_Domains cfg) = Ok dr /\ NewSiteIPRules (pc_SiteIPs cfg) = Ok sr /\
    NewURLRules (pc_URLs cfg) = Ok ur /\ NewHeaderRules (pc_Headers cfg) = Ok hr /\
    p = MkPolicy (Some dr) (Some sr) (Some ur) (Some (NewFileRules (pc_Files cfg))) (Some hr)
          (Some (NewCookieRules (pc_Cookies cfg).1 (pc_Cookies cfg).2)) (Some lr) (Some rr).
Proof.
  unfold NewPolicy. intros Hnew.
  destruct (NewDomainRulesConfig (pc_Domains cfg)) as [dr|] eqn:Ed; [|done].
  destruct (NewSiteIPRules (pc_SiteIPs cfg)) as [sr|] eqn:Es; [|done].
  destruct (NewURLRules (pc_URLs cfg)) as [ur|] eqn:Eu; [|done].
  destruct (NewHeaderRules (pc_Headers cfg)) as [hr|] eqn:Eh; [|done].
  simpl in Hnew. destruct (NewRefererRules (pc_Referer cfg)) as [rr|] eqn:Er; [|done].
  simpl in Hnew. destruct (NewLogRules (pc_Log cfg)) as [lr|] eqn:El; [|done]. injection Hnew as <-.
  eauto 20.
Qed.

(** C5.  End to end: a request is refused exactly when one of the lists of
    the configuration covers it and no list of higher precedence of the same
    kind exempts it: the domain lists, the address lists of the site, the URL
    lists, the file names and extensions, the header phrases, the cookie
    phrases. *)
Theorem policy_blocks cfg p host rq scheme :
  NewPolicy cfg = Ok p -> cfg_bounded (pc_Domains cfg) ->
  (forall a, ParseAddr (normalizedPolicyHost host) = Some a -> a_zone a = []) ->
  Blocked (EvaluateRequest (Some p) host (Some rq) scheme) = true <-> request_blocked cfg host rq scheme.
Proof.
  intros (dr & sr & ur & hr & rr & lr & Ed & Es & Eu & Eh & ->)%NewPolicy_inv Hb Hz.
  rewrite EvaluateRequest_blocked. unfold requestDecisions, request_blocked. cbn -[NewFileRules NewCookieRules
    DomainRules_Decision SiteIPRules_Decision URLRules_Decision FileRules_Decision canonicalPolicyURL
    HeaderRules_Decision CookieRules_Decision].
  rewrite !Exists_cons, Exists_nil.
  rewrite (domain_blocked_iff _ _ _ Ed Hb), (site_blocked_iff _ _ _ Es Hz), (url_blocked_iff _ _ _ Eu),
    (decided_block (file_decided _ _)), (header_blocked_iff _ _ _ Eh), cookie_blocked_iff.
  cbn [fi_Filename fi_ContentType]. tauto.
Qed.

(** The name a response is judged by: the one of its Content-Disposition,
    else the last element of the path of its request. *)
Definition response_name (resp : Response) : bytes :=
  if decide (responseFilename resp = []) then
    match rs_Request resp with Some rq => filenameFromURL (rq_URL rq) | None => [] end
  else responseFilename resp.

Definition response_blocked (cfg : PolicyConfig) (resp : Response) : Prop :=
  let filename := normalizeFilenameRule (response_name resp) in
  decided VPass (file_levels (pc_Files cfg) filename (normalizeExtensionRule (Ext filename))
                   (normalizeMIMEType (Header_Get (rs_Header resp) (str "Content-Type")))) VBlock \/
  headers_banned (pc_Headers cfg) (rs_Header resp) \/
  cookies_banned (pc_Cookies cfg).1 (pc_Cookies cfg).2 (responseCookieValues (rs_Header resp)).

Lemma considers3_blocked o1 o2 o3 :
  Blocked (decisionOf (final ← consider o1 noDecision; final ← consider o2 final; consider o3 final)) = true <->
  Exists (fun d => Blocked d = true) (omap id [o1; o2; o3]).
Proof.
  transitivity (Blocked (decisionOf (foldM (fun f d => consider d f) [o1; o2; o3] noDecision)) = true).
  { simpl. do 3 (match goal with |- context [consider ?o ?f] => destruct (consider o f); simpl; [|done] end). done. }
  rewrite consider_fold. set (ds := omap id _). rewrite Exists_exists. split.
  - destruct (find Blocked ds) as [d|] eqn:E; simpl.
    + intros _. apply find_some in E as [Hin Hd]. apply list_elem_of_In in Hin. eauto.
    + destruct (find BypassFilters ds) as [d|] eqn:Eb; simpl; [|done].
      apply find_some in Eb as [Hin _]. apply list_elem_of_In in Hin. by rewrite (find_none_elim _ _ d E Hin).
  - intros (d & Hin & Hd). destruct (find Blocked ds) as [d'|] eqn:E; simpl.
    + by apply find_some in E as [_ ?].
    + by rewrite (find_none_elim _ _ d E Hin) in Hd.
Qed.

(** C20.  A response is refused exactly when the file lists ban its name,
    its extension or its media type and no file exception covers it, or one
    of its header lines is banned, or one of the cookies it sets. *)
Theorem policy_blocks_response cfg p resp scheme :
  NewPolicy cfg = Ok p ->
  Blocked (EvaluateResponse (Some p) (Some resp) scheme) = true <-> response_blocked cfg resp.
Proof.
  intros (dr & sr & ur & hr & rr & lr & Ed & Es & Eu & Eh & ->)%NewPolicy_inv.
  unfold EvaluateResponse, response_blocked. cbv zeta.
  match goal with |- context [let '(_, _) := ?m in _] => destruct m as [rawURL filename] eqn:Ef end.
  assert (filename = response_name resp) as ->.
  { unfold response_name. destruct (rs_Request resp); injection Ef as _ <-; by case_decide. }
  rewrite considers3_blocked. cbn [po_files po_headers po_cookies omap list_omap fmap option_fmap option_map id].
  rewrite !Exists_cons, Exists_nil, (decided_block (file_decided _ _)), (header_blocked_iff _ _ _ Eh), cookie_blocked_iff.
  cbn [fi_Filename fi_ContentType]. tauto.
Qed.

(** The rule sets decide in order: the answer is the first decision
    that blocks; when none does, the first that exempts the request from the
    content filters, the referer being asked last; so an exemption never
    hides a block of a later rule set. *)
Theorem policy_order p host req scheme :
  EvaluateRequest (Some p) host req scheme =
  match find Blocked (requestDecisions p host req scheme) with
  | Some d => d
  | None => default noDecision
              (find BypassFilters (requestDecisions p host req scheme ++ refererDecision p req))
  end.
Proof. apply EvaluateRequest_consider. Qed.

(** URL rules decide by the first level that lists the URL: local
    exception, local grey, local ban, exception, exception by expression,
    grey, ban, ban by expression. *)
Theorem url_precedence cfg r rawURL v :
  NewURLRules cfg = Ok r -> rawURL <> [] ->
  decision_verdict (URLRules_Decision r rawURL) = v <-> decided VPass (url_levels cfg rawURL) v.
Proof.
  intros Hr Hne. pose proof (url_decided _ _ _ Hr Hne) as Hd.
  split; [by intros <-|]. by apply decided_functional.
Qed.

(** File rules: an exception by name, by extension or by media type
    (a whole major type included) passes the file; otherwise a ban by any of
    the three blocks it. *)
Theorem file_precedence cfg inp v :
  decision_verdict (FileRules_Decision (NewFileRules cfg) inp) = v <->
  let filename := normalizeFilenameRule (fi_Filename inp) in
  decided VPass (file_levels cfg filename (normalizeExtensionRule (Ext filename))
                   (normalizeMIMEType (fi_ContentType inp))) v.
Proof.
  pose proof (file_decided cfg inp) as Hd. cbv zeta. split; [by intros <-|]. by apply decided_functional.
Qed.

(** Header rules block a message exactly when some line of it is
    banned and not excepted, so the order in which the map of headers is
    traversed does not matter. *)
Theorem header_rules_correct cfg r h h' :
  NewHeaderRules cfg = Ok r -> h ≡ₚ h' ->
  (Blocked (HeaderRules_Decision r h) = true <-> headers_banned cfg h) /\
  Blocked (HeaderRules_Decision r h) = Blocked (HeaderRules_Decision r h').
Proof.
  intros Hr Hp. split; [by apply header_blocked_iff|]. apply eq_true_iff_eq.
  rewrite !(header_blocked_iff _ _ _ Hr). unfold headers_banned. by setoid_rewrite Hp.
Qed.

End policy_spec.

(** ** Witnesses *)

(** A small configuration: a banned domain with an excepted host, a banned
    network, a banned URL, banned extension, header and cookie. *)
Definition sample_cfg : PolicyConfig :=
  MkPolicyConfig
    (MkDomainRulesConfig [] [] [] [str "ok.bad.org"] [] [str "bad.org"] [] [] [] [])
    (MkSiteIPRulesConfig [str "10.0.0.0/8"] [str "10.1.2.3"] [])
    (MkURLRulesConfig [] [] [] [] [] [str "http://news.org/ads"] [] [] [] [])
    (MkFileRulesConfig [str "exe"] [] [] [] [] [])
    (MkHeaderRulesConfig [str "X-Spy"] [] [] [] [] [] [])
    ([str "track="], [])
    (MkLogRulesConfig [] [] [] [] [] [] [] [] [] [] [] [] [])
    (MkRefererRulesConfig [] [] []).

Definition sample_request (path : bytes) : Request :=
  MkRequest (str "GET") (Some (MkURL [] [] [] path [] false [])) [(str "Accept", [str "*/*"])]
    (str "news.org") 0 [] false false.

Lemma policy_blocks_witness :
  exists p, @NewPolicy ascii_tables literal_regexp list_table sample_cfg = Ok p /\
    (Blocked (@EvaluateRequest ascii_tables literal_regexp list_table (Some p) (str "news.org")
                (Some (sample_request (str "/setup.EXE"))) (str "http")) = true <->
     @request_blocked ascii_tables literal_regexp sample_cfg (str "news.org")
       (sample_request (str "/setup.EXE")) (str "http")).
Proof.
  destruct (@NewPolicy ascii_tables literal_regexp list_table sample_cfg) as [p|e] eqn:E;
    [|exfalso; revert E; apply is_ok_not_Err; vm_compute; reflexivity].
  exists p. split; [done|].
  apply (@policy_blocks ascii_tables literal_regexp list_table list_table_laws).
  - exact E.
  - repeat constructor; vm_compute; discriminate.
  - intros a Ha. vm_compute in Ha. discriminate.
Defined.

Lemma url_precedence_witness :
  let cfg := pc_URLs sample_cfg in
  exists r, @NewURLRules ascii_tables literal_regexp cfg = Ok r /\
    (decision_verdict (@URLRules_Decision literal_regexp r (str "http://news.org/ads/1")) = VBlock <->
     decided VPass (@url_levels ascii_tables literal_regexp cfg (str "http://news.org/ads/1")) VBlock).
Proof.
  cbv zeta. destruct (@NewURLRules ascii_tables literal_regexp _) as [r|e] eqn:E;
    [|exfalso; revert E; apply is_ok_not_Err; vm_compute; reflexivity].
  exists r. split; [done|].
  apply (@url_precedence ascii_tables literal_regexp); [exact E|discriminate].
Defined.

Lemma header_rules_correct_witness :
  let h := [(str "Accept", [str "*/*"]); (str "X-Spy-Id", [str "1"; str "2"])] in
  exists r, @NewHeaderRules ascii_tables literal_regexp (pc_Headers sample_cfg) = Ok r /\
    (Blocked (@HeaderRules_Decision ascii_tables literal_regexp r h) = true <->
     @headers_banned ascii_tables literal_regexp (pc_Headers sample_cfg) h) /\
    Blocked (@HeaderRules_Decision ascii_tables literal_regexp r h) =
    Blocked (@HeaderRules_Decision ascii_tables literal_regexp r (rev h)).
Proof.
  cbv zeta. destruct (@NewHeaderRules ascii_tables literal_regexp _) as [r|e] eqn:E;
    [|exfalso; revert E; apply is_ok_not_Err; vm_compute; reflexivity].
  exists r. split; [done|].
  apply (@header_rules_correct ascii_tables literal_regexp); [exact E|]. apply Permutation_rev.
Defined.

Lemma policy_blocks_response_witness :
  let resp := MkResponse (str "200 OK") 200
                [(str "Content-Disposition", [str "attachment; filename=run.exe"])] 10 [] false true None in
  exists p, @NewPolicy ascii_tables literal_regexp list_table sample_cfg = Ok p /\
    (Blocked (@EvaluateResponse ascii_tables literal_regexp list_table (Some p) (Some resp) (str "http")) = true <->
     @response_blocked ascii_tables literal_regexp sample_cfg resp).
Proof.
  cbv zeta. destruct (@NewPolicy ascii_tables literal_regexp list_table sample_cfg) as [p|e] eqn:E;
    [|exfalso; revert E; apply is_ok_not_Err; vm_compute; reflexivity].
  exists p. split; [done|].
  apply (@policy_blocks_response ascii_tables literal_regexp list_table). exact E.
Defined.
