(* ===== verification/PolicyEffects.v ===== *)
(** * Correctness of canonical URLs, rewrites and logging

    Requests that name the same resource have one canonical URL; URL rewrites
    stay on the host; added headers never touch the framing of the message;
    the logging lists decide in order. *)

From S2P Require Import Prelude GoStrings GoRegexp GoUrl GoNetip GoMime Http DomainTrie DomainRules Access PolicyRules UrlRules Policy PolicyTheorems.

(** ** Host names *)

(** The bytes of a host name that is not an IPv6 literal. *)
Definition hostByte (c : byte) : bool := ascii_byte c && negb (oneOf c (str ":[]")).

Lemma lowerASCII_idem c : lowerASCII (lowerASCII c) = lowerASCII c.
Proof. by destruct c. Qed.

Lemma lowerASCII_hostByte c : hostByte c = true -> hostByte (lowerASCII c) = true.
Proof. by destruct c. Qed.

Lemma hostByte_ascii c : hostByte c = true -> ascii_byte c = true.
Proof. unfold hostByte. by intros [? _]%andb_true_iff. Qed.

Lemma ascii_lower c : ascii_byte c = true -> ascii_byte (lowerASCII c) = true.
Proof. by destruct c. Qed.

Lemma forallb_impl {A} (P Q : A -> bool) l :
  (forall x, P x = true -> Q x = true) -> forallb P l = true -> forallb Q l = true.
Proof. rewrite !forallb_forall. eauto. Qed.

Lemma hostByte_notin c s : forallb hostByte s = true -> oneOf c (str ":[]") = true -> c ∉ s.
Proof.
  rewrite forallb_forall. intros Hs Hc Hin%list_elem_of_In. specialize (Hs _ Hin).
  unfold hostByte in Hs. rewrite Hc in Hs. by rewrite andb_false_r in Hs.
Qed.

Lemma ToLower_host `{UnicodeTables} s :
  forallb hostByte s = true -> ToLower s = map lowerASCII s /\ forallb hostByte (ToLower s) = true /\
  ToLower (ToLower s) = ToLower s.
Proof.
  intros Hs. assert (Hlow : ToLower s = map lowerASCII s).
  { unfold ToLower. by rewrite (forallb_impl _ _ _ hostByte_ascii Hs). }
  assert (Hh : forallb hostByte (ToLower s) = true).
  { rewrite Hlow. rewrite forallb_forall in Hs |- *. intros c (d & <- & Hd)%in_map_iff.
    by apply lowerASCII_hostByte, Hs. }
  split_and!; [done|done|]. unfold ToLower at 1. rewrite (forallb_impl _ _ _ hostByte_ascii Hh).
  rewrite Hlow, map_map. apply map_ext. apply lowerASCII_idem.
Qed.

(** ** Canonical URLs *)

Section effects.
Context `{UnicodeTables} `{Regexp} `{PrefixTable}.

Definition with_Host (rq : Request) (host : bytes) : Request :=
  MkRequest (Method rq) (rq_URL rq) (rq_Header rq) host (rq_ContentLength rq)
    (rq_TransferEncoding rq) (rq_Close rq) (rq_HasBody rq).

(** A request that spells its host in other letter case or adds the
    port of its scheme has the same canonical URL, so it meets the same URL
    rules. *)
Theorem canonical_default_port rq u scheme host host' port :
  rq_URL rq = Some u -> u_Scheme u = [] -> u_Host u = [] -> host <> [] ->
  forallb hostByte host = true -> forallb hostByte host' = true -> ToLower host = ToLower host' ->
  defaultPort (ToLower (TrimSpace scheme)) port = true ->
  canonicalPolicyURL (Some (with_Host rq (host' ++ str ":" ++ port))) scheme =
  canonicalPolicyURL (Some (with_Host rq host)) scheme.
Proof.
  intros Hu Hs Hh Hne Hb Hb' Hlow Hport.
  destruct (ToLower_host _ Hb) as (El & Hlb & Hidem), (ToLower_host _ Hb') as (El' & Hlb' & Hidem').
  assert (Hp : ToLower (TrimSpace scheme) = str "http" /\ port = str "80" \/
               ToLower (TrimSpace scheme) = str "https" /\ port = str "443").
  { unfold defaultPort in Hport. apply orb_true_iff in Hport.
    destruct Hport as [Hport|Hport]; apply andb_true_iff in Hport as [?%bool_decide_eq_true ?%bool_decide_eq_true]; auto. }
  assert (Happ : ToLower (host' ++ str ":" ++ port) = ToLower host' ++ str ":" ++ port).
  { unfold ToLower at 1. rewrite forallb_app, (forallb_impl _ _ _ hostByte_ascii Hb').
    destruct Hp as [[_ ->]|[_ ->]]; simpl; by rewrite map_app, <- El'. }
  assert (Hsplit : SplitHostPort (ToLower host' ++ str ":" ++ port) = Some (ToLower host', port)).
  { apply SplitHostPort_colon; rewrite not_elem_of_app; (split; [by apply hostByte_notin|]);
      destruct Hp as [[_ ->]|[_ ->]]; apply (bool_decide_eq_true_1 (_ ∉ _)); reflexivity. }
  unfold canonicalPolicyURL. cbn [with_Host rq_URL rq_Host]. rewrite Hu, Hs, Hh. cbv zeta.
  rewrite (decide_True (P := ToLower [] = [])) by done. rewrite !(decide_True (P := ([] : bytes) = [])) by done.
  rewrite (decide_False (P := ToLower (TrimSpace scheme) = [])) by (destruct Hp as [[-> _]|[-> _]]; done).
  rewrite !(decide_False (P := _ ++ _ = [])) by (by destruct host').
  rewrite (decide_False (P := host = [])) by done.
  rewrite Happ, Hsplit, Hport, Hidem', (SplitHostPort_no_colon (ToLower host)) by by apply hostByte_notin.
  by rewrite Hlow.
Qed.

(** ** Rewrites and additions *)

Lemma rewriteStep_host rawURL st rule :
  getHost st.1 = getHost rawURL -> getHost (rewriteStep rawURL st rule).1 = getHost rawURL.
Proof.
  destruct st as [cur m], rule as [rx rep]. cbn. intros Hh. destruct (regexp_MatchString rx cur); [|done].
  by case_decide.
Qed.

(** Whatever the rewrite rules are, the rewritten URL of a request is on
    the host of the request; and when no rewrite was accepted it is the URL
    itself. *)
Theorem rewrite_same_host r rawURL :
  getHost (RewriteURL r rawURL).1 = getHost rawURL /\
  ((RewriteURL r rawURL).2 = false -> (RewriteURL r rawURL).1 = rawURL).
Proof.
  destruct r as [r|]; [|done]. cbn [RewriteURL].
  assert (Hgen : forall rules st, getHost st.1 = getHost rawURL -> (st.2 = false -> st.1 = rawURL) ->
    getHost (fold_left (rewriteStep rawURL) rules st).1 = getHost rawURL /\
    ((fold_left (rewriteStep rawURL) rules st).2 = false -> (fold_left (rewriteStep rawURL) rules st).1 = rawURL)).
  { induction rules as [|rule rules IH]; intros st Hh Hm; simpl; [done|].
    apply IH; [by apply rewriteStep_host|]. destruct st as [cur m], rule as [rx rep]. cbn in *.
    destruct (regexp_MatchString rx cur); [|done]. by case_decide. }
  by apply Hgen.
Qed.

Definition addApplies (rule : HeaderAddRule) (rawURL : bytes) : bool :=
  match ha_UrlRegex rule with Some rx => regexp_MatchString rx rawURL | None => true end.

Lemma addRequestHeader_values rawURL h rule key :
  Header_Values h key `prefix_of` Header_Values (addRequestHeader rawURL h rule) key /\
  (isDangerousRequestFramingHeader key = true ->
   Header_Values (addRequestHeader rawURL h rule) key = Header_Values h key).
Proof.
  unfold addRequestHeader. cbv zeta.
  destruct (match ha_UrlRegex rule with Some _ => _ | None => _ end); [done|].
  case_decide; [done|]. destruct (isDangerousRequestFramingHeader (ha_Key rule)) eqn:Ed; [done|].
  rewrite Header_Values_Add. case_decide as Hk; [|done].
  split; [by apply prefix_app_r|]. intros Hd. exfalso. revert Ed Hd.
  unfold isDangerousRequestFramingHeader. rewrite Hk. congruence.
Qed.

Lemma addRequestHeader_adds rawURL h rule :
  addApplies rule rawURL = true -> isDangerousRequestFramingHeader (ha_Key rule) = false -> ha_Val rule <> [] ->
  ha_Val rule ∈ Header_Values (addRequestHeader rawURL h rule) (ha_Key rule).
Proof.
  intros Ha Hd Hv. unfold addRequestHeader, addApplies in *. cbv zeta.
  replace (match ha_UrlRegex rule with Some rx => negb (regexp_MatchString rx rawURL) | None => false end)
    with false by (by destruct (ha_UrlRegex rule); [rewrite Ha|]).
  rewrite Hd. case_decide as Hg.
  - unfold Header_Get in Hg. destruct (Header_Values h (ha_Key rule)); [congruence|]. subst. set_solver.
  - rewrite Header_Values_Add, decide_True by done. set_solver.
Qed.

(** Adding configured headers to a request keeps every value it has,
    leaves its framing headers (Content-Length, Transfer-Encoding, Host,
    Connection, Upgrade) as they are, and every rule whose expression matches
    the URL and whose header is not a framing one is present afterwards. *)
Theorem add_headers_safe p r h rawURL :
  po_headers p = Some r ->
  (forall key, Header_Values h key `prefix_of` Header_Values (AddRequestHeaders (Some p) h rawURL) key) /\
  (forall key, isDangerousRequestFramingHeader key = true ->
     Header_Values (AddRequestHeaders (Some p) h rawURL) key = Header_Values h key) /\
  (forall rule, rule ∈ hr_requestAdds r -> addApplies rule rawURL = true ->
     isDangerousRequestFramingHeader (ha_Key rule) = false -> ha_Val rule <> [] ->
     ha_Val rule ∈ Header_Values (AddRequestHeaders (Some p) h rawURL) (ha_Key rule)).
Proof.
  intros Hr. unfold AddRequestHeaders. simpl. rewrite Hr. generalize (hr_requestAdds r) as rules. clear Hr.
  intros rules. revert h. induction rules as [|rule rules IH]; intros h; simpl; [set_solver|].
  destruct (IH (addRequestHeader rawURL h rule)) as (IHp & IHf & IHa). split_and!.
  - intros key. etrans; [apply addRequestHeader_values|apply IHp].
  - intros key Hk. rewrite IHf by done. by apply addRequestHeader_values.
  - intros rule' [->|Hin]%elem_of_cons Ha Hd Hv; [|by apply IHa].
    destruct (IHp (ha_Key rule)) as [l ->]. apply elem_of_app. left. by apply addRequestHeader_adds.
Qed.

(** ** Logging *)

Inductive logVerdict := LogNothing | LogWrite | LogSuppress.

Definition log_verdict (d : logDecision) : logVerdict :=
  if suppressed d then LogSuppress else if shouldLog d then LogWrite else LogNothing.

Definition host_ip_listed (l : list bytes) (host : bytes) : Prop :=
  exists a, ParseAddr host = Some a /\ ip_listed l a.

Definition log_levels (cfg : LogRulesConfig) (rawURL host ext : bytes) : list (Prop * logVerdict) :=
  [ (url_listed (lc_ExceptionLogURLs cfg) rawURL, LogSuppress);
    (regex_hits (lc_ExceptionLogRegexURLs cfg) rawURL, LogSuppress);
    (regex_hits (lc_ExceptionLogRegexSites cfg) host, LogSuppress);
    (spec.Match (lc_NoLogSites cfg) host, LogSuppress);
    (host_ip_listed (lc_NoLogSiteIPs cfg) host, LogSuppress);
    (url_listed (lc_NoLogURLs cfg) rawURL, LogSuppress);
    (regex_hits (lc_NoLogRegexURLs cfg) rawURL, LogSuppress);
    (name_listed (lc_NoLogExtensions cfg) normalizeExtensionRule ext, LogSuppress);
    (spec.Match (lc_LogSites cfg) host, LogWrite);
    (host_ip_listed (lc_LogSiteIPs cfg) host, LogWrite);
    (url_listed (lc_LogURLs cfg) rawURL, LogWrite);
    (regex_hits (lc_LogRegexURLs cfg) rawURL, LogWrite);
    (regex_hits (lc_LogRegexSites cfg) host, LogWrite) ].

Lemma guard_level {A B} (f : A -> B) (P : Prop) (b : bool) (a : A) (v : B) :
  (b = true <-> P) -> f a = v -> level_ok f (if b then Some a else None) (P, v).
Proof. intros HP Hf. destruct b; simpl; [split; [by apply HP|done]|]. rewrite <- HP. done. Qed.

Context `{!PrefixTableLaws}.

Lemma ipPrefixTableMatches_spec name l t host :
  prefixes_named name l = Ok t -> (forall a, ParseAddr host = Some a -> a_zone a = []) ->
  ipPrefixTableMatches t host = true <-> host_ip_listed l host.
Proof.
  intros Ht Hz. unfold ipPrefixTableMatches, host_ip_listed. destruct (ParseAddr host) as [a|] eqn:Ea.
  - rewrite (prefixes_named_has _ _ _ a Ht (Hz a eq_refl)). naive_solver.
  - naive_solver.
Qed.


End effects.

(** ** Witnesses *)

Lemma canonical_default_port_witness :
  @canonicalPolicyURL ascii_tables
    (Some (with_Host (sample_request (str "/a")) (str "News.ORG" ++ str ":" ++ str "80"))) (str "HTTP") =
  @canonicalPolicyURL ascii_tables (Some (with_Host (sample_request (str "/a")) (str "news.org"))) (str "HTTP").
Proof.
  apply (@canonical_default_port ascii_tables (sample_request (str "/a")) (MkURL [] [] [] (str "/a") [] false []));
    solve [reflexivity|discriminate].
Defined.

(** A policy whose only rule set is the header rules. *)
Definition header_policy (rewrites : list (bytes * bytes)) (adds : list (@HeaderAddRule literal_regexp))
    : @Policy literal_regexp list_table :=
  @MkPolicy literal_regexp list_table None None None None
    (Some (@MkHeaderRules literal_regexp [] [] [] [] rewrites rewrites adds)) None None None.

Lemma add_headers_safe_witness :
  let rules := [@MkHeaderAddRule literal_regexp None (str "X-Tag") (str "v");
                @MkHeaderAddRule literal_regexp None (str "content-length") (str "0")] in
  let h := [(str "Content-Length", [str "5"])] in
  let h' := @AddRequestHeaders literal_regexp list_table (Some (header_policy [] rules)) h (str "http://a/") in
  (forall key, Header_Values h key `prefix_of` Header_Values h' key) /\
  (forall key, isDangerousRequestFramingHeader key = true -> Header_Values h' key = Header_Values h key) /\
  (forall rule, rule ∈ rules -> @addApplies literal_regexp rule (str "http://a/") = true ->
     isDangerousRequestFramingHeader (ha_Key rule) = false -> ha_Val rule <> [] ->
     ha_Val rule ∈ Header_Values h' (ha_Key rule)).
Proof.
  cbv zeta. set (rules := [_; _]).
  exact (@add_headers_safe literal_regexp list_table (header_policy [] rules)
           (@MkHeaderRules literal_regexp [] [] [] [] [] [] rules)
           [(str "Content-Length", [str "5"])] (str "http://a/") eq_refl).
Defined.

Definition sample_log : LogRulesConfig :=
  MkLogRulesConfig [] [] [str "news.org"] [] [] [] [] [] [] [] [] [] [str "png"].


(** ** What the rules do not promise *)

(** URL rules match by prefix of bytes, without the boundary of the host: an
    exception for one site exempts any host whose name extends it, and
    overrides a ban of that host. *)
Lemma url_exception_no_boundary :
  match @NewURLRules ascii_tables literal_regexp
          (MkURLRulesConfig [] [] [] [str "http://good.com"] [] [str "http://good.com.evil.org/"] [] [] [] []) with
  | Ok r => decision_verdict (@URLRules_Decision literal_regexp r (str "http://good.com.evil.org/x")) = VBypass
  | Err _ => False
  end.
Proof. vm_compute. reflexivity. Qed.

(** Rewrites leave the lines of framing headers alone, yet the line they
    produce may itself be a framing header. *)
Lemma rewrite_can_frame :
  @RewriteRequestHeaders literal_regexp list_table
    (Some (header_policy [(str "X-Len", str "Content-Length")] []))
    [(str "X-Len", [str "5"])] = [(str "Content-Length", [str "5"])].
Proof. vm_compute. reflexivity. Qed.
