(* ===== verification/Rules.v ===== *)
(** * Rule files (rules.go)

    The directories of list files of an e2guardian configuration: the name of
    a file says which list of the policy its lines belong to.  [ruleTable] is
    the switch of [loadRulePolicy]; the lists are kept by name while the files
    are read and become the [PolicyConfig] at the end. *)

From S2P Require Import Prelude GoStrings GoPath ListLoader GoRegexp GoUrl GoNetip GoMime Http DomainTrie DomainRules Access Schedule TimeBands PolicyRules UrlRules Policy PolicyTheorems.

(** ** The lists *)

(** The [[]string] lists of [PolicyConfig]. *)
Inductive textList :=
| Domains_Blocked | Domains_Exceptions | Domains_LocalExceptions | Domains_LocalGrey | Domains_LocalBlocked
| Domains_Grey | Domains_AllowedTLDs | Domains_BlanketBlockTLDs
| Referer_ExceptionSites | Referer_ExceptionSiteIPs | Referer_ExceptionURLs
| SiteIPs_Blocked | SiteIPs_Exceptions | SiteIPs_Grey
| URLs_Blocked | URLs_Exceptions | URLs_LocalExceptions | URLs_LocalGrey | URLs_LocalBlocked | URLs_Grey
| Files_BannedExtensions | Files_ExceptionExtensions | Files_BannedMIMEs | Files_ExceptionMIMEs
| Files_BannedFilenames | Files_ExceptionFilenames
| Headers_Banned | Headers_Exception | Cookies_Banned | Cookies_Exception
| Log_LogURLs | Log_ExceptionLogURLs | Log_LogSites | Log_LogSiteIPs | Log_NoLogSites | Log_NoLogSiteIPs
| Log_NoLogURLs | Log_NoLogExtensions.

(** Its lists of regular expressions. *)
Inductive regexList :=
| Domains_BlockRegex | Domains_AllowRegex | URLs_BlockRegex | URLs_AllowRegex | URLs_Rewrites | URLs_Redirects
| Headers_BlockRegex | Headers_ExceptionRegex | Headers_RequestRewrites | Headers_RequestAdds | Headers_ResponseRewrites
| Log_LogRegexURLs | Log_ExceptionLogRegexURLs | Log_LogRegexSites | Log_ExceptionLogRegexSites | Log_NoLogRegexURLs.

(** The lists of [appConfig] the rule files add to, without repetition. *)
Inductive configList :=
| SemanticPhrases | SemanticExceptionPhrases | LogPhrases | ExceptionLogPhrases | BannedClients | ExceptionClients
| FilterGroups | NoCheckCertSites | NoCheckCertSiteIPs | GreySSLSites | GreySSLSiteIPs | AlertCategories.

#[global] Instance textList_eq_dec : EqDecision textList.
Proof. solve_decision. Defined.
#[global] Instance regexList_eq_dec : EqDecision regexList.
Proof. solve_decision. Defined.
#[global] Instance configList_eq_dec : EqDecision configList.
Proof. solve_decision. Defined.

Record IPGroupMapping := MkIPGroup { ig_Client : bytes; ig_Group : bytes; ig_Source : bytes }.

Inductive rulesError :=
| ErrList (e : listError)
| ErrBand (e : bandError)
| ErrIP (ln : listLine)
| ErrGroupLine (ln : listLine)
| ErrGroupClient (source client : bytes)
| ErrDownloadManager (ln : listLine).

(** What the code does with a file. *)
Inductive action :=
| Text (l : textList)
| Domains (l : textList)
| IPs (l : textList)
| Regexes (l : regexList)
| UniqueText (l : configList)
| UniqueDomains (l : configList)
| UniqueIPs (l : configList)
| Clients (l : configList)
| Weighted
| WeightedExceptions
| DownloadManager
| IPGroups
| TimeLists.

Definition ruleTable : list (bytes * action) := [
  (str "bannedsitelist", Domains Domains_Blocked);
  (str "exceptionsitelist", Domains Domains_Exceptions);
  (str "localexceptionsitelist", Domains Domains_LocalExceptions);
  (str "localgreysitelist", Domains Domains_LocalGrey);
  (str "localsemiexceptionsitelist", Domains Domains_LocalGrey);
  (str "localbannedsitelist", Domains Domains_LocalBlocked);
  (str "greysitelist", Domains Domains_Grey);
  (str "semiexceptionsitelist", Domains Domains_Grey);
  (str "bannedregexpsitelist", Regexes Domains_BlockRegex);
  (str "exceptionregexpsitelist", Regexes Domains_AllowRegex);
  (str "refererexceptionsitelist", Domains Referer_ExceptionSites);
  (str "bannedsiteiplist", IPs SiteIPs_Blocked);
  (str "localbannedsiteiplist", IPs SiteIPs_Blocked);
  (str "exceptionsiteiplist", IPs SiteIPs_Exceptions);
  (str "localexceptionsiteiplist", IPs SiteIPs_Exceptions);
  (str "refererexceptionsiteiplist", IPs Referer_ExceptionSiteIPs);
  (str "greysiteiplist", IPs SiteIPs_Grey);
  (str "localgreysiteiplist", IPs SiteIPs_Grey);
  (str "semiexceptionsiteiplist", IPs SiteIPs_Grey);
  (str "localsemiexceptionsiteiplist", IPs SiteIPs_Grey);
  (str "bannedurllist", Text URLs_Blocked);
  (str "exceptionurllist", Text URLs_Exceptions);
  (str "refererexceptionurllist", Text Referer_ExceptionURLs);
  (str "localexceptionurllist", Text URLs_LocalExceptions);
  (str "localgreyurllist", Text URLs_LocalGrey);
  (str "localbannedurllist", Text URLs_LocalBlocked);
  (str "greyurllist", Text URLs_Grey);
  (str "bannedregexpurllist", Regexes URLs_BlockRegex);
  (str "exceptionregexpurllist", Regexes URLs_AllowRegex);
  (str "urlregexplist", Regexes URLs_Rewrites);
  (str "urlredirectregexplist", Regexes URLs_Redirects);
  (str "bannedextensionlist", Text Files_BannedExtensions);
  (str "exceptionextensionlist", Text Files_ExceptionExtensions);
  (str "bannedmimetypelist", Text Files_BannedMIMEs);
  (str "exceptionmimetypelist", Text Files_ExceptionMIMEs);
  (str "bannedfilenamelist", Text Files_BannedFilenames);
  (str "exceptionfilenamelist", Text Files_ExceptionFilenames);
  (str "downloadmanager", DownloadManager);
  (str "bannedheaderlist", Text Headers_Banned);
  (str "exceptionheaderlist", Text Headers_Exception);
  (str "bannedregexpheaderlist", Regexes Headers_BlockRegex);
  (str "exceptionregexpheaderlist", Regexes Headers_ExceptionRegex);
  (str "headerregexplist", Regexes Headers_RequestRewrites);
  (str "addheaderregexplist", Regexes Headers_RequestAdds);
  (str "responseheaderregexplist", Regexes Headers_ResponseRewrites);
  (str "bannedcookiephraselist", Text Cookies_Banned);
  (str "exceptioncookiephraselist", Text Cookies_Exception);
  (str "bannedphraselist", UniqueText SemanticPhrases);
  (str "oldbannedphraselist", UniqueText SemanticPhrases);
  (str "exceptionphraselist", UniqueText SemanticExceptionPhrases);
  (str "oldexceptionphraselist", UniqueText SemanticExceptionPhrases);
  (str "weightedphraselist", Weighted);
  (str "oldweightedphraselist", Weighted);
  (str "weightedphraseexceptions", WeightedExceptions);
  (str "logurllist", Text Log_LogURLs);
  (str "exceptionlogurllist", Text Log_ExceptionLogURLs);
  (str "logregexpurllist", Regexes Log_LogRegexURLs);
  (str "exceptionlogregexpurllist", Regexes Log_ExceptionLogRegexURLs);
  (str "logregexpsitelist", Regexes Log_LogRegexSites);
  (str "exceptionlogregexpsitelist", Regexes Log_ExceptionLogRegexSites);
  (str "logphraselist", UniqueText LogPhrases);
  (str "exceptionlogphraselist", UniqueText ExceptionLogPhrases);
  (str "logsitelist", Domains Log_LogSites);
  (str "logsiteiplist", IPs Log_LogSiteIPs);
  (str "nologsitelist", Domains Log_NoLogSites);
  (str "nologsiteiplist", IPs Log_NoLogSiteIPs);
  (str "nologurllist", Text Log_NoLogURLs);
  (str "nologregexpurllist", Regexes Log_NoLogRegexURLs);
  (str "nologextensionlist", Text Log_NoLogExtensions);
  (str "bannedclientiplist", Clients BannedClients);
  (str "exceptionclientiplist", Clients ExceptionClients);
  (str "filtergroupslist", UniqueText FilterGroups);
  (str "e2guardianipgroups", IPGroups);
  (str "nocheckcertsitelist", UniqueDomains NoCheckCertSites);
  (str "nocheckcertsiteiplist", UniqueIPs NoCheckCertSiteIPs);
  (str "greysslsitelist", UniqueDomains GreySSLSites);
  (str "localgreysslsitelist", UniqueDomains GreySSLSites);
  (str "greysslsiteiplist", UniqueIPs GreySSLSiteIPs);
  (str "localgreysslsiteiplist", UniqueIPs GreySSLSiteIPs);
  (str "alertcategorylist", UniqueText AlertCategories);
  (str "allowedtldlist", Domains Domains_AllowedTLDs);
  (str "blanketblocktldlist", Domains Domains_BlanketBlockTLDs);
  (str "blankettimelist", TimeLists);
  (str "bannedtimelist", TimeLists)].

(** Any other file is a list of blocked domains. *)
Definition ruleAction (name : bytes) : action :=
  match find (fun e => bytes_eqb e.1 name) ruleTable with
  | Some e => e.2
  | None => Domains Domains_Blocked
  end.

(** ** Values of the lines *)

Section rules.
Context `{UnicodeTables}.

Definition textListValues (lines : list listLine) : list bytes := filter (fun t => t <> []) (map ln_Text lines).

Definition normalizeRuleDomain (domain : bytes) : bytes :=
  let domain := TrimSuffix (TrimPrefix (TrimSpace (ToLower domain)) (str ".")) (str ".") in
  if bytes_eqb domain [] || Contains domain (str "/") then [] else domain.

Definition domainListValues (lines : list listLine) : list bytes :=
  filter (fun d => d <> []) (map (fun ln => normalizeRuleDomain (ln_Text ln)) lines).

Definition regexListValues (lines : list listLine) : list RegexRule :=
  map (fun ln => MkRegexRule (ln_Text ln) (lineSource ln)) (filter (fun ln => ln_Text ln <> []) lines).

(** [netip.ParsePrefix] or [netip.ParseAddr] accepts it. *)
Definition validIP (value : bytes) : bool :=
  match ParsePrefix value with Some _ => true | None => match ParseAddr value with Some _ => true | None => false end end.

Definition ipListValues (lines : list listLine) : result rulesError (list bytes) :=
  foldM (fun out ln =>
    let value := TrimSpace (ln_Text ln) in
    if bytes_eqb value [] then Ok out
    else if validIP value then Ok (out ++ [value]) else Err (ErrIP ln)) lines [].

Definition parseWeightedLines (lines : list listLine) : result rulesError (list SemanticPhraseConfig) :=
  foldM (fun out ln =>
    match at_line ln (parseWeightedLine (ln_Text ln)) with
    | Ok (phrase, weight) => Ok (out ++ [MkSemanticPhrase phrase weight])
    | Err e => Err (ErrList e)
    end) lines [].

(** ** The state while the files are read *)

Record ruleState := MkRules {
  texts : textList -> list bytes;
  regexes : regexList -> list RegexRule;
  lists : configList -> list bytes;
  weighted : list SemanticPhraseConfig;
  weightedExceptions : list SemanticPhraseConfig;
  ipGroups : list IPGroupMapping;
  timeBands : list e2TimeBand;
}.

Definition addTo {K V} `{EqDecision K} (f : K -> list V) (k : K) (vs : list V) : K -> list V :=
  fun k' => if decide (k' = k) then f k' ++ vs else f k'.

Definition addText (st : ruleState) (l : textList) (vs : list bytes) : ruleState :=
  MkRules (addTo (texts st) l vs) (regexes st) (lists st) (weighted st) (weightedExceptions st) (ipGroups st) (timeBands st).
Definition addRegex (st : ruleState) (l : regexList) (vs : list RegexRule) : ruleState :=
  MkRules (texts st) (addTo (regexes st) l vs) (lists st) (weighted st) (weightedExceptions st) (ipGroups st) (timeBands st).
Definition addUnique (st : ruleState) (l : configList) (vs : list bytes) : ruleState :=
  MkRules (texts st) (regexes st) (fun l' => if decide (l' = l) then appendUniqueStrings (lists st l') vs else lists st l')
    (weighted st) (weightedExceptions st) (ipGroups st) (timeBands st).
Definition setWeighted (st : ruleState) (w e : list SemanticPhraseConfig) : ruleState :=
  MkRules (texts st) (regexes st) (lists st) w e (ipGroups st) (timeBands st).
Definition addGroups (st : ruleState) (gs : list IPGroupMapping) : ruleState :=
  MkRules (texts st) (regexes st) (lists st) (weighted st) (weightedExceptions st) (ipGroups st ++ gs) (timeBands st).
Definition addBands (st : ruleState) (bs : list e2TimeBand) : ruleState :=
  MkRules (texts st) (regexes st) (lists st) (weighted st) (weightedExceptions st) (ipGroups st) (timeBands st ++ bs).

Definition downloadRule (st : ruleState) (ln : listLine) : result rulesError ruleState :=
  match Fields (ln_Text ln) with
  | [p0; p1; value] =>
      let action := ToLower p0 in
      let ruleType := ToLower p1 in
      if negb (bytes_eqb action (str "banned")) && negb (bytes_eqb action (str "exception")) then Err (ErrDownloadManager ln)
      else if bytes_eqb ruleType (str "ext") then
        Ok (addText st (if bytes_eqb action (str "banned") then Files_BannedExtensions else Files_ExceptionExtensions) [value])
      else if bytes_eqb ruleType (str "mime") then
        Ok (addText st (if bytes_eqb action (str "banned") then Files_BannedMIMEs else Files_ExceptionMIMEs) [value])
      else Err (ErrDownloadManager ln)
  | _ => Err (ErrDownloadManager ln)
  end.

Definition parseDownloadManagerFile (lines : list listLine) (st : ruleState) : result rulesError ruleState :=
  foldM downloadRule lines st.

Definition clientRule (l : configList) (st : ruleState) (ln : listLine) : result rulesError ruleState :=
  if bytes_eqb (ln_Text ln) [] then Ok st
  else if validIP (ln_Text ln) then Ok (addUnique st l [ln_Text ln]) else Err (ErrIP ln).

Definition groupRule (st : ruleState) (ln : listLine) : result rulesError ruleState :=
  match SplitByte (ln_Text ln) "="%byte with
  | [c; g] =>
      let client := TrimSpace c in
      let group := TrimSpace g in
      if bytes_eqb client [] || bytes_eqb group [] then Err (ErrGroupLine ln)
      else Ok (addGroups st [MkIPGroup client group (lineSource ln)])
  | _ => Err (ErrGroupLine ln)
  end.

Definition mergeW (base extra : list SemanticPhraseConfig) : result rulesError (list SemanticPhraseConfig) :=
  match mergeWeightedPhrases base extra with Ok m => Ok m | Err e => Err (ErrList e) end.

(** One file of the switch. *)
Definition applyLines (act : action) (st : ruleState) (lines : list listLine) : result rulesError ruleState :=
  match act with
  | Text l => Ok (addText st l (textListValues lines))
  | Domains l => Ok (addText st l (domainListValues lines))
  | IPs l => ips ← ipListValues lines; Ok (addText st l ips)
  | Regexes l => Ok (addRegex st l (regexListValues lines))
  | UniqueText l => Ok (addUnique st l (textListValues lines))
  | UniqueDomains l => Ok (addUnique st l (domainListValues lines))
  | UniqueIPs l => ips ← ipListValues lines; Ok (addUnique st l ips)
  | Clients l => foldM (clientRule l) lines st
  | Weighted =>
      parsed ← parseWeightedLines lines;
      merged ← mergeW (weighted st) parsed;
      Ok (setWeighted st merged (weightedExceptions st))
  | WeightedExceptions =>
      parsed ← parseWeightedLines lines;
      merged ← mergeW (weightedExceptions st) parsed;
      Ok (setWeighted st (weighted st) merged)
  | DownloadManager => parseDownloadManagerFile lines st
  | IPGroups => foldM groupRule lines st
  | TimeLists =>
      match parseE2GuardianTimeBands lines with
      | Ok bs => Ok (addBands st bs)
      | Err e => Err (ErrBand e)
      end
  end.

Definition loadRuleFile (fs : fileSystem) (st : ruleState) (path : bytes) : result rulesError ruleState :=
  match loadListFile fs path with
  | Err e => Err (ErrList e)
  | Ok lines => applyLines (ruleAction (Base path)) st lines
  end.

(** ** Client groups *)

(** [fmt.Sscanf(s, "%d", &idx)] on a string without leading white space: a
    sign, and the digits that follow it. *)
Fixpoint leadingDigits (s : bytes) : bytes :=
  match s with
  | b :: s' => match digit_val b with Some _ => b :: leadingDigits s' | None => [] end
  | [] => []
  end.

Definition Sscanf_d (s : bytes) : option Z :=
  match s with
  | "-"%byte :: s' => Atoi ("-"%byte :: leadingDigits s')
  | "+"%byte :: s' => Atoi ("+"%byte :: leadingDigits s')
  | _ => Atoi (leadingDigits s)
  end.

(** A positive number is an index, from 1, of the filter groups. *)
Definition resolveGroup (groups : list bytes) (groupName : bytes) : bytes :=
  match Sscanf_d groupName with
  | Some idx =>
      if Z.ltb 0 idx then
        if Z.leb idx (Z.of_nat (length groups)) then nth (Z.to_nat (idx - 1)) groups groupName
        else str "group" ++ Itoa idx
      else groupName
  | None => groupName
  end.

Definition addClient (client : bytes) (p : AccessProfile) : AccessProfile :=
  if bool_decide (client ∈ ap_Clients p) then p
  else MkAccessProfile (ap_Name p) (ap_Clients p ++ [client]) (ap_Default p) (ap_MaxConns p) (ap_RateLimit p) (ap_RateBurst p).

(** The first profile of that name, or a new one. *)
Fixpoint placeClient (group client : bytes) (ps : list AccessProfile) : list AccessProfile :=
  match ps with
  | [] => [MkAccessProfile group [client] false None None None]
  | p :: ps' =>
      if bytes_eqb (ap_Name p) group then addClient client p :: ps' else p :: placeClient group client ps'
  end.

Definition applyGroup (groups : list bytes) (ps : list AccessProfile) (m : IPGroupMapping)
  : result rulesError (list AccessProfile) :=
  if validIP (ig_Client m) then Ok (placeClient (resolveGroup groups (ig_Group m)) (ig_Client m) ps)
  else Err (ErrGroupClient (ig_Source m) (ig_Client m)).

(** ** loadRulePolicy *)

(** The part of [appConfig] that the rule files read and change. *)
Record rulesConfig := MkRulesConfig {
  rc_ConfigPath : bytes;
  rc_IncludeDirs : list bytes;
  rc_lists : configList -> list bytes;
  rc_SemanticWeighted : list SemanticPhraseConfig;
  rc_SemanticWeightedExceptions : list SemanticPhraseConfig;
  rc_IPGroupMappings : list IPGroupMapping;
  rc_ScheduleWindows : list ScheduleWindow;
  rc_AccessProfiles : list AccessProfile;
}.

Definition policyOf (st : ruleState) : PolicyConfig :=
  let t := texts st in
  let r := regexes st in
  MkPolicyConfig
    (MkDomainRulesConfig (t Domains_LocalExceptions) (t Domains_LocalGrey) (t Domains_LocalBlocked) (t Domains_Exceptions)
       (t Domains_Grey) (t Domains_Blocked) (r Domains_BlockRegex) (r Domains_AllowRegex) (t Domains_AllowedTLDs)
       (t Domains_BlanketBlockTLDs))
    (MkSiteIPRulesConfig (t SiteIPs_Blocked) (t SiteIPs_Exceptions) (t SiteIPs_Grey))
    (MkURLRulesConfig (t URLs_LocalExceptions) (t URLs_LocalGrey) (t URLs_LocalBlocked) (t URLs_Exceptions) (t URLs_Grey)
       (t URLs_Blocked) (r URLs_BlockRegex) (r URLs_AllowRegex) (r URLs_Rewrites) (r URLs_Redirects))
    (MkFileRulesConfig (t Files_BannedExtensions) (t Files_ExceptionExtensions) (t Files_BannedMIMEs) (t Files_ExceptionMIMEs)
       (t Files_BannedFilenames) (t Files_ExceptionFilenames))
    (MkHeaderRulesConfig (t Headers_Banned) (t Headers_Exception) (r Headers_BlockRegex) (r Headers_ExceptionRegex)
       (r Headers_RequestRewrites) (r Headers_ResponseRewrites) (r Headers_RequestAdds))
    (t Cookies_Banned, t Cookies_Exception)
    (MkLogRulesConfig (t Log_LogURLs) (t Log_ExceptionLogURLs) (t Log_LogSites) (t Log_LogSiteIPs) (r Log_LogRegexURLs)
       (r Log_ExceptionLogRegexURLs) (r Log_LogRegexSites) (r Log_ExceptionLogRegexSites) (t Log_NoLogSites)
       (t Log_NoLogSiteIPs) (t Log_NoLogURLs) (r Log_NoLogRegexURLs) (t Log_NoLogExtensions))
    (MkRefererRulesConfig (t Referer_ExceptionSites) (t Referer_ExceptionSiteIPs) (t Referer_ExceptionURLs)).

(** The policy is empty at first; the other lists start from the
    configuration. *)
Definition startRules (cfg : rulesConfig) : ruleState :=
  MkRules (fun _ => []) (fun _ => []) (rc_lists cfg) (rc_SemanticWeighted cfg) (rc_SemanticWeightedExceptions cfg)
    (rc_IPGroupMappings cfg) [].

Definition ruleFiles (fs : fileSystem) (cfg : rulesConfig) : result listError (list bytes) :=
  expandListPaths fs (if bytes_eqb (rc_ConfigPath cfg) [] then str "." else Dir (rc_ConfigPath cfg)) (rc_IncludeDirs cfg).

(** The files, then the time bands, then the client groups. *)
Definition loadRulePolicy (fs : fileSystem) (spare : nat -> nat) (cfg : rulesConfig)
  : result rulesError (PolicyConfig * rulesConfig) :=
  if Nat.eqb (length (rc_IncludeDirs cfg)) 0 then Ok (policyOf (MkRules (fun _ => []) (fun _ => []) (rc_lists cfg) [] [] [] []), cfg)
  else
    match ruleFiles fs cfg with
    | Err e => Err (ErrList e)
    | Ok files =>
        st ← foldM (loadRuleFile fs) files (startRules cfg);
        windows ← (if Nat.eqb (length (timeBands st)) 0 then Ok (rc_ScheduleWindows cfg)
                   else match restrictScheduleWindowsByTimeBands spare (rc_ScheduleWindows cfg) (rc_AccessProfiles cfg) (timeBands st) with
                        | Ok ws => Ok ws
                        | Err e => Err (ErrBand e)
                        end);
        profiles ← foldM (applyGroup (lists st FilterGroups)) (ipGroups st) (rc_AccessProfiles cfg);
        Ok (policyOf st, MkRulesConfig (rc_ConfigPath cfg) (rc_IncludeDirs cfg) (lists st) (weighted st) (weightedExceptions st)
              (ipGroups st) windows profiles)
    end.

Definition loadRuleDomains (fs : fileSystem) (spare : nat -> nat) (cfg : rulesConfig) : result rulesError (list bytes) :=
  '(policy, _) ← loadRulePolicy fs spare cfg; Ok (cfg_Blocked (pc_Domains policy)).

(** ** Specification *)

(** What a line of a download-manager file adds, and to which list. *)
Definition downloadValue (l : textList) (ln : listLine) : option bytes :=
  match Fields (ln_Text ln) with
  | [a; t; value] =>
      let banned := bytes_eqb (ToLower a) (str "banned") in
      let target := if bytes_eqb (ToLower t) (str "ext")
                    then (if banned then Files_BannedExtensions else Files_ExceptionExtensions)
                    else (if banned then Files_BannedMIMEs else Files_ExceptionMIMEs) in
      if decide (target = l) then Some value else None
  | _ => None
  end.

(** What a file adds to the list [l] of the policy. *)
Definition file_values (act : action) (l : textList) (lines : list listLine) : list bytes :=
  match act with
  | Text l' => if decide (l = l') then textListValues lines else []
  | Domains l' => if decide (l = l') then domainListValues lines else []
  | IPs l' => if decide (l = l') then filter (fun v => v <> []) (map (fun ln => TrimSpace (ln_Text ln)) lines) else []
  | DownloadManager => omap (downloadValue l) lines
  | _ => []
  end.

(** The entries of the files, and what they add to [l]. *)
Definition files_values (fs : fileSystem) (l : textList) (files : list bytes) : list bytes :=
  concat (map (fun path => match loadListFile fs path with
                           | Ok lines => file_values (ruleAction (Base path)) l lines
                           | Err _ => []
                           end) files).

(** ** Lemmas *)

Lemma ipListValues_acc lines out ips :
  foldM (fun out ln =>
    let value := TrimSpace (ln_Text ln) in
    if bytes_eqb value [] then Ok out
    else if validIP value then Ok (out ++ [value]) else Err (ErrIP ln)) lines out = Ok ips ->
  ips = out ++ filter (fun v => v <> []) (map (fun ln => TrimSpace (ln_Text ln)) lines).
Proof.
  revert out. induction lines as [|ln lines IH]; intros out; cbn [foldM map].
  { intros [= <-]. by rewrite app_nil_r. }
  cbv zeta. destruct (bytes_eqb (TrimSpace (ln_Text ln)) []) eqn:E.
  - apply bool_decide_eq_true in E. rewrite E, filter_cons_False by naive_solver. apply IH.
  - apply bool_decide_eq_false in E. destruct (validIP _); [|done]. intros ->%IH.
    rewrite filter_cons_True by done. by rewrite <- app_assoc.
Qed.

Lemma ipListValues_spec lines ips :
  ipListValues lines = Ok ips -> ips = filter (fun v => v <> []) (map (fun ln => TrimSpace (ln_Text ln)) lines).
Proof. apply ipListValues_acc. Qed.

Lemma addTo_values {K V} `{EqDecision K} (f : K -> list V) k vs l :
  addTo f k vs l = f l ++ (if decide (l = k) then vs else []).
Proof. unfold addTo. destruct (decide (l = k)); [done|]. by rewrite app_nil_r. Qed.

Lemma downloadRule_texts st ln st' l :
  downloadRule st ln = Ok st' -> texts st' l = texts st l ++ option_list (downloadValue l ln).
Proof.
  unfold downloadRule, downloadValue. destruct (Fields (ln_Text ln)) as [|a [|t [|v [|? ?]]]]; try done.
  destruct (negb _ && negb _); [done|]. destruct (bytes_eqb (ToLower t) (str "ext")).
  - intros [= <-]. cbn [texts addText]. rewrite addTo_values. f_equal.
    destruct (bytes_eqb (ToLower a) _); repeat case_decide; naive_solver.
  - destruct (bytes_eqb (ToLower t) (str "mime")); [|done].
    intros [= <-]. cbn [texts addText]. rewrite addTo_values. f_equal.
    destruct (bytes_eqb (ToLower a) _); repeat case_decide; naive_solver.
Qed.

(** A loop that leaves the texts alone. *)
Lemma foldM_texts {A} (f : ruleState -> A -> result rulesError ruleState) (v : A -> list bytes) l xs st st' :
  (forall st x st', f st x = Ok st' -> texts st' l = texts st l ++ v x) ->
  foldM f xs st = Ok st' -> texts st' l = texts st l ++ concat (map v xs).
Proof.
  intros Hf. revert st. induction xs as [|x xs IH]; intros st; cbn [foldM map concat].
  { intros [= <-]. by rewrite app_nil_r. }
  destruct (f st x) as [st1|] eqn:E; [|done]. intros ->%IH. by rewrite (Hf _ _ _ E), <- app_assoc.
Qed.

Lemma clientRule_texts c st ln st' l : clientRule c st ln = Ok st' -> texts st' l = texts st l ++ [].
Proof.
  unfold clientRule. rewrite app_nil_r. destruct (bytes_eqb _ []); [by intros [= <-]|].
  destruct (validIP _); [|done]. by intros [= <-].
Qed.

Lemma groupRule_texts st ln st' l : groupRule st ln = Ok st' -> texts st' l = texts st l ++ [].
Proof.
  unfold groupRule. rewrite app_nil_r. destruct (SplitByte _ _) as [|c [|g [|? ?]]]; try done.
  destruct (_ || _); [done|]. by intros [= <-].
Qed.

Lemma concat_nils {A B} (xs : list A) : concat (map (fun _ : A => @nil B) xs) = [].
Proof. by induction xs. Qed.

Lemma applyLines_texts act st lines st' l :
  applyLines act st lines = Ok st' -> texts st' l = texts st l ++ file_values act l lines.
Proof.
  destruct act; cbn [applyLines file_values].
  - intros [= <-]. apply addTo_values.
  - intros [= <-]. apply addTo_values.
  - destruct (ipListValues lines) as [ips|] eqn:E; [|done]. intros [= <-]. rewrite <- (ipListValues_spec _ _ E). apply addTo_values.
  - intros [= <-]. by rewrite app_nil_r.
  - intros [= <-]. by rewrite app_nil_r.
  - intros [= <-]. by rewrite app_nil_r.
  - destruct (ipListValues lines) as [ips|]; [|done]. intros [= <-]. by rewrite app_nil_r.
  - intros Hf. eapply foldM_texts in Hf; [by rewrite concat_nils in Hf|]. intros. by eapply clientRule_texts.
  - destruct (parseWeightedLines lines); [|done]. cbn. destruct (mergeW _ _); [|done]. intros [= <-]. by rewrite app_nil_r.
  - destruct (parseWeightedLines lines); [|done]. cbn. destruct (mergeW _ _); [|done]. intros [= <-]. by rewrite app_nil_r.
  - intros Hf. eapply foldM_texts in Hf; [rewrite Hf; f_equal|intros; by apply downloadRule_texts].
    clear. induction lines as [|ln lines IH]; [done|]. cbn. rewrite IH. by destruct (downloadValue l ln).
  - intros Hf. eapply foldM_texts in Hf; [by rewrite concat_nils in Hf|]. intros. by eapply groupRule_texts.
  - destruct (parseE2GuardianTimeBands lines); [|done]. intros [= <-]. by rewrite app_nil_r.
Qed.

Lemma load_texts fs files st st' l :
  foldM (loadRuleFile fs) files st = Ok st' -> texts st' l = texts st l ++ files_values fs l files.
Proof.
  apply foldM_texts. intros st0 path st0'. unfold loadRuleFile.
  destruct (loadListFile fs path) as [lines|]; [|done]. apply applyLines_texts.
Qed.

End rules.

Section enforced.
Context `{UnicodeTables} `{Regexp} `{PrefixTable}.

Lemma loaded_files fs files st st' path :
  foldM (loadRuleFile fs) files st = Ok st' -> path ∈ files -> exists lines, loadListFile fs path = Ok lines.
Proof.
  revert st. induction files as [|f files IH]; intros st; cbn [foldM]; [by intros _ ?%elem_of_nil|].
  destruct (loadRuleFile fs st f) as [st1|] eqn:E; [|done]. intros Hf [->|Hin]%elem_of_cons; [|by eapply IH].
  unfold loadRuleFile in E. destruct (loadListFile fs f); [by eexists|done].
Qed.

(** The policy of the files that were read, list by list. *)
Lemma loadRulePolicy_texts fs spare cfg pc cfg' files :
  loadRulePolicy fs spare cfg = Ok (pc, cfg') -> ruleFiles fs cfg = Ok files ->
  exists st, pc = policyOf st /\ (forall l, texts st l = files_values fs l files) /\
    forall path, path ∈ files -> exists lines, loadListFile fs path = Ok lines.
Proof.
  unfold loadRulePolicy. intros Hl Hfiles. rewrite Hfiles in Hl.
  destruct (Nat.eqb_spec (length (rc_IncludeDirs cfg)) 0) as [Hz|_].
  { apply nil_length_inv in Hz. unfold ruleFiles, expandListPaths in Hfiles. rewrite Hz in Hfiles.
    injection Hl as <- _. injection Hfiles as <-. eexists. split; [reflexivity|]. split; [done|]. by intros p ?%elem_of_nil. }
  destruct (foldM (loadRuleFile fs) files (startRules cfg)) as [st|] eqn:Est; [|done]. cbn [mbind result_bind] in Hl.
  destruct (if Nat.eqb _ 0 then _ else _) as [windows|]; [|done]. cbn [mbind result_bind] in Hl.
  destruct (foldM (applyGroup _) _ _) as [profiles|]; [|done]. cbn [mbind result_bind] in Hl. injection Hl as <- _.
  exists st. split; [done|]. split; [|intros path; by eapply loaded_files].
  intros l. by rewrite (load_texts _ _ _ _ _ Est).
Qed.

Lemma domain_value_in fs files path ln :
  path ∈ files -> (exists lines, loadListFile fs path = Ok lines) -> entry_of fs path ln ->
  ruleAction (Base path) = Domains Domains_Blocked -> normalizeRuleDomain (ln_Text ln) <> [] ->
  normalizeRuleDomain (ln_Text ln) ∈ files_values fs Domains_Blocked files.
Proof.
  intros Hp [lines Hl] He Ha Hne. unfold files_values. apply list_elem_of_In, in_concat.
  exists (domainListValues lines). split.
  - apply in_map_iff. exists path. rewrite Hl, Ha. cbn. split; [done|by apply list_elem_of_In].
  - unfold domainListValues. apply list_elem_of_In, list_elem_of_filter. split; [done|].
    apply list_elem_of_fmap. exists ln. split; [done|]. unfold loadListFile in Hl.
    destruct (loadPlainListFile _ _ _ _) as [r|] eqn:E; [|done]. subst r. by apply (load_entries _ _ _ _ _ E).
Qed.

Lemma consider_blocked d final : Blocked d = true -> consider (Some d) final = Err d.
Proof. intros Hb. unfold consider. by rewrite Hb. Qed.

Lemma domain_block_first p r host req scheme :
  po_domains p = Some r -> Blocked (DomainRules_Decision r host) = true ->
  Blocked (EvaluateRequest (Some p) host req scheme) = true.
Proof.
  intros Hp Hb. unfold EvaluateRequest. rewrite Hp. cbn [fmap option_fmap option_map].
  rewrite (consider_blocked _ _ Hb). cbn [mbind result_bind decisionOf]. exact Hb.
Qed.

(** From the text of the files to the decision: a domain on a line of a
    [bannedsitelist] (or of any file with a name the loader does not know) is
    refused, with its subdomains, for every request, when no entry of the
    exception or grey lists of the same files and no exception expression
    covers the host. *)
Theorem rules_ban_enforced fs spare cfg pc cfg' p files path ln host req scheme :
  loadRulePolicy fs spare cfg = Ok (pc, cfg') -> ruleFiles fs cfg = Ok files -> NewPolicy pc = Ok p ->
  cfg_bounded (pc_Domains pc) ->
  path ∈ files -> ruleAction (Base path) = Domains Domains_Blocked -> entry_of fs path ln ->
  normalizeRuleDomain (ln_Text ln) <> [] ->
  normalizedDomain host <> [] -> spec.covers (normalizeRuleDomain (ln_Text ln)) (normalizedDomain host) ->
  Forall (fun l => ~ spec.Match (files_values fs l files) (normalizedDomain host))
    [Domains_LocalExceptions; Domains_LocalGrey; Domains_Exceptions; Domains_Grey] ->
  ~ regex_hits (cfg_AllowRegex (pc_Domains pc)) (normalizedDomain host) ->
  Blocked (EvaluateRequest (Some p) host req scheme) = true.
Proof.
  intros Hl Hfiles Hp Hb Hpath Hact He Hd Hne Hcov Hno Hre.
  destruct (loadRulePolicy_texts _ _ _ _ _ _ Hl Hfiles) as (st & -> & Ht & Hload).
  rewrite !Forall_cons in Hno. destruct Hno as (N1 & N2 & N3 & N4 & _). rewrite <- !Ht in N1, N2, N3, N4.
  apply NewPolicy_inv in Hp as (r & sr & ur & hr & rr & lr & Hr & _ & _ & _ & ->). apply (domain_block_first _ r); [done|].
  assert (Hv : decision_verdict (DomainRules_Decision r host) = VBlock).
  { apply (decides_functional (pc_Domains (policyOf st)) (normalizedDomain host)); [exact (decision_decides _ _ _ Hr Hb Hne)|].
    assert (Hin := domain_value_in fs files path ln Hpath (Hload _ Hpath) He Hact Hd). rewrite <- Ht in Hin.
    destruct (decide (Exists (fun d => spec.covers d (normalizedDomain host)) (texts st Domains_LocalBlocked))) as [Hlb|Hlb].
    - by apply D_local_blocked.
    - apply D_main; [done..|]. apply D_blocked; [done..|]. right. left. apply Exists_exists.
      exists (normalizeRuleDomain (ln_Text ln)). done. }
  unfold decision_verdict in Hv. destruct (Blocked (DomainRules_Decision r host)); [done|].
  by repeat destr_match.
Qed.

End enforced.

Definition sample_rule_files : fileSystem :=
  MkFileSystem (str "/") (list_to_map [
    (str "/lists", Directory [(str "bannedsitelist", false); (str "exceptionsitelist", false)]);
    (str "/lists/bannedsitelist", RegularFile (str ".Bad.org.
ads.net # tracker"));
    (str "/lists/exceptionsitelist", RegularFile (str "ok.bad.org"))]).
