(* ===== verification/Framing.v ===== *)
(** * Framing of messages (proxy/relay.go)

    The header block and the chunked body the proxy writes by hand, and that
    a peer reads from them exactly the headers and the body that were meant:
    one framing header, no injected line, and the chunked encoding decodes to
    the bytes that were written. *)

From S2P Require Import Prelude GoStrings GoUrl Http DomainTrie.

Definition CRLF : bytes := [Byte.x0d; Byte.x0a].

(** ** Header blocks *)

(** [httpguts.ValidHeaderFieldName]. *)
Definition validFieldName (name : bytes) : bool :=
  bool_decide (name <> []) && forallb headerFieldByte name.

(** [headerNewlineToSpace] and [textproto.TrimString] of [Header.WriteSubset]. *)
Definition newlineToSpace (b : byte) : byte :=
  if bool_decide (b = Byte.x0a) || bool_decide (b = Byte.x0d) then " "%byte else b.

Definition textSpace (b : byte) : bool := bool_decide (b ∈ [" "%byte; Byte.x09; Byte.x0a; Byte.x0d]).

Fixpoint trimLeftText (s : bytes) : bytes :=
  match s with
  | [] => []
  | b :: s' => if textSpace b then trimLeftText s' else s
  end.

Definition TrimString (s : bytes) : bytes := rev (trimLeftText (rev (trimLeftText s))).

Definition cleanValue (v : bytes) : bytes := TrimString (map newlineToSpace v).

(** The lines of [h.WriteSubset(w, exclude)], by sorted key. *)
Definition subsetLines (h : Header) (exclude : list bytes) : list (bytes * bytes) :=
  concat (map (fun k =>
    if bool_decide (k ∈ exclude) then []
    else if validFieldName k then map (fun v => (k, cleanValue v)) (hlookup h k) else [])
    (sortStrings (map fst h))).

Definition renderLine (kv : bytes * bytes) : bytes := kv.1 ++ str ": " ++ kv.2 ++ CRLF.

Definition framingKeys : list bytes := [str "Content-Length"; str "Transfer-Encoding"].

(** The header lines of a message. *)
Definition messageLines (h : Header) (contentLength : Z) (chunked closeConn : bool) : list (bytes * bytes) :=
  subsetLines h framingKeys
  ++ (if (0 <=? contentLength)%Z && negb chunked then [(str "Content-Length", Itoa contentLength)] else [])
  ++ (if chunked then [(str "Transfer-Encoding", str "chunked")] else [])
  ++ (if closeConn then [(str "Connection", str "close")] else []).

Definition writeMessageHeaders (h : Header) (contentLength : Z) (chunked closeConn : bool) : bytes :=
  concat (map renderLine (messageLines h contentLength chunked closeConn)) ++ CRLF.

Definition hasChunked (values : list bytes) : bool := existsb (fun v => EqualFold v (str "chunked")) values.

Definition requestUsesChunked (req : Request) : bool :=
  if (0 <=? rq_ContentLength req)%Z then false else hasChunked (rq_TransferEncoding req).

Definition responseUsesChunked (resp : Response) : bool :=
  if (0 <=? rs_ContentLength resp)%Z then false
  else hasChunked (rs_TransferEncoding resp) || negb (rs_Close resp).

Definition writeRequestHeader (req : Request) : bytes :=
  let uri :=
    match rq_URL req with
    | Some u => let uri := RequestURI u in if decide (uri = []) then str "/" else uri
    | None => str "/"
    end in
  let host :=
    if decide (rq_Host req = []) then match rq_URL req with Some u => u_Host u | None => [] end
    else rq_Host req in
  Method req ++ str " " ++ uri ++ str " HTTP/1.1" ++ CRLF
  ++ (if decide (host = []) then [] else str "Host: " ++ host ++ CRLF)
  ++ writeMessageHeaders (rq_Header req) (rq_ContentLength req) (requestUsesChunked req) (rq_Close req).

(** [statusText] is [http.StatusText], for a response without a status line. *)
Definition writeResponseHeader (statusText : Z -> bytes) (resp : Response) : bytes :=
  let status :=
    if decide (Status resp = []) then Itoa (StatusCode resp) ++ str " " ++ statusText (StatusCode resp)
    else Status resp in
  str "HTTP/1.1 " ++ status ++ CRLF
  ++ writeMessageHeaders (rs_Header resp) (rs_ContentLength resp) (responseUsesChunked resp) (rs_Close resp).

(** ** Chunked bodies *)

Definition hexDigit (n : N) : byte := byte_of (if N.ltb n 10 then n + 48 else n + 87)%N.

Fixpoint Hex_fuel (fuel : nat) (n : N) : bytes :=
  match fuel with
  | O => []
  | S fuel' => if N.ltb n 16 then [hexDigit n] else Hex_fuel fuel' (n / 16) ++ [hexDigit (n mod 16)]
  end.

(** [fmt.Sprintf("%x", n)]: a number has no more hexadecimal digits than bits. *)
Definition Hex (n : N) : bytes := Hex_fuel (S (N.to_nat (N.size n))) n.

(** [httputil.NewChunkedWriter(w).Write]: an empty write is skipped. *)
Definition chunkedWrite (data : bytes) : bytes :=
  if decide (data = []) then [] else Hex (N.of_nat (length data)) ++ CRLF ++ data ++ CRLF.

(** [closeChunkedBody]: the last chunk, the trailers and the end. *)
Definition closeChunkedBody (trailers : Header) : bytes :=
  str "0" ++ CRLF ++ concat (map renderLine (subsetLines trailers [])) ++ CRLF.

(** [writeBodyStreaming] of the writes of the copy. *)
Definition writeBodyStreaming (writes : list bytes) (chunked : bool) (trailers : Header) : bytes :=
  if chunked then concat (map chunkedWrite writes) ++ closeChunkedBody trailers else concat writes.

(** ** Reference decoder *)

Definition readLine (s : bytes) : option (bytes * bytes) :=
  i ← IndexByte s Byte.x0a; Some (TrimSuffix (take i s) [Byte.x0d], drop (S i) s).

Definition parseHex (s : bytes) : option N :=
  if bool_decide (s <> []) && forallb ishex s
  then Some (fold_left (fun acc c => 16 * acc + unhex c)%N s 0%N) else None.

(** The body of a chunked stream, and what follows its last chunk. *)
Fixpoint decodeChunked (fuel : nat) (s : bytes) : option (bytes * bytes) :=
  match fuel with
  | O => None
  | S fuel' =>
      '(line, rest) ← readLine s;
      n ← parseHex line;
      if decide (n = 0%N) then Some ([], rest)
      else
        let n := N.to_nat n in
        if length rest <? n then None
        else
          '(line, rest') ← readLine (drop n rest);
          if decide (line = []) then '(body, tail) ← decodeChunked fuel' rest'; Some (take n rest ++ body, tail)
          else None
  end.

(** The lines of a header block, up to the empty line, and what follows. *)
Fixpoint readHeader (fuel : nat) (s : bytes) : option (list (bytes * bytes) * bytes) :=
  match fuel with
  | O => None
  | S fuel' =>
      '(line, rest) ← readLine s;
      if decide (line = []) then Some ([], rest)
      else
        i ← IndexByte line ":";
        '(lines, rest) ← readHeader fuel' rest;
        Some ((take i line, TrimString (drop (S i) line)) :: lines, rest)
  end.

(** ** Lemmas on lines *)

Lemma IndexByte_first a c b : c ∉ a -> IndexByte (a ++ c :: b) c = Some (length a).
Proof.
  induction a as [|x a IH]; simpl; intros Hn; [by rewrite decide_True|].
  rewrite decide_False by set_solver. by rewrite IH by set_solver.
Qed.

Lemma TrimSuffix_last a c : TrimSuffix (a ++ [c]) [c] = a.
Proof.
  unfold TrimSuffix, HasSuffix. rewrite length_app. simpl.
  replace (length a + 1 - 1) with (length a) by lia. rewrite drop_app_length, take_app_length.
  rewrite Nat.add_1_r. unfold bytes_eqb. by rewrite bool_decide_true.
Qed.

Lemma readLine_CRLF line rest : Byte.x0a ∉ line -> readLine (line ++ CRLF ++ rest) = Some (line, rest).
Proof.
  intros Hn. unfold readLine, CRLF.
  replace (line ++ [Byte.x0d; Byte.x0a] ++ rest) with ((line ++ [Byte.x0d]) ++ Byte.x0a :: rest) by (by rewrite <- app_assoc).
  rewrite IndexByte_first by (rewrite elem_of_app, list_elem_of_singleton; naive_solver).
  cbn [mbind option_bind]. rewrite take_app_length, TrimSuffix_last. do 2 f_equal.
  replace (S (length (line ++ [Byte.x0d]))) with (length ((line ++ [Byte.x0d]) ++ [Byte.x0a]))
    by (rewrite !length_app; simpl; lia).
  change (Byte.x0a :: rest) with ([Byte.x0a] ++ rest). rewrite (app_assoc (line ++ _)). apply drop_app_length.
Qed.

(** ** Hexadecimal lengths *)

Lemma hexDigit_spec n : (n < 16)%N -> unhex (hexDigit n) = n /\ ishex (hexDigit n) = true.
Proof.
  intros Hn. assert (Hall : Forall (fun k => unhex (hexDigit (N.of_nat k)) = N.of_nat k /\
    ishex (hexDigit (N.of_nat k)) = true) (seq 0 16)) by (repeat constructor).
  rewrite Forall_forall in Hall. rewrite <- (N2Nat.id n). apply Hall. apply elem_of_seq. lia.
Qed.

Lemma Hex_fuel_spec fuel n :
  (n < 2 ^ N.of_nat fuel)%N -> 0 < fuel ->
  Hex_fuel fuel n <> [] /\ forallb ishex (Hex_fuel fuel n) = true /\
  fold_left (fun acc c => 16 * acc + unhex c)%N (Hex_fuel fuel n) 0%N = n.
Proof.
  revert n. induction fuel as [|fuel IH]; intros n Hn Hf; [lia|]. cbn [Hex_fuel].
  destruct (N.ltb_spec n 16) as [Hlt|Hge].
  { destruct (hexDigit_spec n Hlt) as [H1 H2]. cbn. rewrite H1, H2. split_and!; [done|done|lia]. }
  assert (Hf' : 0 < fuel) by (destruct fuel; [simpl in Hn; lia|lia]).
  assert (Hq : (n / 16 < 2 ^ N.of_nat fuel)%N).
  { rewrite Nat2N.inj_succ, N.pow_succ_r' in Hn. apply N.Div0.div_lt_upper_bound. lia. }
  destruct (IH _ Hq Hf') as (Hne & Hhex & Hval). destruct (hexDigit_spec (n mod 16)) as [H1 H2]; [by apply N.mod_lt|].
  split_and!.
  - by destruct (Hex_fuel fuel (n / 16)).
  - rewrite forallb_app, Hhex. cbn. by rewrite H2.
  - rewrite fold_left_app, Hval. cbn. rewrite H1. symmetry. apply N.div_mod. lia.
Qed.

Lemma Hex_spec n :
  Hex n <> [] /\ forallb ishex (Hex n) = true /\ parseHex (Hex n) = Some n.
Proof.
  destruct (Hex_fuel_spec (S (N.to_nat (N.size n))) n) as (Hne & Hh & Hv); [|lia|].
  - rewrite Nat2N.inj_succ, N2Nat.id, N.pow_succ_r'. pose proof (N.size_gt n). lia.
  - split_and!; [done|done|]. unfold parseHex. fold (Hex n) in *. rewrite Hh, bool_decide_true by done.
    cbn [andb]. by rewrite Hv.
Qed.

Lemma ishex_noLF s : forallb ishex s = true -> Byte.x0a ∉ s.
Proof. rewrite forallb_forall. intros Hs Hin%list_elem_of_In. by specialize (Hs _ Hin). Qed.

(** ** Chunked bodies *)

Lemma readLine_empty rest : readLine (CRLF ++ rest) = Some ([], rest).
Proof. apply (readLine_CRLF []). set_solver. Qed.

Lemma decode_chunk fuel data rest :
  data <> [] ->
  decodeChunked (S fuel) (chunkedWrite data ++ rest) =
  '(body, tail) ← decodeChunked fuel rest; Some (data ++ body, tail).
Proof.
  intros Hne. unfold chunkedWrite. rewrite decide_False by done. cbn [decodeChunked].
  destruct (Hex_spec (N.of_nat (length data))) as (_ & Hh & Hp).
  rewrite <- !app_assoc, readLine_CRLF by by apply ishex_noLF. cbn [mbind option_bind]. rewrite Hp. cbn [mbind option_bind].
  rewrite decide_False by (destruct data; [done|simpl; lia]). cbv zeta. rewrite Nat2N.id, length_app.
  destruct (Nat.ltb_spec (length data + length (CRLF ++ rest)) (length data)); [lia|].
  rewrite drop_app_length, readLine_empty. cbn [mbind option_bind]. by rewrite decide_True, take_app_length.
Qed.

Lemma writeBody_decodes writes trailers rest :
  Forall (fun w => w <> []) writes ->
  decodeChunked (S (length writes)) (writeBodyStreaming writes true trailers ++ rest) =
  Some (concat writes, concat (map renderLine (subsetLines trailers [])) ++ CRLF ++ rest).
Proof.
  unfold writeBodyStreaming. rewrite <- app_assoc. intros Hw. induction Hw as [|w writes Hne Hw IH].
  - cbn [map concat app length]. unfold closeChunkedBody. rewrite <- !app_assoc.
    cbn [decodeChunked]. rewrite readLine_CRLF by (by apply (bool_decide_eq_true_1 (_ ∉ _))). done.
  - cbn [map concat length]. rewrite <- app_assoc. rewrite decode_chunk by done. rewrite IH. done.
Qed.

(** The chunked body the proxy writes, whatever the sizes of its writes,
    decodes to exactly the bytes written, followed by the trailers. *)
Theorem chunked_roundtrip writes trailers rest :
  Forall (fun w => w <> []) writes ->
  decodeChunked (S (length writes)) (writeBodyStreaming writes true trailers ++ rest) =
  Some (concat writes, concat (map renderLine (subsetLines trailers [])) ++ CRLF ++ rest).
Proof. apply writeBody_decodes. Qed.

Lemma chunked_roundtrip_witness :
  decodeChunked 3 (writeBodyStreaming [str "hello"; str "x"] true [(str "Etag", [str "1"])] ++ str "next") =
  Some (str "hellox", str "Etag: 1" ++ CRLF ++ CRLF ++ str "next").
Proof.
  refine (chunked_roundtrip [str "hello"; str "x"] [(str "Etag", [str "1"])] (str "next") _).
  repeat constructor; discriminate.
Defined.

(** ** Header blocks *)

Lemma trimLeftText_suffix s : exists a, s = a ++ trimLeftText s.
Proof.
  induction s as [|b s [a IH]]; simpl; [by exists []|]. destruct (textSpace b); [|by exists []].
  exists (b :: a). simpl. by f_equal.
Qed.

Lemma trimLeftText_idem s : trimLeftText (trimLeftText s) = trimLeftText s.
Proof.
  induction s as [|b s IH]; simpl; [done|]. destruct (textSpace b) eqn:E; [done|]. simpl. by rewrite E.
Qed.

Lemma TrimString_prefix s : exists b, trimLeftText s = TrimString s ++ b.
Proof.
  unfold TrimString. destruct (trimLeftText_suffix (rev (trimLeftText s))) as [a Ha].
  exists (rev a). rewrite <- rev_app_distr, <- Ha. by rewrite rev_involutive.
Qed.

Lemma trimLeftText_prefix s t b : trimLeftText s = t ++ b -> trimLeftText t = t.
Proof.
  intros E. destruct t as [|c t]; [done|]. pose proof (trimLeftText_idem s) as Hi. rewrite E in Hi.
  simpl in Hi |- *. destruct (textSpace c) eqn:Ec; [|done]. exfalso.
  destruct (trimLeftText_suffix (t ++ b)) as [a Ha]. apply (f_equal length) in Ha.
  rewrite Hi in Ha. rewrite !length_app in Ha. simpl in Ha. rewrite length_app in Ha. lia.
Qed.

Lemma TrimString_idem s : TrimString (TrimString s) = TrimString s.
Proof.
  destruct (TrimString_prefix s) as [b Hb]. unfold TrimString at 1. rewrite (trimLeftText_prefix _ _ _ Hb).
  unfold TrimString. by rewrite rev_involutive, trimLeftText_idem.
Qed.

Lemma TrimString_elem s c : c ∈ TrimString s -> c ∈ s.
Proof.
  intros Hc. destruct (TrimString_prefix s) as [b Hb]. destruct (trimLeftText_suffix s) as [a ->].
  rewrite Hb. set_solver.
Qed.

Lemma TrimString_space v : TrimString (" "%byte :: v) = TrimString v.
Proof. done. Qed.

Lemma TrimString_none v : Forall (fun c => textSpace c = false) v -> TrimString v = v.
Proof.
  assert (Hl : forall v, Forall (fun c => textSpace c = false) v -> trimLeftText v = v).
  { intros u Hu. destruct Hu as [|c u Hc _]; simpl; [done|by rewrite Hc]. }
  intros Hv. unfold TrimString. rewrite (Hl v Hv), Hl; [by rewrite rev_involutive|].
  apply Forall_forall. intros c Hc. rewrite Forall_forall in Hv. apply Hv, list_elem_of_In, in_rev, list_elem_of_In, Hc.
Qed.

(** A line that a peer reads back as it was meant. *)
Definition line_ok (kv : bytes * bytes) : Prop :=
  kv.1 <> [] /\ (":"%byte ∉ kv.1) /\ (Byte.x0a ∉ kv.1) /\ (Byte.x0a ∉ kv.2) /\ TrimString kv.2 = kv.2.

Lemma readHeader_lines lines rest :
  Forall line_ok lines ->
  readHeader (S (length lines)) (concat (map renderLine lines) ++ CRLF ++ rest) = Some (lines, rest).
Proof.
  intros Hl. induction Hl as [|[k v] lines (Hk & Hc & Hlk & Hlv & Ht) Hl IH]; cbn [fst snd] in *.
  { cbn [map concat app length readHeader]. by rewrite readLine_empty. }
  cbn [map concat length]. unfold renderLine at 1. cbn [fst snd]. rewrite <- !app_assoc.
  remember (S (length lines)) as fuel. cbn [readHeader]. replace (k ++ str ": " ++ v ++ CRLF ++ concat (map renderLine lines) ++ CRLF ++ rest)
    with ((k ++ ":"%byte :: " "%byte :: v) ++ CRLF ++ (concat (map renderLine lines) ++ CRLF ++ rest))
    by (rewrite <- !app_assoc; done).
  rewrite readLine_CRLF by (rewrite elem_of_app, !elem_of_cons; naive_solver).
  cbn [mbind option_bind]. rewrite decide_False by (by destruct k). rewrite IndexByte_first by done.
  cbn [mbind option_bind]. rewrite IH.
  cbn [mbind option_bind]. rewrite take_app_length.
  replace (drop (S (length k)) (k ++ ":"%byte :: " "%byte :: v)) with (" "%byte :: v).
  { by rewrite TrimString_space, Ht. }
  replace (S (length k)) with (length (k ++ [":"%byte])) by (rewrite length_app; simpl; lia).
  change (":"%byte :: " "%byte :: v) with ([":"%byte] ++ " "%byte :: v). by rewrite app_assoc, drop_app_length.
Qed.

Lemma field_byte_ok c : headerFieldByte c = true -> c <> ":"%byte /\ c <> Byte.x0a.
Proof. by destruct c. Qed.

Lemma newlineToSpace_noLF v : Byte.x0a ∉ map newlineToSpace v.
Proof.
  intros (b & Hb & _)%list_elem_of_fmap. unfold newlineToSpace in Hb. by destruct b.
Qed.

Lemma subsetLines_elem h exclude k v :
  (k, v) ∈ subsetLines h exclude -> (k ∉ exclude) /\ validFieldName k = true /\ (exists v0, v = cleanValue v0) /\ k ∈ map fst h.
Proof.
  unfold subsetLines. intros Hin. apply list_elem_of_In, in_concat in Hin as (l & Hl & Hin).
  apply in_map_iff in Hl as (k' & <- & Hk'). case_bool_decide as He; [done|].
  destruct (validFieldName k') eqn:Ev; [|done]. apply in_map_iff in Hin as (v0 & [= -> <-] & _).
  split_and!; [done|done|by eexists|]. apply list_elem_of_In in Hk'.
  unfold sortStrings in Hk'. by rewrite merge_sort_Permutation in Hk'.
Qed.

Lemma subsetLines_ok h exclude : Forall line_ok (subsetLines h exclude).
Proof.
  apply Forall_forall. intros [k v] (_ & Hv & [v0 ->] & _)%subsetLines_elem.
  apply andb_true_iff in Hv as [Hne%bool_decide_eq_true Hf]. rewrite forallb_forall in Hf.
  unfold line_ok. cbn [fst snd]. split_and!; [done| | | |apply TrimString_idem].
  - intros Hin%list_elem_of_In. by apply Hf, field_byte_ok in Hin as [? _].
  - intros Hin%list_elem_of_In. by apply Hf, field_byte_ok in Hin as [_ ?].
  - intros Hin%TrimString_elem. by apply newlineToSpace_noLF in Hin.
Qed.

Lemma digit_ok z : (0 <= z < 10)%Z -> textSpace (digit z) = false /\ digit z <> Byte.x0a.
Proof.
  intros Hz. assert (Hall : Forall (fun k => textSpace (digit (Z.of_nat k)) = false /\
    digit (Z.of_nat k) <> Byte.x0a) (seq 0 10)) by (repeat constructor; discriminate).
  rewrite Forall_forall in Hall. rewrite <- (Z2Nat.id z) by lia. apply Hall, elem_of_seq. lia.
Qed.

Lemma Itoa_ok z : (0 <= z)%Z -> Forall (fun c => textSpace c = false /\ c <> Byte.x0a) (Itoa z).
Proof.
  intros Hz. unfold Itoa. destruct (Z.ltb_spec z 0); [lia|]. generalize (S (Z.to_nat (Z.log2 z))) as fuel.
  intros fuel. clear H. revert z Hz. induction fuel as [|fuel IH]; intros z Hz; simpl; [constructor|].
  destruct (Z.ltb_spec z 10); [repeat constructor; by apply digit_ok|].
  apply Forall_app. split; [apply IH, Z.div_pos; lia|]. repeat constructor; apply digit_ok, Z.mod_pos_bound; lia.
Qed.

Lemma messageLines_ok h cl chunked close : Forall line_ok (messageLines h cl chunked close).
Proof.
  unfold messageLines. rewrite !Forall_app. split_and!; [apply subsetLines_ok| | |].
  - destruct (Z.leb_spec 0 cl) as [Hcl|]; cbn [andb]; [|constructor]. destruct chunked; cbn [negb]; [constructor|].
    pose proof (Itoa_ok cl Hcl) as Hd. rewrite Forall_forall in Hd.
    constructor; [|constructor]. unfold line_ok. cbn [fst snd].
    split_and!; [done|apply (bool_decide_eq_true_1 (_ ∉ _)); reflexivity..|by intros [_ ?]%Hd|].
    apply TrimString_none, Forall_forall. intros c Hc. by apply Hd.
  - destruct chunked; repeat constructor; try done; apply (bool_decide_eq_true_1 (_ ∉ _)); reflexivity.
  - destruct close; repeat constructor; try done; apply (bool_decide_eq_true_1 (_ ∉ _)); reflexivity.
Qed.

Definition isFraming (kv : bytes * bytes) : Prop := CanonicalHeaderKey kv.1 ∈ framingKeys.

#[global] Instance isFraming_dec kv : Decision (isFraming kv).
Proof. unfold isFraming. apply _. Defined.

Lemma subsetLines_framing h :
  Forall (fun k => CanonicalHeaderKey k = k) (map fst h) -> filter isFraming (subsetLines h framingKeys) = [].
Proof.
  intros Hc. destruct (filter isFraming (subsetLines h framingKeys)) as [|[k v] l] eqn:E; [done|]. exfalso.
  assert (Hin : (k, v) ∈ filter isFraming (subsetLines h framingKeys)) by (rewrite E; left).
  apply list_elem_of_filter in Hin as [Hf (Hk & _ & _ & Hin)%subsetLines_elem].
  rewrite Forall_forall in Hc. unfold isFraming in Hf. cbn [fst] in Hf. by rewrite (Hc _ Hin) in Hf.
Qed.

Lemma writeMessageHeaders_read h cl chunked close rest :
  Forall (fun k => CanonicalHeaderKey k = k) (map fst h) ->
  let lines := messageLines h cl chunked close in
  readHeader (S (length lines)) (writeMessageHeaders h cl chunked close ++ rest) = Some (lines, rest) /\
  filter isFraming lines =
    (if chunked then [(str "Transfer-Encoding", str "chunked")]
     else if (0 <=? cl)%Z then [(str "Content-Length", Itoa cl)] else []).
Proof.
  intros Hc lines. split.
  - unfold writeMessageHeaders. rewrite <- app_assoc. apply readHeader_lines, messageLines_ok.
  - unfold lines, messageLines. rewrite !filter_app, subsetLines_framing by done.
    destruct chunked, close, (0 <=? cl)%Z; reflexivity.
Qed.

(** A peer that reads the header block the proxy writes finds exactly
    the lines that were meant, whatever bytes the values have, so a value
    cannot add a line; and exactly one of them frames the body (none when the
    length is unknown and the body is not chunked), whatever framing headers
    the message came with. *)
Theorem header_block_safe h cl chunked close rest :
  Forall (fun k => CanonicalHeaderKey k = k) (map fst h) ->
  let lines := messageLines h cl chunked close in
  readHeader (S (length lines)) (writeMessageHeaders h cl chunked close ++ rest) = Some (lines, rest) /\
  filter isFraming lines =
    (if chunked then [(str "Transfer-Encoding", str "chunked")]
     else if (0 <=? cl)%Z then [(str "Content-Length", Itoa cl)] else []).
Proof. apply writeMessageHeaders_read. Qed.

Lemma header_block_safe_witness :
  let h := [(str "X-A", [str "1" ++ CRLF ++ str "Content-Length: 9"]); (str "Transfer-Encoding", [str "chunked"])] in
  let lines := messageLines h 5 false true in
  readHeader (S (length lines)) (writeMessageHeaders h 5 false true ++ str "body") = Some (lines, str "body") /\
  filter isFraming lines = [(str "Content-Length", Itoa 5)].
Proof.
  refine (header_block_safe _ 5 false true (str "body") _). repeat constructor.
Defined.
