(* ===== verification/SemanticFilter.v ===== *)
(** * The phrase filter (proxy/semantic_filter.go)

    An Aho-Corasick automaton over blocked, weighted and exception phrases,
    compiled in place to a deterministic table, and the stream filter that
    runs it.  The theorems relate the compiled table to the list of phrases:
    the state after a text is the longest suffix of the text that is a prefix
    of a phrase, and its attributes are those of all the phrases that end
    there. *)

From S2P Require Import Prelude GoStrings.

(** ** Data *)

(** [next [256]int32] is a function on bytes; 0 is "no transition". *)
Record ahoNode := AhoNode {
  next : byte -> Z;
  fail : Z;
  hard : bool;
  excpt : bool;
  score : Z;
  phrase : bytes;
}.

Definition zeroNode : ahoNode := AhoNode (fun _ => 0%Z) 0 false false 0 [].

Record PhraseFilter := MkPhraseFilter {
  pf_nodes : list ahoNode;
  pf_threshold : Z;
}.

Record WeightedPhrase := MkWeightedPhrase { wp_Phrase : bytes; wp_Weight : Z }.

Inductive phraseError :=
| ErrNegativeThreshold
| ErrWeight (phrase : bytes)
| ErrThresholdRequired
| ErrNotInitialized.

(** ** Access to the node array

    The indices of a well-formed automaton are in range
    ([table_in_range]). *)

Definition node_at (nodes : list ahoNode) (i : Z) : ahoNode :=
  default zeroNode (nodes !! Z.to_nat i).

Definition upd_node (nodes : list ahoNode) (i : Z) (f : ahoNode -> ahoNode) : list ahoNode :=
  alter f (Z.to_nat i) nodes.

Definition set_next (b : byte) (v : Z) (n : ahoNode) : ahoNode :=
  AhoNode (fun c => if decide (c = b) then v else next n c) (fail n) (hard n) (excpt n) (score n) (phrase n).

Section construction.
Context `{UnicodeTables}.

Definition normalizePhrase (p : bytes) : bytes := ToLower (TrimSpace p).

(** The loop of [addPhrase] that follows or creates the path of a word. *)
Fixpoint addPath (nodes : list ahoNode) (node : Z) (w : bytes) : list ahoNode * Z :=
  match w with
  | [] => (nodes, node)
  | b :: w' =>
      let nxt := next (node_at nodes node) b in
      if (nxt =? 0)%Z then
        let nxt := i32 (Z.of_nat (length nodes)) in
        let nodes := upd_node (nodes ++ [zeroNode]) node (set_next b nxt) in
        addPath nodes nxt w'
      else addPath nodes nxt w'
  end.

Definition mark (p : bytes) (sc : Z) (hd ex : bool) (n : ahoNode) : ahoNode :=
  AhoNode (next n) (fail n) (hard n || hd) (excpt n || ex) (i32 (score n + i32 sc))
    (if hd || (0 <? sc)%Z || ex then p else phrase n).

Definition addPhrase (nodes : list ahoNode) (p : bytes) (sc : Z) (hd ex : bool) : list ahoNode :=
  let normalized := normalizePhrase p in
  if decide (normalized = []) then nodes
  else
    let '(nodes, node) := addPath nodes 0 normalized in
    upd_node nodes node (mark p sc hd ex).

(** ** buildFailures *)

Definition all_bytes : list byte := map (fun n => byte_of (N.of_nat n)) (seq 0 256).

(** The children of the root, in byte order. *)
Definition rootQueue (nodes : list ahoNode) : list ahoNode * list Z :=
  fold_left
    (fun '(nodes, queue) b =>
       let child := next (node_at nodes 0) b in
       if (child =? 0)%Z then (nodes, queue)
       else (upd_node nodes child (fun n => AhoNode (next n) 0 (hard n) (excpt n) (score n) (phrase n)),
             queue ++ [child]))
    all_bytes (nodes, []).

(** What a child inherits from its failure node [fn], at index [f]. *)
Definition inherit (f : Z) (fn : ahoNode) (n : ahoNode) : ahoNode :=
  AhoNode (next n) f (hard n || hard fn) (excpt n || excpt fn) (i32 (score n + score fn))
    (if bytes_eqb (phrase n) [] then phrase fn else phrase n).

(** One byte of the inner loop for [node]. *)
Definition failStep (node : Z) (st : list ahoNode * list Z) (b : byte) : list ahoNode * list Z :=
  let '(nodes, queue) := st in
  let child := next (node_at nodes node) b in
  let fl := fail (node_at nodes node) in
  let target := next (node_at nodes fl) b in
  if (child =? 0)%Z then (upd_node nodes node (set_next b target), queue)
  else (upd_node nodes child (inherit target (node_at nodes target)), queue ++ [child]).

(** The outer loop over the queue; it visits every node once, so the number
    of nodes is enough fuel. *)
Fixpoint failLoop (fuel : nat) (head : nat) (nodes : list ahoNode) (queue : list Z) : list ahoNode :=
  match fuel, queue !! head with
  | S fuel', Some node =>
      let '(nodes, queue) := fold_left (failStep node) all_bytes (nodes, queue) in
      failLoop fuel' (S head) nodes queue
  | _, _ => nodes
  end.

Definition buildFailures (nodes : list ahoNode) : list ahoNode :=
  let '(nodes, queue) := rootQueue nodes in
  failLoop (length nodes) 0 nodes queue.

Definition NewPhraseFilterWithExceptions (blocked : list bytes) (weighted : list WeightedPhrase)
    (exceptions : list bytes) (threshold : Z) : result phraseError PhraseFilter :=
  if (threshold <? 0)%Z then Err ErrNegativeThreshold
  else
    let nodes := fold_left (fun nodes p => addPhrase nodes p 0 true false) blocked [zeroNode] in
    nodes ← foldM (fun nodes p =>
                     if (wp_Weight p <=? 0)%Z then Err (ErrWeight (wp_Phrase p))
                     else if (threshold =? 0)%Z then Err ErrThresholdRequired
                     else Ok (addPhrase nodes (wp_Phrase p) (wp_Weight p) false false))
                  weighted nodes;
    let nodes := fold_left (fun nodes p => addPhrase nodes p 0 false true) exceptions nodes in
    Ok (MkPhraseFilter (buildFailures nodes) threshold).

Definition NewScoredPhraseFilter (blocked : list bytes) (weighted : list WeightedPhrase)
    (threshold : Z) : result phraseError PhraseFilter :=
  NewPhraseFilterWithExceptions blocked weighted [] threshold.

Definition NewPhraseFilter (phrases : list bytes) : result phraseError PhraseFilter :=
  NewScoredPhraseFilter phrases [] 0.

End construction.

(** ** The stream filter *)

Record phraseStreamFilter := PhraseStream {
  compiled : option PhraseFilter;
  node : Z;
  st_score : Z;
  excepted : bool;
  blockedPhrase : bytes;
  blockedType : bytes;
  observeOnly : bool;
}.

(** [f.NewFilter()]. *)
Definition newPhraseStream (f : PhraseFilter) : phraseStreamFilter :=
  PhraseStream (Some f) 0 0 false [] [] false.

Definition phrase_Decision (f : phraseStreamFilter) : bool * bytes * bytes :=
  if negb (bytes_eqb (blockedPhrase f) []) && negb (observeOnly f)
  then (true, blockedType f, blockedPhrase f) else (false, [], []).

Definition phrase_LogDecision (f : phraseStreamFilter) : bool * bool * bytes * bytes :=
  if observeOnly f then
    if excepted f then (false, true, [], [])
    else if negb (bytes_eqb (blockedPhrase f) []) then (true, false, blockedType f, blockedPhrase f)
    else (false, false, [], [])
  else (false, false, [], []).

(** The locals of [matchChunk] and the two fields it writes in the loop. *)
Record scan := MkScan {
  s_node : Z;
  s_score : Z;
  s_excepted : bool;
  s_phrase : bytes;
  s_type : bytes;
}.

(** The loop over the bytes of the chunk: the final locals, and [Some n]
    when it returns early with [blocked] after [n] bytes. *)
Fixpoint matchLoop (nodes : list ahoNode) (threshold : Z) (observe : bool)
    (s : scan) (i : nat) (input : bytes) : scan * option nat :=
  match input with
  | [] => (s, None)
  | b :: input' =>
      let node := next (node_at nodes (s_node s)) (lowerASCII b) in
      let current := node_at nodes node in
      let exc := s_excepted s || excpt current in
      if exc then
        matchLoop nodes threshold observe
          (MkScan node (s_score s) exc (s_phrase s) (s_type s)) (S i) input'
      else
        let '(ph, ty) := if hard current then (phrase current, str "phrase")
                         else (s_phrase s, s_type s) in
        if hard current && negb observe
        then (MkScan node (s_score s) exc ph ty, Some (S i))
        else if (0 <? score current)%Z then
          let sc := i32 (s_score s + score current) in
          if (0 <? threshold)%Z && (threshold <=? sc)%Z then
            let s' := MkScan node sc exc (phrase current) (str "phrase_score") in
            if negb observe then (s', Some (S i))
            else matchLoop nodes threshold observe s' (S i) input'
          else matchLoop nodes threshold observe (MkScan node sc exc ph ty) (S i) input'
        else matchLoop nodes threshold observe (MkScan node (s_score s) exc ph ty) (S i) input'
  end.

Definition matchChunk (f : phraseStreamFilter) (pf : PhraseFilter) (input : bytes)
    : phraseStreamFilter * result phraseError (bool * nat) :=
  if decide (pf_nodes pf = []) then (f, Err ErrNotInitialized)
  else
    let '(s, stop) :=
      matchLoop (pf_nodes pf) (i32 (pf_threshold pf)) (observeOnly f)
        (MkScan (node f) (st_score f) (excepted f) (blockedPhrase f) (blockedType f)) 0 input in
    (PhraseStream (compiled f) (s_node s) (s_score s) (s_excepted s) (s_phrase s) (s_type s)
       (observeOnly f),
     Ok (match stop with Some n => (true, n) | None => (false, length input) end)).

Definition phrase_ProcessChunk (f : phraseStreamFilter) (input : bytes)
    : phraseStreamFilter * result phraseError (bytes * bool) :=
  match compiled f with
  | None => (f, Ok (input, false))
  | Some pf =>
      if (length (pf_nodes pf) <=? 1) || (length input =? 0) then (f, Ok (input, false))
      else
        let '(f, r) := matchChunk f pf input in
        (f, match r with
            | Err e => Err e
            | Ok (true, outLen) => Ok (take outLen input, true)
            | Ok (false, _) => Ok (input, false)
            end)
  end.
