(* ===== verification/AhoCorasick.v ===== *)
(** * Correctness of the Aho-Corasick construction

    [SemanticFilter] builds the trie of the phrases node by node and then
    completes it in place, breadth first.  Here the array of nodes is related
    to the list [L] of the words its nodes stand for: first the trie
    ([trie_ok]), then the completed table ([table_ok]). *)

From S2P Require Import Prelude GoStrings SemanticFilter.

(** ** Longest suffixes in a prefix-closed set of words *)

Section words.
Context (L : list bytes).

Definition prefix_closed : Prop := [] ∈ L /\ forall w b, w ++ [b] ∈ L -> w ∈ L.

(** The longest suffix of [u] in [L]. *)
Fixpoint lsuf (u : bytes) : bytes :=
  if decide (u ∈ L) then u else match u with [] => [] | _ :: u' => lsuf u' end.

(** The longest proper suffix of [w] in [L]: the failure function. *)
Definition pf (w : bytes) : bytes := match w with [] => [] | _ :: w' => lsuf w' end.

Lemma lsuf_in u : [] ∈ L -> lsuf u ∈ L.
Proof. intros HL. induction u as [|x u IH]; simpl; case_decide; auto. Qed.

Lemma lsuf_id u : u ∈ L -> lsuf u = u.
Proof. destruct u; simpl; intros; by rewrite decide_True. Qed.

Lemma lsuf_suffix u : lsuf u `suffix_of` u.
Proof.
  induction u as [|x u IH]; simpl; case_decide; [done..|]. by apply suffix_cons_r.
Qed.

Lemma lsuf_length u : length (lsuf u) <= length u.
Proof. apply suffix_length, lsuf_suffix. Qed.

Lemma lsuf_max u v : v ∈ L -> v `suffix_of` u -> v `suffix_of` lsuf u.
Proof.
  intros Hv. induction u as [|x u IH]; simpl; intros Hs.
  { apply suffix_nil_inv in Hs as ->. apply suffix_nil. }
  case_decide as Hu; [done|]. apply suffix_cons_cases in Hs as [->|Hs]; [done|auto].
Qed.

(** Reading one more byte after [u] or after its longest suffix in [L]. *)
Lemma lsuf_snoc u b : prefix_closed -> lsuf (lsuf u ++ [b]) = lsuf (u ++ [b]).
Proof.
  intros [Hnil Hcl]. induction u as [|x u IH].
  { assert (lsuf [] = []) as -> by (simpl; by case_decide). done. }
  simpl. destruct (decide (x :: u ∈ L)) as [|Hu]; [done|].
  rewrite IH. destruct (decide (x :: u ++ [b] ∈ L)) as [Hin|]; [|done].
  destruct Hu. by apply (Hcl _ b).
Qed.

Lemma pf_length w : w <> [] -> length (pf w) < length w.
Proof. destruct w as [|x w]; [done|]. intros _. simpl. pose proof (lsuf_length w). lia. Qed.

Lemma pf_in w : [] ∈ L -> pf w ∈ L.
Proof. destruct w; simpl; auto using lsuf_in. Qed.

Lemma pf_snoc w b : prefix_closed -> w <> [] -> pf (w ++ [b]) = lsuf (pf w ++ [b]).
Proof. destruct w as [|x w]; [done|]. intros Hc _. simpl. by rewrite lsuf_snoc. Qed.

Lemma lsuf_snoc_out w b :
  prefix_closed -> w <> [] -> w ++ [b] ∉ L -> lsuf (w ++ [b]) = lsuf (pf w ++ [b]).
Proof.
  destruct w as [|x w]; [done|]. intros Hc _ Hn. simpl in *.
  rewrite decide_False by done. by rewrite lsuf_snoc.
Qed.

(** The suffixes of [w] in [L] are [w] and the suffixes of [pf w]. *)
Lemma suffix_pf w v : w ∈ L -> v ∈ L -> v `suffix_of` w <-> v = w \/ v `suffix_of` pf w.
Proof.
  intros Hw Hv. destruct w as [|x w]; simpl.
  - split; [tauto|]. by intros [->|].
  - split.
    + intros [->|Hs]%suffix_cons_cases; [by left|right]. by apply lsuf_max.
    + intros [->|Hs]; [done|]. apply suffix_cons_r. by etrans; [|apply lsuf_suffix].
Qed.

End words.

(** ** Indices of words *)

Fixpoint index_of (L : list bytes) (w : bytes) : option nat :=
  match L with
  | [] => None
  | v :: L' => if decide (v = w) then Some 0 else S <$> index_of L' w
  end.

(** The index as the array stores it: 0 for a word that is not there. *)
Definition idxZ (L : list bytes) (w : bytes) : Z :=
  match index_of L w with Some j => Z.of_nat j | None => 0%Z end.

Lemma index_of_Some L w j : index_of L w = Some j -> L !! j = Some w.
Proof.
  revert j. induction L as [|v L IH]; intros j; simpl; [done|].
  case_decide; [by intros [= <-]; subst|].
  intros (k & Hk & ->)%fmap_Some. by apply IH.
Qed.

Lemma index_of_lookup L w j : NoDup L -> L !! j = Some w -> index_of L w = Some j.
Proof.
  revert j. induction L as [|v L IH]; intros j Hnd; simpl; [done|].
  apply NoDup_cons in Hnd as [Hv Hnd]. destruct j as [|j]; simpl; intros Hj.
  - injection Hj as ->. by rewrite decide_True.
  - rewrite decide_False; [by rewrite (IH j)|]. intros ->. apply Hv. by eapply list_elem_of_lookup_2.
Qed.

Lemma index_of_None L w : index_of L w = None <-> w ∉ L.
Proof.
  induction L as [|v L IH]; simpl; [split; [set_solver|done]|].
  case_decide; [set_solver|]. rewrite fmap_None, IH. set_solver.
Qed.

Lemma idxZ_in L w : w ∈ L -> L !! Z.to_nat (idxZ L w) = Some w /\ (0 <= idxZ L w < Z.of_nat (length L))%Z.
Proof.
  intros Hw. unfold idxZ. destruct (index_of L w) as [j|] eqn:E; [|by apply index_of_None in E].
  apply index_of_Some in E. rewrite Nat2Z.id. split; [done|]. apply lookup_lt_Some in E. lia.
Qed.

Lemma idxZ_lookup L w j : NoDup L -> L !! j = Some w -> idxZ L w = Z.of_nat j.
Proof. intros Hnd Hj. unfold idxZ. by rewrite (index_of_lookup L w j). Qed.

Lemma idxZ_out L w : w ∉ L -> idxZ L w = 0%Z.
Proof. intros Hw%index_of_None. unfold idxZ. by rewrite Hw. Qed.

Lemma idxZ_zero L w : NoDup L -> L !! 0 = Some [] -> w <> [] -> idxZ L w = 0%Z <-> w ∉ L.
Proof.
  intros Hnd H0 Hne. split; [|apply idxZ_out]. intros Hz Hw.
  destruct (idxZ_in L w Hw) as [Hl _]. rewrite Hz in Hl. change (Z.to_nat 0) with 0 in Hl. congruence.
Qed.

Lemma idxZ_app L L' w : w ∈ L -> idxZ (L ++ L') w = idxZ L w.
Proof.
  intros Hw. unfold idxZ. induction L as [|v L IH]; [set_solver|]. simpl.
  case_decide; [done|]. assert (w ∈ L) as Hw' by set_solver. specialize (IH Hw').
  destruct (index_of L w) eqn:E; [|by apply index_of_None in E].
  destruct (index_of (L ++ L') w) eqn:E'; simpl in *; [lia|].
  apply index_of_None in E'. set_solver.
Qed.

(** ** The entries of the trie *)

Record entry := Entry {
  e_word : bytes;
  e_phrase : bytes;
  e_score : Z;
  e_hard : bool;
  e_excpt : bool;
}.

(** The fields of a node other than its transitions. *)
Record attr := Attr { a_fail : Z; a_hard : bool; a_excpt : bool; a_score : Z; a_phrase : bytes }.

Definition attrs (n : ahoNode) : attr := Attr (fail n) (hard n) (excpt n) (score n) (phrase n).
Definition zeroAttr : attr := Attr 0 false false 0 [].

Definition mark_attr (a : attr) (e : entry) : attr :=
  Attr (a_fail a) (a_hard a || e_hard e) (a_excpt a || e_excpt e)
    (i32 (a_score a + i32 (e_score e)))
    (if e_hard e || (0 <? e_score e)%Z || e_excpt e then e_phrase e else a_phrase a).

(** The attributes of the node of [w] after the entries [E]. *)
Definition own (E : list entry) (w : bytes) : attr :=
  fold_left (fun a e => if decide (e_word e = w) then mark_attr a e else a) E zeroAttr.

Lemma own_snoc E e w :
  own (E ++ [e]) w = if decide (e_word e = w) then mark_attr (own E w) e else own E w.
Proof. unfold own. by rewrite fold_left_app. Qed.

Lemma own_none E w : (forall e, e ∈ E -> e_word e <> w) -> own E w = zeroAttr.
Proof.
  induction E as [|e E IH] using rev_ind; [done|]. intros HE. rewrite own_snoc.
  rewrite decide_False; [apply IH|]; intros; apply HE; set_solver.
Qed.

(** ** The trie *)

Record trie_ok (L : list bytes) (E : list entry) (nodes : list ahoNode) : Prop := {
  tr_root : L !! 0 = Some [];
  tr_nodup : NoDup L;
  tr_closed : forall w b, w ++ [b] ∈ L -> w ∈ L;
  tr_length : length nodes = length L;
  tr_bound : (Z.of_nat (length L) <= 2 ^ 31)%Z;
  tr_entries : forall e, e ∈ E -> e_word e ∈ L /\ e_word e <> [];
  tr_next : forall i n w, nodes !! i = Some n -> L !! i = Some w ->
    forall b, next n b = idxZ L (w ++ [b]);
  tr_attrs : forall i n w, nodes !! i = Some n -> L !! i = Some w -> attrs n = own E w;
}.

Lemma trie_ok_closed L E nodes : trie_ok L E nodes -> prefix_closed L.
Proof. intros HT. split; [|apply HT]. eapply list_elem_of_lookup_2, tr_root, HT. Qed.

Lemma lookup_snoc_cases {A} (l : list A) x i y :
  (l ++ [x]) !! i = Some y -> (i < length l /\ l !! i = Some y) \/ (i = length l /\ x = y).
Proof.
  intros Hi. destruct (decide (i < length l)).
  - left. by rewrite lookup_app_l in Hi by lia.
  - right. pose proof (lookup_lt_Some _ _ _ Hi) as Hlt. rewrite length_app in Hlt. simpl in Hlt.
    assert (i = length l) as -> by lia. rewrite lookup_app_r, Nat.sub_diag in Hi by lia.
    by injection Hi.
Qed.

(** [addPhrase] creates the node of [w ++ [b]]. *)
Lemma trie_ok_grow L E nodes i w b :
  trie_ok L E nodes -> L !! i = Some w -> w ++ [b] ∉ L ->
  (Z.of_nat (S (length L)) <= 2 ^ 31)%Z ->
  trie_ok (L ++ [w ++ [b]]) E
    (alter (set_next b (Z.of_nat (length L))) i (nodes ++ [zeroNode])).
Proof.
  intros HT Hi Hn Hb. destruct HT as [Hr Hnd Hcl Hlen Hbd Hent Hnext Hattr].
  pose proof (lookup_lt_Some _ _ _ Hi) as Hilt.
  assert (Hnd' : NoDup (L ++ [w ++ [b]])).
  { apply NoDup_app. split_and!; [done|set_solver|apply NoDup_singleton]. }
  assert (Hidx : forall v, idxZ (L ++ [w ++ [b]]) v =
            if decide (v = w ++ [b]) then Z.of_nat (length L) else idxZ L v).
  { intros v. case_decide as Hv.
    - subst v. apply idxZ_lookup; [done|]. by rewrite lookup_app_r, Nat.sub_diag by lia.
    - destruct (decide (v ∈ L)); [by apply idxZ_app|]. rewrite !idxZ_out; set_solver. }
  constructor; try done.
  - by rewrite lookup_app_l by lia.
  - intros v c [Hv|Hv%list_elem_of_singleton]%elem_of_app; [set_solver|].
    apply app_inj_2 in Hv as [-> _]; [|done]. apply elem_of_app. left. by eapply list_elem_of_lookup_2.
  - by rewrite length_alter, !length_app, Hlen.
  - rewrite length_app. simpl. lia.
  - intros e He. destruct (Hent e He). set_solver.
  - intros j n v Hj Hv c. rewrite Hidx. destruct (decide (j = i)) as [->|Hne].
    + rewrite list_lookup_alter_eq, lookup_app_l in Hj by lia.
      apply fmap_Some in Hj as (n0 & Hn0 & ->).
      rewrite lookup_app_l in Hv by lia. assert (v = w) as -> by congruence.
      cbn [set_next next]. rewrite (Hnext _ _ _ Hn0 Hi).
      destruct (decide (c = b)) as [->|Hc]; [by rewrite decide_True|].
      rewrite decide_False; [done|]. intros [_ [= ->]]%app_inj_2; done.
    + rewrite list_lookup_alter_ne in Hj by done.
      apply lookup_snoc_cases in Hv as [[Hjl Hv]|[-> <-]].
      * rewrite lookup_app_l in Hj by lia. rewrite (Hnext _ _ _ Hj Hv).
        rewrite decide_False; [done|]. intros [-> _]%app_inj_2; [|done].
        apply Hne. exact (NoDup_lookup _ _ _ _ Hnd Hv Hi).
      * rewrite <- Hlen, lookup_app_r, Nat.sub_diag in Hj by lia. injection Hj as <-.
        rewrite decide_False by (intros Heq%(f_equal length); rewrite !length_app in Heq; simpl in Heq; lia).
        simpl. symmetry. apply idxZ_out. intros Hin. apply Hn. by apply (Hcl _ c).
  - intros j n v Hj Hv.
    assert (exists n0, (nodes ++ [zeroNode]) !! j = Some n0 /\ attrs n = attrs n0) as (n0 & Hn0 & ->).
    { destruct (decide (j = i)) as [->|Hne].
      - rewrite list_lookup_alter_eq in Hj. apply fmap_Some in Hj as (n0 & Hn0 & ->). eauto.
      - rewrite list_lookup_alter_ne in Hj by done. eauto. }
    apply lookup_snoc_cases in Hv as [[Hjl Hv]|[-> <-]].
    + rewrite lookup_app_l in Hn0 by lia. eauto.
    + rewrite <- Hlen, lookup_app_r, Nat.sub_diag in Hn0 by lia. injection Hn0 as <-.
      symmetry. apply own_none. intros e He Hw. destruct (Hent e He). congruence.
Qed.

Lemma i32_small z : (0 <= z < 2 ^ 31)%Z -> i32 z = z.
Proof. intros Hz. unfold i32, wrapS. rewrite Z.mod_small; lia. Qed.

Lemma node_at_lookup nodes i : (exists n, nodes !! Z.to_nat i = Some n) ->
  nodes !! Z.to_nat i = Some (node_at nodes i).
Proof. intros [n Hn]. unfold node_at. by rewrite Hn. Qed.

Lemma trie_node L E nodes i w :
  trie_ok L E nodes -> L !! Z.to_nat i = Some w -> nodes !! Z.to_nat i = Some (node_at nodes i).
Proof.
  intros HT Hi. apply node_at_lookup, lookup_lt_is_Some_2.
  rewrite (tr_length _ _ _ HT). by eapply lookup_lt_Some.
Qed.

Lemma addPath_spec v L E nodes i w :
  trie_ok L E nodes -> (0 <= i)%Z -> L !! Z.to_nat i = Some w ->
  (Z.of_nat (length L + length v) <= 2 ^ 31)%Z ->
  let '(nodes', j) := addPath nodes i v in
  exists L', trie_ok L' E nodes' /\ (0 <= j)%Z /\ L' !! Z.to_nat j = Some (w ++ v) /\
             length L' <= length L + length v.
Proof.
  revert L nodes i w. induction v as [|b v IH]; intros L nodes i w HT Hi HL Hb; simpl in *.
  { exists L. rewrite app_nil_r. eauto with lia. }
  pose proof (trie_node _ _ _ _ _ HT HL) as Hnode.
  rewrite (tr_next _ _ _ HT _ _ _ Hnode HL b).
  replace (w ++ b :: v) with ((w ++ [b]) ++ v) by by rewrite <- app_assoc.
  destruct (Z.eqb_spec (idxZ L (w ++ [b])) 0) as [Hz|Hz].
  - assert (Hout : w ++ [b] ∉ L).
    { apply (idxZ_zero L); [apply HT|apply HT|by destruct w|done]. }
    pose proof (trie_ok_grow L E nodes (Z.to_nat i) w b HT HL Hout ltac:(lia)) as HT'.
    rewrite (tr_length _ _ _ HT), i32_small by lia. unfold upd_node.
    specialize (IH _ _ (Z.of_nat (length L)) (w ++ [b]) HT' ltac:(lia)).
    rewrite Nat2Z.id, lookup_app_r, Nat.sub_diag, length_app in IH by lia. simpl in IH.
    specialize (IH eq_refl ltac:(lia)).
    destruct (addPath _ _ v) as [nodes' j]. destruct IH as (L' & ? & ? & ? & ?).
    exists L'. eauto with lia.
  - destruct (decide (w ++ [b] ∈ L)) as [Hin|Hout]; [|by rewrite idxZ_out in Hz].
    destruct (idxZ_in L _ Hin) as [Hl ?].
    specialize (IH L nodes (idxZ L (w ++ [b])) (w ++ [b]) HT ltac:(lia) Hl ltac:(lia)).
    destruct (addPath _ _ v) as [nodes' j]. destruct IH as (L' & ? & ? & ? & ?).
    exists L'. eauto with lia.
Qed.

Lemma trie_ok_mark L E nodes j w p sc hd ex :
  trie_ok L E nodes -> L !! j = Some w -> w <> [] ->
  trie_ok L (E ++ [Entry w p sc hd ex]) (alter (mark p sc hd ex) j nodes).
Proof.
  intros [Hr Hnd Hcl Hlen Hbd Hent Hnext Hattr] Hj Hne. constructor; try done.
  - by rewrite length_alter.
  - intros e [He| ->%list_elem_of_singleton]%elem_of_app; [by apply Hent|].
    split; [by eapply list_elem_of_lookup_2|done].
  - intros i n v Hi Hv. destruct (decide (j = i)) as [->|Hji].
    + rewrite list_lookup_alter_eq in Hi. apply fmap_Some in Hi as (n0 & Hn0 & ->).
      exact (Hnext i n0 v Hn0 Hv).
    + rewrite list_lookup_alter_ne in Hi by done. by apply (Hnext i).
  - intros i n v Hi Hv. rewrite own_snoc. cbn [e_word].
    destruct (decide (j = i)) as [->|Hji].
    + rewrite list_lookup_alter_eq in Hi. apply fmap_Some in Hi as (n0 & Hn0 & ->).
      rewrite decide_True by congruence. rewrite <- (Hattr _ _ _ Hn0 Hv). done.
    + rewrite list_lookup_alter_ne in Hi by done.
      rewrite decide_False; [eauto|]. intros <-. apply Hji. exact (NoDup_lookup _ _ _ _ Hnd Hj Hv).
Qed.

Section entries.
Context `{UnicodeTables}.

(** What [addPhrase] adds to the trie. *)
Definition entry_of (p : bytes) (sc : Z) (hd ex : bool) : list entry :=
  let w := normalizePhrase p in
  if decide (w = []) then [] else [Entry w p sc hd ex].

Definition entries_size (E : list entry) : nat := sum_list_with (fun e => length (e_word e)) E.

Lemma addPhrase_spec L E nodes p sc hd ex :
  trie_ok L E nodes ->
  (Z.of_nat (length L + entries_size (entry_of p sc hd ex)) <= 2 ^ 31)%Z ->
  exists L', trie_ok L' (E ++ entry_of p sc hd ex) (addPhrase nodes p sc hd ex) /\
             length L' <= length L + entries_size (entry_of p sc hd ex).
Proof.
  intros HT Hb. unfold addPhrase, entry_of in *.
  destruct (decide (normalizePhrase p = [])) as [_|Hne]; simpl in *.
  { exists L. rewrite app_nil_r. eauto with lia. }
  pose proof (addPath_spec (normalizePhrase p) L E nodes 0 [] HT ltac:(lia) (tr_root _ _ _ HT) ltac:(lia)) as HP.
  destruct (addPath _ _ _) as [nodes' j]. destruct HP as (L' & HT' & Hj & HL' & Hlen).
  exists L'. split; [|lia]. by apply trie_ok_mark.
Qed.

(** The entries of a configuration, in the order they are added. *)
Definition config_entries (blocked : list bytes) (weighted : list WeightedPhrase)
    (exceptions : list bytes) : list entry :=
  concat (map (fun p => entry_of p 0 true false) blocked) ++
  concat (map (fun p => entry_of (wp_Phrase p) (wp_Weight p) false false) weighted) ++
  concat (map (fun p => entry_of p 0 false true) exceptions).

Lemma entries_size_app E E' : entries_size (E ++ E') = entries_size E + entries_size E'.
Proof. apply sum_list_with_app. Qed.

Lemma addPhrases_spec {A} (f : A -> bytes * Z * bool * bool) l L E nodes :
  let ents := concat (map (fun x => let '(p, sc, hd, ex) := f x in entry_of p sc hd ex) l) in
  trie_ok L E nodes -> (Z.of_nat (length L + entries_size ents) <= 2 ^ 31)%Z ->
  exists L', trie_ok L' (E ++ ents)
               (fold_left (fun nodes x => let '(p, sc, hd, ex) := f x in addPhrase nodes p sc hd ex) l nodes) /\
             length L' <= length L + entries_size ents.
Proof.
  revert L E nodes. induction l as [|x l IH]; intros L E nodes; cbv zeta; simpl; intros HT Hb.
  { exists L. rewrite app_nil_r. eauto with lia. }
  rewrite entries_size_app in *. destruct (f x) as [[[p sc] hd] ex].
  destruct (addPhrase_spec L E nodes p sc hd ex HT ltac:(lia)) as (L1 & HT1 & Hl1).
  destruct (IH L1 _ _ HT1 ltac:(cbv zeta; lia)) as (L2 & HT2 & Hl2).
  exists L2. rewrite app_assoc. split; [done|lia].
Qed.

Lemma trie_ok_init : trie_ok [[]] [] [zeroNode].
Proof.
  constructor; try done.
  - apply NoDup_singleton.
  - intros w b Hw%list_elem_of_singleton. by destruct w.
  - intros e He. inv He.
  - intros [|i] n w; [|done]. intros [= <-] [= <-] b. done.
  - intros [|i] n w; [|done]. by intros [= <-] [= <-].
Qed.

End entries.

(** ** Phrases that end at a word *)

Section aggregate.
Context (E : list entry).

Definition ends (e : entry) (w : bytes) : bool := bool_decide (e_word e `suffix_of` w).

Definition agg_hard (w : bytes) : bool := existsb (fun e => e_hard e && ends e w) E.
Definition agg_excpt (w : bytes) : bool := existsb (fun e => e_excpt e && ends e w) E.
Definition weight_sum (P : entry -> bool) : Z :=
  foldr (fun e z => ((if P e then e_score e else 0) + z)%Z) 0%Z E.
Definition agg_score (w : bytes) : Z := i32 (weight_sum (fun e => ends e w)).

(** A phrase reported at [w] is the phrase of an entry that ends there, and
    there is one when an entry ends there. *)
Definition agg_phrase (w p : bytes) : Prop :=
  if decide (p = []) then Forall (fun e => ends e w = false) E
  else exists e, e ∈ E /\ ends e w = true /\ p = e_phrase e.

(** Every entry reports a non-empty phrase. *)
Definition entries_ok : Prop :=
  Forall (fun e => e_word e <> [] /\ e_phrase e <> [] /\
                   e_hard e || (0 <? e_score e)%Z || e_excpt e = true) E.
End aggregate.

Lemma i32_add a b : i32 (i32 a + i32 b) = i32 (a + b).
Proof.
  unfold i32, wrapS. f_equal.
  replace ((a + 2 ^ (32 - 1)) mod 2 ^ 32 - 2 ^ (32 - 1) +
           ((b + 2 ^ (32 - 1)) mod 2 ^ 32 - 2 ^ (32 - 1)) + 2 ^ (32 - 1))%Z
    with ((a + 2 ^ (32 - 1)) mod 2 ^ 32 + (b + 2 ^ (32 - 1)) mod 2 ^ 32 - 2 ^ (32 - 1))%Z by lia.
  rewrite Zminus_mod, <- Zplus_mod, <- Zminus_mod. f_equal. lia.
Qed.

Lemma i32_idem a : i32 (i32 a) = i32 a.
Proof. pose proof (i32_add a 0) as Ha. by rewrite !Z.add_0_r in Ha. Qed.

Lemma weight_sum_snoc E e P :
  weight_sum (E ++ [e]) P = (weight_sum E P + if P e then e_score e else 0)%Z.
Proof.
  unfold weight_sum. rewrite foldr_app. simpl. rewrite Z.add_0_r.
  induction E; simpl; lia.
Qed.

Lemma weight_sum_split E P Q R :
  (forall e, e ∈ E -> P e = Q e || R e /\ Q e && R e = false) ->
  weight_sum E P = (weight_sum E Q + weight_sum E R)%Z.
Proof.
  induction E as [|e E IH]; intros HE; [done|]. simpl.
  rewrite IH by (intros; apply HE; set_solver).
  destruct (HE e ltac:(left)) as [-> HQR]. destruct (Q e), (R e); simpl in *; try done; lia.
Qed.

Lemma weight_sum_none E P : (forall e, e ∈ E -> P e = false) -> weight_sum E P = 0%Z.
Proof.
  induction E as [|e E IH]; intros HE; [done|]. simpl.
  rewrite IH by (intros; apply HE; set_solver). by rewrite HE by left.
Qed.

(** The attributes of a node before failure links, by entries. *)
Lemma own_fields E w :
  let P e := bool_decide (e_word e = w) in
  a_fail (own E w) = 0%Z /\
  a_hard (own E w) = existsb (fun e => e_hard e && P e) E /\
  a_excpt (own E w) = existsb (fun e => e_excpt e && P e) E /\
  a_score (own E w) = i32 (weight_sum E P) /\
  (entries_ok E ->
   if decide (a_phrase (own E w) = []) then Forall (fun e => P e = false) E
   else exists e, e ∈ E /\ P e = true /\ a_phrase (own E w) = e_phrase e).
Proof.
  cbv zeta. induction E as [|e E IH] using rev_ind.
  { split_and!; [done..|]. intros _. rewrite decide_True by done. constructor. }
  destruct IH as (IHf & IHh & IHx & IHs & IHp).
  rewrite !existsb_app, own_snoc, weight_sum_snoc. simpl.
  destruct (decide (e_word e = w)) as [He|He].
  - rewrite (bool_decide_true (e_word e = w)) by done. simpl.
    rewrite IHf, IHh, IHx, IHs, !andb_true_r, !orb_false_r, i32_add. split_and!; try done.
    intros HE. unfold entries_ok in HE. rewrite Forall_app, Forall_singleton in HE.
    destruct HE as [_ (_ & Hph & ->)]. rewrite decide_False by done.
    exists e. split_and!; [set_solver| |done]. by apply bool_decide_true.
  - rewrite (bool_decide_false (e_word e = w)) by done.
    rewrite !andb_false_r, !orb_false_r, Z.add_0_r. split_and!; try done.
    unfold entries_ok. rewrite Forall_app. intros [HE _]. specialize (IHp HE).
    revert IHp. destruct (decide _); intros IHp.
    + apply Forall_app. split; [done|]. constructor; [by apply bool_decide_false|constructor].
    + destruct IHp as (e' & ? & ? & ?). exists e'. set_solver.
Qed.

(** ** Completing the table *)

Section bfs.
Context (L : list bytes) (E : list entry).
Context (Hroot : L !! 0 = Some []) (Hnodup : NoDup L).
Context (Hclosed : forall w b, w ++ [b] ∈ L -> w ∈ L).
Context (Hwords : forall e, e ∈ E -> e_word e ∈ L /\ e_word e <> []).
Context (Hentries : entries_ok E).

(** The node of a word. *)
Definition node_of (nodes : list ahoNode) (w : bytes) : ahoNode := node_at nodes (idxZ L w).

Definition attr_ok (w : bytes) (n : ahoNode) : Prop :=
  fail n = idxZ L (pf L w) /\ hard n = agg_hard E w /\ excpt n = agg_excpt E w /\
  score n = agg_score E w /\ agg_phrase E w (phrase n).

#[local] Lemma nil_in : [] ∈ L.
Proof. by eapply list_elem_of_lookup_2. Qed.

#[local] Lemma L_closed : prefix_closed L.
Proof. split; [apply nil_in|done]. Qed.

#[local] Lemma idxZ_nil : idxZ L [] = 0%Z.
Proof. by rewrite (idxZ_lookup L [] 0). Qed.

Lemma node_of_upd nodes w v f :
  length nodes = length L -> w ∈ L -> v ∈ L ->
  node_of (upd_node nodes (idxZ L w) f) v =
  if decide (v = w) then f (node_of nodes w) else node_of nodes v.
Proof.
  intros Hlen Hw Hv. destruct (idxZ_in L w Hw) as [Hlw ?], (idxZ_in L v Hv) as [Hlv ?].
  unfold node_of, node_at, upd_node. case_decide as Heq.
  - subst v. rewrite list_lookup_alter_eq.
    destruct (lookup_lt_is_Some_2 nodes (Z.to_nat (idxZ L w))) as [n ->]; [|done].
    rewrite Hlen. by eapply lookup_lt_Some.
  - rewrite list_lookup_alter_ne; [done|]. intros Hi. rewrite Hi in Hlw. congruence.
Qed.

Lemma ends_pf w e : w ∈ L -> e ∈ E ->
  ends e w = bool_decide (e_word e = w) || ends e (pf L w).
Proof.
  intros Hw He. destruct (Hwords e He). unfold ends.
  rewrite (bool_decide_ext _ _ (suffix_pf L w (e_word e) Hw ltac:(done))).
  repeat case_bool_decide; simpl; tauto.
Qed.

Lemma ends_pf_disjoint w e : w <> [] ->
  bool_decide (e_word e = w) && ends e (pf L w) = false.
Proof.
  intros Hw. apply andb_false_iff. unfold ends. case_bool_decide as He; [right|by left].
  apply bool_decide_false. intros Hs%suffix_length. rewrite He in Hs.
  pose proof (pf_length L w Hw). lia.
Qed.

Lemma existsb_orb {A} (P Q R S : A -> bool) l :
  (forall x, x ∈ l -> P x = Q x || R x) ->
  existsb (fun x => S x && P x) l = existsb (fun x => S x && Q x) l || existsb (fun x => S x && R x) l.
Proof.
  intros HP. induction l as [|x l IH]; [done|]. simpl.
  rewrite IH by (intros; apply HP; set_solver). rewrite (HP x) by left.
  destruct (S x), (Q x), (R x); simpl; try done; by rewrite ?orb_true_r.
Qed.

(** A node takes over the attributes of its failure node. *)
Lemma inherit_ok w n fn :
  w ∈ L -> w <> [] -> attrs n = own E w -> attr_ok (pf L w) fn ->
  attr_ok w (inherit (idxZ L (pf L w)) fn n).
Proof.
  intros Hw Hne Hn (_ & Hh & Hx & Hs & Hp).
  destruct (own_fields E w) as (_ & Oh & Ox & Os & Op). specialize (Op Hentries).
  rewrite <- Hn in Oh, Ox, Os, Op. simpl in *. unfold attr_ok. simpl. split_and!; [done|..].
  - rewrite Oh, Hh. symmetry. apply existsb_orb. intros. by apply ends_pf.
  - rewrite Ox, Hx. symmetry. apply existsb_orb. intros. by apply ends_pf.
  - rewrite Os, Hs. unfold agg_score. rewrite i32_add. f_equal. symmetry.
    apply weight_sum_split. intros e He. split; [by apply ends_pf|by apply ends_pf_disjoint].
  - unfold bytes_eqb.
    destruct (decide (phrase n = [])) as [Ep|Ep].
    + rewrite bool_decide_true by done. unfold agg_phrase in *. destruct (decide (phrase fn = [])) as [Ef|Ef].
      * rewrite Forall_forall in Op, Hp |- *. intros e He. by rewrite ends_pf, (Op e He), (Hp e He).
      * destruct Hp as (e & He & Hen & ->). exists e. split_and!; [done| |done].
        by rewrite ends_pf, Hen, orb_true_r.
    + rewrite bool_decide_false by done. unfold agg_phrase. rewrite decide_False by done.
      destruct Op as (e & He & Hen & Hph). exists e. split_and!; [done| |done].
      by rewrite ends_pf, Hen.
Qed.

Lemma own_nil_ok n : attrs n = own E [] -> attr_ok [] n.
Proof.
  intros Hn. rewrite own_none in Hn by (intros e He; by destruct (Hwords e He)).
  assert (Hno : forall e, e ∈ E -> ends e [] = false).
  { intros e He. apply bool_decide_false. intros Hs%suffix_nil_inv. by destruct (Hwords e He). }
  assert (forall S, existsb (fun e => S e && ends e []) E = false) as HS.
  { intros S. apply not_true_is_false. rewrite existsb_exists. intros (e & He & Hb).
    rewrite Hno, andb_false_r in Hb; [done|]. by apply list_elem_of_In. }
  destruct n as [nx f h x s p]. unfold attrs, zeroAttr in Hn. simpl in Hn. simplify_eq.
  unfold attr_ok. simpl. split_and!.
  - by rewrite idxZ_nil.
  - symmetry. apply HS.
  - symmetry. apply HS.
  - unfold agg_score. by rewrite weight_sum_none.
  - unfold agg_phrase. simpl. by apply Forall_forall.
Qed.

(** The state of the breadth-first walk: the words [Q] of the queue, [k] of
    them processed, and the bytes [done] of word number [k] processed. *)
Definition final_at (Q : list bytes) (k : nat) (done : list byte) (w : bytes) (b : byte) : Prop :=
  w ∈ take k Q \/ (Q !! k = Some w /\ b ∈ done).

Record bfs_ok (Q : list bytes) (k : nat) (done : list byte) (nodes : list ahoNode) : Prop := {
  bf_length : length nodes = length L;
  bf_queue : forall w, w ∈ Q -> w ∈ L /\ w <> [];
  bf_nodup : NoDup Q;
  bf_sorted : forall i j v w, i <= j -> Q !! i = Some v -> Q !! j = Some w -> length v <= length w;
  bf_member : forall w b, w ++ [b] ∈ L -> w ++ [b] ∈ Q <-> w = [] \/ final_at Q k done w b;
  bf_final : forall w b, w ∈ L -> final_at Q k done w b ->
    next (node_of nodes w) b = idxZ L (lsuf L (w ++ [b]));
  bf_next : forall w b, w ∈ L -> ~ final_at Q k done w b ->
    next (node_of nodes w) b = idxZ L (w ++ [b]);
  bf_attr : forall w, w ∈ Q -> attr_ok w (node_of nodes w);
  bf_own : forall w, w ∈ L -> w ∉ Q -> attrs (node_of nodes w) = own E w;
}.

Section walk.
Context (Q : list bytes) (k : nat) (done : list byte) (nodes : list ahoNode).
Context (HI : bfs_ok Q k done nodes) (w : bytes) (Hk : Q !! k = Some w).

(** Words shorter than the current one are processed, words as short are
    queued. *)
Lemma bfs_short v : v ∈ Q -> length v < length w -> v ∈ take k Q.
Proof.
  intros [j Hj]%list_elem_of_lookup Hlt. apply elem_of_take. exists j. split; [done|].
  destruct (decide (j < k)) as [|Hge]; [done|].
  pose proof (bf_sorted _ _ _ _ HI k j w v ltac:(lia) Hk Hj). lia.
Qed.

Lemma bfs_queued v : v ∈ L -> v <> [] -> length v <= length w -> v ∈ Q.
Proof.
  induction v as [|c p IH] using rev_ind; [done|]. intros Hv _ Hlen.
  rewrite length_app in Hlen. simpl in Hlen. apply (bf_member _ _ _ _ HI); [done|].
  destruct (decide (p = [])) as [->|Hp]; [by left|right; left].
  apply bfs_short; [|lia]. apply IH; [by eapply Hclosed|done|lia].
Qed.

Lemma bfs_processed v : v ∈ L -> v <> [] -> length v < length w -> v ∈ take k Q.
Proof. intros. apply bfs_short; [apply bfs_queued; [done..|lia]|done]. Qed.

Lemma bfs_cur : w ∈ L /\ w <> [].
Proof. apply (bf_queue _ _ _ _ HI). by eapply list_elem_of_lookup_2. Qed.

(** The transition of the failure node is final. *)
Lemma bfs_target b : next (node_of nodes (pf L w)) b = idxZ L (lsuf L (pf L w ++ [b])).
Proof.
  destruct bfs_cur as [HwL Hwne]. pose proof (pf_in L w nil_in) as Hp.
  destruct (decide (pf L w = [])) as [E0|Hne].
  - rewrite E0. destruct (decide (final_at Q k done [] b)) as [Hf|Hf].
    + by apply (bf_final _ _ _ _ HI); [apply nil_in|].
    + rewrite (bf_next _ _ _ _ HI) by (done || apply nil_in). simpl.
      case_decide as Hb; [done|]. rewrite idxZ_out by done.
      case_decide; by rewrite idxZ_nil.
  - apply (bf_final _ _ _ _ HI); [done|left]. apply bfs_processed; [done..|by apply pf_length].
Qed.

(** Failure words no longer than the current one have their attributes. *)
Lemma bfs_attr v : v ∈ L -> length v <= length w -> attr_ok v (node_of nodes v).
Proof.
  intros Hv Hlen. destruct (decide (v = [])) as [->|Hne].
  - apply own_nil_ok, (bf_own _ _ _ _ HI); [done|]. intros Hq. by destruct (bf_queue _ _ _ _ HI _ Hq).
  - apply (bf_attr _ _ _ _ HI). by apply bfs_queued.
Qed.

Lemma final_at_step ext b v c :
  final_at (Q ++ ext) k (done ++ [b]) v c <-> final_at Q k done v c \/ (v = w /\ c = b).
Proof.
  pose proof (lookup_lt_Some _ _ _ Hk). unfold final_at.
  rewrite take_app_le, lookup_app_l, Hk, elem_of_app, list_elem_of_singleton by lia. naive_solver.
Qed.

Lemma failStep_missing b :
  ~ final_at Q k done w b -> w ++ [b] ∉ L ->
  exists nodes', failStep (idxZ L w) (nodes, map (idxZ L) Q) b = (nodes', map (idxZ L) Q) /\
                 bfs_ok Q k (done ++ [b]) nodes'.
Proof.
  intros Hb Hout. destruct bfs_cur as [HwL Hwne].
  pose proof (bf_length _ _ _ _ HI) as Hlen.
  destruct (bfs_attr w HwL ltac:(lia)) as (Hfail & _).
  eexists. split.
  - unfold failStep. fold (node_of nodes w). rewrite Hfail. fold (node_of nodes (pf L w)).
    rewrite bfs_target, (bf_next _ _ _ _ HI w b HwL Hb), idxZ_out by done. simpl. reflexivity.
  - rewrite <- lsuf_snoc_out by (done || apply L_closed).
    assert (Hst : forall v c, final_at Q k (done ++ [b]) v c <-> final_at Q k done v c \/ (v = w /\ c = b)).
    { intros v c. rewrite <- (final_at_step []), app_nil_r. done. }
    destruct HI as [Hl Hq Hnd Hs Hm Hf Hn Ha Ho]. constructor; try done.
    + unfold upd_node. by rewrite length_alter.
    + intros v c Hvc. rewrite Hst, (Hm v c Hvc). naive_solver.
    + intros v c Hv. rewrite Hst, node_of_upd by done. intros Hfin.
      case_decide as Hvw; [subst v|naive_solver]. cbn [set_next next].
      case_decide; [by subst|]. apply Hf; [done|]. naive_solver.
    + intros v c Hv. rewrite Hst, node_of_upd by done. intros Hfin.
      case_decide as Hvw; [subst v|naive_solver]. cbn [set_next next].
      rewrite decide_False by naive_solver. apply Hn; naive_solver.
    + intros v Hv. destruct (Hq v Hv). rewrite node_of_upd by done. case_decide as Hvw; [subst v|]; apply (Ha _ Hv).
    + intros v Hv HvQ. rewrite node_of_upd by done.
      case_decide as Hvw; [subst v|]; by apply Ho.
Qed.

Lemma bfs_queue_length v : v ∈ Q -> length v <= S (length w).
Proof.
  intros Hv. destruct (bf_queue _ _ _ _ HI v Hv) as [HvL Hne].
  destruct v as [|c p _] using rev_ind; [done|]. rewrite length_app. simpl.
  apply (bf_member _ _ _ _ HI) in Hv as [->|[Hp|[Hp _]]]; [simpl; lia| | |done].
  - apply elem_of_take in Hp as (j & Hj & Hlt).
    pose proof (bf_sorted _ _ _ _ HI j k p w ltac:(lia) Hj Hk). lia.
  - assert (p = w) as -> by congruence. lia.
Qed.

Lemma bfs_enqueue b nodes' :
  ~ final_at Q k done w b -> w ++ [b] ∈ L -> w ++ [b] ∉ Q ->
  length nodes' = length L ->
  (forall v, v ∈ L -> next (node_of nodes' v) = next (node_of nodes v)) ->
  (forall v, v ∈ L -> v <> w ++ [b] -> attrs (node_of nodes' v) = attrs (node_of nodes v)) ->
  attr_ok (w ++ [b]) (node_of nodes' (w ++ [b])) ->
  bfs_ok (Q ++ [w ++ [b]]) k (done ++ [b]) nodes'.
Proof.
  intros Hb Hin HnQ Hlen' Hnext Hattrs Hwb. destruct bfs_cur as [HwL Hwne].
  pose proof bfs_queue_length as Hql. pose proof (final_at_step [w ++ [b]] b) as Hst.
  destruct HI as [Hl Hq Hnd Hs Hm Hf Hn Ha Ho]. constructor; try done.
  - intros v [Hv|Hv%list_elem_of_singleton]%elem_of_app; [by apply Hq|]. subst. by destruct w.
  - apply NoDup_app. split_and!; [done| |apply NoDup_singleton]. set_solver.
  - intros i j v u Hij Hi Hj. apply lookup_snoc_cases in Hi as [[Hi1 Hi2]|[-> <-]].
    + apply lookup_snoc_cases in Hj as [[Hj1 Hj2]|[-> <-]]; [eauto|].
      rewrite length_app. simpl. pose proof (Hql v ltac:(by eapply list_elem_of_lookup_2)). lia.
    + apply lookup_snoc_cases in Hj as [[Hj1 _]|[_ <-]]; lia.
  - intros v c Hvc. rewrite Hst, elem_of_app, list_elem_of_singleton, (Hm v c Hvc).
    split; [|naive_solver]. intros [?|Heq]; [tauto|]. apply app_inj_2 in Heq as [-> [= ->]]; [|done]. tauto.
  - intros v c Hv [Hfin|[-> ->]]%Hst; rewrite Hnext by done; [by apply Hf|].
    rewrite lsuf_id by done. by apply Hn.
  - intros v c Hv. rewrite Hst, Hnext by done. intros Hfin. apply Hn; tauto.
  - intros v [Hv|Hv%list_elem_of_singleton]%elem_of_app; [|by subst]. destruct (Hq v Hv) as [HvL _].
    pose proof (Hattrs v HvL ltac:(congruence)) as Heq. pose proof (Ha v Hv) as Hok.
    unfold attr_ok in *. unfold attrs in Heq. injection Heq as -> -> -> -> ->. done.
  - intros v Hv HvQ. rewrite Hattrs by set_solver. apply Ho; set_solver.
Qed.

Lemma failStep_child b :
  ~ final_at Q k done w b -> w ++ [b] ∈ L ->
  exists nodes', failStep (idxZ L w) (nodes, map (idxZ L) Q) b
                 = (nodes', map (idxZ L) (Q ++ [w ++ [b]])) /\
                 bfs_ok (Q ++ [w ++ [b]]) k (done ++ [b]) nodes'.
Proof.
  intros Hb Hin. destruct bfs_cur as [HwL Hwne].
  pose proof (bf_length _ _ _ _ HI) as Hlen.
  assert (Hne : w ++ [b] <> []) by by destruct w.
  destruct (bfs_attr w HwL ltac:(lia)) as (Hfail & _).
  assert (HnQ : w ++ [b] ∉ Q) by (rewrite (bf_member _ _ _ _ HI) by done; tauto).
  assert (Hpf : pf L (w ++ [b]) = lsuf L (pf L w ++ [b])) by (apply pf_snoc; [apply L_closed|done]).
  assert (Hinh : attr_ok (w ++ [b])
     (inherit (idxZ L (pf L (w ++ [b]))) (node_of nodes (pf L (w ++ [b]))) (node_of nodes (w ++ [b])))).
  { apply inherit_ok; [done..|by apply (bf_own _ _ _ _ HI)|].
    apply bfs_attr; [apply pf_in, nil_in|]. pose proof (pf_length L _ Hne) as Hpl.
    rewrite length_app in Hpl. simpl in Hpl. lia. }
  eexists. split.
  - unfold failStep. fold (node_of nodes w). rewrite Hfail. fold (node_of nodes (pf L w)).
    rewrite bfs_target, (bf_next _ _ _ _ HI w b HwL Hb), <- Hpf, map_app.
    destruct (Z.eqb_spec (idxZ L (w ++ [b])) 0) as [Hz|_]; [|reflexivity].
    by apply (idxZ_zero L) in Hz.
  - apply bfs_enqueue; try done.
    + unfold upd_node. by rewrite length_alter.
    + intros v Hv. rewrite node_of_upd by done. case_decide; by subst.
    + intros v Hv Hvne. rewrite node_of_upd by done. by rewrite decide_False by done.
    + rewrite node_of_upd by done. by rewrite decide_True by done.
Qed.

End walk.

Lemma failStep_fold bs Q k done nodes w :
  bfs_ok Q k done nodes -> Q !! k = Some w -> NoDup (done ++ bs) ->
  exists nodes' Q', fold_left (failStep (idxZ L w)) bs (nodes, map (idxZ L) Q) = (nodes', map (idxZ L) Q') /\
    bfs_ok Q' k (done ++ bs) nodes' /\ Q' !! k = Some w.
Proof.
  revert Q done nodes. induction bs as [|b bs IH]; intros Q done nodes HI Hk Hnd.
  { rewrite app_nil_r. eauto. }
  replace (done ++ b :: bs) with ((done ++ [b]) ++ bs) in * by by rewrite <- app_assoc.
  assert (Hb : ~ final_at Q k done w b).
  { intros [Ht|[_ Hd]].
    - apply elem_of_take in Ht as (j & Hj & Hlt).
      pose proof (NoDup_lookup _ _ _ _ (bf_nodup _ _ _ _ HI) Hj Hk). lia.
    - apply NoDup_app in Hnd as (Hnd & _ & _). apply NoDup_app in Hnd as (_ & Hnd & _).
      by apply (Hnd b Hd), list_elem_of_singleton. }
  cbn [fold_left]. destruct (decide (w ++ [b] ∈ L)) as [Hin|Hout].
  - destruct (failStep_child _ _ _ _ HI w Hk b Hb Hin) as (nodes1 & -> & HI1).
    apply IH; [done| |done]. rewrite lookup_app_l; [done|by eapply lookup_lt_Some].
  - destruct (failStep_missing _ _ _ _ HI w Hk b Hb Hout) as (nodes1 & -> & HI1). by apply IH.
Qed.

Lemma bfs_ok_ext Q k done k' done' nodes :
  (forall v c, final_at Q k done v c <-> final_at Q k' done' v c) ->
  bfs_ok Q k done nodes -> bfs_ok Q k' done' nodes.
Proof.
  intros Hfin [Hl Hq Hnd Hs Hm Hf Hn Ha Ho]. constructor; try done.
  - intros v c Hvc. rewrite <- Hfin. auto.
  - intros v c Hv. rewrite <- Hfin. auto.
  - intros v c Hv. rewrite <- Hfin. auto.
Qed.

Definition table_ok (nodes : list ahoNode) : Prop :=
  length nodes = length L /\
  forall w, w ∈ L ->
    (forall b, next (node_of nodes w) b = idxZ L (lsuf L (w ++ [b]))) /\
    attr_ok w (node_of nodes w).

Lemma all_bytes_elem b : b ∈ all_bytes.
Proof.
  apply list_elem_of_In, in_map_iff. exists (N.to_nat (byte_val b)). split.
  - rewrite N2Nat.id. unfold byte_of, byte_val. by rewrite Byte.of_to_N.
  - apply in_seq. pose proof (byte_val_bound b). lia.
Qed.

Lemma all_bytes_nodup : NoDup all_bytes.
Proof. apply (bool_decide_unpack _). by vm_compute. Qed.

Lemma bfs_done Q k nodes : bfs_ok Q k [] nodes -> Q !! k = None -> table_ok nodes.
Proof.
  intros HI Hk%lookup_ge_None.
  assert (Hfin : forall v c, final_at Q k [] v c <-> v ∈ Q).
  { intros v c. unfold final_at. rewrite take_ge by done. set_solver. }
  assert (Hall : forall v, v ∈ L -> v <> [] -> v ∈ Q).
  { intros v. induction v as [|c p IH] using rev_ind; [done|]. intros Hv _.
    apply (bf_member _ _ _ _ HI); [done|]. rewrite Hfin.
    destruct (decide (p = [])) as [|Hp]; [by left|right]. apply IH; [by eapply Hclosed|done]. }
  assert (HnilQ : [] ∉ Q) by (intros Hq; by destruct (bf_queue _ _ _ _ HI _ Hq)).
  split; [apply HI|]. intros w Hw. destruct (decide (w = [])) as [->|Hne].
  - split; [|by apply own_nil_ok, (bf_own _ _ _ _ HI)]. intros b.
    rewrite (bf_next _ _ _ _ HI) by (done || by rewrite Hfin). simpl.
    case_decide as Hb; [done|]. rewrite idxZ_out by done. case_decide; by rewrite idxZ_nil.
  - split; [|by apply (bf_attr _ _ _ _ HI), Hall]. intros b.
    apply (bf_final _ _ _ _ HI); [done|]. apply Hfin. auto.
Qed.

Lemma failLoop_spec fuel Q k nodes :
  bfs_ok Q k [] nodes -> length L <= fuel + k ->
  table_ok (failLoop fuel k nodes (map (idxZ L) Q)).
Proof.
  revert Q k nodes. induction fuel as [|fuel IH]; intros Q k nodes HI Hf; cbn [failLoop].
  - apply (bfs_done Q k); [done|]. apply lookup_ge_None.
    assert (length Q <= length L); [|lia].
    apply submseteq_length, NoDup_submseteq; [apply HI|]. intros v Hv. by apply (bf_queue _ _ _ _ HI).
  - change (map (idxZ L) Q) with (idxZ L <$> Q). rewrite list_lookup_fmap.
    destruct (Q !! k) as [w|] eqn:Hk; cbn [fmap option_fmap option_map]; [|by apply (bfs_done Q k)].
    destruct (failStep_fold all_bytes Q k [] nodes w HI Hk all_bytes_nodup) as (nodes' & Q' & HF & HI' & Hk').
    change (idxZ L <$> Q) with (map (idxZ L) Q). rewrite HF.
    apply IH; [|lia]. change ([] ++ all_bytes) with all_bytes in HI'.
    eapply bfs_ok_ext; [|exact HI']. intros v c. unfold final_at.
    rewrite (take_S_r _ _ _ Hk'), Hk', elem_of_app, list_elem_of_singleton.
    split.
    + intros [Hv|[[= ->] _]]; left; [by left|by right].
    + intros [[Hv| ->]|[_ Hc]]; [by left| |inv Hc]. right. split; [done|apply all_bytes_elem].
Qed.

(** *** The children of the root *)

Definition rootStep : list ahoNode * list Z -> byte -> list ahoNode * list Z :=
  fun '(nodes, queue) b =>
    let child := next (node_at nodes 0) b in
    if (child =? 0)%Z then (nodes, queue)
    else (upd_node nodes child (fun n => AhoNode (next n) 0 (hard n) (excpt n) (score n) (phrase n)),
          queue ++ [child]).

Definition rootWords (bs : list byte) : list bytes :=
  map (fun b => [b]) (filter (fun b => [b] ∈ L) bs).

(** [nodes'] has the transitions and attributes of [nodes]. *)
Definition same_nodes (nodes nodes' : list ahoNode) : Prop :=
  length nodes' = length nodes /\
  forall w, w ∈ L -> next (node_of nodes' w) = next (node_of nodes w) /\
                     attrs (node_of nodes' w) = attrs (node_of nodes w).

Lemma rootStep_fold bs nodes Q :
  length nodes = length L ->
  (forall w, w ∈ L -> fail (node_of nodes w) = 0%Z) ->
  (forall b, next (node_of nodes []) b = idxZ L [b]) ->
  exists nodes', fold_left rootStep bs (nodes, map (idxZ L) Q) = (nodes', map (idxZ L) (Q ++ rootWords bs)) /\
                 same_nodes nodes nodes'.
Proof.
  revert nodes Q. induction bs as [|b bs IH]; intros nodes Q Hlen Hfail Hnext.
  { exists nodes. unfold rootWords. rewrite app_nil_r. by repeat split. }
  cbn [fold_left]. unfold rootStep at 2. rewrite <- idxZ_nil. fold (node_of nodes []). rewrite Hnext.
  unfold rootWords. rewrite filter_cons. destruct (decide ([b] ∈ L)) as [Hb|Hb].
  - destruct (Z.eqb_spec (idxZ L [b]) (idxZ L [])) as [Hz|_].
    { rewrite idxZ_nil in Hz. by apply (idxZ_zero L) in Hz. }
    set (nodes1 := upd_node _ _ _).
    assert (Hsame : same_nodes nodes nodes1).
    { split; [unfold nodes1, upd_node; by rewrite length_alter|]. intros w Hw.
      unfold nodes1. rewrite node_of_upd by done. case_decide; [subst w|done].
      unfold attrs. cbn. by rewrite (Hfail _ Hb), ?idxZ_nil. }
    destruct Hsame as [Hlen1 Hsame].
    destruct (IH nodes1 (Q ++ [[b]])) as (nodes2 & HF & Hlen2 & Hsame2).
    + congruence.
    + intros w Hw. destruct (Hsame w Hw) as [_ Ha]. unfold attrs in Ha.
      injection Ha as -> _ _ _ _. by apply Hfail.
    + intros c. destruct (Hsame [] nil_in) as [-> _]. done.
    + exists nodes2. rewrite map_app in HF. cbn [map] in HF |- *.
      rewrite HF, <- !app_assoc. split; [done|]. split; [congruence|].
      intros w Hw. destruct (Hsame w Hw) as [<- <-]. by apply Hsame2.
  - rewrite (idxZ_out L [b]) by done. rewrite idxZ_nil. cbn [Z.eqb].
    destruct (IH nodes Q Hlen Hfail Hnext) as (nodes2 & HF & Hsame2). exists nodes2. done.
Qed.

Lemma attr_ok_ext w n n' : attrs n = attrs n' -> attr_ok w n -> attr_ok w n'.
Proof. unfold attr_ok, attrs. intros [= -> -> -> -> ->]. done. Qed.

(** A word of one byte has no shorter phrase to inherit from. *)
Lemma own_single_ok b n root :
  [b] ∈ L -> attrs n = own E [b] -> attrs root = own E [] -> attr_ok [b] n.
Proof.
  intros Hb Hn Hr. pose proof (own_nil_ok root Hr) as Hro.
  assert (Hpf : pf L [b] = []) by (simpl; by case_decide).
  rewrite own_none in Hr by (intros e He; by destruct (Hwords e He)).
  destruct (own_fields E [b]) as (Of & _ & _ & Os & _).
  apply (attr_ok_ext _ (inherit (idxZ L (pf L [b])) root n)).
  - rewrite <- Hn in Of, Os. rewrite Hpf, idxZ_nil. unfold attrs, zeroAttr in *.
    cbn [inherit a_fail a_score fail hard excpt score phrase] in Of, Os |- *.
    injection Hr as _ -> -> -> ->. rewrite Of, !orb_false_r, Z.add_0_r, Os, i32_idem.
    f_equal. destruct (bytes_eqb (phrase n) []) eqn:Ep; [|done]. by apply bytes_eqb_eq in Ep.
  - apply inherit_ok; [done..|]. by rewrite Hpf.
Qed.

Lemma rootWords_elem w bs : w ∈ rootWords bs <-> exists b, w = [b] /\ [b] ∈ L /\ b ∈ bs.
Proof.
  unfold rootWords. change (map ?f ?l) with (f <$> l). rewrite list_elem_of_fmap.
  setoid_rewrite list_elem_of_filter. naive_solver.
Qed.

Lemma rootQueue_bfs nodes nodes0 :
  trie_ok L E nodes0 -> same_nodes nodes0 nodes -> bfs_ok (rootWords all_bytes) 0 [] nodes.
Proof.
  intros HT [Hlen Hsame].
  assert (Hview : forall w, w ∈ L -> (forall b, next (node_of nodes w) b = idxZ L (w ++ [b])) /\
                                     attrs (node_of nodes w) = own E w).
  { intros w Hw. destruct (Hsame w Hw) as [-> ->]. destruct (idxZ_in L w Hw) as [Hl _].
    pose proof (trie_node _ _ _ _ _ HT Hl) as Hn.
    split; [exact (tr_next _ _ _ HT _ _ _ Hn Hl)|exact (tr_attrs _ _ _ HT _ _ _ Hn Hl)]. }
  assert (Hfin : forall w b, ~ final_at (rootWords all_bytes) 0 [] w b).
  { intros w b [Hw|[_ Hw]]; [rewrite take_0 in Hw|]; inv Hw. }
  constructor.
  - rewrite Hlen. apply HT.
  - intros w (b & -> & Hb & _)%rootWords_elem. done.
  - unfold rootWords. apply NoDup_fmap_2; [intros ? ? [= ->]; done|]. apply NoDup_filter, all_bytes_nodup.
  - intros i j v w _ Hi Hj. apply list_elem_of_lookup_2, rootWords_elem in Hi as (? & -> & _), Hj as (? & -> & _). done.
  - intros w b Hwb. rewrite rootWords_elem. split.
    + intros (c & Hc & _). left. destruct w as [|x [|]]; simplify_eq/=; done.
    + intros [->|[]%Hfin]. exists b. split_and!; [done..|apply all_bytes_elem].
  - intros w b _ []%Hfin.
  - intros w b Hw _. by apply Hview.
  - intros w (b & -> & Hb & _)%rootWords_elem.
    apply (own_single_ok b _ (node_of nodes [])); [done|apply Hview; done|apply Hview, nil_in].
  - intros w Hw _. by apply Hview.
Qed.

(** [buildFailures] turns the trie into the complete table. *)
Lemma buildFailures_spec nodes : trie_ok L E nodes -> table_ok (buildFailures nodes).
Proof.
  intros HT. unfold buildFailures, rootQueue. fold rootStep.
  destruct (rootStep_fold all_bytes nodes []) as (nodes' & HF & Hsame).
  - apply HT.
  - intros w Hw. destruct (idxZ_in L w Hw) as [Hl _]. pose proof (trie_node _ _ _ _ _ HT Hl) as Hn.
    pose proof (tr_attrs _ _ _ HT _ _ _ Hn Hl) as Ha. destruct (own_fields E w) as (Hf & _).
    rewrite <- Ha in Hf. done.
  - intros b. destruct (idxZ_in L [] nil_in) as [Hl _]. pose proof (trie_node _ _ _ _ _ HT Hl) as Hn.
    exact (tr_next _ _ _ HT _ _ _ Hn Hl b).
  - change (map (idxZ L) []) with (@nil Z) in HF. rewrite HF.
    apply failLoop_spec; [by apply (rootQueue_bfs nodes' nodes)|].
    destruct Hsame as [-> _]. rewrite (tr_length _ _ _ HT). lia.
Qed.

End bfs.
