(* ===== verification/SemanticTheorems.v ===== *)
(** * Theorems on the phrase filter

    The stream filter of [SemanticFilter], on the table of a configuration,
    decides like a scan that looks at every position of the text for the
    phrases that end there. *)

From S2P Require Import Prelude GoStrings SemanticFilter AhoCorasick.

(** ** The table of a configuration *)

Record compiled_from (L : list bytes) (E : list entry) (nodes : list ahoNode) : Prop := {
  cf_root : L !! 0 = Some [];
  cf_nodup : NoDup L;
  cf_closed : prefix_closed L;
  cf_words : forall e, e ∈ E -> e_word e ∈ L /\ e_word e <> [];
  cf_table : table_ok L E nodes;
}.

Section configuration.
Context `{UnicodeTables}.

Lemma normalizePhrase_nil : normalizePhrase [] = [].
Proof. done. Qed.

Lemma entry_of_ok p sc hd ex :
  hd || (0 <? sc)%Z || ex = true -> entries_ok (entry_of p sc hd ex).
Proof.
  intros Hact. unfold entries_ok, entry_of. case_decide; [constructor|].
  repeat constructor; simpl; try done. intros ->. by rewrite normalizePhrase_nil in *.
Qed.

Lemma entries_ok_concat {A} (f : A -> list entry) l :
  Forall (fun x => entries_ok (f x)) l -> entries_ok (concat (map f l)).
Proof.
  unfold entries_ok. induction 1; simpl; [constructor|]. by apply Forall_app.
Qed.

Lemma weighted_fold threshold weighted nodes nodes' :
  foldM (fun nodes p =>
           if (wp_Weight p <=? 0)%Z then Err (ErrWeight (wp_Phrase p))
           else if (threshold =? 0)%Z then Err ErrThresholdRequired
           else Ok (addPhrase nodes (wp_Phrase p) (wp_Weight p) false false))
        weighted nodes = Ok nodes' ->
  nodes' = fold_left (fun nodes p => addPhrase nodes (wp_Phrase p) (wp_Weight p) false false) weighted nodes /\
  Forall (fun p => (0 < wp_Weight p)%Z) weighted /\ (weighted <> [] -> threshold <> 0%Z).
Proof.
  revert nodes. induction weighted as [|p weighted IH]; intros nodes; simpl.
  { intros [= <-]. split_and!; [done|constructor|done]. }
  destruct (Z.leb_spec (wp_Weight p) 0) as [|Hw]; [done|].
  destruct (Z.eqb_spec threshold 0) as [|Ht]; [done|].
  intros (-> & HF & _)%IH. split_and!; [done|by constructor|done].
Qed.

Lemma NewPhraseFilter_entries blocked weighted exceptions threshold pf :
  NewPhraseFilterWithExceptions blocked weighted exceptions threshold = Ok pf ->
  (Z.of_nat (S (entries_size (config_entries blocked weighted exceptions))) <= 2 ^ 31)%Z ->
  pf_threshold pf = threshold /\ (0 <= threshold)%Z /\
  Forall (fun p => (0 < wp_Weight p)%Z) weighted /\
  entries_ok (config_entries blocked weighted exceptions) /\
  exists L, compiled_from L (config_entries blocked weighted exceptions) (pf_nodes pf).
Proof.
  unfold NewPhraseFilterWithExceptions. destruct (Z.ltb_spec threshold 0) as [|Hth]; [done|].
  intros Hnew Hb. destruct (foldM _ weighted _) as [nodes2|] eqn:E2; [|done].
  apply weighted_fold in E2 as (-> & HW & _). simpl in Hnew. injection Hnew as <-. simpl.
  unfold config_entries in *. rewrite !entries_size_app in Hb.
  destruct (addPhrases_spec (fun p => (p, 0%Z, true, false)) blocked [[]] [] [zeroNode] trie_ok_init ltac:(simpl; lia))
    as (L1 & HT1 & Hl1).
  destruct (addPhrases_spec (fun p => (wp_Phrase p, wp_Weight p, false, false)) weighted L1 _ _ HT1 ltac:(simpl in *; lia))
    as (L2 & HT2 & Hl2).
  destruct (addPhrases_spec (fun p => (p, 0%Z, false, true)) exceptions L2 _ _ HT2 ltac:(simpl in *; lia))
    as (L3 & HT3 & Hl3).
  rewrite <- app_assoc in HT3. simpl in HT3.
  assert (Hok : entries_ok (config_entries blocked weighted exceptions)).
  { unfold config_entries, entries_ok. rewrite !Forall_app. split_and!; apply entries_ok_concat.
    - apply Forall_forall. intros. by apply entry_of_ok.
    - eapply Forall_impl; [exact HW|]. intros p Hp. apply entry_of_ok.
      simpl. rewrite orb_false_r. by apply Z.ltb_lt.
    - apply Forall_forall. intros. by apply entry_of_ok. }
  split_and!; try done. exists L3. constructor; try apply HT3.
  - by eapply trie_ok_closed.
  - apply buildFailures_spec; try apply HT3; done.
Qed.

End configuration.

Lemma weight_sum_ext E P Q : (forall e, e ∈ E -> P e = Q e) -> weight_sum E P = weight_sum E Q.
Proof.
  induction E as [|e E IH]; intros HPQ; [done|]. simpl.
  rewrite HPQ by left. rewrite IH; [done|]. intros; apply HPQ; set_solver.
Qed.

Lemma weight_sum_bound E P :
  Forall (fun e => (0 <= e_score e)%Z) E ->
  (0 <= weight_sum E P <= weight_sum E (fun _ => true))%Z.
Proof. induction 1 as [|e E He HF IH]; simpl; [lia|]. destruct (P e); lia. Qed.

(** ** One pass over a text *)

Section scanning.
Context (L : list bytes) (E : list entry) (nodes : list ahoNode).
Context (Hcf : compiled_from L E nodes).

(** The state after the text [u] reports what ends at [u]. *)
Definition state_of (u : bytes) : Z := idxZ L (lsuf L u).

Lemma ends_lsuf e u : e ∈ E -> ends e (lsuf L u) = ends e u.
Proof.
  intros He. destruct (cf_words _ _ _ Hcf e He) as [Hw _]. apply bool_decide_ext. split.
  - intros Hs. etrans; [exact Hs|apply lsuf_suffix].
  - by apply lsuf_max.
Qed.

Lemma existsb_ext_in {A} (P Q : A -> bool) l :
  (forall x, x ∈ l -> P x = Q x) -> existsb P l = existsb Q l.
Proof.
  intros HPQ. induction l as [|x l IH]; [done|]. simpl. rewrite HPQ by left. f_equal.
  apply IH. intros; apply HPQ; set_solver.
Qed.

Lemma state_step u b : next (node_at nodes (state_of u)) b = state_of (u ++ [b]).
Proof.
  destruct (cf_table _ _ _ Hcf) as [_ Ht].
  destruct (Ht (lsuf L u)) as [Hn _]; [apply lsuf_in, Hcf|].
  unfold state_of. rewrite <- lsuf_snoc by apply Hcf. apply Hn.
Qed.

Lemma state_attrs u :
  let n := node_at nodes (state_of u) in
  hard n = agg_hard E u /\ excpt n = agg_excpt E u /\ score n = agg_score E u /\
  agg_phrase E u (phrase n).
Proof.
  destruct (cf_table _ _ _ Hcf) as [_ Ht].
  destruct (Ht (lsuf L u)) as [_ (_ & Hh & Hx & Hs & Hp)]; [apply lsuf_in, Hcf|].
  cbv zeta. unfold state_of. unfold node_of in *. split_and!.
  - rewrite Hh. apply existsb_ext_in. intros e He. by rewrite ends_lsuf.
  - rewrite Hx. apply existsb_ext_in. intros e He. by rewrite ends_lsuf.
  - rewrite Hs. unfold agg_score. f_equal. apply weight_sum_ext. intros. by rewrite ends_lsuf.
  - unfold agg_phrase in *. destruct (decide _) as [Ep|Ep].
    + rewrite Forall_forall in *. intros e He. rewrite <- ends_lsuf by done. by apply Hp.
    + destruct Hp as (e & He & Hen & ->). exists e. by rewrite <- ends_lsuf.
Qed.

(** ** The reference scan of a text *)

Context (t : bytes) (th : Z).

Definition score_at (n : nat) : Z := weight_sum E (fun e => ends e (take n t)).

(** The scores of the positions up to [n]. *)
Fixpoint total (n : nat) : Z :=
  match n with O => 0%Z | S m => (total m + score_at (S m))%Z end.

(** Some exception phrase ends at or before [n]. *)
Fixpoint exc_by (n : nat) : bool :=
  match n with O => false | S m => exc_by m || agg_excpt E (take (S m) t) end.

(** The filter blocks after [n] bytes. *)
Definition stops (n : nat) : bool :=
  negb (exc_by n) &&
  (agg_hard E (take n t) ||
   (0 <? score_at n)%Z && ((0 <? th)%Z && (th <=? total n)%Z)).

Definition total_weight : Z := weight_sum E (fun _ => true).

Context (Hpos : Forall (fun e => (0 <= e_score e)%Z) E).
Context (Hover : (total_weight * Z.of_nat (length t) < 2 ^ 31)%Z).

Lemma score_at_bound n : (0 <= score_at n <= total_weight)%Z.
Proof. by apply weight_sum_bound. Qed.

Lemma total_bound n : (0 <= total n <= total_weight * Z.of_nat n)%Z.
Proof.
  induction n as [|n IH]; cbn [total]; [lia|]. pose proof (score_at_bound (S n)). lia.
Qed.

Lemma node_score n : n <= length t -> 0 < n ->
  score (node_at nodes (state_of (take n t))) = score_at n.
Proof.
  intros Hn H0. destruct (state_attrs (take n t)) as (_ & _ & -> & _).
  unfold agg_score. apply i32_small. pose proof (score_at_bound n). unfold score_at in *. nia.
Qed.

(** The scan after [i] bytes of the text. *)
Definition scan_ok (i : nat) (s : scan) : Prop :=
  s_node s = state_of (take i t) /\ s_excepted s = exc_by i /\
  (exc_by i = false -> s_score s = total i).

Lemma matchLoop_stops input i s :
  scan_ok i s -> drop i t = map lowerASCII input ->
  snd (matchLoop nodes th false s i input) = find stops (seq (S i) (length input)).
Proof.
  revert i s. induction input as [|b input IH]; intros i s (Hnode & Hexc & Hsc) Ht; [done|].
  cbn [map] in Ht.
  assert (Hi : S i <= length t).
  { apply (f_equal length) in Ht. rewrite length_drop in Ht. simpl in Ht. lia. }
  assert (Hti : take (S i) t = take i t ++ [lowerASCII b]).
  { apply take_S_r. rewrite <- (Nat.add_0_r i), <- lookup_drop, Ht. done. }
  assert (Hdrop : drop (S i) t = map lowerASCII input).
  { by rewrite <- Nat.add_1_r, <- drop_drop, Ht. }
  assert (Hstate : next (node_at nodes (s_node s)) (lowerASCII b) = state_of (take (S i) t)).
  { by rewrite Hnode, state_step, Hti. }
  cbn [length seq find matchLoop]. rewrite Hstate. unfold stops at 1.
  destruct (state_attrs (take (S i) t)) as (Hh & Hx & _ & _).
  pose proof (node_score (S i) Hi ltac:(lia)) as Hns.
  set (cur := node_at nodes (state_of (take (S i) t))) in *.
  assert (Hexc' : s_excepted s || excpt cur = exc_by (S i)) by by rewrite Hx, Hexc.
  rewrite Hexc'. destruct (exc_by (S i)) eqn:Ee; cbn [negb andb].
  { apply IH; [|done]. split_and!; simpl; congruence. }
  assert (Hei : exc_by i = false) by (cbn [exc_by] in Ee; by apply orb_false_iff in Ee as [-> _]).
  specialize (Hsc Hei). rewrite Hh, Hns. pose proof (score_at_bound (S i)).
  pose proof (total_bound (S i)) as Htb.
  assert (Hsum : i32 (s_score s + score_at (S i)) = total (S i)).
  { rewrite Hsc. cbn [total] in *. apply i32_small. nia. }
  destruct (agg_hard E (take (S i) t)) eqn:Eh; cbn [negb andb orb]; [done|].
  destruct (Z.ltb_spec 0 (score_at (S i))) as [Hs|Hs]; cbn [andb].
  - rewrite Hsum. destruct ((0 <? th)%Z && (th <=? total (S i))%Z); cbn [snd negb]; [done|].
    apply IH; [|done]. by split_and!.
  - apply IH; [|done]. split_and!; [done..|]. intros _. simpl. rewrite Hsc. cbn [total]. lia.
Qed.

(** When the scan stops, the phrase it records is that of its node, where
    some phrase ends. *)
Lemma matchLoop_phrase input i s s' n :
  s_node s = state_of (take i t) -> drop i t = map lowerASCII input ->
  matchLoop nodes th false s i input = (s', Some n) ->
  s_phrase s' = phrase (node_at nodes (state_of (take n t))) /\
  (agg_hard E (take n t) = true \/ (0 < agg_score E (take n t))%Z).
Proof.
  revert i s. induction input as [|b input IH]; intros i s Hnode Ht; [done|].
  cbn [map] in Ht.
  assert (Hti : take (S i) t = take i t ++ [lowerASCII b]).
  { apply take_S_r. rewrite <- (Nat.add_0_r i), <- lookup_drop, Ht. done. }
  assert (Hdrop : drop (S i) t = map lowerASCII input).
  { by rewrite <- Nat.add_1_r, <- drop_drop, Ht. }
  cbn [matchLoop]. rewrite Hnode, state_step, <- Hti.
  destruct (state_attrs (take (S i) t)) as (Hh & _ & Hs & _). rewrite Hh, Hs.
  destruct (s_excepted s || _); [by apply IH|].
  destruct (agg_hard E (take (S i) t)) eqn:Eh; cbn [negb andb].
  { intros [= <- <-]. auto. }
  destruct (Z.ltb_spec 0 (agg_score E (take (S i) t))) as [Hpos'|]; [|by apply IH].
  destruct (_ && _); [|by apply IH]. intros [= <- <-]. auto.
Qed.

Lemma agg_phrase_nonempty u p :
  agg_phrase E u p -> agg_hard E u = true \/ (0 < agg_score E u)%Z -> p <> [] /\
  exists e, e ∈ E /\ ends e u = true /\ p = e_phrase e.
Proof.
  unfold agg_phrase. destruct (decide (p = [])) as [->|Hp]; [|done].
  rewrite Forall_forall. intros Hno [Hh|Hs].
  - unfold agg_hard in Hh. apply existsb_exists in Hh as (e & He & Hb).
    rewrite Hno, andb_false_r in Hb by by apply list_elem_of_In. done.
  - unfold agg_score in Hs. rewrite weight_sum_none in Hs by done. done.
Qed.

End scanning.

(** ** A fresh stream *)

Section stream.
Context `{UnicodeTables}.
Context (blocked : list bytes) (weighted : list WeightedPhrase) (exceptions : list bytes).
Context (threshold : Z) (pf : PhraseFilter).

Let E := config_entries blocked weighted exceptions.

(** The configuration fits the 32-bit node indices and scores. *)
Definition fits (input : bytes) : Prop :=
  (Z.of_nat (S (entries_size E)) <= 2 ^ 31)%Z /\ (threshold < 2 ^ 31)%Z /\
  (total_weight E * Z.of_nat (length input) < 2 ^ 31)%Z.

Lemma config_scores : Forall (fun p => (0 < wp_Weight p)%Z) weighted ->
  Forall (fun e => (0 <= e_score e)%Z) E.
Proof.
  intros HW. unfold E, config_entries. rewrite !Forall_app.
  assert (Hc : forall (A : Type) (f : A -> list entry) l,
    Forall (fun x => Forall (fun e => (0 <= e_score e)%Z) (f x)) l ->
    Forall (fun e => (0 <= e_score e)%Z) (concat (map f l))).
  { intros A f l. induction 1; simpl; [constructor|]. by apply Forall_app. }
  split_and!; apply Hc.
  - apply Forall_forall. intros p _. unfold entry_of. case_decide; repeat constructor; done.
  - eapply Forall_impl; [exact HW|]. intros p Hp. unfold entry_of.
    case_decide; repeat constructor. simpl in *. lia.
  - apply Forall_forall. intros p _. unfold entry_of. case_decide; repeat constructor; done.
Qed.

(** The stream filter in terms of the reference scan. *)
Definition scan_result (input : bytes) : bytes * bool :=
  match find (stops E (map lowerASCII input) threshold) (seq 1 (length input)) with
  | Some n => (take n input, true)
  | None => (input, false)
  end.

Lemma node_count L nodes : compiled_from L E nodes -> length nodes <= 1 -> E = [].
Proof.
  intros Hcf Hn. destruct (cf_table _ _ _ Hcf) as [Hlen _]. destruct E as [|e E'] eqn:EE; [done|].
  destruct (cf_words _ _ _ Hcf e ltac:(left)) as [[j Hj]%list_elem_of_lookup Hne].
  pose proof (lookup_lt_Some _ _ _ Hj). assert (j = 0) as -> by lia.
  rewrite (cf_root _ _ _ Hcf) in Hj. congruence.
Qed.

Lemma stops_nil t th n : stops [] t th n = false.
Proof. unfold stops, score_at. simpl. by rewrite andb_false_r. Qed.

Lemma phrase_filter_scan input :
  NewPhraseFilterWithExceptions blocked weighted exceptions threshold = Ok pf ->
  fits input ->
  snd (phrase_ProcessChunk (newPhraseStream pf) input) = Ok (scan_result input).
Proof.
  intros Hnew (Hb & Hth & Hover).
  destruct (NewPhraseFilter_entries _ _ _ _ _ Hnew Hb) as (Hpt & Hth0 & HW & Hok & L & Hcf).
  fold E in Hok, Hcf. unfold phrase_ProcessChunk. cbn [compiled newPhraseStream].
  destruct (Nat.leb_spec (length (pf_nodes pf)) 1) as [Hn|Hn]; cbn [orb].
  { unfold scan_result. rewrite (node_count L _ Hcf Hn). cbn [snd].
    assert (find (stops [] (map lowerASCII input) threshold) (seq 1 (length input)) = None) as ->; [|done].
    apply find_none_intro. intros. apply stops_nil. }
  destruct (Nat.eqb_spec (length input) 0) as [H0|H0].
  { apply nil_length_inv in H0 as ->. done. }
  unfold matchChunk. rewrite decide_False by (intros Hnil; rewrite Hnil in Hn; simpl in Hn; lia).
  cbn [node st_score excepted blockedPhrase blockedType observeOnly newPhraseStream].
  rewrite Hpt, i32_small by lia.
  pose proof (matchLoop_stops L E (pf_nodes pf) Hcf (map lowerASCII input) threshold (config_scores HW)
    ltac:(by rewrite length_map) input 0 (MkScan 0 0 false [] [])) as HM.
  destruct (matchLoop _ _ _ _ _ _) as [s stop]. cbn [snd] in *. unfold scan_result.
  rewrite HM; [by destruct (find _ _)| |done].
  split_and!; [|done..]. cbn [s_node]. unfold state_of. rewrite take_0, lsuf_id by apply Hcf.
  by rewrite (idxZ_lookup L [] 0) by apply Hcf.
Qed.

(** ** Consequences for the lists of phrases *)

Lemma config_elem e :
  e ∈ E <->
  (exists p, p ∈ blocked /\ e ∈ entry_of p 0 true false) \/
  (exists p, p ∈ weighted /\ e ∈ entry_of (wp_Phrase p) (wp_Weight p) false false) \/
  (exists p, p ∈ exceptions /\ e ∈ entry_of p 0 false true).
Proof.
  unfold E, config_entries. rewrite !elem_of_app.
  assert (Hc : forall (A : Type) (f : A -> list entry) l,
    e ∈ concat (map f l) <-> exists x, x ∈ l /\ e ∈ f x).
  { intros A f l. induction l as [|x l IH]; simpl; [set_solver|]. rewrite elem_of_app, IH. set_solver. }
  by rewrite !Hc.
Qed.

Lemma entry_of_elem e p sc hd ex :
  e ∈ entry_of p sc hd ex <-> normalizePhrase p <> [] /\ e = Entry (normalizePhrase p) p sc hd ex.
Proof. unfold entry_of. case_decide; [set_solver|]. rewrite list_elem_of_singleton. tauto. Qed.

Lemma config_hard u :
  agg_hard E u = true <->
  exists p, p ∈ blocked /\ normalizePhrase p <> [] /\ normalizePhrase p `suffix_of` u.
Proof.
  unfold agg_hard. rewrite existsb_exists. setoid_rewrite <- list_elem_of_In.
  setoid_rewrite config_elem. setoid_rewrite entry_of_elem.
  setoid_rewrite andb_true_iff. unfold ends. setoid_rewrite bool_decide_eq_true. split.
  - intros (e & [(p & Hp & Hne & ->)|[(p & Hp & Hne & ->)|(p & Hp & Hne & ->)]] & Hh & Hs);
      simpl in *; try done. eauto.
  - intros (p & Hp & Hne & Hs). eexists. split; [left; eauto|done].
Qed.

Lemma config_excpt u :
  agg_excpt E u = true <->
  exists p, p ∈ exceptions /\ normalizePhrase p <> [] /\ normalizePhrase p `suffix_of` u.
Proof.
  unfold agg_excpt. rewrite existsb_exists. setoid_rewrite <- list_elem_of_In.
  setoid_rewrite config_elem. setoid_rewrite entry_of_elem.
  setoid_rewrite andb_true_iff. unfold ends. setoid_rewrite bool_decide_eq_true. split.
  - intros (e & [(p & Hp & Hne & ->)|[(p & Hp & Hne & ->)|(p & Hp & Hne & ->)]] & Hh & Hs);
      simpl in *; try done. eauto.
  - intros (p & Hp & Hne & Hs). eexists. split; [right; right; eauto|done].
Qed.

Lemma exc_by_Contains t n :
  exc_by E t n = true ->
  exists p, p ∈ exceptions /\ normalizePhrase p <> [] /\ Contains t (normalizePhrase p) = true.
Proof.
  induction n as [|n IH]; cbn [exc_by]; [done|].
  intros [He|(p & Hp & Hne & [k Hk])%config_excpt]%orb_true_iff; [auto|].
  exists p. split_and!; [done..|]. apply Contains_spec. exists k, (drop (S n) t).
  by rewrite app_assoc, <- Hk, take_drop.
Qed.

(** C7.  A phrase filter built from any configuration, on a fresh stream,
    passes the input up to and including the first position where a blocked
    phrase ends, or where the weights of all the phrases that ended so far
    reach the threshold, unless an exception phrase has ended by then; with
    no such position it passes the whole input.  Occurrences are found
    wherever they are, overlapping or inside one another. *)
Theorem phrase_filter_correct input :
  NewPhraseFilterWithExceptions blocked weighted exceptions threshold = Ok pf ->
  fits input ->
  snd (phrase_ProcessChunk (newPhraseStream pf) input) = Ok (scan_result input).
Proof. apply phrase_filter_scan. Qed.

(** No evasion within a stream: when some blocked phrase occurs in the
    input, in any case of its ASCII letters, and no exception phrase does,
    the filter blocks, after a prefix that ends within the input. *)
Theorem blocked_phrase_blocks input p :
  NewPhraseFilterWithExceptions blocked weighted exceptions threshold = Ok pf ->
  fits input ->
  p ∈ blocked -> normalizePhrase p <> [] ->
  Contains (map lowerASCII input) (normalizePhrase p) = true ->
  Forall (fun x => normalizePhrase x <> [] ->
                   Contains (map lowerASCII input) (normalizePhrase x) = false) exceptions ->
  exists n, n <= length input /\
    snd (phrase_ProcessChunk (newPhraseStream pf) input) = Ok (take n input, true).
Proof.
  intros Hnew Hfits Hp Hne (a & c & Hc)%Contains_spec Hx.
  rewrite (phrase_filter_scan _ Hnew Hfits). unfold scan_result.
  destruct (find _ _) as [n|] eqn:Ef.
  { exists n. split; [|done]. apply find_some in Ef as [Hin%in_seq _]. lia. }
  exfalso. assert (Hlen := f_equal length Hc). rewrite length_map, !length_app in Hlen.
  assert (0 < length (normalizePhrase p)) by (destruct (normalizePhrase p); [done|simpl; lia]).
  pose proof (find_none_elim _ _ (length a + length (normalizePhrase p)) Ef) as Hs.
  rewrite list_elem_of_In, in_seq in Hs. specialize (Hs ltac:(lia)).
  unfold stops in Hs. apply andb_false_iff in Hs as [Hs|Hs].
  - apply negb_false_iff, exc_by_Contains in Hs as (x & Hxin & Hxne & Hxc).
    rewrite Forall_forall in Hx. rewrite Hx in Hxc; done.
  - apply orb_false_iff in Hs as [Hs _]. apply not_true_iff_false in Hs. apply Hs.
    apply config_hard. exists p. split_and!; [done..|]. rewrite Hc, app_assoc.
    rewrite take_app_length' by by rewrite length_app. by apply suffix_app_r.
Qed.

End stream.

(** ** Chunks *)

Lemma matchLoop_app nodes th obs s i a b :
  matchLoop nodes th obs s i (a ++ b) =
  match matchLoop nodes th obs s i a with
  | (s', Some n) => (s', Some n)
  | (s', None) => matchLoop nodes th obs s' (i + length a) b
  end.
Proof.
  revert s i. induction a as [|x a IH]; intros s i; simpl.
  { by rewrite Nat.add_0_r. }
  rewrite <- Nat.add_succ_comm. split_ifs; by rewrite ?IH.
Qed.

Lemma matchLoop_shift nodes th obs s i j a :
  matchLoop nodes th obs s (i + j) a =
  (let '(s', stop) := matchLoop nodes th obs s i a in (s', (fun n => n + j) <$> stop)).
Proof.
  revert s i. induction a as [|x a IH]; intros s i; simpl; [done|].
  change (S (i + j)) with (S i + j). split_ifs; by rewrite ?IH.
Qed.

Lemma matchLoop_stop_bound nodes th obs s i a s' n :
  matchLoop nodes th obs s i a = (s', Some n) -> i < n <= i + length a.
Proof.
  revert s i. induction a as [|x a IH]; intros s i; simpl; [done|].
  split_ifs; intros Hm; simplify_eq; try apply IH in Hm; lia.
Qed.

Lemma phrase_ProcessChunk_app f a b :
  phrase_ProcessChunk f (a ++ b) =
  match phrase_ProcessChunk f a with
  | (f1, Ok (out1, false)) =>
      let '(f2, r) := phrase_ProcessChunk f1 b in
      (f2, '(out2, blk) ← r; Ok (out1 ++ out2, blk))
  | stop => stop
  end.
Proof.
  unfold phrase_ProcessChunk at 1 2. destruct (compiled f) as [pf|] eqn:Ec.
  2:{ unfold phrase_ProcessChunk. by rewrite Ec. }
  destruct (Nat.leb_spec (length (pf_nodes pf)) 1) as [Hn|Hn]; cbn [orb].
  { unfold phrase_ProcessChunk. rewrite Ec. apply Nat.leb_le in Hn. by rewrite Hn. }
  apply Nat.leb_gt in Hn as Hn'.
  destruct (Nat.eqb_spec (length a) 0) as [Ha|Ha].
  { apply nil_length_inv in Ha as ->. cbn [app]. unfold phrase_ProcessChunk. rewrite Ec, Hn'. cbn [orb].
    destruct (Nat.eqb_spec (length b) 0); [done|]. destruct (matchChunk f pf b) as [f2 [[[] ?]|]]; done. }
  rewrite length_app. destruct (Nat.eqb_spec (length a + length b) 0) as [|_]; [lia|].
  assert (Hnn : pf_nodes pf <> []) by (intros Hnil; rewrite Hnil in Hn; simpl in Hn; lia).
  unfold matchChunk. rewrite !decide_False by done. rewrite matchLoop_app.
  destruct (matchLoop _ _ _ _ 0 a) as [s1 [n1|]] eqn:E1.
  { apply matchLoop_stop_bound in E1. by rewrite take_app_le by lia. }
  unfold phrase_ProcessChunk. cbn [compiled]. rewrite Ec, Hn'. cbn [orb].
  destruct (Nat.eqb_spec (length b) 0) as [Hb|Hb].
  { apply nil_length_inv in Hb as ->. rewrite app_nil_r. cbn. by rewrite ?app_nil_r. }
  unfold matchChunk. rewrite decide_False by done.
  cbn [node st_score excepted blockedPhrase blockedType observeOnly compiled].
  change (0 + length a) with (length a). rewrite (matchLoop_shift _ _ _ _ 0 (length a)).
  destruct s1 as [nd1 sc1 ex1 ph1 ty1]. cbn.
  destruct (matchLoop _ _ _ _ 0 b) as [s2 [n2|]]; cbn; [|done].
  rewrite take_app. by rewrite take_ge, Nat.add_sub by lia.
Qed.

(** A stream filter does not see how the stream is cut into chunks:
    a chunk [a ++ b] gives the output and the decision of [a] followed by
    [b], in every state and mode of the filter, and leaves the same state. *)
Theorem phrase_chunks f a b :
  phrase_ProcessChunk f (a ++ b) =
  match phrase_ProcessChunk f a with
  | (f1, Ok (out1, false)) =>
      let '(f2, r) := phrase_ProcessChunk f1 b in
      (f2, '(out2, blk) ← r; Ok (out1 ++ out2, blk))
  | stop => stop
  end.
Proof. apply phrase_ProcessChunk_app. Qed.

(** An observing filter (the logging mode) never changes the stream and
    never blocks, in any state. *)
Theorem observe_passes f pf input :
  compiled f = Some pf -> pf_nodes pf <> [] -> observeOnly f = true ->
  snd (phrase_ProcessChunk f input) = Ok (input, false).
Proof.
  intros Hc Hn Ho. unfold phrase_ProcessChunk. rewrite Hc. destruct (_ || _); [done|].
  unfold matchChunk. rewrite decide_False, Ho by done.
  assert (Hloop : forall s i, snd (matchLoop (pf_nodes pf) (i32 (pf_threshold pf)) true s i input) = None).
  { induction input as [|x input IH]; intros s i; simpl; [done|]. split_ifs; apply IH || done. }
  specialize (Hloop (MkScan (node f) (st_score f) (excepted f) (blockedPhrase f) (blockedType f)) 0).
  destruct (matchLoop _ _ _ _ _ _) as [s stop]. simpl in Hloop. by subst.
Qed.

(** ** Instances *)

Lemma phrase_filter_correct_witness :
  let W := [MkWeightedPhrase (str "he") 3; MkWeightedPhrase (str "hers") 4] in
  exists pf,
    @NewPhraseFilterWithExceptions ascii_tables [str "bad"] W [str "ok"] 7 = Ok pf /\
    snd (phrase_ProcessChunk (newPhraseStream pf) (str "usHERS bad")) =
    Ok (@scan_result ascii_tables [str "bad"] W [str "ok"] 7 (str "usHERS bad")).
Proof.
  eexists. split; [reflexivity|].
  apply (@phrase_filter_correct ascii_tables); [reflexivity|].
  split; [|split]; vm_compute; [discriminate|reflexivity..].
Defined.

Lemma blocked_phrase_blocks_witness :
  exists pf n,
    @NewPhraseFilterWithExceptions ascii_tables [str "Bad"] [] [str "ok"] 0 = Ok pf /\
    n <= length (str "not a BAD day") /\
    snd (phrase_ProcessChunk (newPhraseStream pf) (str "not a BAD day")) =
    Ok (take n (str "not a BAD day"), true).
Proof.
  destruct (@NewPhraseFilterWithExceptions ascii_tables [str "Bad"] [] [str "ok"] 0) as [pf|] eqn:E;
    [|discriminate E].
  destruct (@blocked_phrase_blocks ascii_tables [str "Bad"] [] [str "ok"] 0 pf
    (str "not a BAD day") (str "Bad")) as (n & Hn & Heq).
  - exact E.
  - split; [|split]; vm_compute; [discriminate|reflexivity..].
  - left.
  - vm_compute. discriminate.
  - vm_compute. reflexivity.
  - repeat constructor; vm_compute; reflexivity.
  - exists pf, n. split; [reflexivity|]. split; [exact Hn|exact Heq].
Defined.

Lemma observe_passes_witness :
  let pf := MkPhraseFilter [zeroNode; zeroNode] 0 in
  snd (phrase_ProcessChunk (PhraseStream (Some pf) 0 0 false [] [] true) (str "abc")) =
  Ok (str "abc", false).
Proof. apply (observe_passes _ (MkPhraseFilter [zeroNode; zeroNode] 0)); [reflexivity|discriminate|reflexivity]. Defined.
