(* ===== verification/FilterEngine.v ===== *)
(** * Stream filters: the interface (proxy/relay.go)

    [FilterEngine] is the contract between the relay and the content
    filters: a filter consumes the chunks of a body, and gives for each chunk
    the bytes to forward, whether the stream is blocked, or an error.  A
    filter that holds bytes back also has [Flush].  Every filter of the proxy
    is an instance of [StreamFilter], and [drain] is what the relay does with
    one: process every chunk, stop at a block or an error, flush at the end of
    the body. *)

From S2P Require Import Prelude GoStrings SemanticFilter.

Inductive filterError :=
| ErrPhraseFilter (e : phraseError)
| ErrMaskingNotInitialized
| ErrSecretExfiltrationBlocked.

(** The result of [ProcessChunk] on a filter with state [S]. *)
Definition chunkResult (S : Type) : Type := S * result filterError (bytes * bool).

(** [flushFilter] of a filter without [Flush] gives no bytes. *)
Class StreamFilter (S : Type) := {
  processChunk : S -> bytes -> chunkResult S;
  flushFilter : S -> S * result filterError bytes;
}.

(** How a drained stream ended. *)
Inductive streamEnd := Complete | BlockedEnd | Failed (e : filterError).

Section drain.
Context {F : Type} `{StreamFilter F}.

(** All the chunks of a body through the filter, then [Flush]: the bytes
    that were forwarded, how the stream ended and the final state. *)
Fixpoint drain (s : F) (chunks : list bytes) : bytes * streamEnd * F :=
  match chunks with
  | [] =>
      match flushFilter s with
      | (s', Ok out) => (out, Complete, s')
      | (s', Err e) => ([], Failed e, s')
      end
  | c :: chunks' =>
      match processChunk s c with
      | (s', Ok (out, false)) =>
          let '(rest, e, s'') := drain s' chunks' in (out ++ rest, e, s'')
      | (s', Ok (out, true)) => (out, BlockedEnd, s')
      | (s', Err e) => ([], Failed e, s')
      end
  end.

Definition forwarded (s : F) (chunks : list bytes) : bytes := fst (fst (drain s chunks)).
Definition ending (s : F) (chunks : list bytes) : streamEnd := snd (fst (drain s chunks)).

(** A filter that never blocks or fails on these chunks, step by step: the
    invariant relates what was read so far, what was forwarded and the
    state. *)
Lemma drain_invariant (Inv : bytes -> bytes -> F -> Prop) (Post : bytes -> bytes -> Prop) s chunks :
  (forall seen out s c, Inv seen out s -> c ∈ chunks -> exists s' o,
     processChunk s c = (s', Ok (o, false)) /\ Inv (seen ++ c) (out ++ o) s') ->
  (forall seen out s, Inv seen out s -> exists s' o,
     flushFilter s = (s', Ok o) /\ Post seen (out ++ o)) ->
  forall seen out, Inv seen out s ->
  Post (seen ++ concat chunks) (out ++ forwarded s chunks) /\ ending s chunks = Complete.
Proof.
  intros Hstep Hflush. revert s. unfold forwarded, ending.
  induction chunks as [|c chunks IH]; intros s seen out HI; simpl.
  - destruct (Hflush _ _ _ HI) as (s' & o & -> & HP). simpl. by rewrite app_nil_r.
  - destruct (Hstep _ _ _ c HI) as (s' & o & -> & HI'); [left|].
    destruct (IH ltac:(intros; eapply Hstep; [done|by right]) s' _ _ HI') as [HP HE].
    destruct (drain s' chunks) as [[rest e] s'']. simpl in *.
    by rewrite !app_assoc.
Qed.
End drain.

(** ** Filters without state or with the phrase automaton *)

(** [passThroughFilter]. *)
Definition passThrough_ProcessChunk (s : unit) (input : bytes) : chunkResult unit :=
  (s, Ok (input, false)).

#[global] Instance passThroughFilter : StreamFilter unit := {|
  processChunk := passThrough_ProcessChunk;
  flushFilter s := (s, Ok []);
|}.

#[global] Instance phraseFilter_stream : StreamFilter phraseStreamFilter := {|
  processChunk s input :=
    let '(s', r) := phrase_ProcessChunk s input in
    (s', match r with Ok x => Ok x | Err e => Err (ErrPhraseFilter e) end);
  flushFilter s := (s, Ok []);
|}.
