(* ===== verification/InspectReader.v ===== *)
(** * InspectReader (proxy/relay.go)

    The reader that puts a filter between a body and the connection it is
    copied to, and its refinement of [drain]: whatever the buffer size of the
    copy and however the body arrives, the bytes copied are the bytes the
    filter forwards. *)

From S2P Require Import Prelude GoStrings SemanticFilter FilterEngine.

(** Errors of [Read]. *)
Inductive readError :=
| EOF
| FilterFailed (e : filterError)
| SourceFailed.

(** What one [Read] of a source returns: bytes and an error.  A source with
    nothing left returns (0, EOF). *)
Abbreviation readEvent := (bytes * option readError)%type.

Section reader.
Context {F : Type} `{StreamFilter F}.

Record InspectReader := MkInspectReader {
  ir_src : list readEvent;
  ir_engine : F;
  ir_out : bytes;
  ir_blocked : bool;
  ir_flushed : bool;
}.

Definition newInspectReader (src : list readEvent) (e : F) : InspectReader :=
  MkInspectReader src e [] false false.

(** [flushEngine]. *)
Definition flushEngine (r : InspectReader) : InspectReader * option filterError :=
  if ir_flushed r then (r, None)
  else
    let '(e, res) := flushFilter (ir_engine r) in
    match res with
    | Err err => (MkInspectReader (ir_src r) e (ir_out r) (ir_blocked r) true, Some err)
    | Ok out => (MkInspectReader (ir_src r) e out (ir_blocked r) true, None)
    end.

(** [if err != nil { ... }] in the loop of [Read]; [None] is the [break]. *)
Definition onReadError (r : InspectReader) (err : readError) : InspectReader * option readError :=
  match err with
  | EOF =>
      if decide (ir_out r <> []) then (r, None)
      else
        let '(r, ferr) := flushEngine r in
        match ferr with
        | Some e => (r, Some (FilterFailed e))
        | None => if decide (ir_out r <> []) then (r, None) else (r, Some EOF)
        end
  | _ => (r, Some err)
  end.

(** The loop of [Read], until there are bytes to return or an error. *)
Fixpoint inspect_fill (src : list readEvent) (e : F) (out : bytes) (blocked flushed : bool)
    : InspectReader * option readError :=
  if decide (out <> []) then (MkInspectReader src e out blocked flushed, None)
  else if blocked then (MkInspectReader src e out blocked flushed, Some EOF)
  else match src with
  | [] => onReadError (MkInspectReader [] e out blocked flushed) EOF
  | (data, err) :: src' =>
      let next e out blocked :=
        match err with
        | None => inspect_fill src' e out blocked flushed
        | Some err => onReadError (MkInspectReader src' e out blocked flushed) err
        end in
      if decide (data = []) then next e out blocked
      else
        let '(e, res) := processChunk e data in
        match res with
        | Err ferr => (MkInspectReader src' e out false flushed, Some (FilterFailed ferr))
        | Ok (out, blk) => next e out blk
        end
  end.

(** [Read] with a buffer of [k] bytes. *)
Definition inspect_Read (k : nat) (r : InspectReader) : InspectReader * (bytes * option readError) :=
  match inspect_fill (ir_src r) (ir_engine r) (ir_out r) (ir_blocked r) (ir_flushed r) with
  | (r, Some err) => (r, ([], Some err))
  | (r, None) =>
      (MkInspectReader (ir_src r) (ir_engine r) (drop k (ir_out r)) (ir_blocked r) (ir_flushed r),
       (take k (ir_out r), None))
  end.

(** [io.CopyBuffer]: reads until an error and writes what each read gave;
    the writes, the error that ended them ([EOF] is success) and the reader it
    leaves. *)
Fixpoint copyReader (fuel : nat) (k : nat) (r : InspectReader) : option (list bytes * readError * InspectReader) :=
  match fuel with
  | O => None
  | S fuel' =>
      let '(r, (data, err)) := inspect_Read k r in
      match err with
      | Some err => Some ([], err, r)
      | None => '(rest, err, r) ← copyReader fuel' k r; Some (data :: rest, err, r)
      end
  end.

(** ** Specification *)

(** A body that arrives in these chunks; the end of the file comes with the
    last chunk or after it. *)
Fixpoint bodyEvents (attached : bool) (chunks : list bytes) : list readEvent :=
  match chunks with
  | [] => []
  | [c] => [(c, if attached then Some EOF else None)]
  | c :: chunks' => (c, None) :: bodyEvents attached chunks'
  end.

Definition endError (e : streamEnd) : readError :=
  match e with Complete => EOF | BlockedEnd => EOF | Failed e => FilterFailed e end.

(** A filter that blocks without forwarding anything has nothing to flush. *)
Definition quiet_block : Prop := forall (s s' : F) c,
  processChunk s c = (s', Ok ([], true)) -> exists s'', flushFilter s' = (s'', Ok []).

(** The bytes a reader has yet to give, and how it will end. *)
Inductive denotes (attached : bool) : InspectReader -> bytes -> readError -> Prop :=
| denotes_live chunks e out :
    Forall (fun c => c <> []) chunks ->
    denotes attached (MkInspectReader (bodyEvents attached chunks) e out false false)
      (out ++ forwarded e chunks) (endError (ending e chunks))
| denotes_blocked src e out flushed :
    denotes attached (MkInspectReader src e out true flushed) out EOF
| denotes_flushed e out :
    denotes attached (MkInspectReader [] e out false true) out EOF.

(** ** Lemmas *)

Lemma onReadError_live attached e err r :
  onReadError (MkInspectReader [] e [] false false) EOF = (r, err) ->
  match err with
  | None => ir_out r <> [] /\ denotes attached r (forwarded e []) (endError (ending e []))
  | Some er => forwarded e [] = [] /\ er = endError (ending e [])
  end.
Proof.
  unfold onReadError, flushEngine, forwarded, ending. cbn [ir_out ir_flushed ir_engine ir_src ir_blocked drain].
  rewrite decide_False by tauto. destruct (flushFilter e) as [e' [out|ferr]]; cbn.
  - case_decide; intros [= <- <-]; cbn.
    + split; [done|]. apply denotes_flushed.
    + done.
  - by intros [= <- <-].
Qed.

Lemma forwarded_cons e c chunks e' out blk :
  processChunk e c = (e', Ok (out, blk)) ->
  forwarded e (c :: chunks) = (if blk then out else out ++ forwarded e' chunks) /\
  ending e (c :: chunks) = (if blk then BlockedEnd else ending e' chunks).
Proof.
  unfold forwarded, ending. cbn [drain]. intros ->. destruct blk; [done|].
  by destruct (drain e' chunks) as [[rest en] fin].
Qed.

Lemma bodyEvents_cons attached c chunks :
  bodyEvents attached (c :: chunks) =
  (c, if attached && bool_decide (chunks = []) then Some EOF else None) :: bodyEvents attached chunks.
Proof. destruct chunks; simpl; [by rewrite andb_true_r|]. by rewrite andb_false_r. Qed.

(** One round of the copy: the loop of [Read] keeps what the reader denotes. *)
Definition fill_ok attached (res : InspectReader * option readError) (out : bytes) (en : readError) : Prop :=
  match res.2 with
  | None => ir_out res.1 <> [] /\ denotes attached res.1 out en
  | Some er => out = [] /\ er = en
  end.

Lemma fill_out attached src e out blocked flushed all en :
  out <> [] -> denotes attached (MkInspectReader src e out blocked flushed) all en ->
  fill_ok attached (inspect_fill src e out blocked flushed) all en.
Proof. intros Hne Hd. unfold fill_ok. destruct src as [|[] ?]; cbn [inspect_fill]; by rewrite decide_True. Qed.

Lemma fill_blocked attached src e flushed : fill_ok attached (inspect_fill src e [] true flushed) [] EOF.
Proof. unfold fill_ok. destruct src as [|[] ?]; cbn [inspect_fill]; by rewrite decide_False by tauto. Qed.

(** The end of the file together with the last chunk. *)
Lemma attached_end e out blk :
  (blk = true -> out = [] -> exists s, flushFilter e = (s, Ok [])) ->
  fill_ok true (onReadError (MkInspectReader [] e out blk false) EOF)
    (if blk then out else out ++ forwarded e []) (endError (if blk then BlockedEnd else ending e [])).
Proof.
  intros Hq. destruct (decide (out = [])) as [->|Hne].
  - destruct blk; cbn [app].
    + destruct (Hq eq_refl eq_refl) as [s Hs]. unfold fill_ok, onReadError, flushEngine.
      cbn [ir_out ir_flushed ir_engine ir_src ir_blocked]. rewrite decide_False by tauto. rewrite Hs. cbn.
      by rewrite decide_False by tauto.
    + pose proof (onReadError_live true e) as Hl. unfold fill_ok.
      destruct (onReadError _ _) as [r err]. cbn. by apply (Hl err r).
  - unfold fill_ok, onReadError. cbn [ir_out]. rewrite decide_True by done. cbn. split; [done|].
    destruct blk; [apply denotes_blocked|]. apply (denotes_live true []). constructor.
Qed.

Lemma fill_live attached chunks e :
  (attached = true -> quiet_block) -> Forall (fun c => c <> []) chunks ->
  fill_ok attached (inspect_fill (bodyEvents attached chunks) e [] false false)
    (forwarded e chunks) (endError (ending e chunks)).
Proof.
  intros Hq. revert e. induction chunks as [|c chunks IH]; intros e Hne.
  { cbn [bodyEvents inspect_fill]. rewrite decide_False by tauto.
    pose proof (onReadError_live attached e) as Hl. unfold fill_ok.
    destruct (onReadError _ _) as [r err]. by apply (Hl err r). }
  apply Forall_cons in Hne as [Hc Hne]. rewrite bodyEvents_cons. cbn [inspect_fill].
  rewrite decide_False by tauto. rewrite decide_False by done.
  destruct (processChunk e c) as [e' [[out blk]|ferr]] eqn:Ep.
  2:{ unfold fill_ok, forwarded, ending. cbn [drain]. by rewrite Ep. }
  destruct (forwarded_cons _ _ chunks _ _ _ Ep) as [-> ->].
  destruct (attached && bool_decide (chunks = [])) eqn:Eatt.
  - apply andb_true_iff in Eatt as [-> ->%bool_decide_eq_true]. apply attached_end.
    intros -> ->. by apply (Hq eq_refl e e' c).
  - destruct (decide (out = [])) as [->|Hout].
    + destruct blk; [apply fill_blocked|]. cbn [app]. by apply IH.
    + apply fill_out; [done|]. destruct blk; [apply denotes_blocked|by apply denotes_live].
Qed.

Lemma fill_denotes attached r out en :
  (attached = true -> quiet_block) -> denotes attached r out en ->
  fill_ok attached (inspect_fill (ir_src r) (ir_engine r) (ir_out r) (ir_blocked r) (ir_flushed r)) out en.
Proof.
  intros Hq Hd. destruct (decide (ir_out r = [])) as [Ho|Ho].
  2:{ apply fill_out; [done|]. by destruct r. }
  destruct Hd; cbn in *; subst; [by apply fill_live|apply fill_blocked|].
  unfold fill_ok. cbn. by repeat rewrite decide_False by tauto.
Qed.

(** Consuming bytes keeps what remains. *)
Lemma denotes_drop attached r out en k :
  denotes attached r out en -> ir_out r <> [] -> 0 < k ->
  exists rest, out = take k (ir_out r) ++ rest /\ length rest < length out /\
    denotes attached (MkInspectReader (ir_src r) (ir_engine r) (drop k (ir_out r)) (ir_blocked r) (ir_flushed r)) rest en.
Proof.
  intros Hd Hne Hk.
  assert (Hlt : length (drop k (ir_out r)) < length (ir_out r)).
  { rewrite length_drop. destruct (ir_out r); [done|simpl; lia]. }
  destruct Hd as [chunks e o Hc|src e o fl|e o]; cbn [ir_out ir_src ir_engine ir_blocked ir_flushed] in *.
  - exists (drop k o ++ forwarded e chunks). rewrite app_assoc, take_drop, !length_app.
    split; [done|]. split; [lia|]. by constructor.
  - exists (drop k o). rewrite take_drop. split; [done|]. split; [done|constructor].
  - exists (drop k o). rewrite take_drop. split; [done|]. split; [done|constructor].
Qed.

Lemma copy_denotes attached k fuel r out en :
  (attached = true -> quiet_block) -> 0 < k -> denotes attached r out en -> length out < fuel ->
  exists ws r', copyReader fuel k r = Some (ws, en, r') /\ concat ws = out /\ Forall (fun w => w <> []) ws.
Proof.
  intros Hq Hk. revert r out. induction fuel as [|fuel IH]; intros r out Hd Hl; [lia|].
  cbn [copyReader]. unfold inspect_Read. pose proof (fill_denotes _ _ _ _ Hq Hd) as Hf. unfold fill_ok in Hf.
  destruct (inspect_fill _ _ _ _ _) as [r' [err|]]; cbn [fst snd] in Hf.
  { destruct Hf as [-> ->]. by exists [], r'. }
  destruct Hf as [Hne Hd']. destruct (denotes_drop _ _ _ _ k Hd' Hne Hk) as (rest & -> & Hlt & Hd'').
  destruct (IH _ rest Hd'') as (ws & fin & -> & <- & Hws); [lia|]. eexists _, fin. split; [done|]. split; [done|].
  constructor; [|done]. destruct (ir_out r'), k; [done|done|lia|done].
Qed.

End reader.

(** Copying a body through an [InspectReader], with any buffer size and
    for any chunks the body arrives in, writes exactly the bytes the filter
    forwards, in writes that are not empty, ends with the error of the filter
    or with the end of the file, and takes at most one read more than there are
    bytes. *)
Theorem inspect_reader_correct F `{StreamFilter F} attached k (e : F) chunks :
  0 < k -> Forall (fun c => c <> []) chunks -> (attached = true -> quiet_block (F := F)) ->
  exists ws fin,
    copyReader (S (length (forwarded e chunks))) k (newInspectReader (bodyEvents attached chunks) e) =
      Some (ws, endError (ending e chunks), fin) /\
    concat ws = forwarded e chunks /\ Forall (fun w => w <> []) ws.
Proof.
  intros Hk Hc Hq. apply (copy_denotes attached); [done|done| |lia].
  by apply (denotes_live attached chunks e []).
Qed.

Lemma phrase_quiet_block : quiet_block (F := phraseStreamFilter).
Proof. intros s s' c _. by exists s'. Qed.

Lemma inspect_reader_correct_witness :
  match @NewPhraseFilter ascii_tables [str "bad"] with
  | Ok pf =>
      let e := newPhraseStream pf in
      exists ws fin,
        copyReader (S (length (forwarded e [str "a b"; str "ad c"]))) 2
          (newInspectReader (bodyEvents true [str "a b"; str "ad c"]) e) =
        Some (ws, endError (ending e [str "a b"; str "ad c"]), fin) /\
        concat ws = forwarded e [str "a b"; str "ad c"] /\ Forall (fun w => w <> []) ws
  | Err _ => False
  end.
Proof.
  destruct (@NewPhraseFilter ascii_tables [str "bad"]) as [pf|err] eqn:E;
    [|revert E; apply is_ok_not_Err; vm_compute; reflexivity].
  apply (inspect_reader_correct phraseStreamFilter true 2); [lia| |intros _; exact phrase_quiet_block].
  repeat constructor; discriminate.
Defined.
