(* ===== verification/Antivirus.v ===== *)
(** Antivirus scanning of responses ([proxy/antivirus.go]): the INSTREAM
    protocol of the scanner's client, and the reader that trickles a response
    to the client byte by byte while it is downloaded, and sends the rest only
    after the scan.  The download and the trickle are two goroutines; a
    schedule says who moves, and what the disk, the pipe and the context do. *)

From stdpp Require Import base list.
From S2P Require Import Prelude GoStrings FilterEngine InspectReader.
Set Default Goal Selector "!".

Record ScanResult := MkScan { Infected : bool; Signature : bytes }.

Definition cleanScan : ScanResult := MkScan false [].

Inductive avError :=
| ErrCanceled | ErrSource | ErrWrite | ErrShortWrite | ErrIO | ErrClosedPipe | ErrScan
| ErrAntivirusBlocked (signature : bytes).

Record Antivirus := MkAntivirus { TempDir : bytes; TrickleInterval : Z }.

(** [scanner] is false for a nil scanner. *)
Definition NewAntivirus (scanner : bool) (tempDir : bytes) (trickleInterval : Z) : option Antivirus :=
  if scanner then Some (MkAntivirus tempDir (if Z.ltb trickleInterval 0 then 0 else trickleInterval)) else None.

Record ClamAVScanner := MkClamAV { Address : bytes; Timeout : Z }.

Definition NewClamAVScanner `{UnicodeTables} (address : bytes) (timeout : Z) : option ClamAVScanner :=
  let address := TrimSpace address in
  if decide (address = []) then None
  else Some (MkClamAV address (if Z.leb timeout 0 then 30 * 1000000000 else timeout)).

(** ** The client of the scanner *)

(** Go's conversion [byte(v)]. *)
Definition octet (v : Z) : byte := default Byte.x00 (Byte.of_N (Z.to_N (v mod 256))).

(** [binary.BigEndian.PutUint32]. *)
Definition be32 (v : Z) : bytes := map (fun k => octet (Z.shiftr v k)) [24; 16; 8; 0]%Z.

Definition instream : bytes := str "zINSTREAM" ++ [Byte.x00].

Definition frame (chunk : bytes) : bytes :=
  if decide (chunk = []) then [] else be32 (u32 (Z.of_nat (length chunk))) ++ chunk.

(** What [ScanFile] writes to the connection when the reads of the file give
    [reads]. *)
Definition streamFile (reads : list bytes) : bytes := instream ++ concat (map frame reads) ++ be32 0.

Definition parseClamAVResponse (resp : bytes) : ScanResult :=
  let resp := TrimRight resp ([Byte.x00; Byte.x0d; Byte.x0a] ++ str " ") in
  if HasSuffix resp (str " OK") then cleanScan
  else if HasSuffix resp (str " FOUND") then
    let name := TrimSuffix resp (str " FOUND") in
    MkScan true (match LastIndex name (str ": ") with Some i => drop (i + 2) name | None => name end)
  else cleanScan.

(** [ScanFile] on a file read in [reads]; [clamd] is the service: its answer
    to a stream, or [None] when the connection fails. *)
Definition ScanFile (clamd : bytes -> option bytes) (reads : list bytes) : option ScanResult :=
  resp ← clamd (streamFile reads); Some (parseClamAVResponse (take 4096 resp)).

(** ** The trickling reader *)

(** The download goroutine: about to read, about to count [w] bytes it has
    written, about to send its result, ended. *)
Inductive download :=
| DRead (src : list readEvent)
| DCount (w : nat) (k : download)
| DSend (e : option avError)
| DEnd.

(** The goroutine of [run]; [downloadErr] is nil while [doneClosed] is false,
    which is the case in [Sleep]. *)
Inductive phase :=
| Loop (offset : nat) (doneClosed : bool) (downloadErr : option avError)
| ReadByte (offset : nat) (doneClosed : bool) (downloadErr : option avError)
| Sleep (offset : nat)
| After (offset : nat) (doneClosed : bool) (downloadErr : option avError) (err : option avError)
| Copying (offset : nat)
| Finished (err : option avError).

Record av := MkAv {
  tmp : bytes;                           (* the temporary file *)
  downloaded : nat;
  dl : download;
  done : option (option avError);        (* the channel [downloadDone] *)
  cancelled : bool;
  readerClosed : bool;
  sent : bytes;                          (* written to the pipe *)
  ticks : nat;                           (* expired timers of the trickle *)
  ph : phase;
}.

(** Who moves, and the outcome of what it calls. *)
Inductive pick := PickCtx | PickDone | PickTimer | PickFail | PickGo (n : nat).
Inductive event := Download (w : nat) (failed : bool) | Run (p : pick) | Cancel | CloseReader.

Definition setDl (s : av) (t : bytes) (n : nat) (d : download) : av :=
  MkAv t n d (done s) (cancelled s) (readerClosed s) (sent s) (ticks s) (ph s).
Definition setPh (s : av) (p : phase) : av :=
  MkAv (tmp s) (downloaded s) (dl s) (done s) (cancelled s) (readerClosed s) (sent s) (ticks s) p.
Definition emit (s : av) (bs : bytes) (p : phase) : av :=
  MkAv (tmp s) (downloaded s) (dl s) (done s) (cancelled s) (readerClosed s) (sent s ++ bs) (ticks s) p.

(** [downloadToTemp] after a read. *)
Definition afterRead (src : list readEvent) (err : option readError) : download :=
  match err with None => DRead src | Some EOF => DSend None | Some _ => DSend (Some ErrSource) end.

(** One step of [downloadToTemp]; the write to the disk takes [w] bytes. *)
Definition downloadToTemp (w : nat) (failed : bool) (s : av) : option av :=
  match dl s with
  | DRead src =>
      if cancelled s then Some (setDl s (tmp s) (downloaded s) (DSend (Some ErrCanceled)))
      else match src with
      | [] => Some (setDl s (tmp s) (downloaded s) (DSend None))
      | ([], err) :: src' => Some (setDl s (tmp s) (downloaded s) (afterRead src' err))
      | (data, err) :: src' =>
          if w <=? length data then
            Some (setDl s (tmp s ++ take w data) (downloaded s)
                    (DCount w (if failed then DSend (Some ErrWrite)
                               else if w =? length data then afterRead src' err
                               else DSend (Some ErrShortWrite))))
          else None
      end
  | DCount w k => Some (setDl s (tmp s) (downloaded s + w) k)
  | DSend e =>
      match done s with
      | None => Some (MkAv (tmp s) (downloaded s) DEnd (Some e) (cancelled s) (readerClosed s) (sent s) (ticks s) (ph s))
      | Some _ => None
      end
  | DEnd => None
  end.

Section run.
Context (interval : Z) (scan : bytes -> option ScanResult).

(** [<-done], when a result is there. *)
Definition receive (s : av) (k : option avError -> phase) : option av :=
  e ← done s;
  Some (MkAv (tmp s) (downloaded s) (dl s) None (cancelled s) (readerClosed s) (sent s) (ticks s) (k e)).

Definition onCtx (s : av) (p : phase) : option av := if cancelled s then Some (setPh s p) else None.

(** One step of [trickleUntilDownloaded]. *)
Definition trickle (p : pick) (s : av) : option av :=
  match ph s with
  | Loop offset doneClosed derr =>
      if downloaded s <=? offset then
        if doneClosed then Some (setPh s (After offset doneClosed derr None))
        else match p with
        | PickCtx => onCtx s (After offset doneClosed derr (Some ErrCanceled))
        | PickDone => receive s (fun e => if downloaded s <=? offset then After offset true e None else ReadByte offset true e)
        | PickTimer => Some s
        | _ => None
        end
      else Some (setPh s (ReadByte offset doneClosed derr))
  | ReadByte offset doneClosed derr =>
      match p with
      | PickFail => Some (setPh s (After offset doneClosed derr (Some ErrIO)))
      | PickGo _ =>
          match tmp s !! offset with
          | None => Some (setPh s (Loop offset doneClosed derr))
          | Some b =>
              if readerClosed s then Some (setPh s (After offset doneClosed derr (Some ErrClosedPipe)))
              else Some (emit s [b]
                (if doneClosed then After (S offset) doneClosed derr None
                 else if Z.ltb 0 interval then Sleep (S offset)
                 else Loop (S offset) doneClosed derr))
          end
      | _ => None
      end
  | Sleep offset =>
      match p with
      | PickCtx => onCtx s (After offset false None (Some ErrCanceled))
      | PickDone => receive s (fun e => After offset true e None)
      | PickTimer =>
          Some (MkAv (tmp s) (downloaded s) (dl s) (done s) (cancelled s) (readerClosed s) (sent s) (S (ticks s))
                  (Loop offset false None))
      | _ => None
      end
  | _ => None
  end.

(** [run] after the trickle. *)
Definition run (p : pick) (s : av) : option av :=
  match ph s with
  | After _ _ _ (Some err) => Some (setPh s (Finished (Some err)))
  | After offset false _ None => receive s (fun e => After offset true e None)
  | After _ true (Some derr) None => Some (setPh s (Finished (Some derr)))
  | After offset true None None =>
      match p with
      | PickFail => Some (setPh s (Finished (Some ErrIO)))
      | PickGo _ =>
          Some (setPh s (match scan (tmp s) with
                         | None => Finished (Some ErrScan)
                         | Some r => if Infected r then Finished (Some (ErrAntivirusBlocked (Signature r)))
                                     else Copying offset
                         end))
      | _ => None
      end
  | Copying offset =>
      match p with
      | PickFail => Some (setPh s (Finished (Some ErrIO)))
      | PickGo n =>
          if offset <? length (tmp s) then
            if readerClosed s then Some (setPh s (Finished (Some ErrClosedPipe)))
            else Some (emit s (take n (drop offset (tmp s))) (Copying (offset + length (take n (drop offset (tmp s))))))
          else Some (setPh s (Finished None))
      | _ => None
      end
  | Finished _ => None
  | _ => trickle p s
  end.

Definition step (ev : event) (s : av) : option av :=
  match ev with
  | Download w failed => downloadToTemp w failed s
  | Run p => run p s
  | Cancel => Some (MkAv (tmp s) (downloaded s) (dl s) (done s) true (readerClosed s) (sent s) (ticks s) (ph s))
  | CloseReader => Some (MkAv (tmp s) (downloaded s) (dl s) (done s) (cancelled s) true (sent s) (ticks s) (ph s))
  end.

(** [newAntivirusTricklingReader], once its temporary file is made. *)
Definition newReader (src : list readEvent) : av := MkAv [] 0 (DRead src) None false false [] 0 (Loop 0 false None).

Fixpoint exec (evs : list event) (s : av) : option av :=
  match evs with [] => Some s | ev :: evs' => s' ← step ev s; exec evs' s' end.

End run.

(** ** Specification *)

(** The bytes of a source up to its first error, and whether that is its end. *)
Fixpoint body (src : list readEvent) : bytes :=
  match src with [] => [] | (d, None) :: src' => d ++ body src' | (d, Some _) :: _ => d end.

Fixpoint complete (src : list readEvent) : bool :=
  match src with [] | (_, Some EOF) :: _ => true | (_, None) :: src' => complete src' | _ => false end.

(** The stream as the scanner reads it: chunks of a length each, until a
    length of zero. *)
Definition val32 (s : bytes) : Z := fold_left (fun n b => 256 * n + Z.of_N (byte_val b))%Z s 0%Z.

Fixpoint unframe_chunks (fuel : nat) (s : bytes) : option bytes :=
  match fuel with
  | O => None
  | S fuel' =>
      let n := Z.to_nat (val32 (take 4 s)) in
      if length s <? 4 then None
      else if n =? 0 then Some []
      else if length (drop 4 s) <? n then None
      else app (take n (drop 4 s)) <$> unframe_chunks fuel' (drop n (drop 4 s))
  end.

Definition readStream (s : bytes) : option bytes :=
  if bool_decide (take (length instream) s = instream)
  then unframe_chunks (length s) (drop (length instream) s) else None.

(** ** Lemmas on the stream *)

Lemma octet_val v : Z.of_N (byte_val (octet v)) = (v mod 256)%Z.
Proof.
  unfold octet. pose proof (Z.mod_pos_bound v 256 ltac:(lia)) as Hb.
  destruct (Byte.of_N (Z.to_N (v mod 256))) as [b|] eqn:E.
  - apply Byte.to_of_N in E. change (Z.of_N (Byte.to_N b) = v mod 256)%Z. rewrite E. lia.
  - apply Byte.of_N_None_iff in E. lia.
Qed.

Lemma be32_length v : length (be32 v) = 4.
Proof. done. Qed.

Lemma val32_be32 v : (0 <= v < 2 ^ 32)%Z -> val32 (be32 v) = v.
Proof.
  intros Hv. unfold val32, be32. cbn [map fold_left]. rewrite !octet_val, !Z.shiftr_div_pow2 by lia.
  change (2 ^ 24)%Z with 16777216%Z. change (2 ^ 16)%Z with 65536%Z. change (2 ^ 8)%Z with 256%Z. change (2 ^ 0)%Z with 1%Z.
  change (2 ^ 32)%Z with 4294967296%Z in Hv. Z.to_euclidean_division_equations. lia.
Qed.

Lemma unframe_frame fuel c rest :
  c <> [] -> (Z.of_nat (length c) < 2 ^ 32)%Z ->
  unframe_chunks (S fuel) (frame c ++ rest) = app c <$> unframe_chunks fuel rest.
Proof.
  intros Hc Hl. unfold frame. rewrite decide_False by done. set (h := be32 _).
  assert (Hh : val32 h = Z.of_nat (length c)).
  { unfold h, wrapU. rewrite Z.mod_small by lia. apply val32_be32. lia. }
  assert (Hh4 : length h = 4) by done. clearbody h.
  assert (Hpos : length c <> 0) by (destruct c; cbn; [done|lia]).
  cbn [unframe_chunks]. rewrite <- app_assoc, take_app_length' by done. rewrite drop_app_length' by done.
  rewrite Hh, Nat2Z.id. rewrite take_app_length, drop_app_length, !length_app.
  destruct (Nat.ltb_spec (length h + (length c + length rest)) 4); [lia|].
  destruct (Nat.eqb_spec (length c) 0); [lia|].
  destruct (Nat.ltb_spec (length c + length rest) (length c)); [lia|done].
Qed.

Lemma unframe_frames reads fuel :
  Forall (fun c => Z.of_nat (length c) < 2 ^ 32)%Z reads -> length (concat (map frame reads)) < fuel ->
  unframe_chunks fuel (concat (map frame reads) ++ be32 0) = Some (concat reads).
Proof.
  intros Hr. revert fuel. induction Hr as [|c reads Hc _ IH]; intros fuel Hf.
  - destruct fuel; [lia|]. done.
  - cbn [map concat] in *. destruct (decide (c = [])) as [->|Hne]; [by apply IH|].
    destruct fuel as [|fuel]; [lia|]. rewrite <- app_assoc, unframe_frame by done. rewrite IH; [done|].
    rewrite length_app in Hf. unfold frame in Hf at 1. rewrite decide_False in Hf by done.
    rewrite length_app, be32_length in Hf. lia.
Qed.

Lemma readStream_streamFile reads :
  Forall (fun c => Z.of_nat (length c) < 2 ^ 32)%Z reads -> readStream (streamFile reads) = Some (concat reads).
Proof.
  intros Hr. unfold readStream, streamFile. rewrite take_app_length, bool_decide_true by done.
  rewrite drop_app_length. apply unframe_frames; [done|]. rewrite !length_app. cbn. lia.
Qed.

(** ** The invariant of the reader *)

Section invariant.
Context (interval : Z) (scan : bytes -> option ScanResult) (full : bytes) (cpl : bool).

Definition plain (e : option avError) : Prop := match e with Some (ErrAntivirusBlocked _) => False | _ => True end.

(** The download has ended with [e]. *)
Definition ended (t : bytes) (n : nat) (e : option avError) : Prop :=
  n = length t /\ t `prefix_of` full /\ plain e /\ (e = None -> t = full /\ cpl = true).

Fixpoint dl_ok (t : bytes) (n : nat) (d : download) : Prop :=
  match d with
  | DRead src => t ++ body src = full /\ complete src = cpl /\ n = length t
  | DCount w k => k <> DEnd /\ dl_ok t (n + w) k
  | DSend e => ended t n e
  | DEnd => n = length t /\ t `prefix_of` full
  end.

Definition received (s : av) (closed : bool) (derr : option avError) : Prop :=
  if closed then dl s = DEnd /\ ended (tmp s) (downloaded s) derr else derr = None.

(** [offset] bytes are sent, after at least [offset - slack] timers. *)
Definition trickled (s : av) (offset slack : nat) : Prop :=
  sent s = take offset (tmp s) /\ offset <= downloaded s /\ ((0 < interval)%Z -> offset <= ticks s + slack).

Definition bounded (s : av) : Prop := (0 < interval)%Z -> length (sent s) <= S (ticks s).

Definition clean : Prop := cpl = true /\ exists r, scan full = Some r /\ Infected r = false.

Definition phase_ok (s : av) : Prop :=
  match ph s with
  | Loop offset closed derr => trickled s offset 0 /\ received s closed derr
  | ReadByte offset closed derr => trickled s offset 0 /\ offset < downloaded s /\ received s closed derr
  | Sleep offset => trickled s offset 1
  | After offset closed derr err => trickled s offset 1 /\ received s closed derr /\ plain err
  | Copying offset => sent s = take offset full /\ dl s = DEnd /\ tmp s = full /\ clean
  | Finished None => sent s = full /\ clean
  | Finished (Some (ErrAntivirusBlocked sig)) =>
      sent s `prefix_of` full /\ bounded s /\ cpl = true /\ exists r, scan full = Some r /\ Infected r = true /\ Signature r = sig
  | Finished (Some _) => sent s `prefix_of` full /\ (bounded s \/ clean)
  end.

Record av_ok (s : av) : Prop := MkAvOk {
  ok_dl : dl_ok (tmp s) (downloaded s) (dl s);
  ok_done : forall e, done s = Some e -> dl s = DEnd /\ ended (tmp s) (downloaded s) e;
  ok_phase : phase_ok s;
}.

Lemma dl_ok_prefix t n d : dl_ok t n d -> n <= length t /\ t `prefix_of` full.
Proof.
  revert n. induction d as [src|w k IH|e|]; intros n; cbn.
  - intros (<- & _ & ->). split; [done|]. by exists (body src).
  - intros [_ H%IH]. split; [lia|apply H].
  - intros (-> & Hp & _). by split.
  - by intros [-> Hp].
Qed.

Lemma afterRead_ok t d err src :
  t ++ body ((d, err) :: src) = full -> complete ((d, err) :: src) = cpl ->
  dl_ok (t ++ d) (length (t ++ d)) (afterRead src err).
Proof.
  destruct err as [[| |]|]; cbn; intros Hb Hc; unfold ended; cbn.
  1-3: subst full; split_and!; [done|done|done|by intros]; done.
  rewrite <- app_assoc. by split_and!.
Qed.

(** What the download does to the file does not change what has been sent. *)
Lemma phase_ok_grow s t n d :
  dl s <> DEnd -> av_ok s -> downloaded s <= n -> (exists x, t = tmp s ++ x) -> phase_ok (setDl s t n d).
Proof.
  intros Hd [Hdl _ Hp] Hn [x ->]. destruct (dl_ok_prefix _ _ _ Hdl) as [Hlen _].
  assert (Htr : forall offset slack, trickled s offset slack -> trickled (setDl s (tmp s ++ x) n d) offset slack).
  { intros o sl (Hs & Ho & Ht). split_and!; cbn; [|lia|done]. rewrite take_app_le by lia. done. }
  assert (Hrc : forall c e, received s c e -> received (setDl s (tmp s ++ x) n d) c e).
  { intros [] e; [|done]. by intros [? _]. }
  unfold phase_ok in *. cbn [ph setDl]. destruct (ph s) as [o c de|o c de|o|o c de er|o|[[]|]]; try done.
  - destruct Hp as [? ?]. split; by auto.
  - destruct Hp as (? & ? & ?). split_and!; [by auto|cbn; lia|by auto].
  - by auto.
  - destruct Hp as (? & ? & ?). split_and!; by auto.
  - by destruct Hp as (_ & ? & _).
Qed.

Lemma ended_err t n e : n = length t -> t `prefix_of` full -> plain (Some e) -> ended t n (Some e).
Proof. intros Hn Hp He. unfold ended. by split_and!. Qed.

Lemma setDl_ok s t n d :
  av_ok s -> dl s <> DEnd -> downloaded s <= n -> (exists x, t = tmp s ++ x) -> dl_ok t n d -> av_ok (setDl s t n d).
Proof.
  intros Hok Hd Hn Hx Hdl. split; [done| |by apply phase_ok_grow].
  intros e He. by destruct (ok_done _ Hok e He).
Qed.

Lemma download_ok w failed s s' : av_ok s -> downloadToTemp w failed s = Some s' -> av_ok s'.
Proof.
  intros Hok. pose proof (ok_dl _ Hok) as Hdl. unfold downloadToTemp.
  assert (Hself : exists x, tmp s = tmp s ++ x) by (exists []; by rewrite app_nil_r).
  destruct (dl s) as [src|w' k|e|] eqn:Ed; [| | |done].
  - cbn in Hdl. destruct Hdl as (Hb & Hc & Hn). destruct (cancelled s).
    { intros [= <-]. apply setDl_ok; [done|by rewrite Ed|done|done|]. cbn. split_and!; [done| |done|done]. by exists (body src). }
    destruct src as [|[[|b data] err] src].
    + intros [= <-]. apply setDl_ok; [done|by rewrite Ed|done|done|]. cbn in Hb, Hc |- *. rewrite app_nil_r in Hb.
      split_and!; [done|by rewrite Hb|done|by split].
    + intros [= <-]. apply setDl_ok; [done|by rewrite Ed|done|done|].
      pose proof (afterRead_ok (tmp s) [] err src Hb Hc) as Ha. rewrite app_nil_r in Ha. by rewrite Hn.
    + set (d := b :: data) in *. destruct (Nat.leb_spec w (length d)) as [Hw|]; [|done]. intros [= <-].
      apply setDl_ok; [done|by rewrite Ed|done|by eexists|]. cbn [dl_ok].
      split; [destruct failed; [done|]; destruct (w =? S (length data)); [by destruct err as [[]|]|done]|].
      assert (Hn' : downloaded s + w = length (tmp s ++ take w d)).
      { rewrite Hn, length_app, length_take_le; lia. }
      assert (Hpre : tmp s ++ take w d `prefix_of` full).
      { rewrite <- Hb. apply prefix_app. trans d; [by exists (drop w d); rewrite take_drop|].
        destruct err; cbn [body]; [done|by eexists]. }
      destruct failed; [by apply ended_err|]. destruct (Nat.eqb_spec w (S (length data))) as [->|]; [|by apply ended_err].
      change (S (length data)) with (length d) in *. rewrite Hn', firstn_all. by apply afterRead_ok.
  - intros [= <-]. apply setDl_ok; [done|by rewrite Ed|lia|done|apply Hdl].
  - destruct (done s) eqn:Edn; [done|]. intros [= <-]. cbn in Hdl. split.
    + cbn. destruct Hdl as (-> & Hp & _). by split.
    + cbn. intros e' [= <-]. by split.
    + apply (phase_ok_grow s (tmp s) (downloaded s) DEnd); [by rewrite Ed|done|done|done].
Qed.

Lemma trickled_take s offset slack : trickled s offset slack -> dl_ok (tmp s) (downloaded s) (dl s) ->
  sent s `prefix_of` full /\ (slack <= 1 -> bounded s).
Proof.
  intros (Hs & Ho & Ht) Hdl. destruct (dl_ok_prefix _ _ _ Hdl) as [_ Hp]. split.
  - rewrite Hs. trans (tmp s); [apply prefix_take|done].
  - intros Hsl Hi. rewrite Hs, length_take. specialize (Ht Hi). lia.
Qed.

Lemma trickled_slack s offset p : trickled s offset 0 -> trickled (setPh s p) offset 1.
Proof. intros (Hs & Ho & Ht). split_and!; cbn; [done|done|]. intros Hi. specialize (Ht Hi). lia. Qed.

Lemma setPh_ok s p : av_ok s -> phase_ok (setPh s p) -> av_ok (setPh s p).
Proof. intros [Hd He _] Hp. by split. Qed.

(** A result taken from the channel. *)
Lemma receive_ok s k s' :
  av_ok s -> receive s k = Some s' ->
  (forall e, received s true e -> phase_ok (setPh s (k e))) -> av_ok s'.
Proof.
  intros [Hd He Hp] Hr Hk. unfold receive in Hr. destruct (done s) as [e|] eqn:Ed; [|done]. injection Hr as <-.
  split; cbn; [done|done|]. apply Hk. by apply He.
Qed.

Lemma emit_trickled s offset b p :
  trickled s offset 0 -> tmp s !! offset = Some b -> offset < downloaded s -> trickled (emit s [b] p) (S offset) 1.
Proof.
  intros (Hs & Ho & Ht) Hb Hlt. split_and!; cbn; [|lia|].
  - by rewrite Hs, (take_S_r _ _ _ Hb).
  - intros Hi. specialize (Ht Hi). lia.
Qed.

Lemma emit_ok s bs p : av_ok s -> phase_ok (emit s bs p) -> av_ok (emit s bs p).
Proof. intros [Hd He _] Hp. by split. Qed.

Lemma loop_ok s offset closed derr p s' :
  av_ok s -> ph s = Loop offset closed derr -> trickle interval p s = Some s' -> av_ok s'.
Proof.
  intros Hok Eph Ht. pose proof (ok_phase _ Hok) as Hp. unfold phase_ok in Hp. unfold trickle in Ht.
  rewrite Eph in Hp, Ht. destruct Hp as [Htr Hrc].
  destruct (Nat.leb_spec (downloaded s) offset) as [Hle|Hlt].
  2:{ injection Ht as <-. apply setPh_ok; [done|]. by split_and!. }
  destruct closed.
  { injection Ht as <-. apply setPh_ok; [done|]. split_and!; [by apply trickled_slack|done|done]. }
  destruct p; try done.
  - unfold onCtx in Ht. destruct (cancelled s); [|done]. injection Ht as <-. apply setPh_ok; [done|].
    split_and!; [by apply trickled_slack|done|done].
  - eapply receive_ok; [done|exact Ht|]. intros e He. split_and!; [by apply trickled_slack|done|done].
  - by injection Ht as <-.
Qed.

Lemma readByte_ok s offset closed derr p s' :
  av_ok s -> ph s = ReadByte offset closed derr -> trickle interval p s = Some s' -> av_ok s'.
Proof.
  intros Hok Eph Ht. pose proof (ok_phase _ Hok) as Hp. unfold phase_ok in Hp. unfold trickle in Ht.
  rewrite Eph in Hp, Ht. destruct Hp as (Htr & Hlt & Hrc). destruct p; try done.
  { injection Ht as <-. apply setPh_ok; [done|]. split_and!; [by apply trickled_slack|done|done]. }
  destruct (tmp s !! offset) as [b|] eqn:Eb.
  2:{ injection Ht as <-. apply setPh_ok; [done|]. by split. }
  destruct (readerClosed s); injection Ht as <-.
  { apply setPh_ok; [done|]. split_and!; [by apply trickled_slack|done|done]. }
  apply emit_ok; [done|]. destruct closed; [by split_and!; [apply emit_trickled|..]|].
  unfold phase_ok. destruct (Z.ltb_spec 0 interval) as [|Hi]; cbn [ph emit]; [by apply emit_trickled|].
  split; [|done]. destruct (emit_trickled s offset b (Loop (S offset) false derr) Htr Eb Hlt) as (Hs & Ho & _).
  split_and!; [done|done|lia].
Qed.

Lemma sleep_ok s offset p s' :
  av_ok s -> ph s = Sleep offset -> trickle interval p s = Some s' -> av_ok s'.
Proof.
  intros Hok Eph Ht. pose proof (ok_phase _ Hok) as Htr. unfold phase_ok in Htr. unfold trickle in Ht.
  rewrite Eph in Htr, Ht. destruct p; try done.
  - unfold onCtx in Ht. destruct (cancelled s); [|done]. injection Ht as <-. apply setPh_ok; [done|]. by split_and!.
  - eapply receive_ok; [done|exact Ht|]. intros e He. by split_and!.
  - injection Ht as <-. destruct Hok as [Hd He _], Htr as (Hs & Ho & Hb). split; cbn; [done|done|].
    split; [|done]. split_and!; cbn; [done|done|]. intros Hi. specialize (Hb Hi). lia.
Qed.

Lemma after_ok s offset closed derr err p s' :
  av_ok s -> ph s = After offset closed derr err -> run interval scan p s = Some s' -> av_ok s'.
Proof.
  intros Hok Eph Hr. pose proof (ok_phase _ Hok) as Hp. unfold phase_ok in Hp. unfold run in Hr.
  rewrite Eph in Hp, Hr. destruct Hp as (Htr & Hrc & Hpl).
  destruct (trickled_take _ _ _ Htr (ok_dl _ Hok)) as [Hpre Hbd]. specialize (Hbd ltac:(lia)).
  assert (Hfail : forall e, plain (Some e) -> av_ok (setPh s (Finished (Some e)))).
  { intros e He. apply setPh_ok; [done|]. unfold phase_ok. destruct e; try done; by split; [|left]. }
  destruct err as [err|].
  { destruct closed, derr; injection Hr as <-; by apply Hfail. }
  destruct closed; [|eapply receive_ok; [done|exact Hr|]; intros e He; by split_and!].
  destruct Hrc as (Hend & Hn & _ & Hpd & Hfull).
  destruct derr as [derr|]; [injection Hr as <-; by apply Hfail|]. destruct (Hfull eq_refl) as [Ht Hc].
  destruct p; try done; injection Hr as <-; [by apply Hfail|].
  destruct (scan (tmp s)) as [r|] eqn:Es; [|by apply Hfail]. rewrite Ht in Es.
  apply setPh_ok; [done|]. destruct (Infected r) eqn:Ei; unfold phase_ok; cbn [ph setPh].
  - split_and!; [done|done|done|by exists r].
  - destruct Htr as (Hs & _ & _). rewrite Ht in Hs. split_and!; [done|done|done|split; [done|by exists r]].
Qed.

Lemma copying_ok s offset p s' :
  av_ok s -> ph s = Copying offset -> run interval scan p s = Some s' -> av_ok s'.
Proof.
  intros Hok Eph Hr. pose proof (ok_phase _ Hok) as Hp. unfold phase_ok in Hp. unfold run in Hr.
  rewrite Eph in Hp, Hr. destruct Hp as (Hs & Hend & Ht & Hcl).
  assert (Hfail : forall e, plain (Some e) -> av_ok (setPh s (Finished (Some e)))).
  { intros e He. apply setPh_ok; [done|]. unfold phase_ok. cbn [ph setPh sent].
    assert (sent s `prefix_of` full) by (rewrite Hs; apply prefix_take). destruct e; try done; by split; [|right]. }
  destruct p as [| | | |n]; try done; [injection Hr as <-; by apply Hfail|].
  destruct (Nat.ltb_spec offset (length (tmp s))) as [Hlt|Hge].
  - destruct (readerClosed s); injection Hr as <-; [by apply Hfail|]. apply emit_ok; [done|].
    unfold phase_ok. cbn [ph emit sent dl tmp]. split_and!; [|done|done|done].
    rewrite Hs, Ht, take_take_drop, length_take, length_drop. rewrite Ht in Hlt.
    destruct (decide (n <= length full - offset)); [by rewrite Nat.min_l|]. rewrite !take_ge by lia. done.
  - injection Hr as <-. apply setPh_ok; [done|]. split; [|done]. cbn [sent setPh]. rewrite Hs. apply take_ge. rewrite <- Ht. lia.
Qed.

Lemma av_step_ok ev s s' : av_ok s -> step interval scan ev s = Some s' -> av_ok s'.
Proof.
  intros Hok. destruct ev as [w failed|p| |]; cbn [step].
  - by apply download_ok.
  - intros Hr. destruct (ph s) as [o c de|o c de|o|o c de er|o|er] eqn:Eph.
    1-3: unfold run in Hr; rewrite Eph in Hr.
    + by eapply loop_ok.
    + by eapply readByte_ok.
    + by eapply sleep_ok.
    + by eapply after_ok.
    + by eapply copying_ok.
    + unfold run in Hr. by rewrite Eph in Hr.
  - intros [= <-]. destruct Hok as [Hd He Hp]. by split.
  - intros [= <-]. destruct Hok as [Hd He Hp]. by split.
Qed.

Lemma av_exec_ok evs s s' : av_ok s -> exec interval scan evs s = Some s' -> av_ok s'.
Proof.
  revert s. induction evs as [|ev evs IH]; intros s Hok; cbn [exec]; [by intros [= <-]|].
  destruct (step interval scan ev s) as [s1|] eqn:E; [|done]. cbn. apply IH. by eapply av_step_ok.
Qed.

End invariant.

(** ** The reader can always finish *)

Section finish.
Context (interval : Z) (scan : bytes -> option ScanResult).

(** The result of the download has been received, or is not needed. *)
Definition took (p : phase) : Prop :=
  match p with
  | Loop _ c _ | ReadByte _ c _ => c = true
  | Sleep _ => False
  | After _ c _ e => c = true \/ e <> None
  | Copying _ | Finished _ => True
  end.

Record live (s : av) : Prop := MkLive {
  live_done : dl s = DEnd -> done s <> None \/ took (ph s);
  live_after : match ph s with After _ c _ e => c = true \/ e <> None | _ => True end;
}.

Lemma live_setPh s p : live s -> (took (ph s) -> took p) -> match p with After _ c _ e => c = true \/ e <> None | _ => True end ->
  live (setPh s p).
Proof. intros [Hd Ha] Ht Hs. split; [|done]. cbn. intros He. destruct (Hd He); [by left|right; by apply Ht]. Qed.

Lemma live_emit s bs p : live s -> (took (ph s) -> took p) -> match p with After _ c _ e => c = true \/ e <> None | _ => True end ->
  live (emit s bs p).
Proof. intros [Hd Ha] Ht Hs. split; [|done]. cbn. intros He. destruct (Hd He); [by left|right; by apply Ht]. Qed.

Lemma live_receive s k s' : receive s k = Some s' -> (forall e, took (k e)) -> live s'.
Proof.
  unfold receive. destruct (done s) as [e|]; [|done]. intros [= <-] Hk. specialize (Hk e).
  split; cbn; [by right|]. by destruct (k e).
Qed.

Lemma live_run p s s' : live s -> run interval scan p s = Some s' -> live s'.
Proof.
  intros Hl Hr. pose proof (live_after _ Hl) as Ha. pose proof (fun q => live_setPh s q Hl) as Hset.
  pose proof (fun bs q => live_emit s bs q Hl) as Hem.
  unfold run, trickle, onCtx in Hr. destruct (ph s) as [o c de|o c de|o|o c de er|o|er] eqn:Eph; cbn in Hset, Hem.
  - destruct (downloaded s <=? o) eqn:Eo; [|injection Hr as <-; by apply Hset].
    destruct c; [injection Hr as <-; apply Hset; [by left|by left]|]. destruct p; try done.
    + destruct (cancelled s); [|done]. injection Hr as <-. apply Hset; by right.
    + eapply live_receive; [exact Hr|]. intros e. by left.
    + by injection Hr as <-.
  - destruct p; try done.
    + injection Hr as <-. apply Hset; by right.
    + destruct (tmp s !! o); [|injection Hr as <-; by apply Hset]. destruct (readerClosed s); injection Hr as <-.
      * apply Hset; by right.
      * destruct c; [apply Hem; by left|]. destruct (Z.ltb 0 interval); by apply Hem.
  - destruct p; try done.
    + destruct (cancelled s); [|done]. injection Hr as <-. apply Hset; by right.
    + eapply live_receive; [exact Hr|]. intros e. by left.
    + injection Hr as <-. destruct Hl as [Hd _]. rewrite Eph in Hd. split; [|done]. cbn. intros He.
      destruct (Hd He) as [?|[]]. by left.
  - destruct c, er as [er|]; try (destruct Ha; done).
    + destruct de; injection Hr as <-; by apply Hset.
    + destruct de; [injection Hr as <-; by apply Hset|]. destruct p; try done; injection Hr as <-; [by apply Hset|].
      destruct (scan (tmp s)) as [r|]; [destruct (Infected r)|]; by apply Hset.
    + injection Hr as <-. by apply Hset.
  - destruct p; try done; [injection Hr as <-; by apply Hset|]. destruct (o <? length (tmp s)).
    + destruct (readerClosed s); injection Hr as <-; [by apply Hset|by apply Hem].
    + injection Hr as <-. by apply Hset.
  - done.
Qed.

Lemma live_step full cpl ev s s' :
  av_ok interval scan full cpl s -> live s -> step interval scan ev s = Some s' -> live s'.
Proof.
  intros Hok Hl. destruct ev as [w failed|p| |]; cbn [step]; [|by apply live_run| |].
  2-3: intros [= <-]; by destruct Hl as [Hd Ha].
  pose proof (ok_dl _ _ _ _ _ Hok) as Hdl. destruct Hl as [Hd Ha].
  assert (Hgo : forall t n d, d <> DEnd -> live (setDl s t n d)) by (intros t n d Hne; by split).
  unfold downloadToTemp. destruct (dl s) as [src|w' k|e|] eqn:Ed; [| | |done].
  - destruct (cancelled s); [intros [= <-]; by apply Hgo|]. destruct src as [|[[|b data] err] src].
    + intros [= <-]. by apply Hgo.
    + intros [= <-]. apply Hgo. by destruct err as [[]|].
    + destruct (w <=? _); [|done]. intros [= <-]. by apply Hgo.
  - intros [= <-]. apply Hgo, Hdl.
  - destruct (done s); [done|]. intros [= <-]. split; [by left|done].
Qed.

Lemma exec_app evs1 evs2 s s1 : exec interval scan evs1 s = Some s1 -> exec interval scan (evs1 ++ evs2) s = exec interval scan evs2 s1.
Proof.
  revert s. induction evs1 as [|ev evs1 IH]; intros s; cbn; [by intros [= ->]|].
  destruct (step interval scan ev s) as [s'|]; [|done]. apply IH.
Qed.

Lemma exec_live full cpl evs s s' :
  av_ok interval scan full cpl s -> live s -> exec interval scan evs s = Some s' ->
  av_ok interval scan full cpl s' /\ live s'.
Proof.
  revert s. induction evs as [|ev evs IH]; intros s Hok Hl; cbn [exec]; [by intros [= <-]|].
  destruct (step interval scan ev s) as [s1|] eqn:E; [|done]. cbn. apply IH; [by eapply av_step_ok|by eapply live_step].
Qed.

(** No failure, and the client stays. *)
Definition calm (ev : event) : Prop :=
  match ev with Download _ failed => failed = false | Run p => p <> PickFail | Cancel | CloseReader => False end.

(** [s] can calmly reach a state with [P]. *)
Definition reaches (s : av) (P : av -> Prop) : Prop :=
  exists evs s', Forall calm evs /\ exec interval scan evs s = Some s' /\ P s'.

Lemma reaches_refl s (P : av -> Prop) : P s -> reaches s P.
Proof. intros Hp. by exists [], s. Qed.

Lemma reaches_step ev s s1 P : calm ev -> step interval scan ev s = Some s1 -> reaches s1 P -> reaches s P.
Proof. intros Hc Hs (evs & s' & Hcs & He & Hp). exists (ev :: evs), s'. cbn. rewrite Hs. split_and!; [by constructor|done|done]. Qed.

Definition fin (s : av) : Prop := exists err, ph s = Finished err.

Lemma reaches_fin ev s e : calm ev -> step interval scan ev s = Some (setPh s (Finished e)) -> reaches s fin.
Proof. intros Hc Hs. eapply reaches_step; [exact Hc|exact Hs|]. apply reaches_refl. by exists e. Qed.

Lemma copying_reaches s offset : ph s = Copying offset -> reaches s fin.
Proof.
  intros Eph. set (n := length (tmp s)).
  assert (Hstep : forall o, ph s = Copying o -> n <= o -> reaches s fin).
  { intros o Eo Hge. apply (reaches_fin (Run (PickGo n)) _ None); [done|]. cbn. unfold run. rewrite Eo.
    by destruct (Nat.ltb_spec o (length (tmp s))); [unfold n in Hge; lia|]. }
  destruct (decide (n <= offset)) as [Hge|Hlt]; [by eapply Hstep|].
  destruct (readerClosed s) eqn:Er.
  { apply (reaches_fin (Run (PickGo n)) _ (Some ErrClosedPipe)); [done|]. cbn. unfold run. rewrite Eph, Er.
    by destruct (Nat.ltb_spec offset (length (tmp s))); [|unfold n in Hlt; lia]. }
  set (rest := take n (drop offset (tmp s))).
  apply (reaches_step (Run (PickGo n)) _ (emit s rest (Copying (offset + length rest)))); [done| |].
  { cbn. unfold run. rewrite Eph, Er. by destruct (Nat.ltb_spec offset (length (tmp s))); [|unfold n in Hlt; lia]. }
  apply (reaches_fin (Run (PickGo n)) _ None); [done|]. cbn [step]. unfold run. cbn [ph emit tmp].
  assert (Hl : length rest = n - offset) by (unfold rest; rewrite length_take, length_drop; unfold n; lia).
  rewrite Hl. by destruct (Nat.ltb_spec (offset + (n - offset)) (length (tmp s))); [unfold n in *; lia|].
Qed.

Lemma after_reaches s offset closed derr err :
  ph s = After offset closed derr err -> closed = true \/ err <> None -> reaches s fin.
Proof.
  intros Eph Hsh. destruct err as [err|].
  { apply (reaches_fin (Run (PickGo 0)) _ (Some err)); [done|]. cbn. unfold run. rewrite Eph. by destruct closed, derr. }
  destruct closed; [|by destruct Hsh]. destruct derr as [derr|].
  { apply (reaches_fin (Run (PickGo 0)) _ (Some derr)); [done|]. cbn. unfold run. by rewrite Eph. }
  eapply (reaches_step (Run (PickGo 0))); [done|cbn; unfold run; by rewrite Eph|].
  destruct (scan (tmp s)) as [r|]; [destruct (Infected r)|]; try (apply reaches_refl; by eexists).
  by eapply copying_reaches.
Qed.

(** The result of the download is in the channel. *)
Lemma receive_reaches s k : done s <> None -> (forall e, exists o d, k e = After o true d None) ->
  step interval scan (Run PickDone) s = receive s k -> reaches s fin.
Proof.
  intros Hd Hk Hs. destruct (done s) as [e|] eqn:Ed; [|done]. destruct (Hk e) as (o & d & Hke).
  eapply (reaches_step (Run PickDone)); [done|rewrite Hs; unfold receive; rewrite Ed; reflexivity|].
  eapply after_reaches; [cbn; exact Hke|by left].
Qed.

Lemma sleep_reaches s o : live s -> dl s = DEnd -> ph s = Sleep o -> reaches s fin.
Proof.
  intros Hl Hd Eph. destruct (live_done _ Hl Hd) as [Hdn|Ht]; [|by rewrite Eph in Ht].
  eapply receive_reaches; [exact Hdn| |cbn [step]; unfold run, trickle; rewrite Eph; reflexivity]. intros e. by eexists _, _.
Qed.

Section ended.
Context (full : bytes) (cpl : bool).

Lemma readByte_reaches s o c d :
  av_ok interval scan full cpl s -> live s -> dl s = DEnd -> ph s = ReadByte o c d ->
  (forall s', av_ok interval scan full cpl s' -> live s' -> dl s' = DEnd -> downloaded s' = downloaded s ->
     ph s' = Loop (S o) c d -> reaches s' fin) -> reaches s fin.
Proof.
  intros Hok Hl Hd Eph Hloop. pose proof (ok_phase _ _ _ _ _ Hok) as Hp. unfold phase_ok in Hp. rewrite Eph in Hp.
  destruct Hp as (_ & Hlt & _). pose proof (ok_dl _ _ _ _ _ Hok) as Hdl. rewrite Hd in Hdl. destruct Hdl as [Hn _].
  destruct (lookup_lt_is_Some_2 (tmp s) o) as [b Hb]; [lia|].
  destruct (step interval scan (Run (PickGo 0)) s) as [s1|] eqn:Es.
  2:{ exfalso. revert Es. cbn [step]. unfold run, trickle. rewrite Eph, Hb. by destruct (readerClosed s). }
  eapply (reaches_step (Run (PickGo 0))); [done|exact Es|].
  pose proof (av_step_ok _ _ _ _ _ _ _ Hok Es) as Hok1. pose proof (live_step _ _ _ _ _ Hok Hl Es) as Hl1.
  cbn [step] in Es. unfold run, trickle in Es. rewrite Eph, Hb in Es. destruct (readerClosed s); injection Es as <-.
  { eapply after_reaches; [done|by right]. }
  destruct c; [eapply after_reaches; [done|by left]|]. destruct (Z.ltb 0 interval).
  - by eapply sleep_reaches.
  - by apply Hloop.
Qed.

Lemma caught_up_reaches s o c d : downloaded s <= o -> live s -> dl s = DEnd -> ph s = Loop o c d -> reaches s fin.
Proof.
  intros Hle%Nat.leb_le Hl Hd Eph. destruct c.
  - eapply (reaches_step (Run (PickGo 0))); [done|cbn [step]; unfold run, trickle; rewrite Eph, Hle; reflexivity|].
    eapply after_reaches; [done|by left].
  - destruct (live_done _ Hl Hd) as [Hdn|Ht]; [|by rewrite Eph in Ht].
    apply (receive_reaches s (fun e => if downloaded s <=? o then After o true e None else ReadByte o true e) Hdn).
    + intros e. rewrite Hle. by eexists _, _.
    + cbn [step]. unfold run, trickle. by rewrite Eph, Hle.
Qed.

Lemma loop_reaches k s o c d :
  downloaded s - o <= k -> av_ok interval scan full cpl s -> live s -> dl s = DEnd -> ph s = Loop o c d -> reaches s fin.
Proof.
  revert s o. induction k as [|k IH]; intros s o Hk Hok Hl Hd Eph; [eapply caught_up_reaches; [|done..]; lia|].
  destruct (Nat.leb_spec (downloaded s) o) as [Hle|Hlt]; [by eapply caught_up_reaches|].
  assert (Es : step interval scan (Run (PickGo 0)) s = Some (setPh s (ReadByte o c d))).
  { cbn [step]. unfold run, trickle. by rewrite Eph, (proj2 (Nat.leb_gt _ _) Hlt). }
  eapply (reaches_step (Run (PickGo 0))); [done|exact Es|].
  eapply readByte_reaches; [by eapply av_step_ok|by eapply live_step|done|done|].
  intros s' Hok' Hl' Hd' Hn' Eph'. eapply (IH s' (S o)); [cbn in Hn'; lia|done..].
Qed.

Lemma ended_reaches s : av_ok interval scan full cpl s -> live s -> dl s = DEnd -> reaches s fin.
Proof.
  intros Hok Hl Hd. pose proof (live_after _ Hl) as Ha. destruct (ph s) as [o c d|o c d|o|o c d e|o|e] eqn:Eph.
  - by eapply loop_reaches.
  - eapply readByte_reaches; [done..|]. intros s' Hok' Hl' Hd' _ Eph'. by eapply loop_reaches.
  - by eapply sleep_reaches.
  - by eapply after_reaches.
  - by eapply copying_reaches.
  - apply reaches_refl. by exists e.
Qed.

(** The download ends, whatever is left of the source. *)
Definition finishes (d : download) : Prop :=
  forall s, dl s = d -> av_ok interval scan full cpl s -> live s -> reaches s fin.

Lemma finishes_step s s1 w :
  av_ok interval scan full cpl s -> live s -> step interval scan (Download w false) s = Some s1 -> finishes (dl s1) -> reaches s fin.
Proof.
  intros Hok Hl Hs Hk. eapply (reaches_step (Download w false)); [done|exact Hs|].
  apply Hk; [done|by eapply av_step_ok|by eapply live_step].
Qed.

Lemma finishes_end : finishes DEnd.
Proof. intros s Hd Hok Hl. by apply ended_reaches. Qed.

Lemma finishes_send e : finishes (DSend e).
Proof.
  intros s Ed Hok Hl. destruct (done s) as [e'|] eqn:Edn.
  { destruct (ok_done _ _ _ _ _ Hok e' Edn) as [? _]. congruence. }
  eapply (finishes_step s _ 0 Hok Hl); [cbn; unfold downloadToTemp; rewrite Ed, Edn; reflexivity|apply finishes_end].
Qed.

Lemma finishes_count w k : finishes k -> finishes (DCount w k).
Proof.
  intros Hk s Ed Hok Hl.
  eapply (finishes_step s _ 0 Hok Hl); [cbn; unfold downloadToTemp; rewrite Ed; reflexivity|done].
Qed.

Lemma finishes_read src : finishes (DRead src).
Proof.
  induction src as [|[data err] src IH]; intros s Ed Hok Hl; destruct (cancelled s) eqn:Ec.
  1-3: eapply (finishes_step s _ 0 Hok Hl); [cbn; unfold downloadToTemp; rewrite Ed, Ec; reflexivity|apply finishes_send].
  assert (Hafter : finishes (afterRead src err)) by (destruct err as [[]|]; [apply finishes_send..|done]).
  destruct data as [|b data].
  - by eapply (finishes_step s _ 0 Hok Hl); [cbn; unfold downloadToTemp; rewrite Ed, Ec; reflexivity|].
  - eapply (finishes_step s _ (S (length data)) Hok Hl).
    + cbn [step]. unfold downloadToTemp. rewrite Ed, Ec. cbn [length]. rewrite Nat.leb_refl, Nat.eqb_refl. reflexivity.
    + by apply finishes_count.
Qed.

Lemma av_reaches s : av_ok interval scan full cpl s -> live s -> reaches s fin.
Proof.
  assert (Hall : forall d, finishes d).
  { induction d; [apply finishes_read|by apply finishes_count|apply finishes_send|apply finishes_end]. }
  intros Hok Hl. by apply (Hall (dl s)).
Qed.

End ended.
End finish.

Lemma newReader_ok interval scan src : av_ok interval scan (body src) (complete src) (newReader src).
Proof. split; cbn; [done|done|]. split; [|done]. split_and!; cbn; [done|lia|lia]. Qed.

Lemma newReader_live src : live (newReader src).
Proof. by split. Qed.


(** A scanner that finds the byte [x]. *)
Definition sample_scan (b : bytes) : option ScanResult :=
  Some (if bool_decide (Byte.x78 ∈ b) then MkScan true (str "Eicar") else cleanScan).

Definition infected_body : list readEvent := [(str "abx", None)].

(** The first byte is sent, then the download ends. *)
Definition sample_av : list event :=
  [Download 3 false; Download 0 false; Run PickTimer; Run (PickGo 0); Download 0 false; Download 0 false; Run PickDone;
   Run (PickGo 0)].


(** With a zero interval, which the configuration accepts, an infected
    response can be sent whole before it is scanned. *)
Lemma trickle_leaks :
  (fun s => (sent s, ph s)) <$>
  exec 0 sample_scan
    [Download 3 false; Download 0 false; Download 0 false; Download 0 false;
     Run (PickGo 0); Run (PickGo 0); Run (PickGo 0); Run (PickGo 0); Run (PickGo 0); Run (PickGo 0);
     Run PickDone; Run (PickGo 0)] (newReader infected_body) =
  Some (body infected_body, Finished (Some (ErrAntivirusBlocked (str "Eicar")))).
Proof. vm_compute. reflexivity. Qed.

(** The scanner gets the file: the stream that [ScanFile] writes, read as
    the INSTREAM protocol says (chunks after their length, up to a zero
    length), is the concatenation of what was read from the file. *)
Theorem instream_roundtrip reads :
  Forall (fun c => Z.of_nat (length c) < 2 ^ 32)%Z reads -> readStream (streamFile reads) = Some (concat reads).
Proof. apply readStream_streamFile. Qed.

Lemma instream_roundtrip_witness : readStream (streamFile [str "ab"; []; str "c"]) = Some (str "abc").
Proof. apply (instream_roundtrip [str "ab"; []; str "c"]). repeat constructor. Defined.

(** A reply that reports an error counts as clean. *)
Lemma clamav_error_is_clean :
  parseClamAVResponse (str "INSTREAM size limit exceeded. ERROR" ++ [Byte.x00]) = cleanScan /\
  parseClamAVResponse (str "stream: Eicar-Test FOUND" ++ [Byte.x00]) = MkScan true (str "Eicar-Test").
Proof. vm_compute. done. Qed.
