(* ===== verification/Encoded.v ===== *)
(** * Inspection of compressed bodies (proxy/relay.go)

    [encodedInspectReader] decodes a body, puts it through a filter and
    encodes what the filter forwards, in a goroutine that writes into a pipe.
    The decoders and encoders of the four encodings are a parameter: a decoder
    turns the reads of its source into reads, an encoder turns writes into
    writes, and what was encoded is decoded. *)

From S2P Require Import Prelude GoStrings SemanticFilter SemanticTheorems FilterEngine InspectReader.

Inductive codec := Gzip | Deflate | Brotli | Zstd.

(** [openDecoder c src] are the reads of the decoder over [src], or nothing
    when it cannot be created; [openEncoder] likewise. *)
Class Codecs : Type := {
  openDecoder : codec -> list readEvent -> option (list readEvent);
  encoder : Type;
  openEncoder : codec -> option encoder;
  encWrite : encoder -> bytes -> encoder * list bytes;
  encClose : encoder -> list bytes;
}.

Inductive encodedError :=
| ErrDecoder (c : codec)
| ErrEncoder (c : codec)
| ErrUnsupported (encoding : bytes)
| ErrCopy (e : readError)
| ErrClosedPipe.

Section encoded.
Context `{Codecs}.

(** The cases of [newContentDecoder] and [newContentEncoder]. *)
Definition codecOf (encoding : bytes) : option codec :=
  if bytes_eqb encoding (str "gzip") || bytes_eqb encoding (str "x-gzip") then Some Gzip
  else if bytes_eqb encoding (str "deflate") then Some Deflate
  else if bytes_eqb encoding (str "br") then Some Brotli
  else if bytes_eqb encoding (str "zstd") then Some Zstd
  else None.

Definition newContentDecoder (src : list readEvent) (encoding : bytes) : result encodedError (list readEvent) :=
  match codecOf encoding with
  | None => Err (ErrUnsupported encoding)
  | Some c => match openDecoder c src with Some evs => Ok evs | None => Err (ErrDecoder c) end
  end.

Definition newContentEncoder (encoding : bytes) : result encodedError encoder :=
  match codecOf encoding with
  | None => Err (ErrUnsupported encoding)
  | Some c => match openEncoder c with Some enc => Ok enc | None => Err (ErrEncoder c) end
  end.

(** ** The pipe *)

(** The writes that were read, and how many more the reader takes before it
    closes its end; [None] when it reads to the end. *)
Record pipe := MkPipe { pi_read : list bytes; pi_demand : option nat }.

(** [PipeWriter.Write]; [false] is [io.ErrClosedPipe]. *)
Definition pipeWrite (p : pipe) (w : bytes) : pipe * bool :=
  match pi_demand p with
  | None => (MkPipe (pi_read p ++ [w]) None, true)
  | Some (S n) => (MkPipe (pi_read p ++ [w]) (Some n), true)
  | Some O => (p, false)
  end.

(** The writes an encoder makes, up to the first that fails. *)
Fixpoint pipeAll (p : pipe) (ws : list bytes) : pipe * bool :=
  match ws with
  | [] => (p, true)
  | w :: ws => let '(p, ok) := pipeWrite p w in if ok then pipeAll p ws else (p, false)
  end.

Section run.
Context {F : Type} `{StreamFilter F}.

(** [copyBufferPooled(encoder, inspect)] with a buffer of [k] bytes: the
    reader, the encoder and the pipe it leaves, and its error. *)
Fixpoint copyEncoded (fuel k : nat) (r : InspectReader) (enc : encoder) (p : pipe)
    : option (InspectReader * encoder * pipe * option encodedError) :=
  match fuel with
  | O => None
  | S fuel' =>
      let '(r, (data, err)) := inspect_Read k r in
      match err with
      | Some EOF => Some (r, enc, p, None)
      | Some err => Some (r, enc, p, Some (ErrCopy err))
      | None =>
          let '(enc, ws) := encWrite enc data in
          let '(p, ok) := pipeAll p ws in
          if ok then copyEncoded fuel' k r enc p else Some (r, enc, p, Some ErrClosedPipe)
      end
  end.

(** [encodedInspectReader.run]: the pipe, the error its reader gets instead of
    the end of the file, and the filter. *)
Definition encodedRun (fuel k : nat) (src : list readEvent) (encoding : bytes) (engine : F) (p : pipe)
    : option (pipe * option encodedError * F) :=
  match newContentDecoder src encoding with
  | Err e => Some (p, Some e, engine)
  | Ok evs =>
      match newContentEncoder encoding with
      | Err e => Some (p, Some e, engine)
      | Ok enc =>
          '(r, enc, p, copyErr) ← copyEncoded fuel k (newInspectReader evs engine) enc p;
          let '(p, ok) := match copyErr with Some ErrClosedPipe => (p, false) | _ => pipeAll p (encClose enc) end in
          Some (p, match copyErr with
                   | Some e => Some e
                   | None => if ok then None else Some ErrClosedPipe
                   end, ir_engine r)
      end
  end.

End run.

(** ** Specification *)

(** All the writes of an encoder for a list of writes. *)
Fixpoint encodeAll (enc : encoder) (ws : list bytes) : encoder * list bytes :=
  match ws with
  | [] => (enc, [])
  | w :: ws =>
      let '(enc, outs) := encWrite enc w in
      let '(enc, rest) := encodeAll enc ws in (enc, outs ++ rest)
  end.

(** The bytes of a complete compressed body. *)
Definition compress (enc : encoder) (ws : list bytes) : bytes :=
  let '(enc, outs) := encodeAll enc ws in concat (outs ++ encClose enc).

(** [body], however it arrives, decodes to [text]. *)
Definition decodesTo (c : codec) (body text : bytes) : Prop :=
  forall attached chunks, concat chunks = body -> Forall (fun x => x <> []) chunks ->
  exists attached' cs, openDecoder c (bodyEvents attached chunks) = Some (bodyEvents attached' cs) /\
    concat cs = text /\ Forall (fun x => x <> []) cs.

End encoded.

(** What was encoded is decoded. *)
Class CodecLaws `{Codecs} : Prop := {
  compressed_decodes c enc ws : openEncoder c = Some enc -> decodesTo c (compress enc ws) (concat ws);
}.

(** ** Lemmas *)

Section lemmas.
Context `{Codecs} {F : Type} `{StreamFilter F}.

Lemma pipeAll_open ws l : pipeAll (MkPipe l None) ws = (MkPipe (l ++ ws) None, true).
Proof. revert l. induction ws as [|w ws IH]; intros l; cbn; [by rewrite app_nil_r|]. rewrite IH. by rewrite <- app_assoc. Qed.

(** A copy that ends, with any reader at the other end of the pipe, ends also
    with the encoder in between; with one that reads to the end the pipe gets
    the encoded writes. *)
Lemma copyEncoded_ends fuel k (r : InspectReader (F := F)) ws err r' enc p :
  copyReader fuel k r = Some (ws, err, r') -> is_Some (copyEncoded fuel k r enc p).
Proof.
  revert r ws err r' enc p. induction fuel as [|fuel IH]; intros r ws err r' enc p; [done|]. cbn [copyReader copyEncoded].
  destruct (inspect_Read k r) as [r1 [data [e|]]]; [destruct e; by eexists|].
  destruct (copyReader fuel k r1) as [[[ws' err'] r2]|] eqn:Ec; [|done]. intros _.
  destruct (encWrite enc data) as [enc1 outs]. destruct (pipeAll p outs) as [p1 [|]]; [by eapply IH|by eexists].
Qed.

Lemma copyEncoded_open fuel k (r : InspectReader (F := F)) ws err r' enc l :
  copyReader fuel k r = Some (ws, err, r') ->
  copyEncoded fuel k r enc (MkPipe l None) =
  Some (r', fst (encodeAll enc ws), MkPipe (l ++ snd (encodeAll enc ws)) None,
        match err with EOF => None | _ => Some (ErrCopy err) end).
Proof.
  revert r ws enc l. induction fuel as [|fuel IH]; intros r ws enc l; [done|]. cbn [copyReader copyEncoded].
  destruct (inspect_Read k r) as [r1 [data [e|]]].
  { intros [= <- <- <-]. cbn. rewrite app_nil_r. by destruct e. }
  destruct (copyReader fuel k r1) as [[[ws' err'] r2]|] eqn:Ec; [|done]. intros [= <- <- <-]. cbn [encodeAll].
  destruct (encWrite enc data) as [enc1 outs]. rewrite pipeAll_open, (IH _ _ enc1 _ Ec).
  destruct (encodeAll enc1 ws') as [enc2 rest]. cbn [fst snd]. by rewrite app_assoc.
Qed.

End lemmas.

(** The bodies an encoder produced, through the goroutine. *)
Lemma encodedRun_inspects `{CodecLaws} F `{StreamFilter F} encoding c enc0 enc text attached chunks k (e : F) :
  codecOf encoding = Some c -> openEncoder c = Some enc0 -> openEncoder c = Some enc ->
  concat chunks = compress enc0 text -> Forall (fun x => x <> []) chunks -> 0 < k -> quiet_block (F := F) ->
  exists cs, concat cs = concat text /\
    let fuel := S (length (forwarded e cs)) in
    (exists p fin, encodedRun fuel k (bodyEvents attached chunks) encoding e (MkPipe [] None) =
       Some (p, match ending e cs with Failed err => Some (ErrCopy (FilterFailed err)) | _ => None end, fin) /\
       decodesTo c (concat (pi_read p)) (forwarded e cs)) /\
    forall demand, is_Some (encodedRun fuel k (bodyEvents attached chunks) encoding e (MkPipe [] (Some demand))).
Proof.
  intros Hc Ho Ho' Hbody Hne Hk Hq.
  destruct (compressed_decodes c enc0 text Ho attached chunks Hbody Hne) as (att & cs & Hd & Hcs & Hcne).
  exists cs. split; [done|]. cbv zeta.
  destruct (copy_denotes att k (S (length (forwarded e cs))) (newInspectReader (bodyEvents att cs) e)
    (forwarded e cs) (endError (ending e cs)) (fun _ => Hq) Hk (denotes_live att cs e [] Hcne) ltac:(lia)) as (ws & r' & Hcopy & Hws & _).
  unfold encodedRun, newContentDecoder, newContentEncoder. rewrite Hc, Hd, Ho'. split.
  - rewrite (copyEncoded_open _ _ _ _ _ _ _ _ Hcopy). cbn [mbind option_bind app].
    pose proof (compressed_decodes c enc ws Ho') as Hdec. unfold compress in Hdec. rewrite Hws in Hdec.
    destruct (encodeAll enc ws) as [enc' outs]. cbn [fst snd].
    eexists (MkPipe (outs ++ encClose enc') None), (ir_engine r'). split; [|done].
    by destruct (ending e cs); cbn [endError]; rewrite pipeAll_open.
  - intros demand. destruct (copyEncoded_ends _ _ _ _ _ _ enc (MkPipe [] (Some demand)) Hcopy) as [[[[r1 enc1] p1] err1] ->].
    cbn [mbind option_bind]. destruct (match err1 with Some ErrClosedPipe => _ | _ => _ end). by eexists.
Qed.

(** C25.  Compression does not change what is inspected.  A body that an
    encoder produced in one of the supported encodings, however it arrives and
    whatever the buffer of the copy, is cut by the decoder into some chunks; a
    client that reads to the end gets a body that decodes to exactly what the
    filter forwards of these chunks, ended by the end of the file or by the
    error of the filter.  And whenever the client stops reading, the goroutine
    ends. *)
Theorem encoded_inspection `{CodecLaws} F `{StreamFilter F} encoding c enc0 enc text attached chunks k (e : F) :
  codecOf encoding = Some c -> openEncoder c = Some enc0 -> openEncoder c = Some enc ->
  concat chunks = compress enc0 text -> Forall (fun x => x <> []) chunks -> 0 < k -> quiet_block (F := F) ->
  exists cs, concat cs = concat text /\
    let fuel := S (length (forwarded e cs)) in
    (exists p fin, encodedRun fuel k (bodyEvents attached chunks) encoding e (MkPipe [] None) =
       Some (p, match ending e cs with Failed err => Some (ErrCopy (FilterFailed err)) | _ => None end, fin) /\
       decodesTo c (concat (pi_read p)) (forwarded e cs)) /\
    forall demand, is_Some (encodedRun fuel k (bodyEvents attached chunks) encoding e (MkPipe [] (Some demand))).
Proof. apply encodedRun_inspects. Qed.

(** ** Phrases in compressed bodies *)

(** A phrase filter that blocks a text blocks it in every cut. *)
Lemma phrase_drain_blocked f cs out :
  snd (phrase_ProcessChunk f (concat cs)) = Ok (out, true) -> forwarded f cs = out /\ ending f cs = BlockedEnd.
Proof.
  revert f out. induction cs as [|c cs IH]; intros f out; cbn [concat].
  - unfold phrase_ProcessChunk. destruct (compiled f); [|done]. by destruct (_ || _) eqn:E; rewrite ?orb_true_r in *.
  - rewrite phrase_ProcessChunk_app. unfold forwarded, ending in *. cbn [drain processChunk phraseFilter_stream].
    destruct (phrase_ProcessChunk f c) as [f1 [[o [|]]|err]]; cbn.
    + by intros [= <-].
    + destruct (phrase_ProcessChunk f1 (concat cs)) as [f2 [[o2 b2]|]] eqn:E2; cbn; [|done]. intros [= <- ->].
      destruct (IH f1 o2) as [H1 H2]; [by rewrite E2|]. destruct (drain f1 cs) as [[rest en] fin]. cbn in *. by subst.
    + done.
Qed.

(** No evasion by compression: when a blocked phrase occurs in the decoded
    body and no exception phrase does, the client gets a compressed body that
    decodes to a prefix that ends within the body, and the block. *)
Theorem compressed_phrase_blocked `{UnicodeTables} `{CodecLaws} blocked weighted exceptions threshold pf p
    encoding c enc0 enc text attached chunks k :
  NewPhraseFilterWithExceptions blocked weighted exceptions threshold = Ok pf ->
  fits blocked weighted exceptions threshold (concat text) ->
  p ∈ blocked -> normalizePhrase p <> [] -> Contains (map lowerASCII (concat text)) (normalizePhrase p) = true ->
  Forall (fun x => normalizePhrase x <> [] -> Contains (map lowerASCII (concat text)) (normalizePhrase x) = false) exceptions ->
  codecOf encoding = Some c -> openEncoder c = Some enc0 -> openEncoder c = Some enc ->
  concat chunks = compress enc0 text -> Forall (fun x => x <> []) chunks -> 0 < k ->
  exists n out fin, n <= length (concat text) /\
    encodedRun (S (length (take n (concat text)))) k (bodyEvents attached chunks) encoding (newPhraseStream pf) (MkPipe [] None) =
      Some (out, None, fin) /\
    decodesTo c (concat (pi_read out)) (take n (concat text)).
Proof.
  intros Hnew Hfits Hp Hne Hin Hex Hc Ho Ho' Hbody Hchunks Hk.
  destruct (blocked_phrase_blocks _ _ _ _ _ _ _ Hnew Hfits Hp Hne Hin Hex) as (n & Hn & Hblock).
  destruct (encodedRun_inspects phraseStreamFilter encoding c enc0 enc text attached chunks k (newPhraseStream pf)
    Hc Ho Ho' Hbody Hchunks Hk phrase_quiet_block) as (cs & Hcs & (out & fin & Hrun & Hdec) & _).
  rewrite <- Hcs in Hblock. apply phrase_drain_blocked in Hblock as [Hf He]. rewrite Hf in Hrun, Hdec. rewrite He in Hrun.
  rewrite Hcs in Hrun, Hdec. by exists n, out, fin.
Qed.

(** ** An instance *)

Definition shiftByte (n : N) (b : byte) : byte := byte_of ((byte_val b + n) mod 256).

Lemma shiftByte_back s : map (shiftByte 255) (map (shiftByte 1) s) = s.
Proof. induction s as [|b s IH]; [done|]. cbn [map]. rewrite IH. f_equal. by destruct b. Qed.

(** Every encoding adds one to the bytes. *)
Definition shiftCodecs : Codecs := {|
  openDecoder _ src := Some (map (fun '(data, err) => (map (shiftByte 255) data, err)) src);
  encoder := unit; openEncoder _ := Some tt;
  encWrite s w := (s, [map (shiftByte 1) w]); encClose _ := [];
|}.

Lemma shift_encodeAll s ws : concat (snd (encodeAll (H := shiftCodecs) s ws)) = map (shiftByte 1) (concat ws).
Proof.
  induction ws as [|w ws IH]; [done|]. cbn [encodeAll encWrite shiftCodecs]. destruct (encodeAll _ ws) as [enc rest].
  cbn in *. by rewrite IH, map_app.
Qed.

Lemma shift_bodyEvents attached chunks :
  map (fun '(data, err) => (map (shiftByte 255) data, err)) (bodyEvents attached chunks) =
  bodyEvents attached (map (map (shiftByte 255)) chunks).
Proof. induction chunks as [|x chunks IH]; [done|]. cbn [map]. rewrite !bodyEvents_cons. cbn [map]. rewrite IH. by destruct chunks. Qed.

Lemma shiftCodecs_laws : CodecLaws (H := shiftCodecs).
Proof.
  split. intros c enc ws _ attached chunks Hbody Hne. exists attached, (map (map (shiftByte 255)) chunks).
  split; [cbn; by rewrite shift_bodyEvents|]. split.
  - rewrite <- concat_map, Hbody. unfold compress. pose proof (shift_encodeAll enc ws) as Hs.
    destruct (encodeAll enc ws) as [enc' outs]. cbn in *. rewrite app_nil_r, Hs. apply shiftByte_back.
  - apply Forall_map. eapply Forall_impl; [exact Hne|]. by intros [].
Qed.

(** A body in two parts that spells the phrase across the cut of the network. *)
Lemma encoded_inspection_witness :
  match @NewPhraseFilter ascii_tables [str "bad"] with
  | Ok pf =>
      exists cs, concat cs = str "a bad c" /\
        (exists p fin, encodedRun (H := shiftCodecs) (S (length (forwarded (newPhraseStream pf) cs))) 2
           (bodyEvents true [map (shiftByte 1) (str "a b"); map (shiftByte 1) (str "ad c")]) (str "gzip") (newPhraseStream pf) (MkPipe [] None) =
           Some (p, match ending (newPhraseStream pf) cs with Failed err => Some (ErrCopy (FilterFailed err)) | _ => None end, fin) /\
           decodesTo (H := shiftCodecs) Gzip (concat (pi_read p)) (forwarded (newPhraseStream pf) cs))
  | Err _ => False
  end.
Proof.
  destruct (@NewPhraseFilter ascii_tables [str "bad"]) as [pf|err] eqn:E;
    [|revert E; apply is_ok_not_Err; vm_compute; reflexivity].
  destruct (encoded_inspection (H := shiftCodecs) (H0 := shiftCodecs_laws) phraseStreamFilter (str "gzip") Gzip tt tt [str "a bad c"] true
    [map (shiftByte 1) (str "a b"); map (shiftByte 1) (str "ad c")] 2 (newPhraseStream pf)) as (cs & Hcs & Hrun & _).
  - reflexivity.
  - reflexivity.
  - reflexivity.
  - vm_compute. reflexivity.
  - repeat constructor; vm_compute; discriminate.
  - lia.
  - exact phrase_quiet_block.
  - exists cs. split; [exact Hcs|exact Hrun].
Defined.
