(* ===== verification/HtmlFilter.v ===== *)
(** * Visible text of HTML (proxy/html_filter.go)

    [htmlTextFilter] feeds the visible text of a page, byte by byte, to an
    inner filter, and forwards the page itself; tags, comments and the
    contents of scripts and styles are not visible. *)

From S2P Require Import Prelude GoStrings SemanticFilter SemanticTheorems FilterEngine.

(** The fields of [htmlTextFilter] without the inner filter. *)
Record htmlScan := MkHtmlScan {
  inTag : bool;
  tagClosing : bool;
  tagName : bytes;
  tagNameDone : bool;
  quote : option byte;
  comment : nat;
  skip : bytes;
  closeMatch : nat;
}.

Definition htmlStart : htmlScan := MkHtmlScan false false [] false None 0 [] 0.

Record htmlTextFilter (F : Type) := HtmlText { ht_inner : F; ht_scan : htmlScan }.
Arguments HtmlText {F} _ _.
Arguments ht_inner {F} _.
Arguments ht_scan {F} _.

(** ** Operations *)

Definition startTag (s : htmlScan) : htmlScan :=
  MkHtmlScan true false [] false None (comment s) (skip s) (closeMatch s).

Definition isHTMLSpace (b : byte) : bool :=
  bool_decide (b ∈ [" "%byte; Byte.x09; Byte.x0d; Byte.x0a; Byte.x0c]).

Definition finishTag (s : htmlScan) : htmlScan :=
  let opens := negb (tagClosing s) && (bytes_eqb (tagName s) (str "script") || bytes_eqb (tagName s) (str "style")) in
  MkHtmlScan false false [] false None (comment s)
    (if opens then tagName s else skip s) (if opens then 0 else closeMatch s).

Definition consumeTag (s : htmlScan) (b : byte) : htmlScan :=
  match quote s with
  | Some q =>
      if decide (b = q)
      then MkHtmlScan (inTag s) (tagClosing s) (tagName s) (tagNameDone s) None (comment s) (skip s) (closeMatch s)
      else s
  | None =>
      if bool_decide (b = Byte.x22) || bool_decide (b = Byte.x27)
      then MkHtmlScan (inTag s) (tagClosing s) (tagName s) (tagNameDone s) (Some b) (comment s) (skip s) (closeMatch s)
      else if bool_decide (tagName s = []) && negb (tagClosing s) && bool_decide (b = "!"%byte)
      then MkHtmlScan false (tagClosing s) (tagName s) (tagNameDone s) (quote s) 1 (skip s) (closeMatch s)
      else if bool_decide (tagName s = []) && bool_decide (b = "/"%byte)
      then MkHtmlScan (inTag s) true (tagName s) (tagNameDone s) (quote s) (comment s) (skip s) (closeMatch s)
      else if decide (b = ">"%byte) then finishTag s
      else if isHTMLSpace b || bool_decide (b = "/"%byte)
      then MkHtmlScan (inTag s) (tagClosing s) (tagName s) true (quote s) (comment s) (skip s) (closeMatch s)
      else if tagNameDone s then s
      else MkHtmlScan (inTag s) (tagClosing s) (tagName s ++ [lowerASCII b]) (tagNameDone s) (quote s)
             (comment s) (skip s) (closeMatch s)
  end.

Definition setComment (s : htmlScan) (n : nat) : htmlScan :=
  MkHtmlScan (inTag s) (tagClosing s) (tagName s) (tagNameDone s) (quote s) n (skip s) (closeMatch s).

(** The [switch] on the state of the comment; a state that does not return
    falls to the code after it. *)
Definition consumeComment (s : htmlScan) (b : byte) : htmlScan :=
  let after := if decide (b = ">"%byte) then setComment s 0 else setComment s 1 in
  match comment s with
  | 1 => if decide (b = "-"%byte) then setComment s 2 else after
  | 2 => if decide (b = "-"%byte) then setComment s 3 else after
  | 3 => if decide (b = ">"%byte) then setComment s 0
         else if decide (b = "-"%byte) then s else after
  | _ => after
  end.

Definition setSkip (s : htmlScan) (sk : bytes) (n : nat) : htmlScan :=
  MkHtmlScan (inTag s) (tagClosing s) (tagName s) (tagNameDone s) (quote s) (comment s) sk n.

Definition needleOf (sk : bytes) : bytes := str "</" ++ sk ++ str ">".

(** [None] is the panic of [needle[f.closeMatch]] out of range. *)
Definition consumeSkippedContent (s : htmlScan) (b : byte) : option htmlScan :=
  let needle := needleOf (skip s) in
  c ← needle !! closeMatch s;
  Some (if decide (lowerASCII b = c) then
          if S (closeMatch s) =? length needle then setSkip s [] 0 else setSkip s (skip s) (S (closeMatch s))
        else if decide (Some (lowerASCII b) = needle !! 0) then setSkip s (skip s) 1
        else setSkip s (skip s) 0).

(** The visible byte, if any, and the next state. *)
Definition consumeByte (s : htmlScan) (b : byte) : option (htmlScan * option byte) :=
  if decide (skip s <> []) then (fun s' => (s', None)) <$> consumeSkippedContent s b
  else if 0 <? comment s then Some (consumeComment s b, None)
  else if inTag s then Some (consumeTag s b, None)
  else if decide (b = "<"%byte) then Some (startTag s, None)
  else Some (s, Some b).

Section html.
Context {F : Type} `{StreamFilter F}.

(** The loop of [ProcessChunk]: [i] is the number of bytes consumed before
    [rest]; [input] the whole chunk.  [None] is a panic. *)
Fixpoint html_loop (s : htmlScan) (inner : F) (input : bytes) (i : nat) (rest : bytes)
    : option (htmlTextFilter F * result filterError (bytes * bool)) :=
  match rest with
  | [] => Some (HtmlText inner s, Ok (input, false))
  | b :: rest' =>
      '(s', visible) ← consumeByte s b;
      match visible with
      | None => html_loop s' inner input (S i) rest'
      | Some v =>
          let '(inner', r) := processChunk inner [v] in
          match r with
          | Err e => Some (HtmlText inner' s', Err e)
          | Ok (_, true) => Some (HtmlText inner' s', Ok (take (S i) input, true))
          | Ok (_, false) => html_loop s' inner' input (S i) rest'
          end
      end
  end.

Definition html_ProcessChunk (f : htmlTextFilter F) (input : bytes)
    : option (htmlTextFilter F * result filterError (bytes * bool)) :=
  html_loop (ht_scan f) (ht_inner f) input 0 input.

(** As a stream filter; a panic, which never happens, would pass the chunk. *)
#[global] Instance htmlText_stream : StreamFilter (htmlTextFilter F) := {|
  processChunk f input := default (f, Ok (input, false)) (html_ProcessChunk f input);
  flushFilter f := (f, Ok []);
|}.

End html.

(** ** Specification *)

(** The state after some bytes, and their visible text. *)
Fixpoint scanHTML (s : htmlScan) (body : bytes) : htmlScan * bytes :=
  match body with
  | [] => (s, [])
  | b :: body' =>
      let '(s', v) := default (s, None) (consumeByte s b) in
      let '(s'', t) := scanHTML s' body' in (s'', option_list v ++ t)
  end.

Definition visibleText (body : bytes) : bytes := (scanHTML htmlStart body).2.

(** What [consumeSkippedContent] relies on. *)
Definition html_wf (s : htmlScan) : Prop :=
  (skip s = [] /\ closeMatch s = 0) \/ (skip s <> [] /\ closeMatch s < length (needleOf (skip s))).

(** ** The scanner never leaves its range *)

Lemma needle_length sk : length (needleOf sk) = 3 + length sk.
Proof. unfold needleOf. rewrite !length_app. simpl. lia. Qed.

Lemma skipped_wf s b :
  skip s <> [] -> closeMatch s < length (needleOf (skip s)) ->
  exists s', consumeSkippedContent s b = Some s' /\ html_wf s'.
Proof.
  intros Hs Hc. unfold consumeSkippedContent. cbv zeta.
  destruct (needleOf (skip s) !! closeMatch s) as [c|] eqn:Ec; [|apply lookup_ge_None in Ec; lia].
  eexists. split; [reflexivity|]. unfold html_wf. rewrite needle_length in *.
  repeat case_decide; try destruct (Nat.eqb_spec (S (closeMatch s)) (3 + length (skip s)));
    cbn [setSkip skip closeMatch]; rewrite ?needle_length; first [by left|right; split; [done|lia]].
Qed.

Lemma finishTag_wf s : skip s = [] -> closeMatch s = 0 -> html_wf (finishTag s).
Proof.
  intros Hs Hc. unfold finishTag, html_wf. cbn [skip closeMatch]. rewrite Hs, Hc, needle_length.
  destruct (negb (tagClosing s)); cbn [andb orb]; [|by left].
  destruct (bytes_eqb (tagName s) (str "script")) eqn:E1; cbn [andb orb].
  { apply bytes_eqb_eq in E1. rewrite E1. right. split; [done|lia]. }
  destruct (bytes_eqb (tagName s) (str "style")) eqn:E2; cbn [andb orb]; [|by left].
  apply bytes_eqb_eq in E2. rewrite E2. right. split; [done|lia].
Qed.

Lemma consumeByte_wf s b : html_wf s -> exists s' v, consumeByte s b = Some (s', v) /\ html_wf s'.
Proof.
  intros Hwf. unfold consumeByte. destruct Hwf as [[Hs Hc]|[Hs Hc]].
  - rewrite decide_False by tauto.
    destruct (0 <? comment s).
    { eexists _, _. split; [done|]. left. unfold consumeComment. repeat case_match; done. }
    destruct (inTag s).
    { eexists _, _. split; [done|]. unfold consumeTag.
      repeat case_match; try (by left); by apply finishTag_wf. }
    case_decide; eexists _, _; (split; [done|]); by left.
  - rewrite decide_True by done. destruct (skipped_wf s b Hs Hc) as (s' & -> & Hwf'). simpl. eauto.
Qed.

Lemma html_loop_some {F} `{StreamFilter F} s (inner : F) input i rest :
  html_wf s -> exists f r, html_loop s inner input i rest = Some (f, r) /\ html_wf (ht_scan f).
Proof.
  revert s inner i. induction rest as [|b rest IH]; intros s inner i Hwf; simpl; [by eexists _, _|].
  destruct (consumeByte_wf s b Hwf) as (s' & v & -> & Hwf'). simpl. destruct v as [v|]; [|by apply IH].
  destruct (processChunk inner [v]) as [inner' [[out []]|e]]; [by eexists _, _|by apply IH|by eexists _, _].
Qed.

(** The HTML scanner never indexes past the closing tag it waits for:
    on every chunk, over any inner filter, it returns, and stays in a state
    from which it can go on. *)
Theorem html_never_panics F `{StreamFilter F} (f : htmlTextFilter F) input :
  html_wf (ht_scan f) ->
  exists f' r, html_ProcessChunk f input = Some (f', r) /\ html_wf (ht_scan f').
Proof. intros Hwf. by apply html_loop_some. Qed.

(** ** Visible text *)

Lemma scanHTML_app s a b :
  scanHTML s (a ++ b) = let '(s1, t1) := scanHTML s a in let '(s2, t2) := scanHTML s1 b in (s2, t1 ++ t2).
Proof.
  revert s. induction a as [|c a IH]; intros s; simpl; [by destruct (scanHTML s b)|].
  destruct (default _ _) as [s' v]. rewrite IH. destruct (scanHTML s' a) as [s1 t1].
  destruct (scanHTML s1 b) as [s2 t2]. by rewrite app_assoc.
Qed.

Lemma scanHTML_wf s a : html_wf s -> html_wf (scanHTML s a).1.
Proof.
  revert s. induction a as [|c a IH]; intros s Hwf; simpl; [done|].
  destruct (consumeByte_wf s c Hwf) as (s' & v & -> & Hwf'). simpl.
  specialize (IH _ Hwf'). by destruct (scanHTML s' a).
Qed.

Lemma phrase_no_error f t : exists f' out blk, phrase_ProcessChunk f t = (f', Ok (out, blk)).
Proof.
  unfold phrase_ProcessChunk. destruct (compiled f) as [pf|]; [|by eexists _, _, _].
  destruct (Nat.leb_spec (length (pf_nodes pf)) 1) as [|Hn]; [by eexists _, _, _|]. simpl.
  destruct (length t =? 0); [by eexists _, _, _|]. unfold matchChunk.
  rewrite decide_False by (intros E; rewrite E in Hn; simpl in Hn; lia).
  destruct (matchLoop _ _ _ _ _ _) as [s [n|]]; by eexists _, _, _.
Qed.

(** A chunk that is passed is passed whole. *)
Lemma phrase_passes f t f' out : phrase_ProcessChunk f t = (f', Ok (out, false)) -> out = t.
Proof.
  unfold phrase_ProcessChunk. destruct (compiled f) as [pf|]; [|by intros [= _ <-]].
  destruct (_ || _); [by intros [= _ <-]|].
  destruct (matchChunk f pf t) as [f1 [[[] n]|e]]; intros [= _]; done.
Qed.

Lemma phrase_singleton f v f' out : phrase_ProcessChunk f [v] = (f', Ok (out, true)) -> out = [v].
Proof.
  unfold phrase_ProcessChunk. destruct (compiled f) as [pf|]; [|done].
  destruct (_ || _); [done|]. unfold matchChunk. case_decide; [done|].
  destruct (matchLoop _ _ _ _ _ _) as [s [n|]] eqn:E; [|done]. intros [= _ <-].
  cbn [matchLoop] in E.
  repeat match type of E with context [if ?c then _ else _] => destruct c end; simplify_eq; done.
Qed.

Lemma phrase_empty f : phrase_ProcessChunk f [] = (f, Ok ([], false)).
Proof. unfold phrase_ProcessChunk. destruct (compiled f); [|done]. simpl. by rewrite orb_true_r. Qed.

(** The loop over a chunk is one call of the phrase filter on the visible
    text of the chunk; a block stops at the byte that completes it. *)
Definition html_loop_spec (s : htmlScan) (f : phraseStreamFilter) (input : bytes) (i : nat) (rest : bytes) : Prop :=
  match phrase_ProcessChunk f (scanHTML s rest).2 with
  | (f', Ok (_, false)) => html_loop s f input i rest = Some (HtmlText f' (scanHTML s rest).1, Ok (input, false))
  | (f', Ok (out, true)) =>
      exists n, n <= length rest /\ (scanHTML s (take n rest)).2 = out /\
        html_loop s f input i rest = Some (HtmlText f' (scanHTML s (take n rest)).1, Ok (take (i + n) input, true))
  | (_, Err _) => False
  end.

Lemma html_loop_text s f input i rest : html_wf s -> html_loop_spec s f input i rest.
Proof.
  revert s f i. induction rest as [|b rest IH]; intros s f i Hwf; unfold html_loop_spec.
  { cbn [scanHTML snd fst]. by rewrite phrase_empty. }
  destruct (consumeByte_wf s b Hwf) as (s' & v & Hb & Hwf').
  cbn [scanHTML html_loop]. rewrite Hb. cbn [default from_option id mbind option_bind].
  destruct v as [v|]; cbn [option_list app].
  - destruct (scanHTML s' rest) as [s2 t] eqn:Et. cbn [snd fst].
    change (option_list (Some v)) with [v]. rewrite phrase_ProcessChunk_app.
    cbn [processChunk phraseFilter_stream].
    destruct (phrase_no_error f [v]) as (f1 & out1 & blk & E1). rewrite E1. destruct blk.
    + exists 1. apply phrase_singleton in E1 as ->. rewrite Nat.add_1_r. split; [simpl; lia|].
      cbn [take scanHTML]. rewrite Hb. done.
    + apply phrase_passes in E1 as ->. specialize (IH s' f1 (S i) Hwf'). unfold html_loop_spec in IH.
      rewrite Et in IH. cbn [snd fst] in IH.
      destruct (phrase_ProcessChunk f1 t) as [f2 [[out2 []]|e]]; simpl; [|done|done].
      destruct IH as (n & Hn & Hout & ->). exists (S n). split; [lia|]. cbn [take scanHTML].
      rewrite Hb. cbn [default from_option id]. destruct (scanHTML s' (take n rest)). cbn in *. subst out2.
      split; [done|]. by rewrite Nat.add_succ_r.
  - specialize (IH s' f (S i) Hwf'). unfold html_loop_spec in IH.
    destruct (scanHTML s' rest) as [s2 t] eqn:Et. cbn [snd fst] in *. change (option_list None ++ t) with t.
    destruct (phrase_ProcessChunk f t) as [f2 [[out2 []]|e]]; [|done|done].
    destruct IH as (n & Hn & Hout & ->). exists (S n). split; [simpl; lia|]. cbn [take scanHTML].
    rewrite Hb. cbn [default from_option id]. destruct (scanHTML s' (take n rest)). cbn in *.
    split; [done|]. by rewrite Nat.add_succ_r.
Qed.

(** What a filter in state [(s, f)] does with the rest of a page. *)
Lemma html_drain_text chunks s f :
  html_wf s ->
  let body := concat chunks in
  match phrase_ProcessChunk f (scanHTML s body).2 with
  | (_, Ok (out, true)) =>
      ending (HtmlText f s) chunks = BlockedEnd /\
      exists n, forwarded (HtmlText f s) chunks = take n body /\ (scanHTML s (take n body)).2 = out
  | _ => ending (HtmlText f s) chunks = Complete /\ forwarded (HtmlText f s) chunks = body
  end.
Proof.
  revert s f. unfold ending, forwarded. induction chunks as [|c chunks IH]; intros s f Hwf; cbn [concat].
  { cbn. by rewrite phrase_empty. }
  rewrite scanHTML_app. destruct (scanHTML s c) as [s1 t1] eqn:E1.
  destruct (scanHTML s1 (concat chunks)) as [s2 t2] eqn:E2. cbn [snd fst].
  rewrite phrase_ProcessChunk_app. cbn [drain]. cbn [processChunk htmlText_stream].
  pose proof (html_loop_text s f c 0 c Hwf) as Hl. unfold html_loop_spec in Hl. rewrite E1 in Hl. cbn [snd fst] in Hl.
  unfold html_ProcessChunk. cbn [ht_scan ht_inner].
  destruct (phrase_ProcessChunk f t1) as [f1 [[out1 []]|e]] eqn:Ep; [| |done].
  - destruct Hl as (n & Hn & Hout & ->). simpl. split; [done|]. exists n.
    rewrite (take_app_le c) by done. done.
  - rewrite Hl. cbn [default from_option id]. apply phrase_passes in Ep as ->.
    pose proof (scanHTML_wf s c Hwf) as Hwf1. rewrite E1 in Hwf1. cbn in Hwf1.
    specialize (IH s1 f1 Hwf1). cbv zeta in IH. rewrite E2 in IH. cbn [snd fst] in IH.
    destruct (drain (HtmlText f1 s1) chunks) as [[rest e] fin]. cbn [fst snd] in *.
    destruct (phrase_ProcessChunk f1 t2) as [f2 [[out2 []]|e2]]; simpl.
    + destruct IH as [-> (n & -> & Hout)]. split; [done|]. exists (length c + n).
      rewrite take_app_add. split; [done|]. rewrite scanHTML_app, E1.
      destruct (scanHTML s1 (take n (concat chunks))). cbn in *. by rewrite Hout.
    + destruct IH as [-> ->]. done.
    + destruct IH as [-> ->]. done.
Qed.


Lemma html_never_panics_witness :
  let f := HtmlText tt (MkHtmlScan false false [] false None 0 (str "script") 8) in
  html_wf (ht_scan f) /\
  exists f' r, html_ProcessChunk f (str ">x") = Some (f', r) /\ html_wf (ht_scan f').
Proof.
  assert (Hwf : html_wf (MkHtmlScan false false [] false None 0 (str "script") 8)).
  { right. split; [discriminate|]. vm_compute. lia. }
  split; [exact Hwf|]. apply (html_never_panics unit (HtmlText tt _) (str ">x")). exact Hwf.
Defined.

(** The scanner waits for the exact bytes of the closing tag, and ends a
    comment at the first [>]: a browser shows the text after [</script >],
    which the filter takes for script, and hides the rest of the comment. *)
Lemma html_script_space : visibleText (str "<script>x</script >bad") = [].
Proof. vm_compute. reflexivity. Qed.

Lemma html_comment_gt : visibleText (str "<!-- a > bad -->") = str " bad -->".
Proof. vm_compute. reflexivity. Qed.
