(* ===== verification/MaskingFilter.v ===== *)
(** * The masking filter (proxy/masking_filter.go)

    Replaces every occurrence of a phrase, in any case of its ASCII letters,
    by stars, across chunk boundaries. *)

From S2P Require Import Prelude GoStrings SemanticFilter FilterEngine.

Record MaskingFilter := MkMaskingFilter {
  phrases : list bytes;
  maxLen : nat;
}.

Definition star : byte := "*"%byte.

Section construction.
Context `{UnicodeTables}.

Definition NewMaskingFilter (ps : list bytes) : MaskingFilter :=
  fold_left
    (fun f p =>
       let normalized := normalizePhrase p in
       if decide (normalized = []) then f
       else MkMaskingFilter (phrases f ++ [normalized]) (max (maxLen f) (length normalized)))
    ps (MkMaskingFilter [] 0).
End construction.

(** [asciiEqualFoldBytes(src, normalized)]. *)
Fixpoint asciiEqualFoldBytes (src normalized : bytes) : bool :=
  match src, normalized with
  | [], [] => true
  | a :: src', b :: normalized' =>
      bool_decide (lowerASCII a = b) && asciiEqualFoldBytes src' normalized'
  | _, _ => false
  end.

Record maskingStreamFilter := MaskingStream {
  mk_compiled : option MaskingFilter;
  mk_pending : bytes;
}.

(** One phrase at position [i] of the buffer. *)
Definition maskAt (i : nat) (buf phrase : bytes) : bytes :=
  if length buf <? i + length phrase then buf
  else if asciiEqualFoldBytes (take (length phrase) (drop i buf)) phrase
  then take i buf ++ replicate (length phrase) star ++ drop (i + length phrase) buf
  else buf.

(** [maskPending]: for each position, for each phrase. *)
Definition maskPending (ps : list bytes) (buf : bytes) : bytes :=
  fold_left (fun buf i => fold_left (maskAt i) ps buf) (seq 0 (length buf)) buf.

Definition masking_ProcessChunk (f : maskingStreamFilter) (input : bytes)
    : chunkResult maskingStreamFilter :=
  match mk_compiled f with
  | None => (f, Ok (input, false))
  | Some c =>
      if (maxLen c =? 0) || (length input =? 0) then (f, Ok (input, false))
      else
        let pending := maskPending (phrases c) (mk_pending f ++ input) in
        let emit := length pending - (maxLen c - 1) in
        if emit <=? 0 then (MaskingStream (Some c) pending, Ok ([], false))
        else (MaskingStream (Some c) (drop emit pending), Ok (take emit pending, false))
  end.

Definition masking_Flush (f : maskingStreamFilter)
    : maskingStreamFilter * result filterError bytes :=
  match mk_compiled f with
  | None => (f, Err ErrMaskingNotInitialized)
  | Some c =>
      if decide (mk_pending f = []) then (f, Ok [])
      else (MaskingStream (Some c) [], Ok (maskPending (phrases c) (mk_pending f)))
  end.

#[global] Instance maskingFilter : StreamFilter maskingStreamFilter := {|
  processChunk := masking_ProcessChunk;
  flushFilter := masking_Flush;
|}.

(** ** Specification *)

(** [p] occurs in [s] at [k], in any case. *)
Definition occurs_at (s p : bytes) (k : nat) : Prop :=
  k + length p <= length s /\ asciiEqualFoldBytes (take (length p) (drop k s)) p = true.

(** [b] is [a] with some bytes replaced by stars. *)
Definition starred (a b : bytes) : Prop :=
  length b = length a /\ forall i x, b !! i = Some x -> x = star \/ a !! i = Some x.

(** Every byte that differs is within an occurrence of a phrase in [a]. *)
Definition covered (ps : list bytes) (a b : bytes) : Prop :=
  forall i x, b !! i = Some x -> a !! i = Some x \/
    exists p k, p ∈ ps /\ occurs_at a p k /\ k <= i < k + length p.

(** ** Occurrences, byte by byte *)

Lemma asciiEqualFoldBytes_spec s p : asciiEqualFoldBytes s p = true <-> map lowerASCII s = p.
Proof.
  revert p. induction s as [|a s IH]; intros [|b p]; simpl; try done.
  rewrite andb_true_iff, bool_decide_eq_true, IH. split; [intros [-> ->]; done|by intros [= -> ->]].
Qed.

Definition occ (s p : bytes) (k : nat) : Prop :=
  forall j b, p !! j = Some b -> lowerASCII <$> s !! (k + j) = Some b.

Lemma occurs_at_occ s p k : p <> [] -> occurs_at s p k <-> occ s p k.
Proof.
  intros Hp. unfold occurs_at, occ. rewrite asciiEqualFoldBytes_spec. split.
  - intros [Hlen Heq] j b Hj. rewrite <- Heq in Hj. change (map ?f ?l) with (f <$> l) in Hj.
    rewrite list_lookup_fmap, lookup_take in Hj.
    destruct (decide (j < length p)); [|done]. by rewrite lookup_drop in Hj.
  - intros Hocc.
    assert (Hlen : k + length p <= length s).
    { destruct p as [|x p'] using rev_ind; [done|]. rewrite length_app. simpl.
      specialize (Hocc (length p') x). rewrite lookup_app_r, Nat.sub_diag in Hocc by lia.
      specialize (Hocc eq_refl). apply fmap_Some in Hocc as (y & Hy & _).
      apply lookup_lt_Some in Hy. lia. }
    split; [done|]. apply list_eq. intros j. change (map ?f ?l) with (f <$> l).
    rewrite list_lookup_fmap, lookup_take. case_decide.
    + rewrite lookup_drop. destruct (lookup_lt_is_Some_2 p j) as [b Hb]; [done|].
      rewrite Hb. by apply Hocc.
    + simpl. symmetry. apply lookup_ge_None. lia.
Qed.

Lemma occ_app_r a b p k : occ b p k -> occ (a ++ b) p (length a + k).
Proof.
  intros Ho j x Hj. rewrite lookup_app_r by lia.
  replace (length a + k + j - length a) with (k + j) by lia. by apply Ho.
Qed.

Lemma occ_app_l a b p k : occ a p k -> occ (a ++ b) p k.
Proof.
  intros Ho j x Hj. specialize (Ho j x Hj). apply fmap_Some in Ho as (y & Hy & ->).
  rewrite lookup_app_l by by eapply lookup_lt_Some. by rewrite Hy.
Qed.

(** An occurrence in a concatenation is in the right part, or starts in the
    left one. *)
Lemma occ_app_inv a b p k : occ (a ++ b) p k -> length a <= k -> occ b p (k - length a).
Proof.
  intros Ho Hk j x Hj. specialize (Ho j x Hj). rewrite lookup_app_r in Ho by lia.
  by replace (k + j - length a) with (k - length a + j) in Ho by lia.
Qed.

Lemma lowerASCII_star x : lowerASCII x = star -> x = star.
Proof. by destruct x. Qed.

(** ** Starred copies *)

Lemma starred_refl a : starred a a.
Proof. split; auto. Qed.

Lemma starred_trans a b c : starred a b -> starred b c -> starred a c.
Proof.
  intros [Hl1 H1] [Hl2 H2]. split; [congruence|]. intros i x Hi.
  destruct (H2 i x Hi) as [|Hb]; auto.
Qed.

Lemma starred_app a b a' b' : starred a a' -> starred b b' -> starred (a ++ b) (a' ++ b').
Proof.
  intros [Hl1 H1] [Hl2 H2]. split; [by rewrite !length_app; congruence|]. intros i x Hi.
  destruct (decide (i < length a')).
  - rewrite lookup_app_l in Hi by lia. rewrite lookup_app_l by congruence. auto.
  - rewrite lookup_app_r in Hi by lia. rewrite lookup_app_r by lia. rewrite <- Hl1. auto.
Qed.

Lemma starred_occ a b p k : starred a b -> star ∉ p -> occ b p k -> occ a p k.
Proof.
  intros [_ Hs] Hp Ho j x Hj. specialize (Ho j x Hj). apply fmap_Some in Ho as (y & Hy & ->).
  destruct (Hs _ _ Hy) as [->|Ha]; [|by rewrite Ha].
  exfalso. apply Hp. by eapply (list_elem_of_lookup_2 _ _ star).
Qed.

(** ** One pass over the buffer *)

Lemma maskAt_cases i buf p :
  p <> [] ->
  (occ buf p i /\ i + length p <= length buf /\
   maskAt i buf p = take i buf ++ replicate (length p) star ++ drop (i + length p) buf) \/
  (~ occ buf p i /\ maskAt i buf p = buf).
Proof.
  intros Hp. unfold maskAt. rewrite <- occurs_at_occ by done. unfold occurs_at.
  destruct (Nat.ltb_spec (length buf) (i + length p)); [right; split; [lia|done]|].
  destruct (asciiEqualFoldBytes _ _); [left; split_and!; done|right]. split; [|done]. by intros [_ ?].
Qed.

Lemma masked_lookup i (buf p : bytes) q x :
  i + length p <= length buf ->
  (take i buf ++ replicate (length p) star ++ drop (i + length p) buf) !! q = Some x ->
  (x = star /\ i <= q < i + length p) \/ (buf !! q = Some x /\ ~ (i <= q < i + length p)).
Proof.
  intros Hlen. destruct (decide (q < i)).
  { rewrite lookup_app_l by (rewrite length_take; lia). rewrite lookup_take_lt by done. right. auto with lia. }
  rewrite lookup_app_r by (rewrite length_take; lia). rewrite length_take, Nat.min_l by lia.
  destruct (decide (q < i + length p)).
  - rewrite lookup_app_l by (rewrite length_replicate; lia). intros [-> _]%lookup_replicate. left. auto with lia.
  - rewrite lookup_app_r, length_replicate, lookup_drop by (rewrite length_replicate; lia).
    replace (i + length p + (q - i - length p)) with q by lia. right. auto with lia.
Qed.

Lemma maskAt_starred i buf p : p <> [] -> starred buf (maskAt i buf p).
Proof.
  intros Hp. destruct (maskAt_cases i buf p Hp) as [(_ & Hl & ->)|[_ ->]]; [|apply starred_refl].
  split.
  - rewrite !length_app, length_take, length_replicate, length_drop. lia.
  - intros q x [[-> _]|[Hq _]]%masked_lookup; auto.
Qed.

Lemma maskAt_gone i buf p : p <> [] -> star ∉ p -> ~ occ (maskAt i buf p) p i.
Proof.
  intros Hp Hs Ho. destruct (maskAt_cases i buf p Hp) as [(_ & Hl & Heq)|[Hn Heq]]; rewrite Heq in Ho; [|done].
  destruct p as [|b p]; [done|]. specialize (Ho 0 b eq_refl). rewrite Nat.add_0_r in Ho.
  apply fmap_Some in Ho as (y & Hy & ->). apply masked_lookup in Hy as [[-> _]|[_ Hi]]; [|simpl in *; lia|done].
  apply Hs. left.
Qed.

Lemma maskAt_covered i buf p q x :
  p <> [] -> maskAt i buf p !! q = Some x ->
  buf !! q = Some x \/ (occ buf p i /\ i <= q < i + length p).
Proof.
  intros Hp. destruct (maskAt_cases i buf p Hp) as [(Ho & Hl & ->)|[_ ->]]; [|by left].
  intros [[_ ?]|[Hq _]]%masked_lookup; auto.
Qed.

(** The nested loops as one list of steps. *)
Definition mask_ops (n : nat) (ps : list bytes) : list (nat * bytes) :=
  concat (map (fun i => map (pair i) ps) (seq 0 n)).

Definition run_ops (ops : list (nat * bytes)) (buf : bytes) : bytes :=
  fold_left (fun buf '(i, p) => maskAt i buf p) ops buf.

Lemma maskPending_ops ps buf : maskPending ps buf = run_ops (mask_ops (length buf) ps) buf.
Proof.
  unfold maskPending, mask_ops, run_ops. generalize (seq 0 (length buf)) as idx. intros idx.
  revert buf. induction idx as [|i idx IH]; intros buf; [done|]. cbn [map concat].
  rewrite fold_left_app, <- IH. cbn [fold_left]. f_equal. generalize buf as b. clear.
  induction ps as [|p ps IH]; intros b; [done|]. simpl. apply IH.
Qed.

Lemma mask_ops_elem n ps i p : (i, p) ∈ mask_ops n ps <-> i < n /\ p ∈ ps.
Proof.
  unfold mask_ops. rewrite list_elem_of_In, in_concat. split.
  - intros (l & (j & <- & Hj)%in_map_iff & (q & [= <- <-] & Hq)%in_map_iff).
    apply in_seq in Hj. rewrite list_elem_of_In. split; [lia|done].
  - rewrite list_elem_of_In. intros [Hi Hp]. exists (map (pair i) ps). split.
    + apply in_map_iff. exists i. split; [done|]. apply in_seq. lia.
    + by apply in_map_iff; eauto.
Qed.

Section phrases.
Context (ps : list bytes).
Context (Hps : Forall (fun p => p <> [] /\ star ∉ p) ps).

#[local] Lemma phrase_props p : p ∈ ps -> p <> [] /\ star ∉ p.
Proof. rewrite Forall_forall in Hps. auto. Qed.

Lemma run_ops_starred ops buf :
  Forall (fun op => op.2 ∈ ps) ops -> starred buf (run_ops ops buf).
Proof.
  intros HF. revert buf. induction HF as [|[i p] ops Hp HF IH]; intros buf; [apply starred_refl|].
  simpl. eapply starred_trans; [apply maskAt_starred; by apply phrase_props|apply IH].
Qed.

Lemma run_ops_gone ops buf i p :
  Forall (fun op => op.2 ∈ ps) ops -> (i, p) ∈ ops -> ~ occ (run_ops ops buf) p i.
Proof.
  intros HF. revert buf. induction HF as [|[j q] ops Hq HF IH]; intros buf Hin; [inv Hin|].
  simpl. apply elem_of_cons in Hin as [[= <- <-]|Hin]; [|by apply IH].
  destruct (phrase_props p Hq) as [Hne Hs]. intros Ho.
  apply (maskAt_gone i buf p Hne Hs). eapply starred_occ; [by apply run_ops_starred|done..].
Qed.

Lemma run_ops_covered ops buf orig q x :
  Forall (fun op => op.2 ∈ ps) ops -> starred orig buf ->
  run_ops ops buf !! q = Some x ->
  buf !! q = Some x \/ exists p k, p ∈ ps /\ occ orig p k /\ k <= q < k + length p.
Proof.
  intros HF. revert buf. induction HF as [|[i p] ops Hp HF IH]; intros buf Hst Hq; [by left|].
  simpl in Hq. destruct (phrase_props p Hp) as [Hne Hs].
  destruct (IH (maskAt i buf p)) as [Hm|Hc]; [|done| |by right].
  { eapply starred_trans; [exact Hst|by apply maskAt_starred]. }
  apply maskAt_covered in Hm as [|[Ho Hr]]; [by left| |done].
  right. exists p, i. split_and!; [done| |lia..]. by eapply starred_occ.
Qed.

Lemma mask_ops_ok n : Forall (fun op => op.2 ∈ ps) (mask_ops n ps).
Proof. apply Forall_forall. intros [i p] [_ Hp]%mask_ops_elem. done. Qed.

Lemma maskPending_starred buf : starred buf (maskPending ps buf).
Proof. rewrite maskPending_ops. apply run_ops_starred, mask_ops_ok. Qed.

Lemma occ_bound s p k : p <> [] -> occ s p k -> k + length p <= length s.
Proof. intros Hp Ho. by apply occurs_at_occ in Ho as [? _]. Qed.

Lemma maskPending_gone buf p k : p ∈ ps -> ~ occ (maskPending ps buf) p k.
Proof.
  intros Hp Ho. destruct (phrase_props p Hp) as [Hne _].
  pose proof (occ_bound _ _ _ Hne Ho) as Hb. destruct (maskPending_starred buf) as [Hl _].
  rewrite maskPending_ops in Ho. eapply run_ops_gone; [apply mask_ops_ok| |exact Ho].
  apply mask_ops_elem. split; [|done]. destruct p; [done|]. simpl in Hb. lia.
Qed.

(** ** The stream *)

Definition no_occ (s : bytes) : Prop := forall p k, p ∈ ps -> ~ occ s p k.

Definition coveredo (a b : bytes) : Prop :=
  forall i x, b !! i = Some x -> a !! i = Some x \/
    exists p k, p ∈ ps /\ occ a p k /\ k <= i < k + length p.

(** Masking the retained bytes together with the next chunk. *)
Lemma mask_next seen out pending input :
  starred seen (out ++ pending) -> coveredo seen (out ++ pending) ->
  starred (seen ++ input) (out ++ maskPending ps (pending ++ input)) /\
  coveredo (seen ++ input) (out ++ maskPending ps (pending ++ input)).
Proof.
  intros Hst Hcov.
  assert (Hst' : starred (seen ++ input) (out ++ pending ++ input)).
  { rewrite app_assoc. apply starred_app; [done|apply starred_refl]. }
  split.
  { eapply starred_trans; [exact Hst'|]. apply starred_app; [apply starred_refl|apply maskPending_starred]. }
  assert (Hcov' : coveredo (seen ++ input) (out ++ pending ++ input)).
  { rewrite app_assoc. intros i x Hi. destruct Hst as [Hl _].
    destruct (decide (i < length (out ++ pending))).
    - rewrite lookup_app_l in Hi by done. destruct (Hcov i x Hi) as [Hs|(p & k & Hp & Ho & Hr)].
      + left. rewrite lookup_app_l by lia. done.
      + right. exists p, k. split_and!; [done|by apply occ_app_l|lia..].
    - left. rewrite lookup_app_r in Hi by lia. rewrite lookup_app_r by lia. by rewrite <- Hl. }
  intros i x Hi. destruct (decide (i < length out)).
  { apply Hcov'. rewrite lookup_app_l in Hi |- * by done. done. }
  rewrite lookup_app_r in Hi by lia. rewrite maskPending_ops in Hi.
  apply (run_ops_covered _ _ (pending ++ input)) in Hi as [Hi|(p & k & Hp & Ho & Hr)];
    [|right|apply mask_ops_ok|apply starred_refl].
  - apply Hcov'. rewrite lookup_app_r by lia. done.
  - exists p, (length out + k). split_and!; [done| |lia..].
    destruct (phrase_props p Hp). eapply starred_occ; [exact Hst'|done|]. by apply occ_app_r.
Qed.

Lemma no_occ_next m out pending input :
  Forall (fun p => length p <= m) ps ->
  no_occ (out ++ pending) -> out = [] \/ length pending = m - 1 ->
  no_occ (out ++ maskPending ps (pending ++ input)).
Proof.
  intros Hm Hno Hlen p k Hp Ho. destruct (phrase_props p Hp) as [Hne Hs].
  destruct (decide (length out <= k)) as [Hk|Hk].
  { apply occ_app_inv in Ho; [|done]. by apply maskPending_gone in Ho. }
  destruct Hlen as [->|Hlen]; [simpl in Hk; lia|].
  rewrite Forall_forall in Hm. specialize (Hm p Hp).
  apply (Hno p k Hp). intros j b Hj. specialize (Ho j b Hj).
  apply fmap_Some in Ho as (y & Hy & ->). apply lookup_lt_Some in Hj as Hjl.
  destruct (starred_app out _ out _ (starred_refl out) (maskPending_starred (pending ++ input))) as [_ Hst].
  destruct (Hst _ _ Hy) as [->|Hy'].
  { exfalso. apply Hs. by eapply (list_elem_of_lookup_2 _ _ star). }
  rewrite app_assoc, lookup_app_l in Hy' by (rewrite length_app; lia). by rewrite Hy'.
Qed.

End phrases.

Section theorem.
Context `{UnicodeTables}.

(** The phrases of a compiled filter and the bound on their lengths. *)
Lemma NewMaskingFilter_acc ps f :
  Forall (fun p => p <> [] /\ length p <= maxLen f) (phrases f) ->
  let f' := fold_left (fun f p =>
       let normalized := normalizePhrase p in
       if decide (normalized = []) then f
       else MkMaskingFilter (phrases f ++ [normalized]) (max (maxLen f) (length normalized))) ps f in
  Forall (fun p => p <> [] /\ length p <= maxLen f') (phrases f') /\
  phrases f' = phrases f ++ filter (fun w => w <> []) (map normalizePhrase ps).
Proof.
  revert f. induction ps as [|p ps IH]; intros f Hf; cbv zeta in *; cbn [fold_left map].
  { split; [done|]. change (filter _ []) with (@nil bytes). by rewrite app_nil_r. }
  rewrite filter_cons. destruct (decide (normalizePhrase p = [])) as [E|E].
  - rewrite decide_False by naive_solver. by apply IH.
  - rewrite decide_True by naive_solver.
    destruct (IH (MkMaskingFilter (phrases f ++ [normalizePhrase p]) (max (maxLen f) (length (normalizePhrase p))))) as [HF Heq].
    + cbn [phrases maxLen]. apply Forall_app. split; [|repeat constructor; [done|lia]].
      eapply Forall_impl; [exact Hf|]. simpl. intros q [? ?]. split; [done|lia].
    + split; [exact HF|]. rewrite Heq. cbn [phrases]. by rewrite <- app_assoc.
Qed.

Lemma NewMaskingFilter_ok ps :
  Forall (fun p => p <> [] /\ length p <= maxLen (NewMaskingFilter ps)) (phrases (NewMaskingFilter ps)) /\
  phrases (NewMaskingFilter ps) = filter (fun w => w <> []) (map normalizePhrase ps).
Proof. apply NewMaskingFilter_acc. constructor. Qed.

(** The state of the filter after reading [seen] and forwarding [out]. *)
Definition mask_inv (c : MaskingFilter) (seen out : bytes) (s : maskingStreamFilter) : Prop :=
  exists pending, s = MaskingStream (Some c) pending /\
    starred seen (out ++ pending) /\ coveredo (phrases c) seen (out ++ pending) /\
    no_occ (phrases c) (out ++ pending) /\ (out = [] \/ length pending = maxLen c - 1) /\
    (maxLen c = 0 -> pending = []).

Definition mask_wf (c : MaskingFilter) : Prop :=
  Forall (fun p => p <> [] /\ star ∉ p) (phrases c) /\
  Forall (fun p => length p <= maxLen c) (phrases c).

Lemma mask_empty c : mask_wf c -> maxLen c = 0 -> phrases c = [].
Proof.
  intros [Hps Hlen] H0. destruct (phrases c) as [|p ps]; [done|].
  apply Forall_cons in Hps as [[Hp _] _], Hlen as [Hl _]. destruct p; [done|simpl in Hl; lia].
Qed.

Lemma mask_unchanged s : starred s s /\ coveredo [] s s /\ no_occ [] s.
Proof. split_and!; [apply starred_refl|intros i x Hi; by left|intros p k Hp; inv Hp]. Qed.

Lemma masking_step_ok c seen out s input :
  mask_wf c -> mask_inv c seen out s -> (maxLen c = 0 -> out = seen) ->
  exists s' o, masking_ProcessChunk s input = (s', Ok (o, false)) /\
    mask_inv c (seen ++ input) (out ++ o) s' /\ (maxLen c = 0 -> out ++ o = seen ++ input).
Proof.
  intros Hwf (pending & -> & Hst & Hcov & Hno & Hout & Hp0) H0eq.
  unfold masking_ProcessChunk. cbn [mk_compiled mk_pending].
  destruct (Nat.eqb_spec (maxLen c) 0) as [H0|H0]; cbn [orb].
  { rewrite (Hp0 H0), (H0eq H0). eexists _, _. split; [done|]. split; [|done].
    exists []. rewrite app_nil_r. pose proof (mask_empty c Hwf H0) as He. rewrite He.
    destruct (mask_unchanged (seen ++ input)) as (? & ? & ?). split_and!; try done. right. simpl. lia. }
  destruct (Nat.eqb_spec (length input) 0) as [Hi|Hi].
  { apply nil_length_inv in Hi as ->. eexists _, []. rewrite !app_nil_r. split; [done|].
    split; [|lia]. by exists pending. }
  destruct Hwf as [Hps Hlen].
  destruct (mask_next _ Hps seen out pending input Hst Hcov) as [Hst' Hcov'].
  pose proof (no_occ_next _ Hps _ _ _ input Hlen Hno Hout) as Hno'.
  set (B := maskPending (phrases c) (pending ++ input)) in *.
  destruct (Nat.leb_spec (length B - (maxLen c - 1)) 0) as [He|He].
  - eexists _, []. split; [done|]. split; [|lia]. exists B. rewrite app_nil_r. split_and!; try done.
    destruct Hout as [->|Hp]; [by left|right].
    pose proof (maskPending_starred _ Hps (pending ++ input)) as [HB _]. fold B in HB.
    rewrite length_app in HB. lia.
  - eexists _, _. split; [done|]. split; [|lia]. eexists.
    rewrite <- app_assoc, take_drop. split_and!; try done; right; rewrite length_drop; lia.
Qed.

Lemma masking_flush_ok c seen out s :
  mask_wf c -> mask_inv c seen out s ->
  exists s' o, masking_Flush s = (s', Ok o) /\
    starred seen (out ++ o) /\ coveredo (phrases c) seen (out ++ o) /\ no_occ (phrases c) (out ++ o).
Proof.
  intros [Hps Hlen] (pending & -> & Hst & Hcov & Hno & Hout & _).
  unfold masking_Flush. cbn [mk_compiled mk_pending].
  destruct (decide (pending = [])) as [->|Hp]; [eexists _, []; done|].
  eexists _, _. split; [done|].
  destruct (mask_next _ Hps seen out pending [] Hst Hcov) as [Hst' Hcov'].
  pose proof (no_occ_next _ Hps _ _ _ [] Hlen Hno Hout) as Hno'.
  by rewrite !app_nil_r in *.
Qed.

(** C8.  Masking is exact, whatever the chunks: what is forwarded is the
    body with some bytes replaced by stars; a replaced byte is within an
    occurrence of a phrase in the body; and no phrase occurs, in any case, in
    what is forwarded, also across chunk boundaries.  (For phrases that do not
    themselves contain a star.) *)
Theorem masking_exact ps chunks :
  Forall (fun p => star ∉ normalizePhrase p) ps ->
  let c := NewMaskingFilter ps in
  let out := forwarded (MaskingStream (Some c) []) chunks in
  starred (concat chunks) out /\ covered (phrases c) (concat chunks) out /\
  (forall p k, p ∈ phrases c -> ~ occurs_at out p k) /\
  ending (MaskingStream (Some c) []) chunks = Complete.
Proof.
  intros Hstar c out. destruct (NewMaskingFilter_ok ps) as [Hok Hph]. fold c in Hok, Hph.
  assert (Hwf : mask_wf c).
  { split; [|eapply Forall_impl; [exact Hok|simpl; tauto]].
    rewrite Hph. apply Forall_forall. intros p [Hne Hin]%list_elem_of_filter.
    split; [done|]. change (map ?f ?l) with (f <$> l) in Hin.
    apply list_elem_of_fmap in Hin as (q & -> & Hq). rewrite Forall_forall in Hstar. auto. }
  destruct (drain_invariant
    (fun seen out s => mask_inv c seen out s /\ (maxLen c = 0 -> out = seen))
    (fun seen out => starred seen out /\ coveredo (phrases c) seen out /\ no_occ (phrases c) out)
    (MaskingStream (Some c) []) chunks) with (seen := @nil byte) (out := @nil byte)
    as [(Hst & Hcov & Hno) Hend].
  - intros seen o s ch [HI H0] _. by apply masking_step_ok.
  - intros seen o s [HI _]. by apply masking_flush_ok.
  - split; [|done]. exists []. split_and!; try done; [|by left].
    intros p k Hp Ho. destruct Hwf as [Hps _]. rewrite Forall_forall in Hps. destruct (Hps p Hp) as [Hne _].
    apply (occ_bound _ _ _ Hne) in Ho. destruct p; [done|simpl in Ho; lia].
  - cbn [app] in Hst, Hcov, Hno. split_and!; [done| | |done].
    + intros i x Hi. destruct (Hcov i x Hi) as [|(p & k & Hp & Ho & Hr)]; [by left|right].
      exists p, k. split_and!; [done| |lia..]. apply occurs_at_occ; [|done].
      destruct Hwf as [Hps _]. rewrite Forall_forall in Hps. by apply Hps.
    + intros p k Hp Ho. destruct Hwf as [Hps _]. rewrite Forall_forall in Hps.
      apply occurs_at_occ in Ho; [|by apply Hps]. by apply (Hno p k).
Qed.

End theorem.

Lemma masking_exact_witness :
  let ps := [str "Secret"; str "etx"] in
  let chunks := [str "a SEC"; str "REtx secr"; str "et"] in
  let c := @NewMaskingFilter ascii_tables ps in
  let out := forwarded (MaskingStream (Some c) []) chunks in
  starred (concat chunks) out /\ covered (phrases c) (concat chunks) out /\
  (forall p k, p ∈ phrases c -> ~ occurs_at out p k) /\
  ending (MaskingStream (Some c) []) chunks = Complete.
Proof.
  apply (@masking_exact ascii_tables). repeat constructor; apply (bool_decide_unpack _); vm_compute; reflexivity.
Defined.
