(* ===== verification/BodyFilters.v ===== *)
(** * Other body filters

    HTML banner injection (proxy/html_injection_filter.go), blocking by magic
    number (proxy/magic_filter.go) and literal or regular-expression
    substitution (proxy/substitution_filter.go). *)

From S2P Require Import Prelude GoStrings GoRegexp SemanticFilter FilterEngine MaskingFilter.

(** ** Banner injection *)

Record htmlInjectionStreamFilter := HtmlInjection {
  hi_banner : bytes;
  hi_pending : bytes;
  hi_injected : bool;
}.

Definition needle : bytes := str "</body>".

(** The first position of the needle, in any case. *)
Definition bodyIndex (buf : bytes) : option nat :=
  find (fun i => asciiEqualFoldBytes (take (length needle) (drop i buf)) needle)
    (seq 0 (length buf + 1 - length needle)).

Definition injectPending (f : htmlInjectionStreamFilter)
    : option (bytes * htmlInjectionStreamFilter) :=
  match bodyIndex (hi_pending f) with
  | Some i => Some (take i (hi_pending f) ++ hi_banner f ++ drop i (hi_pending f),
                    HtmlInjection (hi_banner f) [] true)
  | None => None
  end.

Definition htmlInjection_ProcessChunk (f : htmlInjectionStreamFilter) (input : bytes)
    : chunkResult htmlInjectionStreamFilter :=
  if (length (hi_banner f) =? 0) || (length input =? 0) then (f, Ok (input, false))
  else if hi_injected f then (f, Ok (input, false))
  else
    let f := HtmlInjection (hi_banner f) (hi_pending f ++ input) (hi_injected f) in
    match injectPending f with
    | Some (out, f) => (f, Ok (out, false))
    | None =>
        let emit := length (hi_pending f) - (length needle - 1) in
        if emit <=? 0 then (f, Ok ([], false))
        else (HtmlInjection (hi_banner f) (drop emit (hi_pending f)) (hi_injected f),
              Ok (take emit (hi_pending f), false))
    end.

Definition htmlInjection_Flush (f : htmlInjectionStreamFilter)
    : htmlInjectionStreamFilter * result filterError bytes :=
  if decide (hi_pending f = []) then (f, Ok [])
  else (HtmlInjection (hi_banner f) [] (hi_injected f), Ok (hi_pending f)).

#[global] Instance htmlInjectionFilter : StreamFilter htmlInjectionStreamFilter := {|
  processChunk := htmlInjection_ProcessChunk;
  flushFilter := htmlInjection_Flush;
|}.

(** ** Magic numbers *)

(** [http.DetectContentType]: the sniffing table of net/http, a function of
    the first 512 bytes. *)
Class ContentSniffer : Type := { DetectContentType : bytes -> bytes }.

Definition magicSniffLen : nat := 512.

Record MagicFilter := MkMagicFilter { mf_blocked : gset bytes }.

Section magic.
Context `{UnicodeTables} `{ContentSniffer}.

(** [None] is the nil filter of an empty list. *)
Definition NewMagicFilter (blockedTypes : list bytes) : option MagicFilter :=
  let set :=
    fold_left
      (fun (set : gset bytes) raw =>
         let mt := ToLower (TrimSpace raw) in
         let mt := match Index mt (str ";") with
                   | Some i => TrimSpace (take i mt)
                   | None => mt
                   end in
         if decide (mt = []) then set else {[mt]} ∪ set)
      blockedTypes ∅ in
  if decide (set = ∅) then None else Some (MkMagicFilter set).

(** Byte [i] of [data] is one of [vals]. *)
Definition byteIn (data : bytes) (i : nat) (vals : list byte) : bool :=
  match data !! i with Some b => bool_decide (b ∈ vals) | None => false end.

Definition detectMagicType (data : bytes) : bytes :=
  if byteIn data 0 [Byte.x7f] && byteIn data 1 ["E"%byte] && byteIn data 2 ["L"%byte] && byteIn data 3 ["F"%byte]
  then str "executable/elf"
  else if byteIn data 0 ["M"%byte] && byteIn data 1 ["Z"%byte] then str "executable/pe"
  else if byteIn data 0 [Byte.xfe] && byteIn data 1 [Byte.xed] && byteIn data 2 [Byte.xfa]
          && byteIn data 3 [Byte.xce; Byte.xcf]
  then str "executable/mach"
  else if byteIn data 0 [Byte.xce; Byte.xcf] && byteIn data 1 [Byte.xfa] && byteIn data 2 [Byte.xed]
          && byteIn data 3 [Byte.xfe]
  then str "executable/mach"
  else if byteIn data 0 [Byte.xca] && byteIn data 1 [Byte.xfe] && byteIn data 2 [Byte.xba]
          && byteIn data 3 [Byte.xbe]
  then str "executable/mach"
  else if byteIn data 0 ["#"%byte] && byteIn data 1 ["!"%byte] then str "executable/script"
  else
    let mt := DetectContentType data in
    let mt := match Index mt (str ";") with Some i => take i mt | None => mt end in
    ToLower (TrimSpace mt).

Record magicStreamFilter := MagicStream {
  mg_compiled : MagicFilter;
  mg_pending : bytes;
  mg_decided : bool;
  mg_blocked : bool;
  mg_blockedMime : bytes;
}.

Definition magic_Decision (f : magicStreamFilter) : bool * bytes * bytes :=
  if mg_blocked f then (true, str "magic", mg_blockedMime f) else (false, [], []).

Definition commitDecision (f : magicStreamFilter) (tail : bytes) : chunkResult magicStreamFilter :=
  let mime := detectMagicType (mg_pending f) in
  if bool_decide (mime ∈ mf_blocked (mg_compiled f))
  then (MagicStream (mg_compiled f) [] true true mime, Ok ([], true))
  else (MagicStream (mg_compiled f) [] true (mg_blocked f) (mg_blockedMime f),
        Ok (mg_pending f ++ tail, false)).

Definition magic_ProcessChunk (f : magicStreamFilter) (input : bytes) : chunkResult magicStreamFilter :=
  if mg_blocked f then (f, Ok ([], true))
  else if mg_decided f then (f, Ok (input, false))
  else if length input =? 0 then (f, Ok ([], false))
  else
    let need := magicSniffLen - length (mg_pending f) in
    let '(pending, tail) :=
      if length input <=? need then (mg_pending f ++ input, [])
      else (mg_pending f ++ take need input, drop need input) in
    let f := MagicStream (mg_compiled f) pending (mg_decided f) (mg_blocked f) (mg_blockedMime f) in
    if length pending <? magicSniffLen then (f, Ok ([], false))
    else commitDecision f tail.

Definition magic_Flush (f : magicStreamFilter) : magicStreamFilter * result filterError bytes :=
  if mg_blocked f || mg_decided f then (f, Ok [])
  else
    let '(f, r) := commitDecision f [] in
    (f, '(out, _) ← r; Ok out).

#[global] Instance magicFilter : StreamFilter magicStreamFilter := {|
  processChunk := magic_ProcessChunk;
  flushFilter := magic_Flush;
|}.

End magic.

(** ** Substitution *)

Definition defaultRegexSubstitutionWindow : Z := 64 * 1024.
Definition maxRegexSubstitutionWindow : Z := 1024 * 1024.

Record subRule := SubRule { sr_search : bytes; sr_replace : bytes }.

Record RegexSubstitutionRule := MkRegexSubstitutionRule {
  rs_Pattern : bytes;
  rs_Replace : bytes;
  rs_MaxWindowBytes : Z;
  rs_Source : bytes;
}.

Inductive substitutionError :=
| ErrSubstitutionRegex (source pattern err : bytes)
| ErrSubstitutionWindow (pattern : bytes) (window : Z).

Definition padOrTruncate (replace : bytes) (targetLen : nat) : bytes :=
  if length replace =? targetLen then replace
  else if targetLen <? length replace then take targetLen replace
  else replace ++ replicate (targetLen - length replace) star.

(** The loop of [applyRules] for one literal: the parts between and in place
    of the occurrences, joined, and whether there was one.  Every turn
    consumes the searched bytes, so the length of the text plus one is
    enough fuel. *)
Fixpoint replaceLoop (fuel : nat) (pending search target : bytes) : bytes * bool :=
  match fuel with
  | O => (pending, false)
  | S fuel' =>
      match Index pending search with
      | None => (pending, false)
      | Some idx =>
          let '(rest, _) := replaceLoop fuel' (drop (idx + length search) pending) search target in
          (take idx pending ++ target ++ rest, true)
      end
  end.

Definition replaceAll (text search target : bytes) : bytes * bool :=
  replaceLoop (S (length text)) text search target.

Section substitution.
Context `{Regexp}.

Record regexSubRule := RegexSubRule {
  rx_re : regexp;
  rx_replace : bytes;
  rx_maxWindow : nat;
}.

Record SubstitutionFilter := MkSubstitutionFilter {
  sf_rules : list subRule;
  sf_regexRules : list regexSubRule;
  sf_LengthPreserved : bool;
}.

(** The map of literals is a list here, in the order of its iteration. *)
Definition NewSubstitutionFilterWithRegex (rules : list (bytes * bytes))
    (regexRules : list RegexSubstitutionRule) : result substitutionError SubstitutionFilter :=
  let lits := map (fun '(s, r) => SubRule s r) (filter (fun p => p.1 <> []) rules) in
  rxs ← foldM
    (fun out rule =>
       if decide (rs_Pattern rule = []) then Ok out
       else match regexp_Compile (rs_Pattern rule) with
            | Err e => Err (ErrSubstitutionRegex (rs_Source rule) (rs_Pattern rule) e)
            | Ok re =>
                let maxWindow := if (rs_MaxWindowBytes rule <=? 0)%Z
                                 then defaultRegexSubstitutionWindow else rs_MaxWindowBytes rule in
                if (maxRegexSubstitutionWindow <? maxWindow)%Z
                then Err (ErrSubstitutionWindow (rs_Pattern rule) maxWindow)
                else Ok (out ++ [RegexSubRule re (rs_Replace rule) (Z.to_nat maxWindow)])
            end)
    regexRules [];
  Ok (MkSubstitutionFilter lits rxs false).

Definition HasRules (f : SubstitutionFilter) : bool :=
  (0 <? length (sf_rules f)) || (0 <? length (sf_regexRules f)).

(** The filter of one stream; [ms_matches] is the calls of [onMatch]. *)
Record multiSubstitutionStreamFilter := MultiSubstitution {
  ms_rules : list subRule;
  ms_regexRules : list regexSubRule;
  ms_pending : bytes;
  ms_maxWindow : nat;
  ms_lengthPreserved : bool;
  ms_BlockOnMatch : bool;
  ms_matchedError : bool;
  ms_matches : list (bytes * bytes);
}.

Definition substitutionWindow (f : SubstitutionFilter) : nat :=
  let m := fold_left (fun m r => max m (rx_maxWindow r)) (sf_regexRules f) 0 in
  let m := fold_left (fun m r => max m (length (sr_search r))) (sf_rules f) m in
  if m <=? 0 then Z.to_nat defaultRegexSubstitutionWindow else m.

(** [NewFilter] of a filter with rules. *)
Definition newSubstitutionStream (f : SubstitutionFilter) : multiSubstitutionStreamFilter :=
  MultiSubstitution (sf_rules f) (sf_regexRules f) [] (substitutionWindow f)
    (sf_LengthPreserved f) false false [].

(** What [applyRules] works on: the text, the calls of [onMatch], and [true]
    once a match must block. *)
Definition applied : Type := bytes * list (bytes * bytes) * bool.

Definition applyLiteral (lengthPreserved blockOnMatch : bool) (a : applied) (r : subRule) : applied :=
  let '(out, log, stop) := a in
  if stop then a
  else
    let target := if lengthPreserved then padOrTruncate (sr_replace r) (length (sr_search r))
                  else sr_replace r in
    let '(replaced, matched) := replaceAll out (sr_search r) target in
    if matched then
      if blockOnMatch then (out, log, true)
      else (replaced, log ++ [(str "literal", sr_search r)], false)
    else a.

(** The matches of an expression replaced from the last to the first, each by
    an expansion of the same length. *)
Definition replaceLocations (r : regexSubRule) (out : bytes) : bytes :=
  fold_left
    (fun out loc =>
       let '(matchStart, matchEnd, _) := loc in
       let expanded := regexp_Expand (rx_re r) (rx_replace r) out loc in
       take matchStart out ++ padOrTruncate expanded (matchEnd - matchStart) ++ drop matchEnd out)
    (rev (regexp_FindAllSubmatchIndex (rx_re r) out)) out.

Definition applyRegex (lengthPreserved blockOnMatch : bool) (a : applied) (r : regexSubRule) : applied :=
  let '(out, log, stop) := a in
  if stop then a
  else if regexp_MatchString (rx_re r) out then
    if blockOnMatch then (out, log, true)
    else
      let out := if lengthPreserved then replaceLocations r out
                 else regexp_ReplaceAllString (rx_re r) out (rx_replace r) in
      (out, log ++ [(str "regex", regexp_String (rx_re r))], false)
  else a.

(** [applyRules]: on a match that blocks it returns its argument. *)
Definition applyRules (f : multiSubstitutionStreamFilter) (input : bytes)
    : multiSubstitutionStreamFilter * bytes :=
  let lp := ms_lengthPreserved f in
  let bl := ms_BlockOnMatch f in
  let a := fold_left (applyLiteral lp bl) (ms_rules f) (input, ms_matches f, false) in
  let '(out, log, stop) := fold_left (applyRegex lp bl) (ms_regexRules f) a in
  (MultiSubstitution (ms_rules f) (ms_regexRules f) (ms_pending f) (ms_maxWindow f)
     lp bl (ms_matchedError f || stop) log,
   if stop then input else out).

Definition set_pending (f : multiSubstitutionStreamFilter) (p : bytes) : multiSubstitutionStreamFilter :=
  MultiSubstitution (ms_rules f) (ms_regexRules f) p (ms_maxWindow f)
    (ms_lengthPreserved f) (ms_BlockOnMatch f) (ms_matchedError f) (ms_matches f).

Definition substitution_ProcessChunk (f : multiSubstitutionStreamFilter) (input : bytes)
    : chunkResult multiSubstitutionStreamFilter :=
  if ms_matchedError f then (f, Err ErrSecretExfiltrationBlocked)
  else if length input =? 0 then (f, Ok ([], false))
  else
    let f := set_pending f (ms_pending f ++ input) in
    if length (ms_pending f) <=? ms_maxWindow f then (f, Ok ([], false))
    else
      let emit := length (ms_pending f) - ms_maxWindow f in
      let '(f, chunk) := applyRules f (take emit (ms_pending f)) in
      if ms_matchedError f then (f, Err ErrSecretExfiltrationBlocked)
      else (set_pending f (drop emit (ms_pending f)), Ok (chunk, false)).

Definition substitution_Flush (f : multiSubstitutionStreamFilter)
    : multiSubstitutionStreamFilter * result filterError bytes :=
  if ms_matchedError f then (f, Err ErrSecretExfiltrationBlocked)
  else if decide (ms_pending f = []) then (f, Ok [])
  else
    let '(f, chunk) := applyRules f (ms_pending f) in
    if ms_matchedError f then (f, Err ErrSecretExfiltrationBlocked)
    else (set_pending f [], Ok chunk).

#[global] Instance substitutionFilter : StreamFilter multiSubstitutionStreamFilter := {|
  processChunk := substitution_ProcessChunk;
  flushFilter := substitution_Flush;
|}.

End substitution.
