(* ===== verification/BodyTheorems.v ===== *)
(** * Theorems on the other body filters

    What banner injection, magic-number blocking and substitution forward, as
    functions of the whole body, for every way to cut it into chunks. *)

From S2P Require Import Prelude GoStrings GoRegexp SemanticFilter FilterEngine MaskingFilter BodyFilters.

(** ** Banner injection *)

(** The body with the banner before its first closing body tag. *)
Definition inject (banner body : bytes) : bytes :=
  match bodyIndex body with
  | Some i => take i body ++ banner ++ drop i body
  | None => body
  end.

Lemma find_seq_Some (P : nat -> bool) a n i :
  find P (seq a n) = Some i <-> P i = true /\ a <= i < a + n /\ forall j, a <= j < i -> P j = false.
Proof.
  revert a. induction n as [|n IH]; intros a; simpl; [split; [done|lia]|].
  destruct (P a) eqn:E.
  - split; [intros [= <-]; split_and!; [done|lia..]|].
    intros (Hp & Hr & Hj). f_equal. destruct (decide (a = i)); [done|].
    specialize (Hj a). rewrite Hj in E by lia. done.
  - rewrite IH. split; intros (Hp & Hr & Hj); split_and!; try done; try lia.
    + intros j Hjr. destruct (decide (j = a)) as [->|]; [done|]. apply Hj. lia.
    + destruct (decide (i = a)) as [->|]; [congruence|lia].
    + intros j Hjr. apply Hj. lia.
Qed.

Lemma bodyIndex_Some body i :
  bodyIndex body = Some i <-> occ body needle i /\ forall j, j < i -> ~ occ body needle j.
Proof.
  assert (Hiff : forall j, (asciiEqualFoldBytes (take (length needle) (drop j body)) needle = true /\
      j < length body + 1 - length needle) <-> occ body needle j).
  { intros j. rewrite <- occurs_at_occ by done. unfold occurs_at. split; intros [H1 H2]; split; done || (change (length needle) with 7 in *; lia). }
  unfold bodyIndex. rewrite find_seq_Some. split.
  - intros (Hp & Hr & Hj). split; [apply Hiff; split; [done|lia]|].
    intros j Hlt [Ho _]%Hiff. rewrite Hj in Ho by lia. done.
  - intros [[Hp Hr]%Hiff Hj]. split_and!; [done|lia..|]. intros j Hlt.
    apply not_true_is_false. intros Ho. apply (Hj j); [lia|]. apply Hiff. split; [done|lia].
Qed.

Lemma bodyIndex_None body : bodyIndex body = None <-> forall j, ~ occ body needle j.
Proof.
  split.
  - intros Hn j Ho. pose proof Ho as Hb. apply occurs_at_occ in Hb as [Hlen Hf]; [|done].
    unfold bodyIndex in Hn. apply (find_none_elim _ _ j) in Hn; [congruence|].
    apply list_elem_of_In, in_seq. lia.
  - intros Hno. destruct (bodyIndex body) as [i|] eqn:E; [|done].
    apply bodyIndex_Some in E as [Ho _]. by destruct (Hno i).
Qed.

Lemma occ_prefix a b p k : occ (a ++ b) p k -> k + length p <= length a -> occ a p k.
Proof.
  intros Ho Hl j x Hj. specialize (Ho j x Hj). apply lookup_lt_Some in Hj.
  by rewrite lookup_app_l in Ho by lia.
Qed.

Lemma bodyIndex_extend body more i : bodyIndex body = Some i -> bodyIndex (body ++ more) = Some i.
Proof.
  rewrite !bodyIndex_Some. intros [Ho Hj]. split; [by apply occ_app_l|].
  intros j Hlt Hoj. apply (Hj j Hlt). apply (occ_prefix _ more); [done|].
  apply (occ_bound) in Ho; [|done]. lia.
Qed.

(** The needle is found in the retained bytes and the new chunk when it is
    found in the body. *)
Lemma bodyIndex_retained out pending input :
  bodyIndex (out ++ pending) = None -> out = [] \/ length pending = length needle - 1 ->
  bodyIndex (out ++ pending ++ input) = (fun i => length out + i) <$> bodyIndex (pending ++ input).
Proof.
  rewrite bodyIndex_None. intros Hno Hlen.
  assert (Hout : forall j, j < length out -> ~ occ (out ++ pending ++ input) needle j).
  { intros j Hj Ho. destruct Hlen as [->|Hlen]; [simpl in Hj; lia|].
    apply (Hno j). rewrite app_assoc in Ho. apply (occ_prefix _ input); [done|].
    rewrite length_app, Hlen. change (length needle) with 7. lia. }
  destruct (bodyIndex (pending ++ input)) as [i|] eqn:E; simpl.
  - apply bodyIndex_Some in E as [Ho Hj]. apply bodyIndex_Some. split; [by apply occ_app_r|].
    intros j Hlt Hoj. destruct (decide (j < length out)); [by apply (Hout j)|].
    apply occ_app_inv in Hoj; [|lia]. apply (Hj (j - length out)); [lia|done].
  - apply bodyIndex_None. intros j Ho. rewrite bodyIndex_None in E.
    destruct (decide (j < length out)); [by apply (Hout j)|].
    apply occ_app_inv in Ho; [|lia]. by apply (E (j - length out)).
Qed.

Definition inject_inv (banner seen out : bytes) (s : htmlInjectionStreamFilter) : Prop :=
  (exists pending, s = HtmlInjection banner pending false /\ seen = out ++ pending /\
     bodyIndex seen = None /\ (out = [] \/ length pending = length needle - 1)) \/
  (s = HtmlInjection banner [] true /\ out = inject banner seen /\ bodyIndex seen <> None).

Lemma inject_step banner seen out s input :
  banner <> [] -> inject_inv banner seen out s ->
  exists s' o, htmlInjection_ProcessChunk s input = (s', Ok (o, false)) /\
               inject_inv banner (seen ++ input) (out ++ o) s'.
Proof.
  intros Hb HI. unfold htmlInjection_ProcessChunk.
  assert (Hbl : (length banner =? 0) = false) by (destruct banner; done).
  destruct (Nat.eqb_spec (length input) 0) as [Hi|Hi].
  { apply nil_length_inv in Hi as ->. exists s, []. rewrite !app_nil_r, orb_true_r. done. }
  destruct HI as [(pending & -> & -> & Hno & Hlen)|(-> & -> & Hsome)]; cbn [hi_banner hi_injected hi_pending];
    rewrite Hbl; cbn [orb].
  - pose proof (bodyIndex_retained out pending input Hno Hlen) as Hidx.
    unfold injectPending. cbn [hi_banner hi_injected hi_pending].
    destruct (bodyIndex (pending ++ input)) as [i|] eqn:E; simpl in Hidx.
    + eexists _, _. split; [done|]. right. rewrite <- app_assoc. unfold inject. rewrite Hidx.
      split_and!; [done| |done]. rewrite take_app_add, drop_app_add. by rewrite <- app_assoc.
    + destruct (Nat.leb_spec (length (pending ++ input) - (length needle - 1)) 0) as [He|He].
      * eexists _, _. split; [done|]. left. exists (pending ++ input). rewrite app_nil_r, <- app_assoc.
        split_and!; try done. destruct Hlen as [|Hlen]; [by left|right].
        rewrite length_app in *. lia.
      * eexists _, _. split; [done|]. left. eexists. split; [done|].
        rewrite <- !app_assoc, take_drop. split_and!; try done. right. rewrite length_drop. lia.
  - eexists _, _. split; [done|]. right. destruct (bodyIndex seen) as [i|] eqn:E; [|done].
    unfold inject. rewrite E, (bodyIndex_extend _ input _ E). split_and!; [done| |done].
    apply bodyIndex_Some in E as [Ho _]. apply occ_bound in Ho; [|done].
    rewrite take_app_le, drop_app_le by lia. by rewrite <- !app_assoc.
Qed.

(** C22.  Banner injection: with a non-empty banner, what is forwarded is the
    body with the banner inserted once, before the first closing body tag in
    any case, or the body itself when there is none, for every way to cut the
    body into chunks, also in the middle of the tag. *)
Theorem htmlInjection_correct banner chunks :
  banner <> [] ->
  forwarded (HtmlInjection banner [] false) chunks = inject banner (concat chunks) /\
  ending (HtmlInjection banner [] false) chunks = Complete.
Proof.
  intros Hb.
  apply (drain_invariant (inject_inv banner) (fun seen out => out = inject banner seen)
    (HtmlInjection banner [] false) chunks) with (seen := []) (out := []).
  - intros seen out s c HI _. by apply inject_step.
  - intros seen out s [(pending & -> & -> & Hno & _)|(-> & -> & _)];
      unfold flushFilter, htmlInjectionFilter, htmlInjection_Flush; cbn [hi_pending].
    + exists (HtmlInjection banner [] false), pending. unfold inject. rewrite Hno.
      destruct (decide (pending = [])) as [->|]; done.
    + eexists _, []. by rewrite app_nil_r.
  - left. exists []. auto.
Qed.

Lemma htmlInjection_correct_witness :
  forwarded (HtmlInjection (str "<b>x</b>") [] false) [str "<p>hi</bo"; str "DY></html>"] =
    inject (str "<b>x</b>") (concat [str "<p>hi</bo"; str "DY></html>"]) /\
  ending (HtmlInjection (str "<b>x</b>") [] false) [str "<p>hi</bo"; str "DY></html>"] = Complete.
Proof. apply htmlInjection_correct. discriminate. Defined.

(** ** Magic numbers *)

Section magic.
Context `{UnicodeTables} `{ContentSniffer}.
Context (c : MagicFilter).

(** The type that decides: that of the first 512 bytes. *)
Definition body_mime (body : bytes) : bytes := detectMagicType (take magicSniffLen body).

Definition hit (body : bytes) : bool := bool_decide (body_mime body ∈ mf_blocked c).

Lemma drain_decided chunks mime :
  drain (MagicStream c [] true false mime) chunks =
  (concat chunks, Complete, MagicStream c [] true false mime).
Proof. induction chunks as [|x chunks IH]; simpl in *; [done|]. by rewrite IH. Qed.

(** The decision, once 512 bytes are there. *)
Lemma commit_drain pending tail chunks mime :
  length pending = magicSniffLen ->
  match commitDecision (MagicStream c pending false false mime) tail with
  | (s', Ok (out, false)) => let '(rest, e, s'') := drain s' chunks in (out ++ rest, e, s'')
  | (s', Ok (out, true)) => (out, BlockedEnd, s')
  | (s', Err e) => ([], Failed e, s')
  end =
  let body := pending ++ tail ++ concat chunks in
  if hit body then ([], BlockedEnd, MagicStream c [] true true (body_mime body))
  else (body, Complete, MagicStream c [] true false mime).
Proof.
  intros Hl. cbv zeta. unfold commitDecision, hit, body_mime. cbn [mg_pending mg_compiled mg_blocked mg_blockedMime].
  rewrite take_app_length' by done. case_bool_decide; [done|].
  rewrite drain_decided. by rewrite <- app_assoc.
Qed.

Lemma drain_undecided pending chunks mime :
  length pending < magicSniffLen ->
  drain (MagicStream c pending false false mime) chunks =
  let body := pending ++ concat chunks in
  if hit body
  then ([], if magicSniffLen <=? length body then BlockedEnd else Complete,
        MagicStream c [] true true (body_mime body))
  else (body, Complete, MagicStream c [] true false mime).
Proof.
  revert pending. induction chunks as [|x chunks IH]; intros pending Hl; cbv zeta.
  - cbn [drain concat]. rewrite app_nil_r. unfold flushFilter, magicFilter, magic_Flush, commitDecision, hit, body_mime.
    cbn [mg_pending mg_compiled mg_blocked mg_decided mg_blockedMime orb].
    rewrite take_ge by lia. destruct (Nat.leb_spec magicSniffLen (length pending)); [lia|].
    case_bool_decide; cbn; by rewrite ?app_nil_r.
  - cbn [drain concat]. unfold processChunk, magicFilter, magic_ProcessChunk. fold magicFilter.
    cbn [mg_pending mg_compiled mg_blocked mg_decided mg_blockedMime].
    destruct (Nat.eqb_spec (length x) 0) as [Hx|Hx].
    { apply nil_length_inv in Hx as ->. cbn [app]. rewrite IH by done. cbv zeta. by destruct (hit _). }
    destruct (Nat.leb_spec (length x) (magicSniffLen - length pending)) as [Hle|Hgt].
    + rewrite length_app. destruct (Nat.ltb_spec (length pending + length x) magicSniffLen) as [Hlt|Hge].
      * rewrite IH by (rewrite length_app; lia). cbv zeta. rewrite <- app_assoc. by destruct (hit _).
      * rewrite (commit_drain (pending ++ x)) by (rewrite length_app; lia). cbv zeta.
        rewrite <- !app_assoc. cbn [app]. rewrite !length_app.
        destruct (Nat.leb_spec magicSniffLen (length pending + (length x + length (concat chunks)))); [done|lia].
    + rewrite length_app, length_take.
      destruct (Nat.ltb_spec (length pending + (magicSniffLen - length pending) `min` length x) magicSniffLen); [lia|].
      rewrite commit_drain by (rewrite length_app, length_take; lia). cbv zeta.
      rewrite <- !app_assoc, (app_assoc (take _ x)), take_drop, !length_app.
      destruct (Nat.leb_spec magicSniffLen (length pending + (length x + length (concat chunks)))); [done|lia].
Qed.

(** Blocking by magic number looks at the first 512 bytes of the body,
    however it is cut: when their type is on the list nothing at all is
    forwarded and the final decision is a block with that type; otherwise the
    body is forwarded unchanged and the decision is not to block. *)
Theorem magic_correct chunks :
  let body := concat chunks in
  let '(out, e, s) := drain (MagicStream c [] false false []) chunks in
  (body_mime body ∈ mf_blocked c ->
     out = [] /\ magic_Decision s = (true, str "magic", body_mime body)) /\
  (body_mime body ∉ mf_blocked c ->
     out = body /\ e = Complete /\ magic_Decision s = (false, [], [])).
Proof.
  cbv zeta. rewrite drain_undecided by (unfold magicSniffLen; simpl; lia). cbn [app]. cbv zeta. unfold hit.
  case_bool_decide; split; try done.
Qed.

End magic.

(** ** Substitution *)

Lemma padOrTruncate_length r n : length (padOrTruncate r n) = n.
Proof.
  unfold padOrTruncate. destruct (Nat.eqb_spec (length r) n); [done|].
  destruct (Nat.ltb_spec n (length r)).
  - rewrite length_take. lia.
  - rewrite length_app, length_replicate. lia.
Qed.

Lemma replaceLoop_length fuel text search target :
  length target = length search -> length (fst (replaceLoop fuel text search target)) = length text.
Proof.
  intros Ht. revert text. induction fuel as [|fuel IH]; intros text; simpl; [done|].
  destruct (Index text search) as [i|] eqn:E; [|done].
  apply Index_Some in E as (Hl & _ & _). specialize (IH (drop (i + length search) text)).
  destruct (replaceLoop fuel _ _ _) as [rest m]. simpl in *.
  rewrite !length_app, length_take, IH, length_drop. lia.
Qed.

Lemma splice_length (out r : bytes) s e :
  s <= e -> e <= length out -> length r = e - s -> length (take s out ++ r ++ drop e out) = length out.
Proof. intros. rewrite !length_app, length_take, length_drop. lia. Qed.

Section substitution.
Context `{Regexp} `{!RegexpLaws}.

Lemma locations_ok_Forall from n locs :
  locations_ok from n locs -> Forall (fun '(s, e, _) => s <= e /\ e <= n) locs.
Proof.
  revert from. induction locs as [|[[s e] sub] locs IH]; intros from Hl; [constructor|].
  simpl in Hl. destruct Hl as (? & ? & Hl). constructor; [lia|]. by apply (IH e).
Qed.

Lemma replaceLocations_length r out : length (replaceLocations r out) = length out.
Proof.
  unfold replaceLocations.
  pose proof (locations_ok_Forall _ _ _ (FindAll_locations (rx_re r) out)) as HF.
  rewrite <- Forall_reverse in HF. unfold reverse in HF. rewrite <- rev_alt in HF.
  set (locs := rev _) in *. clearbody locs. remember (length out) as n eqn:Hn. symmetry in Hn.
  revert out Hn. induction HF as [|[[s e] sub] locs [Hse He] HF IH]; intros out Hn; simpl; [done|].
  apply IH. rewrite splice_length; rewrite ?padOrTruncate_length; lia.
Qed.

(** Without blocking no rule sets the error, and with preserved lengths
    every rule keeps the length. *)
Lemma applyLiteral_pass lp a r : snd a = false ->
  let a' := applyLiteral lp false a r in
  snd a' = false /\ (lp = true -> length (fst (fst a')) = length (fst (fst a))).
Proof.
  destruct a as [[out log] stop]. cbv zeta. simpl. intros ->.
  pose proof (replaceLoop_length (S (length out)) out (sr_search r)
    (padOrTruncate (sr_replace r) (length (sr_search r))) (padOrTruncate_length _ _)) as Hl.
  unfold replaceAll. destruct lp.
  - destruct (replaceLoop _ _ _ _) as [rep []]; simpl in *; auto.
  - clear Hl. destruct (replaceLoop _ _ _ _) as [rep []]; cbn [snd fst]; (split; [done|discriminate]).
Qed.

Lemma applyRegex_pass lp a r : snd a = false ->
  let a' := applyRegex lp false a r in
  snd a' = false /\ (lp = true -> length (fst (fst a')) = length (fst (fst a))).
Proof.
  destruct a as [[out log] stop]. cbv zeta. simpl. intros ->.
  destruct (regexp_MatchString (rx_re r) out); simpl; [|auto].
  split; [done|]. intros ->. apply replaceLocations_length.
Qed.

Lemma fold_pass {A} (step : applied -> A -> applied) (lp : bool) l a :
  (forall a r, snd a = false -> snd (step a r) = false /\
     (lp = true -> length (fst (fst (step a r))) = length (fst (fst a)))) ->
  snd a = false ->
  snd (fold_left step l a) = false /\
  (lp = true -> length (fst (fst (fold_left step l a))) = length (fst (fst a))).
Proof.
  intros Hstep. revert a. induction l as [|r l IH]; intros a Ha; simpl; [auto|].
  destruct (Hstep a r Ha) as [Hs Hl]. destruct (IH _ Hs) as [Hs' Hl'].
  split; [done|]. intros Hlp. rewrite (Hl' Hlp). auto.
Qed.

Lemma applyRules_pass f input :
  ms_BlockOnMatch f = false -> ms_matchedError f = false ->
  let '(f', out) := applyRules f input in
  (exists log, f' = MultiSubstitution (ms_rules f) (ms_regexRules f) (ms_pending f) (ms_maxWindow f)
     (ms_lengthPreserved f) false false log) /\
  (ms_lengthPreserved f = true -> length out = length input).
Proof.
  intros Hb He. unfold applyRules. rewrite Hb, He.
  destruct (fold_pass (applyLiteral (ms_lengthPreserved f) false) (ms_lengthPreserved f) (ms_rules f)
    (input, ms_matches f, false) ltac:(intros; by apply applyLiteral_pass) eq_refl) as [H1 L1].
  set (a := fold_left _ (ms_rules f) _) in *.
  destruct (fold_pass (applyRegex (ms_lengthPreserved f) false) (ms_lengthPreserved f) (ms_regexRules f)
    a ltac:(intros; by apply applyRegex_pass) H1) as [H2 L2].
  destruct (fold_left _ (ms_regexRules f) a) as [[out log] stop]. simpl in *. subst stop.
  split; [by eexists|]. intros Hlp. by rewrite L2, L1.
Qed.

(** The filter between chunks, without blocking. *)
Definition subst_ready (f : multiSubstitutionStreamFilter) : Prop :=
  ms_BlockOnMatch f = false /\ ms_matchedError f = false /\ ms_lengthPreserved f = true.

Lemma substitution_step_length f input :
  subst_ready f ->
  exists f' o, substitution_ProcessChunk f input = (f', Ok (o, false)) /\ subst_ready f' /\
    length o + length (ms_pending f') = length (ms_pending f) + length input.
Proof.
  intros (Hb & He & Hlp). unfold substitution_ProcessChunk. rewrite He.
  destruct (Nat.eqb_spec (length input) 0) as [Hi|Hi].
  { eexists _, _. split_and!; [done..|]. simpl. lia. }
  cbn [set_pending ms_pending ms_maxWindow].
  destruct (Nat.leb_spec (length (ms_pending f ++ input)) (ms_maxWindow f)) as [Hw|Hw].
  { eexists _, _. split_and!; [done..|]. simpl. by rewrite length_app. }
  pose proof (applyRules_pass (set_pending f (ms_pending f ++ input))
    (take (length (ms_pending f ++ input) - ms_maxWindow f) (ms_pending f ++ input)) Hb He) as HA.
  destruct (applyRules _ _) as [f' out]. destruct HA as ((log & ->) & Hl). cbn [ms_matchedError].
  eexists _, _. split_and!; [done..|]. rewrite Hl by done. cbn.
  rewrite length_take, length_drop, length_app in *. lia.
Qed.

(** Length-preserving substitution never changes the length of a body,
    for any rules and any chunks: the forwarded bytes are exactly as many as
    the bytes read, so a Content-Length sent before them stays true. *)
Theorem substitution_length f chunks :
  subst_ready f -> ms_pending f = [] ->
  length (forwarded f chunks) = length (concat chunks) /\ ending f chunks = Complete.
Proof.
  intros Hr Hp.
  apply (drain_invariant (fun seen out s => subst_ready s /\ length out + length (ms_pending s) = length seen)
    (fun seen out => length out = length seen) f chunks) with (seen := []) (out := []).
  - intros seen out s c [Hs Hl] _. destruct (substitution_step_length s c Hs) as (s' & o & Heq & Hs' & Hl').
    exists s', o. split; [exact Heq|]. split; [done|]. rewrite !length_app. lia.
  - intros seen out s [(Hb & He & Hlp) Hl]. unfold flushFilter, substitutionFilter, substitution_Flush.
    rewrite He. destruct (decide (ms_pending s = [])) as [Hn|Hn].
    { exists s, []. split; [done|]. rewrite Hn in Hl. rewrite app_nil_r. simpl in Hl. lia. }
    pose proof (applyRules_pass s (ms_pending s) Hb He) as HA.
    destruct (applyRules s (ms_pending s)) as [s' o]. destruct HA as ((log & ->) & Hlo).
    eexists _, o. split; [done|]. rewrite length_app, Hlo by done. lia.
  - split; [done|]. rewrite Hp. done.
Qed.

End substitution.

(** Two literal rules over a body in two chunks, with literals as the
    expressions. *)
Lemma substitution_length_witness :
  let f := @newSubstitutionStream literal_regexp
    (@MkSubstitutionFilter literal_regexp [SubRule (str "secret") (str "x")]
       [@RegexSubRule literal_regexp (str "key") (str "longer") 4] true) in
  length (@forwarded _ (@substitutionFilter literal_regexp) f [str "a secret"; str " key here"]) =
    length (concat [str "a secret"; str " key here"]) /\
  @ending _ (@substitutionFilter literal_regexp) f [str "a secret"; str " key here"] = Complete.
Proof.
  apply (@substitution_length literal_regexp literal_regexp_laws); [|reflexivity].
  split; [|split]; reflexivity.
Defined.

(** ** Blocking on a match (the exfiltration preventer) *)

Section exfiltration.
Context `{Regexp}.

(** Some rule matches the text. *)
Definition secret_in (f : multiSubstitutionStreamFilter) (text : bytes) : bool :=
  existsb (fun r => Contains text (sr_search r)) (ms_rules f) ||
  existsb (fun r => regexp_MatchString (rx_re r) text) (ms_regexRules f).

Lemma replaceAll_matched text search target :
  snd (replaceAll text search target) = Contains text search.
Proof.
  unfold replaceAll, Contains. cbn [replaceLoop].
  destruct (Index text search); [|done]. by destruct (replaceLoop _ _ _ _).
Qed.

Lemma fold_block {A} (step : applied -> A -> applied) (P : bytes -> A -> bool) l text log stop :
  (forall r, step (text, log, false) r = (text, log, P text r)) ->
  (forall r, step (text, log, true) r = (text, log, true)) ->
  fold_left step l (text, log, stop) = (text, log, stop || existsb (P text) l).
Proof.
  intros Hf Ht. revert stop. induction l as [|r l IH]; intros stop; simpl.
  { by rewrite orb_false_r. }
  destruct stop; [rewrite Ht|rewrite Hf]; rewrite IH; [done|]. by destruct (P text r).
Qed.

Lemma applyRules_block f input :
  ms_BlockOnMatch f = true ->
  applyRules f input =
  (MultiSubstitution (ms_rules f) (ms_regexRules f) (ms_pending f) (ms_maxWindow f)
     (ms_lengthPreserved f) true (ms_matchedError f || secret_in f input) (ms_matches f), input).
Proof.
  intros Hb. unfold applyRules. rewrite Hb.
  rewrite (fold_block (applyLiteral (ms_lengthPreserved f) true) (fun t r => Contains t (sr_search r))).
  - rewrite (fold_block (applyRegex (ms_lengthPreserved f) true) (fun t r => regexp_MatchString (rx_re r) t)).
    + unfold secret_in. cbn [orb]. f_equal. by destruct (existsb _ (ms_rules f) || _).
    + intros r. simpl. by destruct (regexp_MatchString _ _).
    + done.
  - intros r. simpl. rewrite <- (replaceAll_matched input (sr_search r)
      (if ms_lengthPreserved f then padOrTruncate (sr_replace r) (length (sr_search r)) else sr_replace r)).
    by destruct (replaceAll _ _ _) as [? []].
  - done.
Qed.

(** While the body fits in the window nothing is forwarded. *)
Lemma drain_buffered f chunks :
  ms_matchedError f = false -> length (ms_pending f ++ concat chunks) <= ms_maxWindow f ->
  drain f chunks = drain (set_pending f (ms_pending f ++ concat chunks)) [].
Proof.
  revert f. induction chunks as [|x chunks IH]; intros f He Hl; cbn [concat] in *.
  { rewrite app_nil_r. by destruct f. }
  rewrite app_assoc in Hl |- *.
  remember (drain (set_pending f ((ms_pending f ++ x) ++ concat chunks)) []) as R eqn:HR.
  cbn [drain]. unfold processChunk at 1, substitutionFilter at 1, substitution_ProcessChunk.
  rewrite He. destruct (Nat.eqb_spec (length x) 0) as [Hx|Hx].
  { apply nil_length_inv in Hx as ->. rewrite app_nil_r in Hl, HR. rewrite IH, <- HR by done.
    by destruct R as [[? ?] ?]. }
  cbn [set_pending ms_pending ms_maxWindow].
  destruct (Nat.leb_spec (length (ms_pending f ++ x)) (ms_maxWindow f)) as [_|Hw];
    [|rewrite length_app in Hl; lia].
  rewrite IH by done.
  change (set_pending (set_pending f ?p) ?q) with (set_pending f q).
  cbn [set_pending ms_pending]. fold (set_pending f ((ms_pending f ++ x) ++ concat chunks)).
  rewrite <- HR. by destruct R as [[? ?] ?].
Qed.

(** C23.  A body that fits in the window of the exfiltration preventer is
    checked as a whole, however it is cut: when a literal or an expression
    matches anywhere in it nothing is forwarded and the stream fails with the
    policy error; otherwise it is forwarded unchanged. *)
Theorem exfiltration_window f chunks :
  ms_BlockOnMatch f = true -> ms_matchedError f = false -> ms_pending f = [] ->
  concat chunks <> [] -> length (concat chunks) <= ms_maxWindow f ->
  forwarded f chunks = (if secret_in f (concat chunks) then [] else concat chunks) /\
  ending f chunks = (if secret_in f (concat chunks) then Failed ErrSecretExfiltrationBlocked else Complete).
Proof.
  intros Hb He Hp Hne Hl. unfold forwarded, ending.
  rewrite drain_buffered by (rewrite ?Hp; done). rewrite Hp. cbn [app].
  cbn [drain]. unfold flushFilter, substitutionFilter, substitution_Flush.
  cbn [set_pending ms_pending ms_matchedError]. rewrite He, decide_False by done.
  rewrite applyRules_block by done. cbn [set_pending ms_matchedError]. rewrite He. cbn [orb].
  change (secret_in (set_pending f (concat chunks))) with (secret_in f).
  by destruct (secret_in f (concat chunks)).
Qed.

Lemma Contains_length t s : Contains t s = true -> length s <= length t /\ (length s = length t -> t = s).
Proof.
  intros (a & b & ->)%Contains_spec. rewrite !length_app. split; [lia|].
  intros Hl. assert (a = []) as -> by (apply nil_length_inv; lia).
  assert (b = []) as -> by (apply nil_length_inv; lia). by rewrite app_nil_r.
Qed.

(** A body one byte longer than the window escapes: the filter emits
    the first byte alone and the rest later, and looks for the literal in each
    piece, so a body that starts with the literal is forwarded whole. *)
Theorem exfiltration_straddle s c lp :
  1 < length s -> drop 1 s ++ [c] <> s ->
  let f := MultiSubstitution [SubRule s []] [] [] (length s) lp true false [] in
  Contains (s ++ [c]) s = true /\
  forwarded f [s ++ [c]] = s ++ [c] /\ ending f [s ++ [c]] = Complete.
Proof.
  intros Hs Hne f. split; [apply Contains_spec; by exists [], [c]|].
  unfold forwarded, ending. cbn [drain]. unfold processChunk, flushFilter, substitutionFilter.
  unfold substitution_ProcessChunk, f. cbn [ms_matchedError ms_pending set_pending ms_maxWindow app].
  rewrite length_app. simpl (length [c]).
  destruct (Nat.eqb_spec (length s + 1) 0) as [|_]; [lia|].
  destruct (Nat.leb_spec (length s + 1) (length s)) as [|_]; [lia|].
  replace (length s + 1 - length s) with 1 by lia. rewrite applyRules_block by done.
  cbn [ms_matchedError set_pending orb ms_pending].
  destruct s as [|s0 s]; [simpl in Hs; lia|]. cbn [app take drop].
  assert (Hc1 : Contains [s0] (s0 :: s) = false).
  { apply not_true_is_false. intros [Hl _]%Contains_length. simpl in *. lia. }
  unfold secret_in. cbn [set_pending ms_rules ms_regexRules existsb sr_search].
  rewrite take_0, drop_0, !Hc1. cbn [orb ms_pending set_pending].
  unfold substitution_Flush. cbn [ms_matchedError set_pending ms_pending].
  rewrite decide_False by by destruct s. rewrite applyRules_block by done.
  cbn [ms_matchedError set_pending orb].
  assert (Hc2 : Contains (s ++ [c]) (s0 :: s) = false).
  { apply not_true_is_false. intros [_ Heq]%Contains_length. simpl in Hne.
    apply Hne, Heq. rewrite length_app. simpl. lia. }
  unfold secret_in. cbn [set_pending ms_rules ms_regexRules existsb sr_search ms_pending]. rewrite ?drop_0, Hc2. done.
Qed.

End exfiltration.

Lemma exfiltration_window_witness :
  let f := @MultiSubstitution literal_regexp [SubRule (str "secret") []] [] [] 16 false true false [] in
  @forwarded _ (@substitutionFilter literal_regexp) f [str "my sec"; str "ret"] =
    (if @secret_in literal_regexp f (concat [str "my sec"; str "ret"]) then [] else concat [str "my sec"; str "ret"]) /\
  @ending _ (@substitutionFilter literal_regexp) f [str "my sec"; str "ret"] =
    (if @secret_in literal_regexp f (concat [str "my sec"; str "ret"])
     then Failed ErrSecretExfiltrationBlocked else Complete).
Proof. apply (@exfiltration_window literal_regexp); try reflexivity; [discriminate|vm_compute; repeat constructor]. Defined.

Lemma exfiltration_straddle_witness :
  let f := @MultiSubstitution literal_regexp [SubRule (str "secret") []] [] [] 6 false true false [] in
  Contains (str "secret" ++ ["x"%byte]) (str "secret") = true /\
  @forwarded _ (@substitutionFilter literal_regexp) f [str "secret" ++ ["x"%byte]] = str "secret" ++ ["x"%byte] /\
  @ending _ (@substitutionFilter literal_regexp) f [str "secret" ++ ["x"%byte]] = Complete.
Proof. apply (@exfiltration_straddle literal_regexp (str "secret") "x" false); [vm_compute; repeat constructor|discriminate]. Defined.
