(* ===== verification/Config.v ===== *)
(** * Configuration ([config.go])

    The settings come from their defaults, the TOML file, the environment and
    the command line, in this order; [validate] has the last word.  The TOML
    decoder is a parameter: a function from the text of the file to the values
    of [tomlConfig].  The matchers that [main] adds to the settings later are
    not part of the record. *)

From stdpp Require Import base list.
From Stdlib Require Import Floats.SpecFloat.
From S2P Require Import Prelude GoStrings GoConv GoJson GoPath GoRegexp GoNetip SemanticFilter FilterEngine MaskingFilter BodyFilters BodyTheorems Access Schedule Rules ListLoader.
Set Default Goal Selector "!".
Local Open Scope Z_scope.

Record appConfig := MkAppConfig {
  c_ConfigPath : bytes;
  c_ListenAddr : bytes;
  c_CertDir : bytes;
  c_MaxConnections : Z;
  c_IOTimeout : Z;
  c_WSIdleTimeout : Z;
  c_DialTimeout : Z;
  c_UpstreamMaxIdlePerHost : Z;
  c_UpstreamIdleTimeout : Z;
  c_HandshakeTimeout : Z;
  c_WaitTimeout : Z;
  c_CertWorkers : Z;
  c_MITMPrewarmHosts : list bytes;
  c_LogBodies : bool;
  c_LogBodiesSampleRate : float64;
  c_MaxCaptureBytes : Z;
  c_UpstreamInsecure : bool;
  c_DumpDir : bytes;
  c_DumpOnPolicyHit : bool;
  c_DumpCredentialsCleartext : bool;
  c_AuditKey : bytes;
  c_DumpMaxSizeMB : Z;
  c_DumpMaxBackups : Z;
  c_DumpMinFreeSpaceMB : Z;
  c_DumpCompress : bool;
  c_MITMBypassHosts : list bytes;
  c_IncludeDirs : list bytes;
  c_AccessProfiles : list AccessProfile;
  c_ScheduleWindows : list ScheduleWindow;
  c_SemanticPhrases : list bytes;
  c_SemanticWeighted : list SemanticPhraseConfig;
  c_SemanticThreshold : Z;
  c_SemanticBlockedPhraseLists : list bytes;
  c_SemanticWeightedPhraseLists : list bytes;
  c_SemanticExceptionPhraseLists : list bytes;
  c_SemanticExceptionPhrases : list bytes;
  c_SemanticWeightedExceptions : list SemanticPhraseConfig;
  c_MaskingPhrases : list bytes;
  c_MaskingPhraseLists : list bytes;
  c_HTMLBanner : bytes;
  c_MagicBlockedTypes : list bytes;
  c_AntivirusEnabled : bool;
  c_AntivirusClamAV : bytes;
  c_AntivirusTempDir : bytes;
  c_AntivirusTrickle : Z;
  c_AntivirusTimeout : Z;
  c_ShowVersion : bool;
  c_Substitutions : list SubstitutionConfig;
  c_SubstitutionRuleLists : list bytes;
  c_RegexSubstitutions : list RegexSubstitutionConfig;
  c_RegexSubstitutionRuleLists : list bytes;
  c_RequestSubstitutions : list SubstitutionConfig;
  c_RequestSubstitutionRuleLists : list bytes;
  c_RegexRequestSubstitutions : list RegexSubstitutionConfig;
  c_RegexRequestSubstitutionRuleLists : list bytes;
  c_NoCheckCertSites : list bytes;
  c_NoCheckCertSiteIPs : list bytes;
  c_GreySSLSites : list bytes;
  c_GreySSLSiteIPs : list bytes;
  c_BannedClients : list bytes;
  c_AccessLog : bytes;
  c_AlertLog : bytes;
  c_AlertCategories : list bytes;
  c_ExceptionClients : list bytes;
  c_FilterGroups : list bytes;
  c_IPGroupMappings : list IPGroupMapping;
  c_LogPhrases : list bytes;
  c_ExceptionLogPhrases : list bytes;
  c_MetricsEnabled : bool;
  c_MetricsListenAddr : bytes;
  c_ReusePort : bool;
  c_CircuitBreakerEnabled : bool;
  c_CircuitBreakerFailures : Z;
  c_CircuitBreakerTimeout : Z;
  c_DNSCacheEnabled : bool;
  c_DNSCacheTTL : Z;
  c_HTTP3Enabled : bool;
  c_TracingEnabled : bool;
  c_TracingEndpoint : bytes;
  c_TracingInsecure : bool;
  c_TracingServiceName : bytes;
  c_TracingSampleRate : float64;
  c_AuditScopeEnabled : bool;
  c_AuditScopeRoots : list bytes;
  c_AuditScopeRootDomainLists : list bytes;
  c_AuditScopeDependencyTTL : Z;
  c_AuditScopeMaxDependencies : Z;
  c_AuditScopeNoneMode : bytes;
  c_AuditScopeDependencyMutations : bytes;
  c_AuditScopeDiscoverHTML : bool;
  c_AuditScopeDiscoverCSS : bool;
  c_AuditScopeDiscoverJS : bool;
}.

Record tomlConfig := MkToml {
  t_Server_ListenAddr : bytes;
  t_Server_CertDir : bytes;
  t_Server_HandshakeTimeout : bytes;
  t_Server_MaxConnections : option Z;
  t_Server_IOTimeout : bytes;
  t_Server_WSIdleTimeout : bytes;
  t_Server_WaitTimeout : bytes;
  t_Server_CertWorkers : option Z;
  t_Server_ReusePort : option bool;
  t_Server_CircuitBreakerEnabled : option bool;
  t_Server_CircuitBreakerFailures : option Z;
  t_Server_CircuitBreakerTimeout : bytes;
  t_Server_DNSCacheEnabled : option bool;
  t_Server_DNSCacheTTL : bytes;
  t_Server_HTTP3Enabled : option bool;
  t_Upstream_DialTimeout : bytes;
  t_Upstream_MaxIdleConnsPerHost : option Z;
  t_Upstream_IdleTimeout : bytes;
  t_Upstream_InsecureSkipVerify : option bool;
  t_MITM_PrewarmHosts : list bytes;
  t_MITM_BypassHosts : list bytes;
  t_Logging_LogBodies : option bool;
  t_Logging_LogBodiesSampleRate : option float64;
  t_Logging_MaxCaptureBytes : option Z;
  t_Logging_DumpDir : bytes;
  t_Logging_DumpOnPolicyHit : option bool;
  t_Logging_DumpCredentialsCleartext : option bool;
  t_Logging_AuditKey : option bytes;
  t_Logging_DumpMaxSizeMB : option Z;
  t_Logging_DumpMaxBackups : option Z;
  t_Logging_DumpMinFreeSpaceMB : option Z;
  t_Logging_DumpCompress : option bool;
  t_Logging_AccessLog : bytes;
  t_Logging_AlertLog : bytes;
  t_Metrics_Enabled : option bool;
  t_Metrics_ListenAddr : option bytes;
  t_Rules_IncludeDir : list bytes;
  t_Access_Profiles : list AccessProfile;
  t_Schedule_Windows : list ScheduleWindow;
  t_Semantic_BlockedPhrases : list bytes;
  t_Semantic_BlockedPhraseLists : list bytes;
  t_Semantic_WeightedPhraseLists : list bytes;
  t_Semantic_ExceptionPhraseLists : list bytes;
  t_Semantic_ScoreThreshold : option Z;
  t_Semantic_Weighted : list SemanticPhraseConfig;
  t_Masking_Phrases : list bytes;
  t_Masking_PhraseLists : list bytes;
  t_Injection_HTMLBanner : bytes;
  t_Magic_BlockedTypes : list bytes;
  t_Antivirus_Enabled : option bool;
  t_Antivirus_ClamAVAddr : bytes;
  t_Antivirus_TempDir : bytes;
  t_Antivirus_TrickleInterval : bytes;
  t_Antivirus_ScanTimeout : bytes;
  t_Substitution_RuleLists : list bytes;
  t_Substitution_RegexRuleLists : list bytes;
  t_Substitution_Rules : list SubstitutionConfig;
  t_Substitution_RegexRules : list RegexSubstitutionConfig;
  t_RequestSubstitution_RuleLists : list bytes;
  t_RequestSubstitution_RegexRuleLists : list bytes;
  t_RequestSubstitution_Rules : list SubstitutionConfig;
  t_RequestSubstitution_RegexRules : list RegexSubstitutionConfig;
  t_Tracing_Enabled : option bool;
  t_Tracing_Endpoint : option bytes;
  t_Tracing_Insecure : option bool;
  t_Tracing_ServiceName : option bytes;
  t_Tracing_SampleRate : option float64;
  t_AuditScope_Enabled : option bool;
  t_AuditScope_Mode : bytes;
  t_AuditScope_Roots : list bytes;
  t_AuditScope_RootDomainLists : list bytes;
  t_AuditScope_DependencyTTL : bytes;
  t_AuditScope_MaxDependencies : option Z;
  t_AuditScope_NoneMode : bytes;
  t_AuditScope_DependencyMutations : bytes;
  t_AuditScope_DiscoverHTML : option bool;
  t_AuditScope_DiscoverCSS : option bool;
  t_AuditScope_DiscoverJS : option bool;
}.

Definition Millisecond : Z := 1000000.
Definition Second : Z := 1000 * Millisecond.
Definition Minute : Z := 60 * Second.

Definition is_nil {A} (l : list A) : bool := match l with [] => true | _ => false end.

(** A list or a string of the file, when it has one. *)
Definition orElse {A} (l old : list A) : list A := if is_nil l then old else l.

(** What ends the program; the message is the one of the code. *)
Inductive configError :=
| ErrReadConfig (path : bytes)
| ErrParseConfig (path : bytes)
| ErrDuration (key : bytes)
| ErrList (e : listError)
| ErrFlag (arg : bytes)
| ErrHelp
| ErrInvalid (message : bytes)
| ErrRequestRegex (rule : RegexSubstitutionConfig) (reason : bytes).

(** ** Environment *)

Section env.
Context (getenv : bytes -> bytes).

(** The new prefix, then the old one. *)
Definition envValue (key : string) : bytes :=
  let v := getenv (str "LUCIDGATE_" ++ str key) in
  if is_nil v then getenv (str "CLEARGATE_" ++ str key) else v.

Definition envString (key : string) (fallback : bytes) : bytes :=
  let v := envValue key in if is_nil v then fallback else v.

Definition envParsed {A} (parse : bytes -> option A) (key : string) (fallback : A) : A :=
  let v := envValue key in if is_nil v then fallback else default fallback (parse v).

Definition envBool : string -> bool -> bool := envParsed ParseBool.
Definition envInt64 : string -> Z -> Z := envParsed Atoi.
Definition envInt : string -> Z -> Z := envParsed Atoi.
Definition envDuration : string -> Z -> Z := envParsed ParseDuration.
Definition envFloat : string -> float64 -> float64 := envParsed ParseFloat.

End env.

(** ** Lists of hosts *)

Section config.
Context `{UnicodeTables} `{Regexp}.

Definition splitNonEmpty (raw : bytes) (sep : byte) : list bytes :=
  filter (fun item => item <> []) (map TrimSpace (SplitByte raw sep)).

Definition normalizePrewarmHost (raw : bytes) : bytes :=
  let host := TrimPrefix (TrimPrefix (TrimPrefix (TrimSpace raw) (str "http://")) (str "https://")) (str "*.") in
  let host := match IndexByte host "/"%byte with Some i => take i host | None => host end in
  let host := match SplitHostPort host with Some (h, _) => h | None => host end in
  ToLower (Trim host (str "[] " ++ [Byte.x09; Byte.x0d; Byte.x0a] ++ str ".")).

Definition normalizeHostList (hosts : list bytes) : list bytes :=
  fold_left (fun out raw =>
    let host := normalizePrewarmHost raw in
    if is_nil host || bool_decide (host ∈ out) then out else out ++ [host]) hosts [].

(** ** Defaults, file and environment *)

Section sources.
Context (getenv : bytes -> bytes) (numCPU : Z) (fs : fileSystem) (toml_Unmarshal : bytes -> option tomlConfig).

Definition defaultConfig : appConfig := {|
    c_ConfigPath := envString getenv "CONFIG" []; c_ListenAddr := str "127.0.0.1:8080";
    c_CertDir := str "certs"; c_MaxConnections := 1024; c_IOTimeout := 30 * Second;
    c_WSIdleTimeout := 5 * Minute; c_DialTimeout := 10 * Second; c_UpstreamMaxIdlePerHost := 32;
    c_UpstreamIdleTimeout := 90 * Second; c_HandshakeTimeout := 5 * Second;
    c_WaitTimeout := 250 * Millisecond; c_CertWorkers := numCPU; c_MITMPrewarmHosts := [];
    c_LogBodies := true; c_LogBodiesSampleRate := f64 1 0; c_MaxCaptureBytes := Z.shiftl 1 20;
    c_UpstreamInsecure := false; c_DumpDir := []; c_DumpOnPolicyHit := false;
    c_DumpCredentialsCleartext := false; c_AuditKey := []; c_DumpMaxSizeMB := 100; c_DumpMaxBackups := 10;
    c_DumpMinFreeSpaceMB := 1024; c_DumpCompress := true; c_MITMBypassHosts := []; c_IncludeDirs := [];
    c_AccessProfiles := []; c_ScheduleWindows := []; c_SemanticPhrases := []; c_SemanticWeighted := [];
    c_SemanticThreshold := 0; c_SemanticBlockedPhraseLists := []; c_SemanticWeightedPhraseLists := [];
    c_SemanticExceptionPhraseLists := []; c_SemanticExceptionPhrases := [];
    c_SemanticWeightedExceptions := []; c_MaskingPhrases := []; c_MaskingPhraseLists := [];
    c_HTMLBanner := []; c_MagicBlockedTypes := []; c_AntivirusEnabled := false; c_AntivirusClamAV := [];
    c_AntivirusTempDir := []; c_AntivirusTrickle := Second; c_AntivirusTimeout := 30 * Second;
    c_ShowVersion := false; c_Substitutions := []; c_SubstitutionRuleLists := []; c_RegexSubstitutions := [];
    c_RegexSubstitutionRuleLists := []; c_RequestSubstitutions := []; c_RequestSubstitutionRuleLists := [];
    c_RegexRequestSubstitutions := []; c_RegexRequestSubstitutionRuleLists := []; c_NoCheckCertSites := [];
    c_NoCheckCertSiteIPs := []; c_GreySSLSites := []; c_GreySSLSiteIPs := []; c_BannedClients := [];
    c_AccessLog := []; c_AlertLog := []; c_AlertCategories := []; c_ExceptionClients := [];
    c_FilterGroups := []; c_IPGroupMappings := []; c_LogPhrases := []; c_ExceptionLogPhrases := [];
    c_MetricsEnabled := false; c_MetricsListenAddr := str "127.0.0.1:6060"; c_ReusePort := false;
    c_CircuitBreakerEnabled := true; c_CircuitBreakerFailures := 5; c_CircuitBreakerTimeout := 30 * Second;
    c_DNSCacheEnabled := true; c_DNSCacheTTL := 60 * Second; c_HTTP3Enabled := false;
    c_TracingEnabled := false; c_TracingEndpoint := str "localhost:4317"; c_TracingInsecure := true;
    c_TracingServiceName := str "lucidgate"; c_TracingSampleRate := f64 1 0; c_AuditScopeEnabled := false;
    c_AuditScopeRoots := []; c_AuditScopeRootDomainLists := []; c_AuditScopeDependencyTTL := 30 * Minute;
    c_AuditScopeMaxDependencies := 8192; c_AuditScopeNoneMode := str "tunnel";
    c_AuditScopeDependencyMutations := str "restricted"; c_AuditScopeDiscoverHTML := true;
    c_AuditScopeDiscoverCSS := true; c_AuditScopeDiscoverJS := true
  |}.

Definition setConfigPath (path : bytes) (cfg : appConfig) : appConfig := {|
    c_ConfigPath := path; c_ListenAddr := c_ListenAddr cfg; c_CertDir := c_CertDir cfg;
    c_MaxConnections := c_MaxConnections cfg; c_IOTimeout := c_IOTimeout cfg;
    c_WSIdleTimeout := c_WSIdleTimeout cfg; c_DialTimeout := c_DialTimeout cfg;
    c_UpstreamMaxIdlePerHost := c_UpstreamMaxIdlePerHost cfg;
    c_UpstreamIdleTimeout := c_UpstreamIdleTimeout cfg; c_HandshakeTimeout := c_HandshakeTimeout cfg;
    c_WaitTimeout := c_WaitTimeout cfg; c_CertWorkers := c_CertWorkers cfg;
    c_MITMPrewarmHosts := c_MITMPrewarmHosts cfg; c_LogBodies := c_LogBodies cfg;
    c_LogBodiesSampleRate := c_LogBodiesSampleRate cfg; c_MaxCaptureBytes := c_MaxCaptureBytes cfg;
    c_UpstreamInsecure := c_UpstreamInsecure cfg; c_DumpDir := c_DumpDir cfg;
    c_DumpOnPolicyHit := c_DumpOnPolicyHit cfg; c_DumpCredentialsCleartext := c_DumpCredentialsCleartext cfg;
    c_AuditKey := c_AuditKey cfg; c_DumpMaxSizeMB := c_DumpMaxSizeMB cfg;
    c_DumpMaxBackups := c_DumpMaxBackups cfg; c_DumpMinFreeSpaceMB := c_DumpMinFreeSpaceMB cfg;
    c_DumpCompress := c_DumpCompress cfg; c_MITMBypassHosts := c_MITMBypassHosts cfg;
    c_IncludeDirs := c_IncludeDirs cfg; c_AccessProfiles := c_AccessProfiles cfg;
    c_ScheduleWindows := c_ScheduleWindows cfg; c_SemanticPhrases := c_SemanticPhrases cfg;
    c_SemanticWeighted := c_SemanticWeighted cfg; c_SemanticThreshold := c_SemanticThreshold cfg;
    c_SemanticBlockedPhraseLists := c_SemanticBlockedPhraseLists cfg;
    c_SemanticWeightedPhraseLists := c_SemanticWeightedPhraseLists cfg;
    c_SemanticExceptionPhraseLists := c_SemanticExceptionPhraseLists cfg;
    c_SemanticExceptionPhrases := c_SemanticExceptionPhrases cfg;
    c_SemanticWeightedExceptions := c_SemanticWeightedExceptions cfg;
    c_MaskingPhrases := c_MaskingPhrases cfg; c_MaskingPhraseLists := c_MaskingPhraseLists cfg;
    c_HTMLBanner := c_HTMLBanner cfg; c_MagicBlockedTypes := c_MagicBlockedTypes cfg;
    c_AntivirusEnabled := c_AntivirusEnabled cfg; c_AntivirusClamAV := c_AntivirusClamAV cfg;
    c_AntivirusTempDir := c_AntivirusTempDir cfg; c_AntivirusTrickle := c_AntivirusTrickle cfg;
    c_AntivirusTimeout := c_AntivirusTimeout cfg; c_ShowVersion := c_ShowVersion cfg;
    c_Substitutions := c_Substitutions cfg; c_SubstitutionRuleLists := c_SubstitutionRuleLists cfg;
    c_RegexSubstitutions := c_RegexSubstitutions cfg;
    c_RegexSubstitutionRuleLists := c_RegexSubstitutionRuleLists cfg;
    c_RequestSubstitutions := c_RequestSubstitutions cfg;
    c_RequestSubstitutionRuleLists := c_RequestSubstitutionRuleLists cfg;
    c_RegexRequestSubstitutions := c_RegexRequestSubstitutions cfg;
    c_RegexRequestSubstitutionRuleLists := c_RegexRequestSubstitutionRuleLists cfg;
    c_NoCheckCertSites := c_NoCheckCertSites cfg; c_NoCheckCertSiteIPs := c_NoCheckCertSiteIPs cfg;
    c_GreySSLSites := c_GreySSLSites cfg; c_GreySSLSiteIPs := c_GreySSLSiteIPs cfg;
    c_BannedClients := c_BannedClients cfg; c_AccessLog := c_AccessLog cfg; c_AlertLog := c_AlertLog cfg;
    c_AlertCategories := c_AlertCategories cfg; c_ExceptionClients := c_ExceptionClients cfg;
    c_FilterGroups := c_FilterGroups cfg; c_IPGroupMappings := c_IPGroupMappings cfg;
    c_LogPhrases := c_LogPhrases cfg; c_ExceptionLogPhrases := c_ExceptionLogPhrases cfg;
    c_MetricsEnabled := c_MetricsEnabled cfg; c_MetricsListenAddr := c_MetricsListenAddr cfg;
    c_ReusePort := c_ReusePort cfg; c_CircuitBreakerEnabled := c_CircuitBreakerEnabled cfg;
    c_CircuitBreakerFailures := c_CircuitBreakerFailures cfg;
    c_CircuitBreakerTimeout := c_CircuitBreakerTimeout cfg; c_DNSCacheEnabled := c_DNSCacheEnabled cfg;
    c_DNSCacheTTL := c_DNSCacheTTL cfg; c_HTTP3Enabled := c_HTTP3Enabled cfg;
    c_TracingEnabled := c_TracingEnabled cfg; c_TracingEndpoint := c_TracingEndpoint cfg;
    c_TracingInsecure := c_TracingInsecure cfg; c_TracingServiceName := c_TracingServiceName cfg;
    c_TracingSampleRate := c_TracingSampleRate cfg; c_AuditScopeEnabled := c_AuditScopeEnabled cfg;
    c_AuditScopeRoots := c_AuditScopeRoots cfg;
    c_AuditScopeRootDomainLists := c_AuditScopeRootDomainLists cfg;
    c_AuditScopeDependencyTTL := c_AuditScopeDependencyTTL cfg;
    c_AuditScopeMaxDependencies := c_AuditScopeMaxDependencies cfg;
    c_AuditScopeNoneMode := c_AuditScopeNoneMode cfg;
    c_AuditScopeDependencyMutations := c_AuditScopeDependencyMutations cfg;
    c_AuditScopeDiscoverHTML := c_AuditScopeDiscoverHTML cfg;
    c_AuditScopeDiscoverCSS := c_AuditScopeDiscoverCSS cfg;
    c_AuditScopeDiscoverJS := c_AuditScopeDiscoverJS cfg
  |}.

Definition tomlDuration (key : string) (text : bytes) (old : Z) : result configError Z :=
  if is_nil text then Ok old
  else match ParseDuration text with Some d => Ok d | None => Err (ErrDuration (str key)) end.

Definition withoutSource (r : RegexSubstitutionConfig) : RegexSubstitutionConfig :=
  MkRegexSubstitution (rs_Pattern r) (rs_Replace r) (rs_MaxWindowBytes r) [].

(** The settings of the content filters, and their values in the file. *)
Record contentSettings := MkContentSettings {
  cs_SemanticPhrases : list bytes;
  cs_SemanticWeighted : list SemanticPhraseConfig;
  cs_SemanticThreshold : Z;
  cs_SemanticBlockedPhraseLists : list bytes;
  cs_SemanticWeightedPhraseLists : list bytes;
  cs_SemanticExceptionPhraseLists : list bytes;
  cs_MaskingPhrases : list bytes;
  cs_MaskingPhraseLists : list bytes;
  cs_HTMLBanner : bytes;
  cs_MagicBlockedTypes : list bytes;
  cs_AntivirusEnabled : bool;
  cs_AntivirusClamAV : bytes;
  cs_AntivirusTempDir : bytes;
  cs_AntivirusTrickle : Z;
  cs_AntivirusTimeout : Z;
  cs_Substitutions : list SubstitutionConfig;
  cs_SubstitutionRuleLists : list bytes;
  cs_RegexSubstitutions : list RegexSubstitutionConfig;
  cs_RegexSubstitutionRuleLists : list bytes;
  cs_RequestSubstitutions : list SubstitutionConfig;
  cs_RequestSubstitutionRuleLists : list bytes;
  cs_RegexRequestSubstitutions : list RegexSubstitutionConfig;
  cs_RegexRequestSubstitutionRuleLists : list bytes;
}.

Definition contentTOML (raw : tomlConfig) (cfg : appConfig) : result configError contentSettings :=
  d_AntivirusTrickle ← tomlDuration "antivirus.trickle_interval" (t_Antivirus_TrickleInterval raw) (c_AntivirusTrickle cfg);
  d_AntivirusTimeout ← tomlDuration "antivirus.scan_timeout" (t_Antivirus_ScanTimeout raw) (c_AntivirusTimeout cfg);
  Ok {|
    cs_SemanticPhrases := orElse (t_Semantic_BlockedPhrases raw) (c_SemanticPhrases cfg);
    cs_SemanticWeighted := orElse (t_Semantic_Weighted raw) (c_SemanticWeighted cfg);
    cs_SemanticThreshold := default (c_SemanticThreshold cfg) (t_Semantic_ScoreThreshold raw);
    cs_SemanticBlockedPhraseLists := orElse (t_Semantic_BlockedPhraseLists raw) (c_SemanticBlockedPhraseLists cfg);
    cs_SemanticWeightedPhraseLists := orElse (t_Semantic_WeightedPhraseLists raw) (c_SemanticWeightedPhraseLists cfg);
    cs_SemanticExceptionPhraseLists := orElse (t_Semantic_ExceptionPhraseLists raw) (c_SemanticExceptionPhraseLists cfg);
    cs_MaskingPhrases := orElse (t_Masking_Phrases raw) (c_MaskingPhrases cfg);
    cs_MaskingPhraseLists := orElse (t_Masking_PhraseLists raw) (c_MaskingPhraseLists cfg);
    cs_HTMLBanner := orElse (t_Injection_HTMLBanner raw) (c_HTMLBanner cfg);
    cs_MagicBlockedTypes := orElse (t_Magic_BlockedTypes raw) (c_MagicBlockedTypes cfg);
    cs_AntivirusEnabled := default (c_AntivirusEnabled cfg) (t_Antivirus_Enabled raw);
    cs_AntivirusClamAV := orElse (t_Antivirus_ClamAVAddr raw) (c_AntivirusClamAV cfg);
    cs_AntivirusTempDir := orElse (t_Antivirus_TempDir raw) (c_AntivirusTempDir cfg);
    cs_AntivirusTrickle := d_AntivirusTrickle;
    cs_AntivirusTimeout := d_AntivirusTimeout;
    cs_Substitutions := orElse (t_Substitution_Rules raw) (c_Substitutions cfg);
    cs_SubstitutionRuleLists := orElse (t_Substitution_RuleLists raw) (c_SubstitutionRuleLists cfg);
    cs_RegexSubstitutions := orElse (map withoutSource (t_Substitution_RegexRules raw)) (c_RegexSubstitutions cfg);
    cs_RegexSubstitutionRuleLists := orElse (t_Substitution_RegexRuleLists raw) (c_RegexSubstitutionRuleLists cfg);
    cs_RequestSubstitutions := orElse (t_RequestSubstitution_Rules raw) (c_RequestSubstitutions cfg);
    cs_RequestSubstitutionRuleLists := orElse (t_RequestSubstitution_RuleLists raw) (c_RequestSubstitutionRuleLists cfg);
    cs_RegexRequestSubstitutions := orElse (map withoutSource (t_RequestSubstitution_RegexRules raw)) (c_RegexRequestSubstitutions cfg);
    cs_RegexRequestSubstitutionRuleLists := orElse (t_RequestSubstitution_RegexRuleLists raw) (c_RegexRequestSubstitutionRuleLists cfg)
  |}.

(** The settings of tracing and of the audit scope, and their values in the file. *)
Record scopeSettings := MkScopeSettings {
  ss_TracingEnabled : bool;
  ss_TracingEndpoint : bytes;
  ss_TracingInsecure : bool;
  ss_TracingServiceName : bytes;
  ss_TracingSampleRate : float64;
  ss_AuditScopeEnabled : bool;
  ss_AuditScopeRoots : list bytes;
  ss_AuditScopeRootDomainLists : list bytes;
  ss_AuditScopeDependencyTTL : Z;
  ss_AuditScopeMaxDependencies : Z;
  ss_AuditScopeNoneMode : bytes;
  ss_AuditScopeDependencyMutations : bytes;
  ss_AuditScopeDiscoverHTML : bool;
  ss_AuditScopeDiscoverCSS : bool;
  ss_AuditScopeDiscoverJS : bool;
}.

Definition scopeTOML (raw : tomlConfig) (cfg : appConfig) : result configError scopeSettings :=
  d_AuditScopeDependencyTTL ← tomlDuration "audit_scope.dependency_ttl" (t_AuditScope_DependencyTTL raw) (c_AuditScopeDependencyTTL cfg);
  Ok {|
    ss_TracingEnabled := default (c_TracingEnabled cfg) (t_Tracing_Enabled raw);
    ss_TracingEndpoint := default (c_TracingEndpoint cfg) (t_Tracing_Endpoint raw);
    ss_TracingInsecure := default (c_TracingInsecure cfg) (t_Tracing_Insecure raw);
    ss_TracingServiceName := default (c_TracingServiceName cfg) (t_Tracing_ServiceName raw);
    ss_TracingSampleRate := default (c_TracingSampleRate cfg) (t_Tracing_SampleRate raw);
    ss_AuditScopeEnabled := default (c_AuditScopeEnabled cfg) (t_AuditScope_Enabled raw);
    ss_AuditScopeRoots := if is_nil (t_AuditScope_Roots raw) then c_AuditScopeRoots cfg else normalizeHostList (t_AuditScope_Roots raw);
    ss_AuditScopeRootDomainLists := orElse (t_AuditScope_RootDomainLists raw) (c_AuditScopeRootDomainLists cfg);
    ss_AuditScopeDependencyTTL := d_AuditScopeDependencyTTL;
    ss_AuditScopeMaxDependencies := default (c_AuditScopeMaxDependencies cfg) (t_AuditScope_MaxDependencies raw);
    ss_AuditScopeNoneMode := if is_nil (t_AuditScope_NoneMode raw) then c_AuditScopeNoneMode cfg else ToLower (TrimSpace (t_AuditScope_NoneMode raw));
    ss_AuditScopeDependencyMutations := if is_nil (t_AuditScope_DependencyMutations raw) then c_AuditScopeDependencyMutations cfg else ToLower (TrimSpace (t_AuditScope_DependencyMutations raw));
    ss_AuditScopeDiscoverHTML := default (c_AuditScopeDiscoverHTML cfg) (t_AuditScope_DiscoverHTML raw);
    ss_AuditScopeDiscoverCSS := default (c_AuditScopeDiscoverCSS cfg) (t_AuditScope_DiscoverCSS raw);
    ss_AuditScopeDiscoverJS := default (c_AuditScopeDiscoverJS cfg) (t_AuditScope_DiscoverJS raw)
  |}.

(** [loadTOMLConfig] up to the list files. *)
Definition applyTOML (raw : tomlConfig) (cfg : appConfig) : result configError appConfig :=
  d_HandshakeTimeout ← tomlDuration "server.handshake_timeout" (t_Server_HandshakeTimeout raw) (c_HandshakeTimeout cfg);
  d_IOTimeout ← tomlDuration "server.io_timeout" (t_Server_IOTimeout raw) (c_IOTimeout cfg);
  d_WSIdleTimeout ← tomlDuration "server.ws_idle_timeout" (t_Server_WSIdleTimeout raw) (c_WSIdleTimeout cfg);
  d_WaitTimeout ← tomlDuration "server.wait_timeout" (t_Server_WaitTimeout raw) (c_WaitTimeout cfg);
  d_CircuitBreakerTimeout ← tomlDuration "server.circuit_breaker_timeout" (t_Server_CircuitBreakerTimeout raw) (c_CircuitBreakerTimeout cfg);
  d_DNSCacheTTL ← tomlDuration "server.dns_cache_ttl" (t_Server_DNSCacheTTL raw) (c_DNSCacheTTL cfg);
  d_DialTimeout ← tomlDuration "upstream.dial_timeout" (t_Upstream_DialTimeout raw) (c_DialTimeout cfg);
  d_UpstreamIdleTimeout ← tomlDuration "upstream.idle_timeout" (t_Upstream_IdleTimeout raw) (c_UpstreamIdleTimeout cfg);
  content ← contentTOML raw cfg;
  scope ← scopeTOML raw cfg;
  Ok {|
    c_ConfigPath := c_ConfigPath cfg; c_ListenAddr := orElse (t_Server_ListenAddr raw) (c_ListenAddr cfg);
    c_CertDir := orElse (t_Server_CertDir raw) (c_CertDir cfg);
    c_MaxConnections := default (c_MaxConnections cfg) (t_Server_MaxConnections raw); c_IOTimeout := d_IOTimeout;
    c_WSIdleTimeout := d_WSIdleTimeout; c_DialTimeout := d_DialTimeout;
    c_UpstreamMaxIdlePerHost := default (c_UpstreamMaxIdlePerHost cfg) (t_Upstream_MaxIdleConnsPerHost raw);
    c_UpstreamIdleTimeout := d_UpstreamIdleTimeout; c_HandshakeTimeout := d_HandshakeTimeout;
    c_WaitTimeout := d_WaitTimeout; c_CertWorkers := default (c_CertWorkers cfg) (t_Server_CertWorkers raw);
    c_MITMPrewarmHosts := if is_nil (t_MITM_PrewarmHosts raw) then c_MITMPrewarmHosts cfg else normalizeHostList (t_MITM_PrewarmHosts raw);
    c_LogBodies := default (c_LogBodies cfg) (t_Logging_LogBodies raw);
    c_LogBodiesSampleRate := default (c_LogBodiesSampleRate cfg) (t_Logging_LogBodiesSampleRate raw);
    c_MaxCaptureBytes := default (c_MaxCaptureBytes cfg) (t_Logging_MaxCaptureBytes raw);
    c_UpstreamInsecure := default (c_UpstreamInsecure cfg) (t_Upstream_InsecureSkipVerify raw);
    c_DumpDir := orElse (t_Logging_DumpDir raw) (c_DumpDir cfg);
    c_DumpOnPolicyHit := default (c_DumpOnPolicyHit cfg) (t_Logging_DumpOnPolicyHit raw);
    c_DumpCredentialsCleartext := default (c_DumpCredentialsCleartext cfg) (t_Logging_DumpCredentialsCleartext raw);
    c_AuditKey := default (c_AuditKey cfg) (t_Logging_AuditKey raw);
    c_DumpMaxSizeMB := default (c_DumpMaxSizeMB cfg) (t_Logging_DumpMaxSizeMB raw);
    c_DumpMaxBackups := default (c_DumpMaxBackups cfg) (t_Logging_DumpMaxBackups raw);
    c_DumpMinFreeSpaceMB := default (c_DumpMinFreeSpaceMB cfg) (t_Logging_DumpMinFreeSpaceMB raw);
    c_DumpCompress := default (c_DumpCompress cfg) (t_Logging_DumpCompress raw);
    c_MITMBypassHosts := if is_nil (t_MITM_BypassHosts raw) then c_MITMBypassHosts cfg else normalizeHostList (t_MITM_BypassHosts raw);
    c_IncludeDirs := orElse (t_Rules_IncludeDir raw) (c_IncludeDirs cfg);
    c_AccessProfiles := orElse (t_Access_Profiles raw) (c_AccessProfiles cfg);
    c_ScheduleWindows := orElse (t_Schedule_Windows raw) (c_ScheduleWindows cfg);
    c_SemanticPhrases := cs_SemanticPhrases content; c_SemanticWeighted := cs_SemanticWeighted content;
    c_SemanticThreshold := cs_SemanticThreshold content;
    c_SemanticBlockedPhraseLists := cs_SemanticBlockedPhraseLists content;
    c_SemanticWeightedPhraseLists := cs_SemanticWeightedPhraseLists content;
    c_SemanticExceptionPhraseLists := cs_SemanticExceptionPhraseLists content;
    c_SemanticExceptionPhrases := c_SemanticExceptionPhrases cfg;
    c_SemanticWeightedExceptions := c_SemanticWeightedExceptions cfg; c_MaskingPhrases := cs_MaskingPhrases content;
    c_MaskingPhraseLists := cs_MaskingPhraseLists content; c_HTMLBanner := cs_HTMLBanner content;
    c_MagicBlockedTypes := cs_MagicBlockedTypes content; c_AntivirusEnabled := cs_AntivirusEnabled content;
    c_AntivirusClamAV := cs_AntivirusClamAV content; c_AntivirusTempDir := cs_AntivirusTempDir content;
    c_AntivirusTrickle := cs_AntivirusTrickle content; c_AntivirusTimeout := cs_AntivirusTimeout content;
    c_ShowVersion := c_ShowVersion cfg; c_Substitutions := cs_Substitutions content;
    c_SubstitutionRuleLists := cs_SubstitutionRuleLists content; c_RegexSubstitutions := cs_RegexSubstitutions content;
    c_RegexSubstitutionRuleLists := cs_RegexSubstitutionRuleLists content;
    c_RequestSubstitutions := cs_RequestSubstitutions content;
    c_RequestSubstitutionRuleLists := cs_RequestSubstitutionRuleLists content;
    c_RegexRequestSubstitutions := cs_RegexRequestSubstitutions content;
    c_RegexRequestSubstitutionRuleLists := cs_RegexRequestSubstitutionRuleLists content;
    c_NoCheckCertSites := c_NoCheckCertSites cfg; c_NoCheckCertSiteIPs := c_NoCheckCertSiteIPs cfg;
    c_GreySSLSites := c_GreySSLSites cfg; c_GreySSLSiteIPs := c_GreySSLSiteIPs cfg;
    c_BannedClients := c_BannedClients cfg; c_AccessLog := orElse (t_Logging_AccessLog raw) (c_AccessLog cfg);
    c_AlertLog := orElse (t_Logging_AlertLog raw) (c_AlertLog cfg); c_AlertCategories := c_AlertCategories cfg;
    c_ExceptionClients := c_ExceptionClients cfg; c_FilterGroups := c_FilterGroups cfg;
    c_IPGroupMappings := c_IPGroupMappings cfg; c_LogPhrases := c_LogPhrases cfg;
    c_ExceptionLogPhrases := c_ExceptionLogPhrases cfg;
    c_MetricsEnabled := default (c_MetricsEnabled cfg) (t_Metrics_Enabled raw);
    c_MetricsListenAddr := default (c_MetricsListenAddr cfg) (t_Metrics_ListenAddr raw);
    c_ReusePort := default (c_ReusePort cfg) (t_Server_ReusePort raw);
    c_CircuitBreakerEnabled := default (c_CircuitBreakerEnabled cfg) (t_Server_CircuitBreakerEnabled raw);
    c_CircuitBreakerFailures := default (c_CircuitBreakerFailures cfg) (t_Server_CircuitBreakerFailures raw);
    c_CircuitBreakerTimeout := d_CircuitBreakerTimeout;
    c_DNSCacheEnabled := default (c_DNSCacheEnabled cfg) (t_Server_DNSCacheEnabled raw); c_DNSCacheTTL := d_DNSCacheTTL;
    c_HTTP3Enabled := default (c_HTTP3Enabled cfg) (t_Server_HTTP3Enabled raw);
    c_TracingEnabled := ss_TracingEnabled scope; c_TracingEndpoint := ss_TracingEndpoint scope;
    c_TracingInsecure := ss_TracingInsecure scope; c_TracingServiceName := ss_TracingServiceName scope;
    c_TracingSampleRate := ss_TracingSampleRate scope; c_AuditScopeEnabled := ss_AuditScopeEnabled scope;
    c_AuditScopeRoots := ss_AuditScopeRoots scope; c_AuditScopeRootDomainLists := ss_AuditScopeRootDomainLists scope;
    c_AuditScopeDependencyTTL := ss_AuditScopeDependencyTTL scope;
    c_AuditScopeMaxDependencies := ss_AuditScopeMaxDependencies scope;
    c_AuditScopeNoneMode := ss_AuditScopeNoneMode scope;
    c_AuditScopeDependencyMutations := ss_AuditScopeDependencyMutations scope;
    c_AuditScopeDiscoverHTML := ss_AuditScopeDiscoverHTML scope;
    c_AuditScopeDiscoverCSS := ss_AuditScopeDiscoverCSS scope; c_AuditScopeDiscoverJS := ss_AuditScopeDiscoverJS scope
  |}.

Definition fromList {A} (r : result listError A) : result configError A :=
  match r with Ok a => Ok a | Err e => Err (ErrList e) end.

(** The list files that the configuration names. *)
Definition loadLists (configDir : bytes) (cfg : appConfig) : result configError appConfig :=
  e1 ← fromList (loadTextListFiles fs configDir (c_SemanticBlockedPhraseLists cfg));
  let p1 := appendUniqueStrings (c_SemanticPhrases cfg) e1 in
  e2 ← fromList (loadTextListFiles fs configDir (c_SemanticExceptionPhraseLists cfg));
  let p2 := appendUniqueStrings (c_SemanticExceptionPhrases cfg) e2 in
  e3 ← fromList (loadTextListFiles fs configDir (c_MaskingPhraseLists cfg));
  let p3 := appendUniqueStrings (c_MaskingPhrases cfg) e3 in
  e4 ← fromList (loadWeightedPhraseFiles fs configDir (c_SemanticWeightedPhraseLists cfg));
  w ← fromList (mergeWeightedPhrases (c_SemanticWeighted cfg) e4);
  e5 ← fromList (loadSubstitutionFiles fs configDir (c_SubstitutionRuleLists cfg));
  s1 ← fromList (mergeSubstitutions (c_Substitutions cfg) e5);
  e6 ← fromList (loadRegexSubstitutionFiles fs configDir (c_RegexSubstitutionRuleLists cfg));
  r1 ← fromList (mergeRegexSubstitutions (c_RegexSubstitutions cfg) e6);
  e7 ← fromList (loadSubstitutionFiles fs configDir (c_RequestSubstitutionRuleLists cfg));
  s2 ← fromList (mergeSubstitutions (c_RequestSubstitutions cfg) e7);
  e8 ← fromList (loadRegexSubstitutionFiles fs configDir (c_RegexRequestSubstitutionRuleLists cfg));
  r2 ← fromList (mergeRegexSubstitutions (c_RegexRequestSubstitutions cfg) e8);
  e9 ← fromList (loadTextListFiles fs configDir (c_AuditScopeRootDomainLists cfg));
  let roots := appendUniqueStrings (c_AuditScopeRoots cfg) (normalizeHostList e9) in
  Ok {|
    c_ConfigPath := c_ConfigPath cfg; c_ListenAddr := c_ListenAddr cfg; c_CertDir := c_CertDir cfg;
    c_MaxConnections := c_MaxConnections cfg; c_IOTimeout := c_IOTimeout cfg;
    c_WSIdleTimeout := c_WSIdleTimeout cfg; c_DialTimeout := c_DialTimeout cfg;
    c_UpstreamMaxIdlePerHost := c_UpstreamMaxIdlePerHost cfg;
    c_UpstreamIdleTimeout := c_UpstreamIdleTimeout cfg; c_HandshakeTimeout := c_HandshakeTimeout cfg;
    c_WaitTimeout := c_WaitTimeout cfg; c_CertWorkers := c_CertWorkers cfg;
    c_MITMPrewarmHosts := c_MITMPrewarmHosts cfg; c_LogBodies := c_LogBodies cfg;
    c_LogBodiesSampleRate := c_LogBodiesSampleRate cfg; c_MaxCaptureBytes := c_MaxCaptureBytes cfg;
    c_UpstreamInsecure := c_UpstreamInsecure cfg; c_DumpDir := c_DumpDir cfg;
    c_DumpOnPolicyHit := c_DumpOnPolicyHit cfg; c_DumpCredentialsCleartext := c_DumpCredentialsCleartext cfg;
    c_AuditKey := c_AuditKey cfg; c_DumpMaxSizeMB := c_DumpMaxSizeMB cfg;
    c_DumpMaxBackups := c_DumpMaxBackups cfg; c_DumpMinFreeSpaceMB := c_DumpMinFreeSpaceMB cfg;
    c_DumpCompress := c_DumpCompress cfg; c_MITMBypassHosts := c_MITMBypassHosts cfg;
    c_IncludeDirs := c_IncludeDirs cfg; c_AccessProfiles := c_AccessProfiles cfg;
    c_ScheduleWindows := c_ScheduleWindows cfg; c_SemanticPhrases := p1; c_SemanticWeighted := w;
    c_SemanticThreshold := c_SemanticThreshold cfg;
    c_SemanticBlockedPhraseLists := c_SemanticBlockedPhraseLists cfg;
    c_SemanticWeightedPhraseLists := c_SemanticWeightedPhraseLists cfg;
    c_SemanticExceptionPhraseLists := c_SemanticExceptionPhraseLists cfg; c_SemanticExceptionPhrases := p2;
    c_SemanticWeightedExceptions := c_SemanticWeightedExceptions cfg; c_MaskingPhrases := p3;
    c_MaskingPhraseLists := c_MaskingPhraseLists cfg; c_HTMLBanner := c_HTMLBanner cfg;
    c_MagicBlockedTypes := c_MagicBlockedTypes cfg; c_AntivirusEnabled := c_AntivirusEnabled cfg;
    c_AntivirusClamAV := c_AntivirusClamAV cfg; c_AntivirusTempDir := c_AntivirusTempDir cfg;
    c_AntivirusTrickle := c_AntivirusTrickle cfg; c_AntivirusTimeout := c_AntivirusTimeout cfg;
    c_ShowVersion := c_ShowVersion cfg; c_Substitutions := s1;
    c_SubstitutionRuleLists := c_SubstitutionRuleLists cfg; c_RegexSubstitutions := r1;
    c_RegexSubstitutionRuleLists := c_RegexSubstitutionRuleLists cfg; c_RequestSubstitutions := s2;
    c_RequestSubstitutionRuleLists := c_RequestSubstitutionRuleLists cfg; c_RegexRequestSubstitutions := r2;
    c_RegexRequestSubstitutionRuleLists := c_RegexRequestSubstitutionRuleLists cfg;
    c_NoCheckCertSites := c_NoCheckCertSites cfg; c_NoCheckCertSiteIPs := c_NoCheckCertSiteIPs cfg;
    c_GreySSLSites := c_GreySSLSites cfg; c_GreySSLSiteIPs := c_GreySSLSiteIPs cfg;
    c_BannedClients := c_BannedClients cfg; c_AccessLog := c_AccessLog cfg; c_AlertLog := c_AlertLog cfg;
    c_AlertCategories := c_AlertCategories cfg; c_ExceptionClients := c_ExceptionClients cfg;
    c_FilterGroups := c_FilterGroups cfg; c_IPGroupMappings := c_IPGroupMappings cfg;
    c_LogPhrases := c_LogPhrases cfg; c_ExceptionLogPhrases := c_ExceptionLogPhrases cfg;
    c_MetricsEnabled := c_MetricsEnabled cfg; c_MetricsListenAddr := c_MetricsListenAddr cfg;
    c_ReusePort := c_ReusePort cfg; c_CircuitBreakerEnabled := c_CircuitBreakerEnabled cfg;
    c_CircuitBreakerFailures := c_CircuitBreakerFailures cfg;
    c_CircuitBreakerTimeout := c_CircuitBreakerTimeout cfg; c_DNSCacheEnabled := c_DNSCacheEnabled cfg;
    c_DNSCacheTTL := c_DNSCacheTTL cfg; c_HTTP3Enabled := c_HTTP3Enabled cfg;
    c_TracingEnabled := c_TracingEnabled cfg; c_TracingEndpoint := c_TracingEndpoint cfg;
    c_TracingInsecure := c_TracingInsecure cfg; c_TracingServiceName := c_TracingServiceName cfg;
    c_TracingSampleRate := c_TracingSampleRate cfg; c_AuditScopeEnabled := c_AuditScopeEnabled cfg;
    c_AuditScopeRoots := roots; c_AuditScopeRootDomainLists := c_AuditScopeRootDomainLists cfg;
    c_AuditScopeDependencyTTL := c_AuditScopeDependencyTTL cfg;
    c_AuditScopeMaxDependencies := c_AuditScopeMaxDependencies cfg;
    c_AuditScopeNoneMode := c_AuditScopeNoneMode cfg;
    c_AuditScopeDependencyMutations := c_AuditScopeDependencyMutations cfg;
    c_AuditScopeDiscoverHTML := c_AuditScopeDiscoverHTML cfg;
    c_AuditScopeDiscoverCSS := c_AuditScopeDiscoverCSS cfg;
    c_AuditScopeDiscoverJS := c_AuditScopeDiscoverJS cfg
  |}.

Definition loadTOMLConfig (path : bytes) (cfg : appConfig) : result configError appConfig :=
  match Stat fs path with
  | Some (RegularFile data) =>
      match toml_Unmarshal data with
      | None => Err (ErrParseConfig path)
      | Some raw => cfg ← applyTOML raw cfg; loadLists (Dir path) cfg
      end
  | _ => Err (ErrReadConfig path)
  end.

Definition envHosts (key : string) (old : list bytes) : list bytes :=
  let raw := envString getenv key [] in if is_nil raw then old else normalizeHostList (splitNonEmpty raw ","%byte).

Definition applyEnv (cfg : appConfig) : appConfig := {|
    c_ConfigPath := c_ConfigPath cfg; c_ListenAddr := envString getenv "LISTEN_ADDR" (c_ListenAddr cfg);
    c_CertDir := envString getenv "CERT_DIR" (c_CertDir cfg);
    c_MaxConnections := envInt getenv "MAX_CONNECTIONS" (c_MaxConnections cfg);
    c_IOTimeout := envDuration getenv "IO_TIMEOUT" (c_IOTimeout cfg);
    c_WSIdleTimeout := envDuration getenv "WS_IDLE_TIMEOUT" (c_WSIdleTimeout cfg);
    c_DialTimeout := envDuration getenv "DIAL_TIMEOUT" (c_DialTimeout cfg);
    c_UpstreamMaxIdlePerHost := envInt getenv "UPSTREAM_MAX_IDLE_CONNS_PER_HOST" (c_UpstreamMaxIdlePerHost cfg);
    c_UpstreamIdleTimeout := envDuration getenv "UPSTREAM_IDLE_TIMEOUT" (c_UpstreamIdleTimeout cfg);
    c_HandshakeTimeout := envDuration getenv "HANDSHAKE_TIMEOUT" (c_HandshakeTimeout cfg);
    c_WaitTimeout := envDuration getenv "WAIT_TIMEOUT" (c_WaitTimeout cfg);
    c_CertWorkers := envInt getenv "CERT_WORKERS" (c_CertWorkers cfg);
    c_MITMPrewarmHosts := envHosts "MITM_PREWARM_HOSTS" (c_MITMPrewarmHosts cfg);
    c_LogBodies := envBool getenv "LOG_BODIES" (c_LogBodies cfg);
    c_LogBodiesSampleRate := envFloat getenv "LOG_BODIES_SAMPLE_RATE" (c_LogBodiesSampleRate cfg);
    c_MaxCaptureBytes := envInt64 getenv "MAX_CAPTURE_BYTES" (c_MaxCaptureBytes cfg);
    c_UpstreamInsecure := envBool getenv "UPSTREAM_INSECURE_SKIP_VERIFY" (c_UpstreamInsecure cfg);
    c_DumpDir := envString getenv "DUMP_DIR" (c_DumpDir cfg);
    c_DumpOnPolicyHit := envBool getenv "DUMP_ON_POLICY_HIT" (c_DumpOnPolicyHit cfg);
    c_DumpCredentialsCleartext := envBool getenv "DUMP_CREDENTIALS_CLEARTEXT" (c_DumpCredentialsCleartext cfg);
    c_AuditKey := envString getenv "AUDIT_KEY" (c_AuditKey cfg);
    c_DumpMaxSizeMB := envInt getenv "DUMP_MAX_SIZE_MB" (c_DumpMaxSizeMB cfg);
    c_DumpMaxBackups := envInt getenv "DUMP_MAX_BACKUPS" (c_DumpMaxBackups cfg);
    c_DumpMinFreeSpaceMB := envInt64 getenv "DUMP_MIN_FREE_SPACE_MB" (c_DumpMinFreeSpaceMB cfg);
    c_DumpCompress := envBool getenv "DUMP_COMPRESS" (c_DumpCompress cfg);
    c_MITMBypassHosts := envHosts "MITM_BYPASS_HOSTS" (c_MITMBypassHosts cfg);
    c_IncludeDirs := c_IncludeDirs cfg; c_AccessProfiles := c_AccessProfiles cfg;
    c_ScheduleWindows := c_ScheduleWindows cfg; c_SemanticPhrases := c_SemanticPhrases cfg;
    c_SemanticWeighted := c_SemanticWeighted cfg; c_SemanticThreshold := c_SemanticThreshold cfg;
    c_SemanticBlockedPhraseLists := c_SemanticBlockedPhraseLists cfg;
    c_SemanticWeightedPhraseLists := c_SemanticWeightedPhraseLists cfg;
    c_SemanticExceptionPhraseLists := c_SemanticExceptionPhraseLists cfg;
    c_SemanticExceptionPhrases := c_SemanticExceptionPhrases cfg;
    c_SemanticWeightedExceptions := c_SemanticWeightedExceptions cfg;
    c_MaskingPhrases := c_MaskingPhrases cfg; c_MaskingPhraseLists := c_MaskingPhraseLists cfg;
    c_HTMLBanner := c_HTMLBanner cfg; c_MagicBlockedTypes := c_MagicBlockedTypes cfg;
    c_AntivirusEnabled := envBool getenv "ANTIVIRUS_ENABLED" (c_AntivirusEnabled cfg);
    c_AntivirusClamAV := envString getenv "ANTIVIRUS_CLAMAV_ADDR" (c_AntivirusClamAV cfg);
    c_AntivirusTempDir := envString getenv "ANTIVIRUS_TEMP_DIR" (c_AntivirusTempDir cfg);
    c_AntivirusTrickle := envDuration getenv "ANTIVIRUS_TRICKLE_INTERVAL" (c_AntivirusTrickle cfg);
    c_AntivirusTimeout := envDuration getenv "ANTIVIRUS_SCAN_TIMEOUT" (c_AntivirusTimeout cfg);
    c_ShowVersion := c_ShowVersion cfg; c_Substitutions := c_Substitutions cfg;
    c_SubstitutionRuleLists := c_SubstitutionRuleLists cfg; c_RegexSubstitutions := c_RegexSubstitutions cfg;
    c_RegexSubstitutionRuleLists := c_RegexSubstitutionRuleLists cfg;
    c_RequestSubstitutions := c_RequestSubstitutions cfg;
    c_RequestSubstitutionRuleLists := c_RequestSubstitutionRuleLists cfg;
    c_RegexRequestSubstitutions := c_RegexRequestSubstitutions cfg;
    c_RegexRequestSubstitutionRuleLists := c_RegexRequestSubstitutionRuleLists cfg;
    c_NoCheckCertSites := c_NoCheckCertSites cfg; c_NoCheckCertSiteIPs := c_NoCheckCertSiteIPs cfg;
    c_GreySSLSites := c_GreySSLSites cfg; c_GreySSLSiteIPs := c_GreySSLSiteIPs cfg;
    c_BannedClients := c_BannedClients cfg; c_AccessLog := c_AccessLog cfg; c_AlertLog := c_AlertLog cfg;
    c_AlertCategories := c_AlertCategories cfg; c_ExceptionClients := c_ExceptionClients cfg;
    c_FilterGroups := c_FilterGroups cfg; c_IPGroupMappings := c_IPGroupMappings cfg;
    c_LogPhrases := c_LogPhrases cfg; c_ExceptionLogPhrases := c_ExceptionLogPhrases cfg;
    c_MetricsEnabled := envBool getenv "METRICS_ENABLED" (c_MetricsEnabled cfg);
    c_MetricsListenAddr := envString getenv "METRICS_LISTEN_ADDR" (c_MetricsListenAddr cfg);
    c_ReusePort := envBool getenv "REUSEPORT" (c_ReusePort cfg);
    c_CircuitBreakerEnabled := envBool getenv "CIRCUIT_BREAKER_ENABLED" (c_CircuitBreakerEnabled cfg);
    c_CircuitBreakerFailures := envInt getenv "CIRCUIT_BREAKER_FAILURES" (c_CircuitBreakerFailures cfg);
    c_CircuitBreakerTimeout := envDuration getenv "CIRCUIT_BREAKER_TIMEOUT" (c_CircuitBreakerTimeout cfg);
    c_DNSCacheEnabled := envBool getenv "DNS_CACHE_ENABLED" (c_DNSCacheEnabled cfg);
    c_DNSCacheTTL := envDuration getenv "DNS_CACHE_TTL" (c_DNSCacheTTL cfg);
    c_HTTP3Enabled := envBool getenv "HTTP3_ENABLED" (c_HTTP3Enabled cfg);
    c_TracingEnabled := envBool getenv "TRACING_ENABLED" (c_TracingEnabled cfg);
    c_TracingEndpoint := envString getenv "TRACING_ENDPOINT" (c_TracingEndpoint cfg);
    c_TracingInsecure := envBool getenv "TRACING_INSECURE" (c_TracingInsecure cfg);
    c_TracingServiceName := envString getenv "TRACING_SERVICE_NAME" (c_TracingServiceName cfg);
    c_TracingSampleRate := envFloat getenv "TRACING_SAMPLE_RATE" (c_TracingSampleRate cfg);
    c_AuditScopeEnabled := envBool getenv "AUDIT_SCOPE_ENABLED" (c_AuditScopeEnabled cfg);
    c_AuditScopeRoots := envHosts "AUDIT_SCOPE_ROOTS" (c_AuditScopeRoots cfg);
    c_AuditScopeRootDomainLists := c_AuditScopeRootDomainLists cfg;
    c_AuditScopeDependencyTTL := envDuration getenv "AUDIT_SCOPE_DEPENDENCY_TTL" (c_AuditScopeDependencyTTL cfg);
    c_AuditScopeMaxDependencies := envInt getenv "AUDIT_SCOPE_MAX_DEPENDENCIES" (c_AuditScopeMaxDependencies cfg);
    c_AuditScopeNoneMode := envString getenv "AUDIT_SCOPE_NONE_MODE" (c_AuditScopeNoneMode cfg);
    c_AuditScopeDependencyMutations := envString getenv "AUDIT_SCOPE_DEPENDENCY_MUTATIONS" (c_AuditScopeDependencyMutations cfg);
    c_AuditScopeDiscoverHTML := c_AuditScopeDiscoverHTML cfg;
    c_AuditScopeDiscoverCSS := c_AuditScopeDiscoverCSS cfg;
    c_AuditScopeDiscoverJS := c_AuditScopeDiscoverJS cfg
  |}.

End sources.

(** ** Command line *)

(** The types of flags of the [flag] package. *)
Inductive flagKind := KString | KInt | KDuration | KBool | KFloat.

Definition flagTable : list (string * flagKind) :=
  [("config", KString);
   ("listen", KString);
   ("cert-dir", KString);
   ("max-connections", KInt);
   ("io-timeout", KDuration);
   ("ws-idle-timeout", KDuration);
   ("dial-timeout", KDuration);
   ("upstream-max-idle-conns-per-host", KInt);
   ("upstream-idle-timeout", KDuration);
   ("handshake-timeout", KDuration);
   ("wait-timeout", KDuration);
   ("cert-workers", KInt);
   ("mitm-prewarm-hosts", KString);
   ("log-bodies", KBool);
   ("max-capture-bytes", KInt);
   ("upstream-insecure-skip-verify", KBool);
   ("dump-dir", KString);
   ("dump-on-policy-hit", KBool);
   ("dump-credentials-cleartext", KBool);
   ("audit-key", KString);
   ("dump-max-size-mb", KInt);
   ("dump-max-backups", KInt);
   ("dump-min-free-space-mb", KInt);
   ("dump-compress", KBool);
   ("reuseport", KBool);
   ("circuit-breaker-enabled", KBool);
   ("circuit-breaker-failures", KInt);
   ("circuit-breaker-timeout", KDuration);
   ("dns-cache-enabled", KBool);
   ("dns-cache-ttl", KDuration);
   ("http3-enabled", KBool);
   ("tracing-enabled", KBool);
   ("tracing-endpoint", KString);
   ("tracing-insecure", KBool);
   ("tracing-service-name", KString);
   ("tracing-sample-rate", KFloat);
   ("version", KBool)]%string.

Definition validFlag (k : flagKind) (v : bytes) : bool :=
  match k with
  | KString => true
  | KInt => bool_decide (is_Some (ParseInt0 v))
  | KDuration => bool_decide (is_Some (ParseDuration v))
  | KBool => bool_decide (is_Some (ParseBool v))
  | KFloat => match ParseFloat v with Some _ => true | None => false end
  end.

Definition flagKindOf (name : bytes) : option flagKind :=
  snd <$> find (fun e => bytes_eqb (str e.1) name) flagTable.

(** The name and the value of [-name=value], [--name=value], [-name]; [None]
    for an argument that ends the flags, an error for bad syntax. *)
Definition splitFlag (arg : bytes) : result configError (option (bytes * option bytes)) :=
  match arg with
  | Byte.x2d :: _ :: _ =>
      let name := match arg with Byte.x2d :: Byte.x2d :: n => n | _ :: n => n | [] => [] end in
      if bytes_eqb arg (str "--") then Ok None
      else match name with
      | [] | (Byte.x2d | Byte.x3d) :: _ => Err (ErrFlag arg)
      | _ :: n =>
          match IndexByte n "="%byte with
          | Some i => Ok (Some (take (S i) name, Some (drop (i + 2) name)))
          | None => Ok (Some (name, None))
          end
      end
  | _ => Ok None
  end.

(** [fs.Parse]: the flags that are set, in order. *)
Fixpoint parseFlags (args : list bytes) (set : list (bytes * bytes)) : result configError (list (bytes * bytes)) :=
  match args with
  | [] => Ok set
  | arg :: rest =>
      f ← splitFlag arg;
      match f with
      | None => Ok set
      | Some (name, value) =>
          match flagKindOf name with
          | None => Err (if bool_decide (name ∈ [str "help"; str "h"]) then ErrHelp else ErrFlag arg)
          | Some k =>
              match k, value, rest with
              | KBool, _, _ =>
                  let v := default (str "true") value in
                  if validFlag k v then parseFlags rest (set ++ [(name, v)]) else Err (ErrFlag arg)
              | _, Some v, _ => if validFlag k v then parseFlags rest (set ++ [(name, v)]) else Err (ErrFlag arg)
              | _, None, v :: rest' => if validFlag k v then parseFlags rest' (set ++ [(name, v)]) else Err (ErrFlag arg)
              | _, None, [] => Err (ErrFlag arg)
              end
          end
      end
  end.

(** The last value of a flag. *)
Definition flagValue (set : list (bytes * bytes)) (name : string) : option bytes :=
  snd <$> find (fun e => bytes_eqb e.1 (str name)) (rev set).

Definition flagParsed {A} (parse : bytes -> option A) (set : list (bytes * bytes)) (name : string) (old : A) : A :=
  match flagValue set name with Some v => default old (parse v) | None => old end.

Definition flagString := flagParsed (fun v => Some v).
Definition flagInt := flagParsed ParseInt0.
Definition flagInt64 := flagParsed ParseInt0.
Definition flagDuration := flagParsed ParseDuration.
Definition flagBool := flagParsed ParseBool.
Definition flagFloat64 := flagParsed ParseFloat.

Fixpoint joinHosts (hosts : list bytes) : bytes :=
  match hosts with [] => [] | [h] => h | h :: hs => h ++ str "," ++ joinHosts hs end.

Definition applyFlags (set : list (bytes * bytes)) (cfg : appConfig) : appConfig :=
  let old := joinHosts (c_MITMPrewarmHosts cfg) in
  let hosts := flagString set "mitm-prewarm-hosts" old in
  let prewarm := if bytes_eqb hosts old then c_MITMPrewarmHosts cfg
                 else normalizeHostList (splitNonEmpty hosts ","%byte) in
  {|
    c_ConfigPath := flagString set "config" (c_ConfigPath cfg);
    c_ListenAddr := flagString set "listen" (c_ListenAddr cfg);
    c_CertDir := flagString set "cert-dir" (c_CertDir cfg);
    c_MaxConnections := flagInt set "max-connections" (c_MaxConnections cfg);
    c_IOTimeout := flagDuration set "io-timeout" (c_IOTimeout cfg);
    c_WSIdleTimeout := flagDuration set "ws-idle-timeout" (c_WSIdleTimeout cfg);
    c_DialTimeout := flagDuration set "dial-timeout" (c_DialTimeout cfg);
    c_UpstreamMaxIdlePerHost := flagInt set "upstream-max-idle-conns-per-host" (c_UpstreamMaxIdlePerHost cfg);
    c_UpstreamIdleTimeout := flagDuration set "upstream-idle-timeout" (c_UpstreamIdleTimeout cfg);
    c_HandshakeTimeout := flagDuration set "handshake-timeout" (c_HandshakeTimeout cfg);
    c_WaitTimeout := flagDuration set "wait-timeout" (c_WaitTimeout cfg);
    c_CertWorkers := flagInt set "cert-workers" (c_CertWorkers cfg); c_MITMPrewarmHosts := prewarm;
    c_LogBodies := flagBool set "log-bodies" (c_LogBodies cfg);
    c_LogBodiesSampleRate := c_LogBodiesSampleRate cfg;
    c_MaxCaptureBytes := flagInt64 set "max-capture-bytes" (c_MaxCaptureBytes cfg);
    c_UpstreamInsecure := flagBool set "upstream-insecure-skip-verify" (c_UpstreamInsecure cfg);
    c_DumpDir := flagString set "dump-dir" (c_DumpDir cfg);
    c_DumpOnPolicyHit := flagBool set "dump-on-policy-hit" (c_DumpOnPolicyHit cfg);
    c_DumpCredentialsCleartext := flagBool set "dump-credentials-cleartext" (c_DumpCredentialsCleartext cfg);
    c_AuditKey := flagString set "audit-key" (c_AuditKey cfg);
    c_DumpMaxSizeMB := flagInt set "dump-max-size-mb" (c_DumpMaxSizeMB cfg);
    c_DumpMaxBackups := flagInt set "dump-max-backups" (c_DumpMaxBackups cfg);
    c_DumpMinFreeSpaceMB := flagInt64 set "dump-min-free-space-mb" (c_DumpMinFreeSpaceMB cfg);
    c_DumpCompress := flagBool set "dump-compress" (c_DumpCompress cfg);
    c_MITMBypassHosts := c_MITMBypassHosts cfg; c_IncludeDirs := c_IncludeDirs cfg;
    c_AccessProfiles := c_AccessProfiles cfg; c_ScheduleWindows := c_ScheduleWindows cfg;
    c_SemanticPhrases := c_SemanticPhrases cfg; c_SemanticWeighted := c_SemanticWeighted cfg;
    c_SemanticThreshold := c_SemanticThreshold cfg;
    c_SemanticBlockedPhraseLists := c_SemanticBlockedPhraseLists cfg;
    c_SemanticWeightedPhraseLists := c_SemanticWeightedPhraseLists cfg;
    c_SemanticExceptionPhraseLists := c_SemanticExceptionPhraseLists cfg;
    c_SemanticExceptionPhrases := c_SemanticExceptionPhrases cfg;
    c_SemanticWeightedExceptions := c_SemanticWeightedExceptions cfg;
    c_MaskingPhrases := c_MaskingPhrases cfg; c_MaskingPhraseLists := c_MaskingPhraseLists cfg;
    c_HTMLBanner := c_HTMLBanner cfg; c_MagicBlockedTypes := c_MagicBlockedTypes cfg;
    c_AntivirusEnabled := c_AntivirusEnabled cfg; c_AntivirusClamAV := c_AntivirusClamAV cfg;
    c_AntivirusTempDir := c_AntivirusTempDir cfg; c_AntivirusTrickle := c_AntivirusTrickle cfg;
    c_AntivirusTimeout := c_AntivirusTimeout cfg; c_ShowVersion := flagBool set "version" false;
    c_Substitutions := c_Substitutions cfg; c_SubstitutionRuleLists := c_SubstitutionRuleLists cfg;
    c_RegexSubstitutions := c_RegexSubstitutions cfg;
    c_RegexSubstitutionRuleLists := c_RegexSubstitutionRuleLists cfg;
    c_RequestSubstitutions := c_RequestSubstitutions cfg;
    c_RequestSubstitutionRuleLists := c_RequestSubstitutionRuleLists cfg;
    c_RegexRequestSubstitutions := c_RegexRequestSubstitutions cfg;
    c_RegexRequestSubstitutionRuleLists := c_RegexRequestSubstitutionRuleLists cfg;
    c_NoCheckCertSites := c_NoCheckCertSites cfg; c_NoCheckCertSiteIPs := c_NoCheckCertSiteIPs cfg;
    c_GreySSLSites := c_GreySSLSites cfg; c_GreySSLSiteIPs := c_GreySSLSiteIPs cfg;
    c_BannedClients := c_BannedClients cfg; c_AccessLog := c_AccessLog cfg; c_AlertLog := c_AlertLog cfg;
    c_AlertCategories := c_AlertCategories cfg; c_ExceptionClients := c_ExceptionClients cfg;
    c_FilterGroups := c_FilterGroups cfg; c_IPGroupMappings := c_IPGroupMappings cfg;
    c_LogPhrases := c_LogPhrases cfg; c_ExceptionLogPhrases := c_ExceptionLogPhrases cfg;
    c_MetricsEnabled := c_MetricsEnabled cfg; c_MetricsListenAddr := c_MetricsListenAddr cfg;
    c_ReusePort := flagBool set "reuseport" (c_ReusePort cfg);
    c_CircuitBreakerEnabled := flagBool set "circuit-breaker-enabled" (c_CircuitBreakerEnabled cfg);
    c_CircuitBreakerFailures := flagInt set "circuit-breaker-failures" (c_CircuitBreakerFailures cfg);
    c_CircuitBreakerTimeout := flagDuration set "circuit-breaker-timeout" (c_CircuitBreakerTimeout cfg);
    c_DNSCacheEnabled := flagBool set "dns-cache-enabled" (c_DNSCacheEnabled cfg);
    c_DNSCacheTTL := flagDuration set "dns-cache-ttl" (c_DNSCacheTTL cfg);
    c_HTTP3Enabled := flagBool set "http3-enabled" (c_HTTP3Enabled cfg);
    c_TracingEnabled := flagBool set "tracing-enabled" (c_TracingEnabled cfg);
    c_TracingEndpoint := flagString set "tracing-endpoint" (c_TracingEndpoint cfg);
    c_TracingInsecure := flagBool set "tracing-insecure" (c_TracingInsecure cfg);
    c_TracingServiceName := flagString set "tracing-service-name" (c_TracingServiceName cfg);
    c_TracingSampleRate := flagFloat64 set "tracing-sample-rate" (c_TracingSampleRate cfg);
    c_AuditScopeEnabled := c_AuditScopeEnabled cfg; c_AuditScopeRoots := c_AuditScopeRoots cfg;
    c_AuditScopeRootDomainLists := c_AuditScopeRootDomainLists cfg;
    c_AuditScopeDependencyTTL := c_AuditScopeDependencyTTL cfg;
    c_AuditScopeMaxDependencies := c_AuditScopeMaxDependencies cfg;
    c_AuditScopeNoneMode := c_AuditScopeNoneMode cfg;
    c_AuditScopeDependencyMutations := c_AuditScopeDependencyMutations cfg;
    c_AuditScopeDiscoverHTML := c_AuditScopeDiscoverHTML cfg;
    c_AuditScopeDiscoverCSS := c_AuditScopeDiscoverCSS cfg;
    c_AuditScopeDiscoverJS := c_AuditScopeDiscoverJS cfg
  |}.

Fixpoint configPathFromArgs (args : list bytes) : bytes :=
  match args with
  | [] => []
  | arg :: rest =>
      match rest with
      | path :: _ => if bytes_eqb arg (str "--config") then path
                     else if HasPrefix arg (str "--config=") && (9 <? length arg)%nat then drop 9 arg
                     else configPathFromArgs rest
      | [] => if HasPrefix arg (str "--config=") && (9 <? length arg)%nat then drop 9 arg else []
      end
  end.

(** ** Validation *)

(** The first condition that holds is the error; messages are without their
    arguments. *)
Definition reject (checks : list (bool * string)) : result configError () :=
  match find fst checks with Some (_, message) => Err (ErrInvalid (str message)) | None => Ok tt end.

Definition padOrTruncateBytes (replace : bytes) (targetLen : nat) : bytes :=
  if Nat.eqb (length replace) targetLen then replace
  else take targetLen replace ++ replicate (targetLen - length replace) star.

Definition applyLengthPreservedRegexReplacement (re : regexp) (replace body : bytes) : bytes :=
  fold_left (fun out loc =>
    let '(matchStart, matchEnd, _) := loc in
    let expanded := regexp_Expand re replace out loc in
    take matchStart out ++ padOrTruncateBytes expanded (length (take (matchEnd - matchStart) (drop matchStart out)))
      ++ drop matchEnd out)
    (rev (regexp_FindAllSubmatchIndex re body)) body.

Definition hasUnsafeGlobalCaseInsensitiveURLEncodedDelimiters (pattern : bytes) : bool :=
  HasPrefix pattern (str "(?i)")
  && (Contains pattern (str "%0[") || Contains pattern (str "%2[") || Contains pattern (str "%3A")
      || Contains pattern (str "%3D")).

(** A text with single quotes for double ones. *)
Definition quoted (s : string) : bytes := map (fun b => if bool_decide (b = Byte.x27) then Byte.x22 else b) (str s).

Definition requestRegexProtectedCanaries : list bytes :=
  [quoted "{'csrf_token':'csrf-12345','request_token':'opaque-client-state','next':'/dashboard'}";
   quoted "csrf_token=csrf-12345&request_token=opaque-client-state&next=%2Fdashboard";
   quoted "id_token=eyJhbGciOiJIUzI1NiJ9.eyJzdWIiOiJ1c2VyIn0.signature&next=%2Fdashboard";
   quoted "{'trace_id':'1234567890123456','order_ref':'AB123456','session_code':'ES1200000000000000000000'}"].

Definition requestRegexStructuralCanaries : list (bytes * (bytes -> bool)) :=
  [(quoted "{'password':'tiny','message':'keep-json-valid'}",
    fun out => json_Valid out && Contains out (quoted "'message'"));
   (quoted "Password%3A+tiny%0A%0Aafter=must-remain",
    fun out => Contains out (str "after=must-remain"))].

Definition validateRequestRegex (rule : RegexSubstitutionConfig) : result configError () :=
  if is_nil (rs_Pattern rule) then Ok tt
  else if hasUnsafeGlobalCaseInsensitiveURLEncodedDelimiters (rs_Pattern rule) then Err (ErrRequestRegex rule (str "delimiters"))
  else match regexp_Compile (rs_Pattern rule) with
       | Err e => Err (ErrRequestRegex rule e)
       | Ok re =>
           if existsb (regexp_MatchString re) requestRegexProtectedCanaries
           then Err (ErrRequestRegex rule (str "protected canary"))
           else if forallb (fun '(body, check) => check (applyLengthPreservedRegexReplacement re (rs_Replace rule) body))
                     requestRegexStructuralCanaries
           then Ok tt else Err (ErrRequestRegex rule (str "structure"))
       end.

Definition validateRequestRegexSubstitutionSafety (rules : list RegexSubstitutionConfig) : result configError () :=
  foldM (fun _ rule => validateRequestRegex rule) rules tt.

Definition isSome {A} (o : option A) : bool := match o with Some _ => true | None => false end.
Definition nonPositive (o : option Z) : bool := match o with Some n => n <=? 0 | None => false end.

Definition validateScalars (c : appConfig) : result configError () :=
  reject [
    (is_nil (c_ListenAddr c), "listen address cannot be empty"%string);
    (is_nil (c_CertDir c), "cert dir cannot be empty"%string);
    (c_MaxConnections c <=? 0, "max connections must be positive"%string);
    (c_IOTimeout c <=? 0, "io timeout must be positive"%string);
    (c_WSIdleTimeout c <=? 0, "ws idle timeout must be positive"%string);
    (c_DialTimeout c <=? 0, "dial timeout must be positive"%string);
    (c_UpstreamMaxIdlePerHost c <? 0, "upstream max idle conns per host cannot be negative"%string);
    ((0 <? c_UpstreamMaxIdlePerHost c) && (c_UpstreamIdleTimeout c <=? 0),
       "upstream idle timeout must be positive when upstream pooling is enabled"%string);
    (c_HandshakeTimeout c <=? 0, "handshake timeout must be positive"%string);
    (c_WaitTimeout c <? 0, "wait timeout cannot be negative"%string);
    (c_CertWorkers c <? 0, "cert workers cannot be negative"%string);
    (c_MaxCaptureBytes c <? 0, "max capture bytes cannot be negative"%string);
    (c_DumpCredentialsCleartext c && negb (c_DumpOnPolicyHit c),
       "dump_credentials_cleartext=true requires dump_on_policy_hit=true"%string);
    (c_DumpMaxSizeMB c <=? 0, "dump max size must be positive"%string);
    (c_DumpMaxBackups c <? 0, "dump max backups cannot be negative"%string);
    (c_DumpMinFreeSpaceMB c <? 0, "dump min free space cannot be negative"%string);
    (c_MetricsEnabled c && is_nil (c_MetricsListenAddr c),
       "metrics listen address cannot be empty when metrics are enabled"%string);
    (c_SemanticThreshold c <? 0, "semantic score threshold cannot be negative"%string);
    (c_AntivirusEnabled c && is_nil (c_AntivirusClamAV c),
       "antivirus clamav_addr cannot be empty when antivirus is enabled"%string);
    (c_AntivirusTrickle c <? 0, "antivirus trickle interval cannot be negative"%string);
    (c_AntivirusTimeout c <=? 0, "antivirus scan timeout must be positive"%string)].

Definition validateWeighted (p : SemanticPhraseConfig) : result configError () :=
  reject [(is_nil (sp_Phrase p), "semantic weighted phrase cannot be empty"%string);
          (sp_Weight p <=? 0, "semantic weighted phrase weight must be positive"%string)].

Definition noneModes : list bytes := [str "tunnel"; str "noinspect"].
Definition mutationModes : list bytes := [str "none"; str "restricted"; str "full"].

Definition validateAudit (c : appConfig) : result configError () :=
  if c_AuditScopeEnabled c then
    reject [(is_nil (c_AuditScopeRoots c), "audit scope requires at least one root domain when enabled"%string);
            (c_AuditScopeDependencyTTL c <=? 0, "audit scope dependency ttl must be positive"%string);
            (c_AuditScopeMaxDependencies c <=? 0, "audit scope max dependencies must be positive"%string);
            (negb (bool_decide (c_AuditScopeNoneMode c ∈ noneModes)),
               "audit scope none_mode must be tunnel or noinspect"%string);
            (negb (bool_decide (c_AuditScopeDependencyMutations c ∈ mutationModes)),
               "audit scope dependency_mutations must be none, restricted, or full"%string)]
  else Ok tt.

Definition validateProfile (p : AccessProfile) : result configError () :=
  reject [(nonPositive (ap_MaxConns p), "max_conns must be positive"%string);
          (match ap_RateLimit p with Some r => f64_leb r (S754_zero false) | None => false end, "rate_limit must be positive"%string);
          (nonPositive (ap_RateBurst p), "rate_burst must be positive"%string);
          (xorb (isSome (ap_RateLimit p)) (isSome (ap_RateBurst p)),
             "both rate_limit and rate_burst must be configured together"%string)].

Definition validate (c : appConfig) : result configError () :=
  _ ← validateScalars c;
  _ ← foldM (fun _ p => validateWeighted p) (c_SemanticWeighted c) tt;
  _ ← reject [(negb (is_nil (c_SemanticWeighted c)) && (c_SemanticThreshold c <=? 0),
                "semantic score threshold must be positive when weighted phrases are configured"%string)];
  _ ← validateAudit c;
  _ ← foldM (fun _ p => validateProfile p) (c_AccessProfiles c) tt;
  validateRequestRegexSubstitutionSafety (c_RegexRequestSubstitutions c).

(** ** All of it *)

Definition configPath (getenv : bytes -> bytes) (fs : fileSystem) (args : list bytes) : bytes :=
  let path := orElse (configPathFromArgs args) (envString getenv "CONFIG" []) in
  if is_nil path && isSome (Stat fs (str "lucidgate.toml")) then str "lucidgate.toml" else path.

Definition parseConfig (getenv : bytes -> bytes) (numCPU : Z) (fs : fileSystem)
    (toml_Unmarshal : bytes -> option tomlConfig) (args : list bytes) : result configError appConfig :=
  let path := configPath getenv fs args in
  let cfg := setConfigPath path (defaultConfig getenv numCPU) in
  cfg ← (if is_nil path then Ok cfg else loadTOMLConfig fs toml_Unmarshal path cfg);
  set ← parseFlags args [];
  let cfg := applyFlags set (applyEnv getenv cfg) in
  _ ← validate cfg; Ok cfg.

(** ** Specification: where a setting comes from *)

Record setting := MkSetting {
  st_type : Type;
  st_get : appConfig -> st_type;
  st_flag : string;
  st_parseFlag : bytes -> option st_type;
  st_env : string;
  st_parseEnv : bytes -> option st_type;
  st_toml : tomlConfig -> option st_type;
  st_default : st_type;
}.

Definition nonEmpty {A} (parse : bytes -> option A) (text : bytes) : option A := if is_nil text then None else parse text.
Definition given (f : tomlConfig -> bytes) (raw : tomlConfig) : option bytes := nonEmpty (fun v => Some v) (f raw).

Definition stringSetting get flag env toml d := MkSetting bytes get flag (fun v => Some v) env (fun v => Some v) toml d.
Definition intSetting get flag env toml d := MkSetting Z get flag ParseInt0 env Atoi toml d.
Definition boolSetting get flag env toml d := MkSetting bool get flag ParseBool env ParseBool toml d.
Definition floatSetting get flag env toml d := MkSetting float64 get flag ParseFloat env ParseFloat toml d.
Definition durationSetting get flag env (toml : tomlConfig -> bytes) d :=
  MkSetting Z get flag ParseDuration env ParseDuration (fun raw => nonEmpty ParseDuration (toml raw)) d.

(** The settings that have all four sources. *)
Definition settings (numCPU : Z) : list setting :=
  [stringSetting c_ListenAddr "listen" "LISTEN_ADDR" (given t_Server_ListenAddr) (str "127.0.0.1:8080");
   stringSetting c_CertDir "cert-dir" "CERT_DIR" (given t_Server_CertDir) (str "certs");
   intSetting c_MaxConnections "max-connections" "MAX_CONNECTIONS" t_Server_MaxConnections (1024);
   durationSetting c_IOTimeout "io-timeout" "IO_TIMEOUT" t_Server_IOTimeout (30 * Second);
   durationSetting c_WSIdleTimeout "ws-idle-timeout" "WS_IDLE_TIMEOUT" t_Server_WSIdleTimeout (5 * Minute);
   durationSetting c_DialTimeout "dial-timeout" "DIAL_TIMEOUT" t_Upstream_DialTimeout (10 * Second);
   intSetting c_UpstreamMaxIdlePerHost "upstream-max-idle-conns-per-host" "UPSTREAM_MAX_IDLE_CONNS_PER_HOST" t_Upstream_MaxIdleConnsPerHost (32);
   durationSetting c_UpstreamIdleTimeout "upstream-idle-timeout" "UPSTREAM_IDLE_TIMEOUT" t_Upstream_IdleTimeout (90 * Second);
   durationSetting c_HandshakeTimeout "handshake-timeout" "HANDSHAKE_TIMEOUT" t_Server_HandshakeTimeout (5 * Second);
   durationSetting c_WaitTimeout "wait-timeout" "WAIT_TIMEOUT" t_Server_WaitTimeout (250 * Millisecond);
   intSetting c_CertWorkers "cert-workers" "CERT_WORKERS" t_Server_CertWorkers numCPU;
   boolSetting c_LogBodies "log-bodies" "LOG_BODIES" t_Logging_LogBodies true;
   intSetting c_MaxCaptureBytes "max-capture-bytes" "MAX_CAPTURE_BYTES" t_Logging_MaxCaptureBytes (Z.shiftl 1 20);
   boolSetting c_UpstreamInsecure "upstream-insecure-skip-verify" "UPSTREAM_INSECURE_SKIP_VERIFY" t_Upstream_InsecureSkipVerify false;
   stringSetting c_DumpDir "dump-dir" "DUMP_DIR" (given t_Logging_DumpDir) [];
   boolSetting c_DumpOnPolicyHit "dump-on-policy-hit" "DUMP_ON_POLICY_HIT" t_Logging_DumpOnPolicyHit false;
   boolSetting c_DumpCredentialsCleartext "dump-credentials-cleartext" "DUMP_CREDENTIALS_CLEARTEXT" t_Logging_DumpCredentialsCleartext false;
   stringSetting c_AuditKey "audit-key" "AUDIT_KEY" t_Logging_AuditKey [];
   intSetting c_DumpMaxSizeMB "dump-max-size-mb" "DUMP_MAX_SIZE_MB" t_Logging_DumpMaxSizeMB (100);
   intSetting c_DumpMaxBackups "dump-max-backups" "DUMP_MAX_BACKUPS" t_Logging_DumpMaxBackups (10);
   intSetting c_DumpMinFreeSpaceMB "dump-min-free-space-mb" "DUMP_MIN_FREE_SPACE_MB" t_Logging_DumpMinFreeSpaceMB (1024);
   boolSetting c_DumpCompress "dump-compress" "DUMP_COMPRESS" t_Logging_DumpCompress true;
   boolSetting c_ReusePort "reuseport" "REUSEPORT" t_Server_ReusePort false;
   boolSetting c_CircuitBreakerEnabled "circuit-breaker-enabled" "CIRCUIT_BREAKER_ENABLED" t_Server_CircuitBreakerEnabled true;
   intSetting c_CircuitBreakerFailures "circuit-breaker-failures" "CIRCUIT_BREAKER_FAILURES" t_Server_CircuitBreakerFailures (5);
   durationSetting c_CircuitBreakerTimeout "circuit-breaker-timeout" "CIRCUIT_BREAKER_TIMEOUT" t_Server_CircuitBreakerTimeout (30 * Second);
   boolSetting c_DNSCacheEnabled "dns-cache-enabled" "DNS_CACHE_ENABLED" t_Server_DNSCacheEnabled true;
   durationSetting c_DNSCacheTTL "dns-cache-ttl" "DNS_CACHE_TTL" t_Server_DNSCacheTTL (60 * Second);
   boolSetting c_HTTP3Enabled "http3-enabled" "HTTP3_ENABLED" t_Server_HTTP3Enabled false;
   boolSetting c_TracingEnabled "tracing-enabled" "TRACING_ENABLED" t_Tracing_Enabled false;
   stringSetting c_TracingEndpoint "tracing-endpoint" "TRACING_ENDPOINT" t_Tracing_Endpoint (str "localhost:4317");
   boolSetting c_TracingInsecure "tracing-insecure" "TRACING_INSECURE" t_Tracing_Insecure true;
   stringSetting c_TracingServiceName "tracing-service-name" "TRACING_SERVICE_NAME" t_Tracing_ServiceName (str "lucidgate");
   floatSetting c_TracingSampleRate "tracing-sample-rate" "TRACING_SAMPLE_RATE" t_Tracing_SampleRate (f64 1 0)]%string.

(** The command line, else the environment, else the file, else the default. *)
Definition layered (getenv : bytes -> bytes) (set : list (bytes * bytes)) (raw : option tomlConfig) (s : setting) : st_type s :=
  match flagValue set (st_flag s) ≫= st_parseFlag s with
  | Some v => v
  | None => match nonEmpty (st_parseEnv s) (envValue getenv (st_env s)) with
            | Some v => v
            | None => default (st_default s) (raw ≫= st_toml s)
            end
  end.

(** ** Lemmas *)

Lemma default_nonEmpty {A} (parse : bytes -> option A) v old :
  (if is_nil v then old else default old (parse v)) = default old (nonEmpty parse v).
Proof. unfold nonEmpty. by destruct (is_nil v). Qed.

Lemma tomlDuration_value key text old v :
  tomlDuration key text old = Ok v -> v = default old (nonEmpty ParseDuration text).
Proof.
  unfold tomlDuration, nonEmpty. destruct (is_nil text); [by intros [= <-]|].
  destruct (ParseDuration text); [by intros [= <-]|done].
Qed.

Lemma applyTOML_settings numCPU raw cfg cfg' :
  applyTOML raw cfg = Ok cfg' -> Forall (fun s => st_get s cfg' = default (st_get s cfg) (st_toml s raw)) (settings numCPU).
Proof.
  unfold applyTOML, contentTOML, scopeTOML. intros Hr. repeat (
    let v := fresh "v" in let E := fresh "E" in
    match type of Hr with context [tomlDuration ?k ?x ?o ≫= _] =>
      destruct (tomlDuration k x o) as [v|] eqn:E; [|done]; apply tomlDuration_value in E; cbn [mbind result_bind] in Hr end).
  injection Hr as <-. repeat (apply Forall_cons; split); try apply Forall_nil; cbn; try done;
    unfold given, nonEmpty, orElse; by destruct (is_nil _).
Qed.

(** One by one through the table of settings. *)
Ltac each_setting := repeat (apply Forall_cons; split); try apply Forall_nil; cbn -[default]; try reflexivity.

Lemma loadLists_settings numCPU fs dir cfg cfg' :
  loadLists fs dir cfg = Ok cfg' -> Forall (fun s => st_get s cfg' = st_get s cfg) (settings numCPU).
Proof.
  unfold loadLists. intros Hr. repeat (
    match type of Hr with (fromList ?x ≫= _) = _ => destruct (fromList x); [|done]; cbn [mbind result_bind] in Hr end).
  injection Hr as <-. each_setting.
Qed.

Lemma loadTOMLConfig_settings numCPU fs toml path cfg cfg' :
  loadTOMLConfig fs toml path cfg = Ok cfg' -> exists data raw, Stat fs path = Some (RegularFile data) /\ toml data = Some raw /\
  Forall (fun s => st_get s cfg' = default (st_get s cfg) (st_toml s raw)) (settings numCPU).
Proof.
  unfold loadTOMLConfig. destruct (Stat fs path) as [[data|]|] eqn:Es; try done.
  destruct (toml data) as [raw|] eqn:Et; [|done]. destruct (applyTOML raw cfg) as [cfg1|] eqn:Ea; [|done].
  cbn [mbind result_bind]. intros Hl. exists data, raw. split_and!; [done|done|].
  pose proof (applyTOML_settings numCPU _ _ _ Ea) as H1. pose proof (loadLists_settings numCPU _ _ _ _ Hl) as H2.
  rewrite Forall_forall in *. intros s Hs. rewrite (H2 s Hs). by apply H1.
Qed.

Lemma applyEnv_settings numCPU getenv cfg :
  Forall (fun s => st_get s (applyEnv getenv cfg) = default (st_get s cfg) (nonEmpty (st_parseEnv s) (envValue getenv (st_env s))))
    (settings numCPU).
Proof. each_setting; by rewrite <- default_nonEmpty. Qed.

Lemma applyFlags_settings numCPU set cfg :
  Forall (fun s => st_get s (applyFlags set cfg) = default (st_get s cfg) (flagValue set (st_flag s) ≫= st_parseFlag s))
    (settings numCPU).
Proof. each_setting; unfold flagString, flagInt, flagInt64, flagDuration, flagBool, flagFloat64, flagParsed; by destruct (flagValue _ _). Qed.

Lemma default_settings getenv numCPU path :
  Forall (fun s => st_get s (setConfigPath path (defaultConfig getenv numCPU)) = st_default s) (settings numCPU).
Proof. each_setting. Qed.

Lemma parseConfig_inv getenv numCPU fs toml args cfg :
  parseConfig getenv numCPU fs toml args = Ok cfg -> exists cfg0 set,
  (if is_nil (configPath getenv fs args) then cfg0 = setConfigPath (configPath getenv fs args) (defaultConfig getenv numCPU)
   else loadTOMLConfig fs toml (configPath getenv fs args)
          (setConfigPath (configPath getenv fs args) (defaultConfig getenv numCPU)) = Ok cfg0) /\
  parseFlags args [] = Ok set /\ cfg = applyFlags set (applyEnv getenv cfg0) /\ validate cfg = Ok tt.
Proof.
  unfold parseConfig. set (path := configPath _ _ _). set (start := setConfigPath _ _).
  destruct (if is_nil path then Ok start else loadTOMLConfig fs toml path start) as [cfg0|] eqn:El; [|done].
  cbn [mbind result_bind]. destruct (parseFlags args []) as [set|] eqn:Ef; [|done]. cbn [mbind result_bind].
  destruct (validate _) as [[]|] eqn:Ev; [|done]. intros [= <-]. exists cfg0, set.
  split_and!; [|done|done|done]. destruct (is_nil path); [by injection El|done].
Qed.


(** ** What validation guarantees *)

Lemma reject_Ok checks : reject checks = Ok tt -> Forall (fun c => c.1 = false) checks.
Proof.
  unfold reject. destruct (find fst checks) as [[]|] eqn:Ef; [done|]. intros _. apply Forall_forall. intros c Hc.
  apply list_elem_of_In in Hc. apply (find_none _ _ Ef c Hc).
Qed.

Lemma foldM_unit {E A} (f : A -> result E ()) l : foldM (fun _ x => f x) l tt = Ok tt -> forall x, x ∈ l -> f x = Ok tt.
Proof.
  induction l as [|a l IH]; cbn [foldM]; [by intros _ x ?%elem_of_nil|].
  destruct (f a) as [[]|] eqn:Ea; [|done]. intros Hl x [->|Hx]%elem_of_cons; [done|by apply IH].
Qed.

(** A configuration that the program can run with. *)
Record config_wf (c : appConfig) : Prop := MkConfigWf {
  wf_names : c_ListenAddr c <> [] /\ c_CertDir c <> [];
  wf_connections : 0 < c_MaxConnections c;
  wf_timeouts : Forall (fun d => 0 < d) [c_IOTimeout c; c_WSIdleTimeout c; c_DialTimeout c; c_HandshakeTimeout c; c_AntivirusTimeout c];
  wf_counts : Forall (fun n => 0 <= n) [c_UpstreamMaxIdlePerHost c; c_WaitTimeout c; c_CertWorkers c; c_MaxCaptureBytes c;
                                        c_DumpMaxBackups c; c_DumpMinFreeSpaceMB c; c_SemanticThreshold c; c_AntivirusTrickle c];
  wf_pool : 0 < c_UpstreamMaxIdlePerHost c -> 0 < c_UpstreamIdleTimeout c;
  wf_credentials : c_DumpCredentialsCleartext c = true -> c_DumpOnPolicyHit c = true;
  wf_dumps : 0 < c_DumpMaxSizeMB c;
  wf_weighted : Forall (fun p => sp_Phrase p <> [] /\ 0 < sp_Weight p) (c_SemanticWeighted c);
  wf_threshold : c_SemanticWeighted c <> [] -> 0 < c_SemanticThreshold c;
  wf_audit : c_AuditScopeEnabled c = true ->
    c_AuditScopeRoots c <> [] /\ 0 < c_AuditScopeDependencyTTL c /\ 0 < c_AuditScopeMaxDependencies c /\
    c_AuditScopeNoneMode c ∈ noneModes /\ c_AuditScopeDependencyMutations c ∈ mutationModes;
  wf_profiles : Forall (fun p => is_Some (ap_RateLimit p) <-> is_Some (ap_RateBurst p)) (c_AccessProfiles c) /\
    Forall (fun p => forall n, ap_MaxConns p = Some n \/ ap_RateBurst p = Some n -> 0 < n) (c_AccessProfiles c);
}.

Lemma is_nil_false {A} (l : list A) : is_nil l = false -> l <> [].
Proof. by destruct l. Qed.

Lemma validateProfile_wf p : validateProfile p = Ok tt ->
  (is_Some (ap_RateLimit p) <-> is_Some (ap_RateBurst p)) /\
  (forall n, ap_MaxConns p = Some n \/ ap_RateBurst p = Some n -> 0 < n).
Proof.
  intros Hv%reject_Ok. rewrite !Forall_cons in Hv. destruct Hv as (H1 & _ & H3 & H4 & _). cbn in *. split.
  - destruct (ap_RateLimit p), (ap_RateBurst p); cbn in H4; try done; split; by intros [].
  - unfold nonPositive in *. intros n [Hn|Hn]; [rewrite Hn in H1; lia|rewrite Hn in H3; lia].
Qed.

Lemma validate_wf c : validate c = Ok tt -> config_wf c /\ validateRequestRegexSubstitutionSafety (c_RegexRequestSubstitutions c) = Ok tt.
Proof.
  unfold validate. destruct (validateScalars c) as [[]|] eqn:Es; [|done]. cbn [mbind result_bind].
  destruct (foldM _ (c_SemanticWeighted c) tt) as [[]|] eqn:Ew; [|done]. cbn [mbind result_bind].
  destruct (reject _) as [[]|] eqn:Et; [|done]. cbn [mbind result_bind].
  destruct (validateAudit c) as [[]|] eqn:Ea; [|done]. cbn [mbind result_bind].
  destruct (foldM _ (c_AccessProfiles c) tt) as [[]|] eqn:Ep; [|done]. cbn [mbind result_bind]. intros Hr. split; [|done].
  apply reject_Ok in Es. apply reject_Ok in Et. rewrite !Forall_cons in Es. rewrite !Forall_cons in Et. cbn [fst] in Es, Et.
  destruct Es as (S1 & S2 & S3 & S4 & S5 & S6 & S7 & S8 & S9 & S10 & S11 & S12 & S13 & S14 & S15 & S16 & _ & S18 & _ & S20 & S21 & _).
  destruct Et as [Et _]. split.
  - split; by apply is_nil_false.
  - lia.
  - repeat constructor; lia.
  - repeat constructor; lia.
  - lia.
  - destruct (c_DumpCredentialsCleartext c), (c_DumpOnPolicyHit c); done.
  - lia.
  - apply Forall_forall. intros p Hp. pose proof (foldM_unit _ _ Ew p Hp) as Hv. apply reject_Ok in Hv.
    rewrite !Forall_cons in Hv. destruct Hv as (V1 & V2 & _). cbn in *. split; [by apply is_nil_false|lia].
  - intros Hne. destruct (c_SemanticWeighted c); [done|]. cbn in Et. lia.
  - intros He. unfold validateAudit in Ea. rewrite He in Ea. apply reject_Ok in Ea. rewrite !Forall_cons in Ea.
    cbn [fst] in Ea. destruct Ea as (A1 & A2 & A3 & A4 & A5 & _).
    apply negb_false_iff, bool_decide_eq_true in A4, A5. split_and!; [by apply is_nil_false|lia|lia|done|done].
  - split; apply Forall_forall; intros p Hp; by apply validateProfile_wf, (foldM_unit _ _ Ep p Hp).
Qed.


(** ** Substitution in requests *)

Lemma padOrTruncateBytes_eq r n : padOrTruncateBytes r n = padOrTruncate r n.
Proof.
  unfold padOrTruncateBytes, padOrTruncate. destruct (Nat.eqb_spec (length r) n) as [|Hn]; [done|].
  destruct (Nat.ltb_spec n (length r)).
  - replace (n - length r)%nat with 0%nat by lia. cbn. by rewrite app_nil_r.
  - by rewrite take_ge by lia.
Qed.

Section laws.
Context `{!RegexpLaws}.

(** The check replaces as the filter does. *)
Lemma canary_replacement re replace w body :
  applyLengthPreservedRegexReplacement re replace body = replaceLocations (RegexSubRule re replace w) body.
Proof.
  unfold applyLengthPreservedRegexReplacement, replaceLocations. cbn [rx_re rx_replace].
  pose proof (locations_ok_Forall _ _ _ (FindAll_locations re body)) as HF.
  rewrite <- Forall_reverse in HF. unfold reverse in HF. rewrite <- rev_alt in HF.
  set (locs := rev _) in *. clearbody locs. remember (length body) as n eqn:Hn. symmetry in Hn.
  revert body Hn. induction HF as [|[[s e] sub] locs [Hse He] HF IH]; intros out Hn; [done|]. cbn [fold_left].
  rewrite padOrTruncateBytes_eq. replace (length (take (e - s) (drop s out))) with (e - s)%nat.
  - apply IH. rewrite splice_length; rewrite ?padOrTruncate_length; lia.
  - rewrite length_take, length_drop. lia.
Qed.

Lemma validateRequestRegex_safe rule :
  validateRequestRegex rule = Ok tt -> rs_Pattern rule <> [] -> exists re, regexp_Compile (rs_Pattern rule) = Ok re /\
  Forall (fun canary => regexp_MatchString re canary = false) requestRegexProtectedCanaries /\
  Forall (fun '(body, check) => check (applyLengthPreservedRegexReplacement re (rs_Replace rule) body) = true)
    requestRegexStructuralCanaries.
Proof.
  unfold validateRequestRegex. intros Hv Hne. destruct (is_nil (rs_Pattern rule)) eqn:En; [by destruct (rs_Pattern rule)|].
  destruct (hasUnsafeGlobalCaseInsensitiveURLEncodedDelimiters _); [done|]. destruct (regexp_Compile (rs_Pattern rule)) as [re|]; [|done].
  destruct (existsb _ _) eqn:Ee; [done|]. destruct (forallb _ requestRegexStructuralCanaries) eqn:Ef; [|done].
  exists re. split_and!; [done| |].
  - apply Forall_forall. intros c Hc. apply not_true_is_false. intros Hm.
    assert (existsb (regexp_MatchString re) requestRegexProtectedCanaries = true); [|congruence].
    apply existsb_exists. exists c. split; [by apply list_elem_of_In|done].
  - apply Forall_forall. intros [body check] Hc%list_elem_of_In.
    rewrite forallb_forall in Ef. apply (Ef _ Hc).
Qed.

(** C37.  The expressions that rewrite request bodies are safe for what the
    code protects: in an accepted configuration each compiles, the filter
    built from it leaves the protected bodies (tokens, signed state, trace
    identifiers) as they are, and what it makes of the structured bodies is
    still valid JSON with its fields, or keeps the field after the form
    delimiters. *)
Theorem request_regex_safe getenv numCPU fs toml args cfg rule w blockOnMatch :
  parseConfig getenv numCPU fs toml args = Ok cfg -> rule ∈ c_RegexRequestSubstitutions cfg -> rs_Pattern rule <> [] ->
  exists re, regexp_Compile (rs_Pattern rule) = Ok re /\
  let r := RegexSubRule re (rs_Replace rule) w in
  Forall (fun canary => forall log, applyRegex true blockOnMatch (canary, log, false) r = (canary, log, false))
    requestRegexProtectedCanaries /\
  Forall (fun '(body, check) => check (replaceLocations r body) = true) requestRegexStructuralCanaries.
Proof.
  intros (cfg0 & set & _ & _ & _ & [_ Hv]%validate_wf)%parseConfig_inv Hr Hne.
  pose proof (foldM_unit _ _ Hv rule Hr) as Hrule. destruct (validateRequestRegex_safe _ Hrule Hne) as (re & Hc & Hp & Hs).
  exists re. split; [done|]. split.
  - eapply Forall_impl; [exact Hp|]. intros c Hm log. unfold applyRegex. cbn [rx_re]. by rewrite Hm.
  - eapply Forall_impl; [exact Hs|]. intros [body check] Hck. by rewrite <- canary_replacement.
Qed.

End laws.
End config.

(** ** Examples *)

Definition sample_toml : tomlConfig := {|
    t_Server_ListenAddr := []; t_Server_CertDir := []; t_Server_HandshakeTimeout := [];
    t_Server_MaxConnections := Some 10; t_Server_IOTimeout := str "2m30s"; t_Server_WSIdleTimeout := [];
    t_Server_WaitTimeout := []; t_Server_CertWorkers := None; t_Server_ReusePort := None;
    t_Server_CircuitBreakerEnabled := None; t_Server_CircuitBreakerFailures := None;
    t_Server_CircuitBreakerTimeout := []; t_Server_DNSCacheEnabled := None; t_Server_DNSCacheTTL := [];
    t_Server_HTTP3Enabled := None; t_Upstream_DialTimeout := []; t_Upstream_MaxIdleConnsPerHost := None;
    t_Upstream_IdleTimeout := []; t_Upstream_InsecureSkipVerify := None; t_MITM_PrewarmHosts := [];
    t_MITM_BypassHosts := []; t_Logging_LogBodies := None; t_Logging_LogBodiesSampleRate := None;
    t_Logging_MaxCaptureBytes := None; t_Logging_DumpDir := []; t_Logging_DumpOnPolicyHit := None;
    t_Logging_DumpCredentialsCleartext := None; t_Logging_AuditKey := None; t_Logging_DumpMaxSizeMB := None;
    t_Logging_DumpMaxBackups := None; t_Logging_DumpMinFreeSpaceMB := None; t_Logging_DumpCompress := None;
    t_Logging_AccessLog := []; t_Logging_AlertLog := []; t_Metrics_Enabled := None;
    t_Metrics_ListenAddr := None; t_Rules_IncludeDir := [str "/lists"]; t_Access_Profiles := []; t_Schedule_Windows := [];
    t_Semantic_BlockedPhrases := []; t_Semantic_BlockedPhraseLists := [];
    t_Semantic_WeightedPhraseLists := []; t_Semantic_ExceptionPhraseLists := [];
    t_Semantic_ScoreThreshold := None; t_Semantic_Weighted := []; t_Masking_Phrases := [];
    t_Masking_PhraseLists := []; t_Injection_HTMLBanner := []; t_Magic_BlockedTypes := [];
    t_Antivirus_Enabled := None; t_Antivirus_ClamAVAddr := []; t_Antivirus_TempDir := [];
    t_Antivirus_TrickleInterval := []; t_Antivirus_ScanTimeout := []; t_Substitution_RuleLists := [];
    t_Substitution_RegexRuleLists := []; t_Substitution_Rules := []; t_Substitution_RegexRules := [];
    t_RequestSubstitution_RuleLists := []; t_RequestSubstitution_RegexRuleLists := [];
    t_RequestSubstitution_Rules := [];
    t_RequestSubstitution_RegexRules := [MkRegexSubstitution (str "card=4111") (str "x") 0 []];
    t_Tracing_Enabled := None; t_Tracing_Endpoint := None; t_Tracing_Insecure := None;
    t_Tracing_ServiceName := None; t_Tracing_SampleRate := None; t_AuditScope_Enabled := None;
    t_AuditScope_Mode := []; t_AuditScope_Roots := []; t_AuditScope_RootDomainLists := [];
    t_AuditScope_DependencyTTL := []; t_AuditScope_MaxDependencies := None; t_AuditScope_NoneMode := [];
    t_AuditScope_DependencyMutations := []; t_AuditScope_DiscoverHTML := None;
    t_AuditScope_DiscoverCSS := None; t_AuditScope_DiscoverJS := None
  |}.

Definition sample_fs : fileSystem := MkFileSystem (str "/") {[ str "/etc/lg.toml" := RegularFile (str "text") ]}.
Definition sample_decode (data : bytes) : option tomlConfig := if bytes_eqb data (str "text") then Some sample_toml else None.

(** The old prefix sets the connections, and the timeout cannot be read. *)
Definition sample_env (key : bytes) : bytes :=
  if bytes_eqb key (str "CLEARGATE_MAX_CONNECTIONS") then str "20"
  else if bytes_eqb key (str "LUCIDGATE_IO_TIMEOUT") then str "soon" else [].

Definition sample_args : list bytes := [str "--config=/etc/lg.toml"; str "-listen"; str ":9"; str "-listen=:10"; str "--log-bodies=f"].

Definition sample_config : result configError appConfig :=
  @parseConfig ascii_tables literal_regexp sample_env 4 sample_fs sample_decode sample_args.

Lemma sample_config_ok : (fun r => match r with
    | Ok c => Some (c_ListenAddr c, c_MaxConnections c, c_IOTimeout c, c_LogBodies c, c_CertWorkers c, map rs_Pattern (c_RegexRequestSubstitutions c))
    | Err _ => None end) sample_config =
  Some (str ":10", 20, 150 * Second, false, 4, [str "card=4111"]).
Proof. vm_compute. reflexivity. Qed.



Lemma request_regex_safe_witness : exists cfg rule re, sample_config = Ok cfg /\ rule ∈ c_RegexRequestSubstitutions cfg /\
  @regexp_Compile literal_regexp (rs_Pattern rule) = Ok re /\
  Forall (fun canary => forall log, @applyRegex literal_regexp true true (canary, log, false) (RegexSubRule re (rs_Replace rule) 8%nat)
    = (canary, log, false)) requestRegexProtectedCanaries.
Proof.
  pose proof sample_config_ok as Hs. unfold sample_config in *.
  destruct (parseConfig sample_env 4 sample_fs sample_decode sample_args) as [cfg|] eqn:E; [|discriminate].
  injection Hs as _ _ _ _ _ Hr. destruct (c_RegexRequestSubstitutions cfg) as [|rule rs] eqn:Er; [discriminate|].
  injection Hr as Hp _. exists cfg, rule.
  destruct (@request_regex_safe ascii_tables literal_regexp literal_regexp_laws sample_env 4 sample_fs sample_decode sample_args
    cfg rule 8%nat true E) as (re & Hc & Hcan & _); [rewrite Er; by left|rewrite Hp; discriminate|].
  exists re. split; [done|]. split; [rewrite Er; by left|]. split; [exact Hc|exact Hcan].
Defined.

(** ** What the code does not do *)

(** [-config file], which the flag package accepts, does not load the file. *)
Lemma single_dash_config_not_loaded :
  (fun r => match r with Ok c => Some (c_ConfigPath c, c_MaxConnections c) | Err _ => None end)
    (@parseConfig ascii_tables literal_regexp (fun _ => []) 4 sample_fs sample_decode [str "-config"; str "/etc/lg.toml"]) =
  Some (str "/etc/lg.toml", 1024).
Proof. vm_compute. reflexivity. Qed.

(** A rate limit that is not a number passes the validation. *)
Lemma nan_rate_limit_accepted :
  validateProfile (MkAccessProfile (str "p") [] false None (Some S754_nan) (Some 1)) = Ok tt.
Proof. vm_compute. reflexivity. Qed.
