(* ===== verification/ContentFilter.v ===== *)
(** * Composition of the body filters (proxy/masking_filter.go, proxy/relay.go)

    A stage is a filter of one stream; an engine is a stage or a chain of
    stages.  [ContentFilter.NewFilter], [respFilter] and [reqFilter] choose the
    stages for a message from its content type. *)

From S2P Require Import Prelude GoStrings GoRegexp Http SemanticFilter SemanticTheorems FilterEngine HtmlFilter MaskingFilter BodyFilters.

Section content.
Context `{UnicodeTables} `{ContentSniffer} `{Regexp}.

(** ** Stages *)

Inductive stage :=
| StPass
| StMagic (f : magicStreamFilter)
| StPhrase (f : phraseStreamFilter)
| StHTML (f : htmlTextFilter phraseStreamFilter)
| StMasking (f : maskingStreamFilter)
| StSubstitution (f : multiSubstitutionStreamFilter)
| StInject (f : htmlInjectionStreamFilter).

(** The dynamic dispatch of [FilterEngine.ProcessChunk]. *)
Definition stage_ProcessChunk (st : stage) (input : bytes) : chunkResult stage :=
  match st with
  | StPass => (StPass, Ok (input, false))
  | StMagic f => let '(f, r) := processChunk f input in (StMagic f, r)
  | StPhrase f => let '(f, r) := processChunk f input in (StPhrase f, r)
  | StHTML f => let '(f, r) := processChunk f input in (StHTML f, r)
  | StMasking f => let '(f, r) := processChunk f input in (StMasking f, r)
  | StSubstitution f => let '(f, r) := processChunk f input in (StSubstitution f, r)
  | StInject f => let '(f, r) := processChunk f input in (StInject f, r)
  end.

(** [Flush] of the stages that have it; the others have nothing to flush. *)
Definition stage_Flush (st : stage) : stage * result filterError bytes :=
  match st with
  | StMagic f => let '(f, r) := flushFilter f in (StMagic f, r)
  | StMasking f => let '(f, r) := flushFilter f in (StMasking f, r)
  | StSubstitution f => let '(f, r) := flushFilter f in (StSubstitution f, r)
  | StInject f => let '(f, r) := flushFilter f in (StInject f, r)
  | _ => (st, Ok [])
  end.

Definition noMatch : bool * bytes * bytes := (false, [], []).
Definition noLogMatch : bool * bool * bytes * bytes := (false, false, [], []).

Definition html_Decision (f : htmlTextFilter phraseStreamFilter) : bool * bytes * bytes :=
  phrase_Decision (ht_inner f).

Definition html_LogDecision (f : htmlTextFilter phraseStreamFilter) : bool * bool * bytes * bytes :=
  phrase_LogDecision (ht_inner f).

(** [Decision] and [LogDecision] of the stages that have them. *)
Definition stage_Decision (st : stage) : bool * bytes * bytes :=
  match st with
  | StMagic f => magic_Decision f
  | StPhrase f => phrase_Decision f
  | StHTML f => html_Decision f
  | _ => noMatch
  end.

Definition stage_LogDecision (st : stage) : bool * bool * bytes * bytes :=
  match st with
  | StPhrase f => phrase_LogDecision f
  | StHTML f => html_LogDecision f
  | _ => noLogMatch
  end.

(** ** Chains *)

(** The first loop of [runDownstream]: a stage that blocks ends it. *)
Fixpoint downstreamProcess (filters : list stage) (out : bytes) : list stage * result filterError bytes :=
  match filters with
  | [] => ([], Ok out)
  | f :: fs =>
      let '(f, r) := stage_ProcessChunk f out in
      match r with
      | Err e => (f :: fs, Err e)
      | Ok (out, true) => (f :: fs, Ok out)
      | Ok (out, false) => let '(fs, r) := downstreamProcess fs out in (f :: fs, r)
      end
  end.

(** The second loop: the tails are appended in order. *)
Fixpoint downstreamFlush (filters : list stage) (out : bytes) : list stage * result filterError bytes :=
  match filters with
  | [] => ([], Ok out)
  | f :: fs =>
      let '(f, r) := stage_Flush f in
      match r with
      | Err e => (f :: fs, Err e)
      | Ok tail => let '(fs, r) := downstreamFlush fs (out ++ tail) in (f :: fs, r)
      end
  end.

Definition runDownstream (input : bytes) (filters : list stage) : list stage * result filterError bytes :=
  let '(filters, r) := downstreamProcess filters input in
  match r with
  | Err e => (filters, Err e)
  | Ok out => downstreamFlush filters out
  end.

Fixpoint chain_ProcessChunk (filters : list stage) (out : bytes) : chunkResult (list stage) :=
  match filters with
  | [] => ([], Ok (out, false))
  | f :: fs =>
      let '(f, r) := stage_ProcessChunk f out in
      match r with
      | Err e => (f :: fs, Err e)
      | Ok (out, true) =>
          let '(fs, r) := runDownstream out fs in (f :: fs, (fun out => (out, true)) <$> r)
      | Ok ([], false) => (f :: fs, Ok ([], false))
      | Ok (out, false) => let '(fs, r) := chain_ProcessChunk fs out in (f :: fs, r)
      end
  end.

(** The inner loop of [Flush]: a flushed chunk through the stages after it. *)
Fixpoint flushThrough (downstream : list stage) (chunk : bytes) : chunkResult (list stage) :=
  match downstream with
  | [] => ([], Ok (chunk, false))
  | f :: fs =>
      let '(f, r) := stage_ProcessChunk f chunk in
      match r with
      | Err e => (f :: fs, Err e)
      | Ok (chunk, true) => (f :: fs, Ok (chunk, true))
      | Ok (chunk, false) => let '(fs, r) := flushThrough fs chunk in (f :: fs, r)
      end
  end.

(** The outer loop of [Flush]; [todo] bounds it by the number of stages. *)
Fixpoint chain_flush_loop (todo : nat) (filters : list stage) (finalOut : bytes)
    : list stage * result filterError bytes :=
  match todo, filters with
  | S todo', f :: fs =>
      let '(f, r) := stage_Flush f in
      match r with
      | Err e => (f :: fs, Err e)
      | Ok [] => let '(fs, r) := chain_flush_loop todo' fs finalOut in (f :: fs, r)
      | Ok chunk =>
          let '(fs, r) := flushThrough fs chunk in
          match r with
          | Err e => (f :: fs, Err e)
          | Ok (chunk, true) => (f :: fs, Ok (finalOut ++ chunk))
          | Ok (chunk, false) =>
              let '(fs, r) := chain_flush_loop todo' fs (finalOut ++ chunk) in (f :: fs, r)
          end
      end
  | _, _ => (filters, Ok finalOut)
  end.

Definition chain_Flush (filters : list stage) : list stage * result filterError bytes :=
  chain_flush_loop (length filters) filters [].

Definition chain_Decision (filters : list stage) : bool * bytes * bytes :=
  default noMatch (find (fun d => d.1.1) (map stage_Decision filters)).

Definition chain_LogDecision (filters : list stage) : bool * bool * bytes * bytes :=
  default noLogMatch (find (fun d => d.1.1.1 || d.1.1.2) (map stage_LogDecision filters)).

(** ** Engines *)

Inductive engine :=
| Single (st : stage)
| Chain (filters : list stage).

#[global] Instance engine_stream : StreamFilter engine := {|
  processChunk e input :=
    match e with
    | Single st => let '(st, r) := stage_ProcessChunk st input in (Single st, r)
    | Chain fs => let '(fs, r) := chain_ProcessChunk fs input in (Chain fs, r)
    end;
  flushFilter e :=
    match e with
    | Single st => let '(st, r) := stage_Flush st in (Single st, r)
    | Chain fs => let '(fs, r) := chain_Flush fs in (Chain fs, r)
    end;
|}.

Definition engine_Decision (e : engine) : bool * bytes * bytes :=
  match e with Single st => stage_Decision st | Chain fs => chain_Decision fs end.

Definition engine_LogDecision (e : engine) : bool * bool * bytes * bytes :=
  match e with Single st => stage_LogDecision st | Chain fs => chain_LogDecision fs end.

Definition newChainOrPassThrough (filters : list stage) : engine :=
  match filters with
  | [] => Single StPass
  | [st] => Single st
  | _ => Chain filters
  end.

(** ** Content types *)

Definition mediaTypeOf (ct : bytes) : bytes := ToLower (TrimSpace (before_byte ct ";")).

Definition isStructuredStreamContentType (mt : bytes) : bool := bytes_eqb mt (str "text/event-stream").

Definition oneOfTypes (mt : bytes) (l : list bytes) : bool := bool_decide (mt ∈ l).

Definition isMutableContentType (ct : bytes) : bool :=
  if decide (ct = []) then false
  else
    let mt := mediaTypeOf ct in
    if isStructuredStreamContentType mt then false
    else if HasPrefix mt (str "text/") then true
    else if Contains mt (str "json") || Contains mt (str "xml") then true
    else oneOfTypes mt
      [str "application/javascript"; str "application/x-javascript"; str "application/ecmascript";
       str "application/x-www-form-urlencoded"; str "application/grpc-web-text"; str "application/x-ndjson"].

Definition isScriptOrStyleContentType (ct : bytes) : bool :=
  oneOfTypes (mediaTypeOf ct)
    [str "application/javascript"; str "application/x-javascript"; str "application/ecmascript";
     str "text/javascript"; str "text/ecmascript"; str "text/css"].

Definition isHTMLContentType (ct : bytes) : bool :=
  oneOfTypes (mediaTypeOf ct) [str "text/html"; str "application/xhtml+xml"].

Definition isFilterMutableResponseType (ct : bytes) : bool :=
  if isMutableContentType ct then negb (isScriptOrStyleContentType ct) else false.

Definition isMutableRequestContentType (ct : bytes) : bool :=
  if decide (ct = []) then false
  else if HasPrefix (mediaTypeOf ct) (str "multipart/") then false
  else isMutableContentType ct.

Definition normalizeContentEncoding (encoding : bytes) : bytes := ToLower (TrimSpace encoding).

Definition isSupportedInspectEncoding (encoding : bytes) : bool :=
  oneOfTypes (normalizeContentEncoding encoding)
    [[]; str "identity"; str "gzip"; str "x-gzip"; str "deflate"; str "br"; str "zstd"].

(** ** The filter of a configuration *)

(** The scanner of [Antivirus] is a service; [cf_Antivirus] is its presence. *)
Record ContentFilter := MkContentFilter {
  cf_Semantic : option PhraseFilter;
  cf_LogSemantic : option PhraseFilter;
  cf_Masking : option MaskingFilter;
  cf_HTML : option bytes;
  cf_Magic : option MagicFilter;
  cf_Substitution : option SubstitutionFilter;
  cf_Antivirus : bool;
}.

Definition NewContentFilter (semantic : option PhraseFilter) (masking : option MaskingFilter)
    (html : option bytes) (magic : option MagicFilter) (substitution : option SubstitutionFilter)
    (antivirus : bool) : ContentFilter :=
  MkContentFilter semantic None masking html magic substitution antivirus.

Definition WithLogSemantic (f : ContentFilter) (logSemantic : option PhraseFilter) : ContentFilter :=
  MkContentFilter (cf_Semantic f) logSemantic (cf_Masking f) (cf_HTML f) (cf_Magic f)
    (cf_Substitution f) (cf_Antivirus f).

(** [NewFilter] of the components. *)
Definition magic_NewFilter (m : MagicFilter) : stage :=
  if decide (mf_blocked m = ∅) then StPass else StMagic (MagicStream m [] false false []).

Definition observe (f : phraseStreamFilter) : phraseStreamFilter :=
  PhraseStream (compiled f) (node f) (st_score f) (excepted f) (blockedPhrase f) (blockedType f) true.

Definition masking_NewFilter (m : MaskingFilter) : stage :=
  if maxLen m =? 0 then StPass else StMasking (MaskingStream (Some m) []).

Definition substitution_NewFilter (s : SubstitutionFilter) : stage :=
  if HasRules s then StSubstitution (newSubstitutionStream s) else StPass.

Definition html_NewFilter (banner : bytes) : stage :=
  if decide (banner = []) then StPass else StInject (HtmlInjection banner [] false).

(** [if f.X != nil && cond(f.X) { filters = append(filters, mk(f.X)) }]. *)
Definition stageIf {A} (x : option A) (cond : A -> bool) (mk : A -> stage) : list stage :=
  match x with Some a => if cond a then [mk a] else [] | None => [] end.

Definition magicStages (content : ContentFilter) : list stage :=
  stageIf (cf_Magic content) (fun m => bool_decide (mf_blocked m <> ∅)) magic_NewFilter.

Definition always {A} (a : A) : bool := true.

Definition NewFilter (f : option ContentFilter) : engine :=
  match f with
  | None => Single StPass
  | Some f =>
      newChainOrPassThrough (
        magicStages f
        ++ stageIf (cf_Semantic f) always (StPhrase ∘ newPhraseStream)
        ++ stageIf (cf_LogSemantic f) always (StPhrase ∘ observe ∘ newPhraseStream)
        ++ stageIf (cf_Masking f) (fun m => 0 <? maxLen m) masking_NewFilter
        ++ stageIf (cf_Substitution f) HasRules substitution_NewFilter)
  end.

Definition shouldInjectHTMLBanner (req : option Request) : bool :=
  match req with
  | None => true
  | Some req =>
      let dest := ToLower (TrimSpace (Header_Get (rq_Header req) (str "Sec-Fetch-Dest"))) in
      if decide (dest = []) then true else bytes_eqb dest (str "document")
  end.

(** [newHTMLTextFilter] of a phrase filter. *)
Definition newHTMLTextFilter (inner : phraseStreamFilter) : stage := StHTML (HtmlText inner htmlStart).

(** The engine of a response, for a [ContentFilter]. *)
Definition respFilter (content : ContentFilter) (contentType : bytes) (req : option Request) : engine :=
  newChainOrPassThrough (
    magicStages content
    ++ (if isFilterMutableResponseType contentType then
          if isHTMLContentType contentType then
            stageIf (cf_Semantic content) always (newHTMLTextFilter ∘ newPhraseStream)
            ++ stageIf (cf_LogSemantic content) always (newHTMLTextFilter ∘ observe ∘ newPhraseStream)
            ++ stageIf (cf_Substitution content) HasRules substitution_NewFilter
            ++ stageIf (cf_HTML content)
                 (fun banner => (0 <? length banner) && shouldInjectHTMLBanner req) html_NewFilter
          else
            stageIf (cf_Semantic content) always (StPhrase ∘ newPhraseStream)
            ++ stageIf (cf_LogSemantic content) always (StPhrase ∘ observe ∘ newPhraseStream)
            ++ stageIf (cf_Masking content) (fun m => 0 <? maxLen m) masking_NewFilter
            ++ stageIf (cf_Substitution content) always substitution_NewFilter
        else [])).

(** The engine of a request, for a [ContentFilter]. *)
Definition reqFilter (content : ContentFilter) : engine :=
  match cf_Semantic content with
  | Some pf => Single (StPhrase (newPhraseStream pf))
  | None => Single StPass
  end.

(** [nonMutatingFilter] (proxy/audit_scope.go): what a dependency of an
    audited page keeps. *)
Definition nonMutatingFilter (content : ContentFilter) : ContentFilter :=
  WithLogSemantic
    (NewContentFilter (cf_Semantic content) None None (cf_Magic content) None (cf_Antivirus content))
    (cf_LogSemantic content).

End content.
