(* ===== verification/ContentTheorems.v ===== *)
(** * Correctness of the composed filters

    Filters that only watch forward a prefix of the body; what a chain of
    several buffering filters does to the order of the bytes when it
    blocks. *)

From S2P Require Import Prelude GoStrings GoRegexp Http SemanticFilter SemanticTheorems FilterEngine HtmlFilter MaskingFilter BodyFilters BodyTheorems ContentFilter.

Section content_theorems.
Context `{UnicodeTables} `{ContentSniffer} `{Regexp}.

(** ** Single stages and chains of one *)

Lemma chain_process_single st c :
  chain_ProcessChunk [st] c = let '(st, r) := stage_ProcessChunk st c in ([st], r).
Proof.
  cbn [chain_ProcessChunk]. destruct (stage_ProcessChunk st c) as [st' [[[|b out] []]|e]]; done.
Qed.

Lemma chain_flush_single st :
  chain_Flush [st] = let '(st, r) := stage_Flush st in ([st], r).
Proof.
  unfold chain_Flush. cbn [length chain_flush_loop]. by destruct (stage_Flush st) as [st' [[|b out]|e]].
Qed.

(** The final stages of an engine. *)
Definition stages (e : engine) : list stage := match e with Single st => [st] | Chain fs => fs end.

Lemma drain_single st chunks :
  let '(out, en, e) := drain (Single st) chunks in
  exists fin, drain (Chain [st]) chunks = (out, en, Chain fin) /\ stages e = fin.
Proof.
  revert st. induction chunks as [|c chunks IH]; intros st; cbn [drain processChunk flushFilter engine_stream].
  - rewrite chain_flush_single. destruct (stage_Flush st) as [st' [out|e]]; eauto.
  - rewrite chain_process_single. destruct (stage_ProcessChunk st c) as [st' [[out []]|e]]; eauto.
    specialize (IH st'). destruct (drain (Single st') chunks) as [[rest en] e].
    destruct IH as (fin & -> & Hf). eauto.
Qed.

Lemma drain_nil_chain chunks : drain (Chain []) chunks = (concat chunks, Complete, Chain []).
Proof. induction chunks as [|c chunks IH]; cbn; [done|]. by rewrite IH. Qed.

Lemma drain_pass chunks : drain (Single StPass) chunks = (concat chunks, Complete, Single StPass).
Proof. induction chunks as [|c chunks IH]; cbn; [done|]. by rewrite IH. Qed.

Lemma stage_Decision_none st : (stage_Decision st).1.1 = false -> stage_Decision st = noMatch.
Proof.
  destruct st; cbn; try done.
  - unfold magic_Decision. by destruct (mg_blocked f).
  - unfold phrase_Decision. by destruct (_ && _).
  - unfold html_Decision, phrase_Decision. by destruct (_ && _).
Qed.

Lemma newChain_drain fs chunks :
  let '(out, en, e) := drain (newChainOrPassThrough fs) chunks in
  exists fin, drain (Chain fs) chunks = (out, en, Chain fin) /\ engine_Decision e = chain_Decision fin.
Proof.
  destruct fs as [|st [|st' fs]]; cbn [newChainOrPassThrough].
  - rewrite drain_pass, drain_nil_chain. by exists [].
  - pose proof (drain_single st chunks) as Hs. destruct (drain (Single st) chunks) as [[out en] e].
    destruct Hs as (fin & -> & Hf). exists fin. split; [done|]. destruct e as [st'|fs]; cbn in *; subst; [|done].
    unfold chain_Decision. cbn. pose proof (stage_Decision_none st') as Hn.
    destruct (stage_Decision st') as [[[] ?] ?]; cbn; [done|by apply Hn].
  - assert (Hc : forall chunks fs, exists out en fin, drain (Chain fs) chunks = (out, en, Chain fin)).
    { clear. induction chunks as [|c chunks IH]; intros fs; cbn [drain processChunk flushFilter engine_stream].
      - destruct (chain_Flush fs) as [fs' [out|e]]; eauto.
      - destruct (chain_ProcessChunk fs c) as [fs' [[out []]|e]]; eauto.
        destruct (IH fs') as (rest & en & fin & ->). eauto. }
    destruct (Hc chunks (st :: st' :: fs)) as (out & en & fin & ->). eauto.
Qed.

(** ** Filters that only watch *)

Definition observer (st : stage) : Prop :=
  match st with StPass | StPhrase _ | StHTML _ => True | _ => False end.

(** The result of a filter that does not change bytes. *)
Definition watches {S} (input : bytes) (r : S * result filterError (bytes * bool)) (ok : S -> Prop) : Prop :=
  exists s out blk, r = (s, Ok (out, blk)) /\ ok s /\ out `prefix_of` input /\ (blk = false -> out = input).

Lemma phrase_prefix f c f' out blk :
  phrase_ProcessChunk f c = (f', Ok (out, blk)) -> out `prefix_of` c.
Proof.
  unfold phrase_ProcessChunk. destruct (compiled f) as [pf|]; [|by intros [= _ <- _]].
  destruct (_ || _); [by intros [= _ <- _]|].
  destruct (matchChunk f pf c) as [f1 [[[] n]|e]]; intros [= _ <- _]; [|done]. apply prefix_take.
Qed.

Lemma html_loop_watches s (f : phraseStreamFilter) input i rest f' r :
  html_loop s f input i rest = Some (f', r) ->
  exists out blk, r = Ok (out, blk) /\ out `prefix_of` input /\ (blk = false -> out = input).
Proof.
  revert s f i. induction rest as [|b rest IH]; intros s f i; cbn [html_loop].
  { intros [= _ <-]. by exists input, false. }
  destruct (consumeByte s b) as [[s' [v|]]|]; cbn [mbind option_bind]; [|apply IH|done].
  cbn [processChunk phraseFilter_stream]. destruct (phrase_no_error f [v]) as (f1 & out & blk & ->).
  destruct blk; [|apply IH]. intros [= _ <-]. exists (take (S i) input), true. split; [done|].
  split; [apply prefix_take|done].
Qed.

Lemma observer_watches st c : observer st -> watches c (stage_ProcessChunk st c) observer.
Proof.
  unfold watches. destruct st as [| |f|f| | |]; cbn; intros Ho; try done.
  - by exists StPass, c, false.
  - destruct (phrase_no_error f c) as (f' & out & blk & E). rewrite E. exists (StPhrase f'), out, blk.
    split; [done|]. split; [done|]. split; [by eapply phrase_prefix|]. intros ->. by eapply phrase_passes.
  - destruct (html_ProcessChunk f c) as [[f' r]|] eqn:E; cbn.
    + apply html_loop_watches in E as (out & blk & -> & Hp & Hb). by exists (StHTML f'), out, blk.
    + by exists (StHTML f), c, false.
Qed.

Lemma observer_Flush st : observer st -> stage_Flush st = (st, Ok []).
Proof. by destruct st. Qed.

Lemma downstreamFlush_watches fs out : Forall observer fs -> downstreamFlush fs out = (fs, Ok out).
Proof.
  intros Ho. induction Ho as [|st fs Hst Ho IH]; cbn; [done|].
  by rewrite observer_Flush, app_nil_r, IH.
Qed.

Lemma downstreamProcess_watches fs c :
  Forall observer fs -> exists fs' out, downstreamProcess fs c = (fs', Ok out) /\ Forall observer fs' /\ out `prefix_of` c.
Proof.
  intros Ho. revert c. induction Ho as [|st fs Hst Ho IH]; intros c; cbn [downstreamProcess]; [by eexists _, _|].
  destruct (observer_watches st c Hst) as (st' & out & blk & -> & Ho' & Hp & Hb). destruct blk.
  - eexists _, _. split; [done|]. split; [by constructor|done].
  - rewrite (Hb eq_refl). destruct (IH c) as (fs' & out' & -> & Hf & Hp'). eexists _, _.
    split; [done|]. split; [by constructor|done].
Qed.

Lemma chain_watches fs c : Forall observer fs -> watches c (chain_ProcessChunk fs c) (Forall observer).
Proof.
  intros Ho. unfold watches. revert c. induction Ho as [|st fs Hst Ho IH]; intros c; cbn [chain_ProcessChunk].
  { exists [], c, false. done. }
  destruct (observer_watches st c Hst) as (st' & out & blk & -> & Ho' & Hp & Hb). destruct blk.
  - unfold runDownstream. destruct (downstreamProcess_watches fs out Ho) as (fs' & out' & -> & Hf & Hp').
    rewrite downstreamFlush_watches by done. cbn. exists (st' :: fs'), out', true.
    split; [by destruct out|]. split; [by constructor|]. split; [by etrans|done].
  - rewrite (Hb eq_refl). destruct (IH c) as (fs' & out' & blk' & E & Hf & Hp' & Hb'). destruct c as [|b c].
    + exists (st' :: fs), [], false. split; [done|]. split; [by constructor|done].
    + rewrite E. exists (st' :: fs'), out', blk'. split; [done|]. split; [by constructor|done].
Qed.

Lemma flushThrough_watches fs c : Forall observer fs -> watches c (flushThrough fs c) (Forall observer).
Proof.
  intros Ho. unfold watches. revert c. induction Ho as [|st fs Hst Ho IH]; intros c; cbn [flushThrough].
  { exists [], c, false. done. }
  destruct (observer_watches st c Hst) as (st' & out & blk & -> & Ho' & Hp & Hb). destruct blk.
  - exists (st' :: fs), out, true. split; [done|]. split; [by constructor|done].
  - rewrite (Hb eq_refl). destruct (IH c) as (fs' & out' & blk' & -> & Hf & Hp' & Hb').
    exists (st' :: fs'), out', blk'. split; [done|]. split; [by constructor|done].
Qed.

Lemma chain_flush_watches n fs out : Forall observer fs -> chain_flush_loop n fs out = (fs, Ok out).
Proof.
  intros Ho. revert n. induction Ho as [|st fs Hst Ho IH]; intros [|n]; cbn [chain_flush_loop]; try done.
  by rewrite observer_Flush, IH.
Qed.

(** The stages of a chain that watches, and the bytes it holds back. *)
Inductive watching : list stage -> bytes -> Prop :=
| watch_observers fs : Forall observer fs -> watching fs []
| watch_magic m fs :
    Forall observer fs -> mg_blocked m = false -> (mg_decided m = true -> mg_pending m = []) ->
    length (mg_pending m) <= magicSniffLen -> watching (StMagic m :: fs) (mg_pending m).

(** One chunk through the magic filter, before its decision to block. *)
Lemma magic_step m c :
  mg_blocked m = false -> (mg_decided m = true -> mg_pending m = []) -> length (mg_pending m) <= magicSniffLen ->
  exists m' o blk, magic_ProcessChunk m c = (m', Ok (o, blk)) /\
    (blk = true -> o = []) /\
    (blk = false -> mg_pending m ++ c = o ++ mg_pending m' /\ mg_blocked m' = false /\
       (mg_decided m' = true -> mg_pending m' = []) /\ length (mg_pending m') <= magicSniffLen).
Proof.
  intros Hb Hd Hl. unfold magic_ProcessChunk. rewrite Hb. destruct (mg_decided m) eqn:Ed.
  { eexists _, _, _. split; [done|]. rewrite (Hd eq_refl), Ed, Hb. cbn. rewrite app_nil_r. split; [done|]. intros _. split_and!; try done. lia. }
  destruct (Nat.eqb_spec (length c) 0) as [Hc|Hc].
  { apply length_zero_iff_nil in Hc as ->. eexists _, _, _. split; [done|]. rewrite app_nil_r, Ed. done. }
  destruct (if length c <=? _ then _ else _) as [pending tail] eqn:Esplit.
  assert (Hpt : pending ++ tail = mg_pending m ++ c /\ (length pending <= magicSniffLen) /\
                (length pending < magicSniffLen -> tail = [])).
  { destruct (Nat.leb_spec (length c) (magicSniffLen - length (mg_pending m))); injection Esplit as <- <-.
    - rewrite app_nil_r, length_app. split_and!; [done|lia|done].
    - rewrite <- app_assoc, take_drop, length_app, length_take. split_and!; [done|lia|lia]. }
  destruct Hpt as (Hpt & Hpl & Htail). destruct (Nat.ltb_spec (length pending) magicSniffLen) as [Hlt|Hge].
  { eexists _, _, _. split; [done|]. split; [done|]. intros _. cbn. rewrite <- Hpt, (Htail Hlt), app_nil_r. done. }
  unfold commitDecision. cbn. case_bool_decide; eexists _, _, _; (split; [done|]); [done|].
  split; [done|]. intros _. cbn. rewrite app_nil_r, Hpt. split_and!; try done. lia.
Qed.

Lemma downstream_empty fs :
  Forall observer fs -> exists fs', runDownstream [] fs = (fs', Ok []) /\ Forall observer fs'.
Proof.
  intros Ho. unfold runDownstream.
  destruct (downstreamProcess_watches fs [] Ho) as (fs' & out & -> & Hf & Hp).
  apply prefix_nil_inv in Hp as ->. rewrite downstreamFlush_watches by done. eauto.
Qed.

Lemma watching_step fs held c :
  watching fs held ->
  exists fs' out blk, chain_ProcessChunk fs c = (fs', Ok (out, blk)) /\ out `prefix_of` held ++ c /\
    (blk = false -> exists held', watching fs' held' /\ held ++ c = out ++ held').
Proof.
  intros [fs0 Ho|m obs Ho Hb Hd Hl].
  { destruct (chain_watches fs0 c Ho) as (fs' & out & blk & -> & Ho' & Hp & Heq).
    exists fs', out, blk. split_and!; [done|done|]. intros Hblk. exists []. rewrite app_nil_r, (Heq Hblk).
    split; [by constructor|done]. }
  destruct (magic_step m c Hb Hd Hl) as (m' & o & blk & E & Hblk & Hpass).
  cbn [chain_ProcessChunk stage_ProcessChunk]. cbn [processChunk magicFilter]. rewrite E. destruct blk.
  - rewrite (Hblk eq_refl). destruct (downstream_empty obs Ho) as (obs' & -> & Ho').
    eexists _, [], true. split; [done|]. split; [apply prefix_nil|done].
  - destruct (Hpass eq_refl) as (Heq & Hb' & Hd' & Hl'). rewrite Heq. destruct o as [|b o].
    + eexists _, [], false. split; [done|]. split; [apply prefix_nil|]. intros _. exists (mg_pending m').
      split; [by constructor|done].
    + destruct (chain_watches obs (b :: o) Ho) as (obs' & out & blk & -> & Ho' & Hp & Hwhole).
      eexists _, out, blk. split; [done|]. split; [by apply prefix_app_r|]. intros ->.
      exists (mg_pending m'). rewrite (Hwhole eq_refl). split; [by constructor|done].
Qed.

Lemma watching_flush fs held :
  watching fs held ->
  exists fs' out, chain_Flush fs = (fs', Ok out) /\ out `prefix_of` held.
Proof.
  unfold chain_Flush. intros [fs0 Ho|m obs Ho Hb Hd Hl]; [rewrite chain_flush_watches by done; eauto|].
  cbn [length chain_flush_loop stage_Flush]. cbn [flushFilter magicFilter]. unfold magic_Flush. rewrite Hb.
  destruct (mg_decided m) eqn:Ed; cbn [orb].
  { rewrite chain_flush_watches by done. eexists _, _. split; [done|apply prefix_nil]. }
  unfold commitDecision. case_bool_decide; cbn [mbind result_bind].
  { rewrite chain_flush_watches by done. eexists _, _. split; [done|apply prefix_nil]. }
  rewrite app_nil_r. destruct (mg_pending m) as [|b pending].
  { rewrite chain_flush_watches by done. by eexists _, _. }
  destruct (flushThrough_watches obs (b :: pending) Ho) as (obs' & out & blk & -> & Ho' & Hp & _).
  destruct blk; cbn [app]; [by eexists _, _|]. rewrite chain_flush_watches by done. by eexists _, _.
Qed.

Lemma watching_drain chunks fs held :
  watching fs held ->
  forwarded (Chain fs) chunks `prefix_of` held ++ concat chunks /\
  (ending (Chain fs) chunks = Complete \/ ending (Chain fs) chunks = BlockedEnd).
Proof.
  unfold forwarded, ending. revert fs held. induction chunks as [|c chunks IH]; intros fs held Hw;
    cbn [drain processChunk flushFilter engine_stream concat].
  { destruct (watching_flush fs held Hw) as (fs' & out & -> & Hp). rewrite app_nil_r. cbn. auto. }
  destruct (watching_step fs held c Hw) as (fs' & out & blk & -> & Hp & Hnext). destruct blk.
  { cbn. rewrite app_assoc. split; [by apply prefix_app_r|auto]. }
  destruct (Hnext eq_refl) as (held' & Hw' & Heq). specialize (IH fs' held' Hw').
  destruct (drain (Chain fs') chunks) as [[rest en] fin]. cbn in *. destruct IH as [IHp IHe].
  rewrite app_assoc, Heq, <- app_assoc. split; [by apply prefix_app|done].
Qed.

(** The stages of a filter without masking, substitution and banner. *)
Lemma nonMutating_watching cf ct req :
  exists fs, respFilter (nonMutatingFilter cf) ct req = newChainOrPassThrough fs /\ watching fs [].
Proof.
  unfold respFilter. eexists. split; [reflexivity|]. cbn [nonMutatingFilter WithLogSemantic NewContentFilter
    cf_Masking cf_HTML cf_Substitution cf_Semantic cf_LogSemantic stageIf].
  match goal with |- watching (magicStages _ ++ ?obs) [] => assert (Ho : Forall observer obs) end.
  { destruct (isFilterMutableResponseType ct), (isHTMLContentType ct), (cf_Semantic cf), (cf_LogSemantic cf);
      cbn; repeat constructor. }
  unfold magicStages, stageIf. cbn [nonMutatingFilter WithLogSemantic NewContentFilter cf_Magic].
  destruct (cf_Magic cf) as [m|]; [|by apply watch_observers].
  case_bool_decide as Hm; [|by apply watch_observers]. cbn [app].
  unfold magic_NewFilter. rewrite decide_False by done. apply (watch_magic (MagicStream m [] false false [])); try done.
  cbn. lia.
Qed.

(** A dependency of an audited page is never rewritten: whatever the
    filters of the configuration and the content type, and however the body is
    cut, the bytes forwarded are a prefix of the body, and the stream ends
    only by the end of the body or by a block. *)
Theorem nonmutating_prefix cf ct req chunks :
  let e := respFilter (nonMutatingFilter cf) ct req in
  forwarded e chunks `prefix_of` concat chunks /\
  (ending e chunks = Complete \/ ending e chunks = BlockedEnd).
Proof.
  cbv zeta. destruct (nonMutating_watching cf ct req) as (fs & -> & Hw).
  pose proof (newChain_drain fs chunks) as Hd. pose proof (watching_drain chunks fs [] Hw) as Hw'.
  unfold forwarded, ending in *. destruct (drain (newChainOrPassThrough fs) chunks) as [[out en] e].
  destruct Hd as (fin & Hd & _). rewrite Hd in Hw'. done.
Qed.

End content_theorems.

(** ** What a chain does not promise *)

Definition sample_sniffer : ContentSniffer := {| DetectContentType _ := str "application/octet-stream" |}.

(** Phrases, masking and substitution of a plain text. *)
Definition sample_content (pf : PhraseFilter) : @ContentFilter literal_regexp :=
  @MkContentFilter literal_regexp (Some pf) None (Some (MkMaskingFilter [str "xyzw"] 4)) None None
    (Some (@MkSubstitutionFilter literal_regexp [SubRule (str "abc") (str "z")] [] false)) false.

(** When a phrase blocks, the stages after it are flushed one by one and their
    tails appended as they come: the bytes the masking filter held overtake
    those the substitution filter holds. *)
Lemma block_reorders :
  match @NewPhraseFilter ascii_tables [str "bad"] with
  | Ok pf =>
      let e := @respFilter ascii_tables literal_regexp (sample_content pf) (str "text/plain") None in
      @forwarded engine (@engine_stream ascii_tables sample_sniffer literal_regexp) e [str "hello bad tail"]
      = str "helbadlo "
  | Err _ => False
  end.
Proof. vm_compute. reflexivity. Qed.
