(* ===== verification/AuditScope.v ===== *)
(** * The audit scope (proxy/audit_scope.go)

    With an audit scope only the configured root domains, and the hosts their
    pages depend on, are inspected.  Dependencies are learnt from the [Origin]
    and [Referer] headers and kept in a bounded table with a time to live.
    The clock is read once per operation here. *)

From S2P Require Import Prelude GoStrings GoRegexp GoUrl GoNetip GoMime DomainTrie DomainRules Http PolicyRules SemanticFilter BodyFilters MaskingFilter ContentFilter.

Inductive AuditClass := AuditClassRoot | AuditClassDependency | AuditClassNone.

#[global] Instance AuditClass_eq_dec : EqDecision AuditClass.
Proof. solve_decision. Defined.

Record AuditScopeConfig := MkAuditScopeConfig {
  ac_Enabled : bool;
  ac_Roots : list bytes;
  ac_DependencyTTL : Z;
  ac_MaxDependencies : Z;
  ac_NoneMode : bytes;
  ac_DependencyMutations : bytes;
}.

Record AuditScopeDecision := MkAuditDecision {
  Class : AuditClass;
  Root : bytes;
  Reason : bytes;
  MutationAllowed : bool;
  InspectAllowed : bool;
  DumpAllowed : bool;
}.

Record auditDependencyEntry := MkDependency { root : bytes; reason : bytes; lastSeen : Z }.

Record AuditScope := MkAuditScope {
  enabled : bool;
  roots : domainTrie;
  dependencyTTL : Z;
  maxDependencies : Z;
  noneMode : bytes;
  dependencyMutations : bytes;
  dependencies : gmap bytes auditDependencyEntry;
}.

Definition setDependencies (s : AuditScope) (m : gmap bytes auditDependencyEntry) : AuditScope :=
  MkAuditScope (enabled s) (roots s) (dependencyTTL s) (maxDependencies s) (noneMode s) (dependencyMutations s) m.

(** The order in which a [range] loop visits the table. *)
Abbreviation ranging := (gmap bytes auditDependencyEntry -> list (bytes * auditDependencyEntry)).

(** ** The options of an exchange *)

Section options.
Context `{Regexp}.

(** The filter of a direction: none, one that passes everything, or a content
    filter. *)
Inductive filterEngine := NoFilter | PassThrough | Content (c : ContentFilter).

(** The options of [RelayOptions] the scope changes. *)
Record RelayOptions := MkRelayOptions {
  ro_LogBodies : bool;
  ro_DumpDir : bytes;
  ro_Filter : filterEngine;
  ro_RequestFilter : filterEngine;
  ro_RequestSubstitutionFilter : option SubstitutionFilter;
}.

Definition ForAuditScope (o : RelayOptions) (dec : AuditScopeDecision) : RelayOptions :=
  match Class dec with
  | AuditClassRoot => o
  | AuditClassNone => MkRelayOptions false [] PassThrough NoFilter None
  | AuditClassDependency =>
      if MutationAllowed dec then o
      else MkRelayOptions (ro_LogBodies o) (ro_DumpDir o)
             (match ro_Filter o with Content c => Content (nonMutatingFilter c) | f => f end)
             (ro_RequestFilter o) None
  end.

(** Neither direction is rewritten. *)
Definition immutable (o : RelayOptions) : Prop :=
  ro_RequestSubstitutionFilter o = None /\
  match ro_Filter o with
  | Content c => cf_Masking c = None /\ cf_HTML c = None /\ cf_Substitution c = None
  | _ => True
  end.

End options.

(** ** The scope *)

Section audit_scope.
Context `{UnicodeTables}.

Definition NewAuditScope (cfg : AuditScopeConfig) : AuditScope :=
  let orDefault (s d : bytes) := let s := ToLower (TrimSpace s) in if bytes_eqb s [] then d else s in
  MkAuditScope (ac_Enabled cfg && negb (Nat.eqb (length (ac_Roots cfg)) 0)) (NewDomainMatcher (ac_Roots cfg))
    (if Z.leb (ac_DependencyTTL cfg) 0 then 30 * 60 * 1000000000 else ac_DependencyTTL cfg)%Z
    (if Z.leb (ac_MaxDependencies cfg) 0 then 8192 else ac_MaxDependencies cfg)%Z
    (orDefault (ac_NoneMode cfg) (str "tunnel")) (orDefault (ac_DependencyMutations cfg) (str "restricted")) ∅.

Definition Enabled (s : option AuditScope) : bool := match s with Some s => enabled s | None => false end.

Definition NoneMode (s : option AuditScope) : bytes :=
  match s with
  | Some s => if bytes_eqb (noneMode s) [] then str "tunnel" else noneMode s
  | None => str "tunnel"
  end.

Definition normalizeAuditHost (host : bytes) : bytes :=
  let host := TrimPrefix (TrimPrefix (TrimSpace host) (str "http://")) (str "https://") in
  let host := match IndexByte host "/"%byte with Some i => take i host | None => host end in
  Trim (normalizedPolicyHost (TrimPrefix host (str "*."))) (str ".").

Definition isRoot (s : AuditScope) (host : bytes) : bool := DomainMatcher_Match (Some (roots s)) host.

Definition lookupDependency (s : AuditScope) (now : Z) (host : bytes) : option auditDependencyEntry :=
  let host := normalizeAuditHost host in
  if bytes_eqb host [] then None
  else match dependencies s !! host with
       | Some e => if Z.ltb (dependencyTTL s) (time_Sub now (lastSeen e)) then None else Some e
       | None => None
       end.

(** The inner loop of the eviction: the first entry no other one is older than. *)
Definition oldest (l : list (bytes * auditDependencyEntry)) : bytes :=
  fst (fold_left (fun '(host, t) '(h, e) =>
    if bytes_eqb host [] || Z.ltb (lastSeen e) t then (h, lastSeen e) else (host, t)) l ([], 0%Z)).

(** [for len(next) > s.maxDependencies { ... }]. *)
Fixpoint evict (fuel : nat) (range : ranging) (max : Z) (next : gmap bytes auditDependencyEntry)
  : gmap bytes auditDependencyEntry :=
  if Z.ltb max (Z.of_nat (base.size next)) then
    match fuel with
    | O => next
    | S fuel' => evict fuel' range max (delete (oldest (range next)) next)
    end
  else next.

Definition RegisterDependency (range : ranging) (s : AuditScope) (now : Z) (root dependency reason : bytes) : AuditScope :=
  if negb (enabled s) then s
  else
    let root := normalizeAuditHost root in
    let dependency := normalizeAuditHost dependency in
    if bytes_eqb root [] || bytes_eqb dependency [] || bytes_eqb root dependency || isRoot s dependency then s
    else
      match (if isRoot s root then Some root else AuditScope.root <$> lookupDependency s now root) with
      | None => s
      | Some root =>
          let reason := if bytes_eqb reason [] then str "manual" else reason in
          let next := filter (fun kv => (time_Sub now (lastSeen kv.2) <= dependencyTTL s)%Z) (dependencies s) in
          let next := <[dependency := MkDependency root reason now]> next in
          setDependencies s (evict (base.size next) range (maxDependencies s) next)
      end.

Definition dependencyDecision (s : AuditScope) (root reason : bytes) : AuditScopeDecision :=
  MkAuditDecision AuditClassDependency root reason (bytes_eqb (dependencyMutations s) (str "full")) true true.

Definition noneDecision (reason : bytes) : AuditScopeDecision :=
  MkAuditDecision AuditClassNone [] reason false false false.

Definition hostFromAbsoluteURL (raw : bytes) : bytes :=
  let raw := TrimSpace raw in
  if bytes_eqb raw [] then []
  else match Parse raw with
       | Some u => if bytes_eqb (u_Host u) [] then [] else normalizeAuditHost (u_Host u)
       | None => []
       end.

Definition rootFromHeaderURL (s : AuditScope) (now : Z) (raw : bytes) : bytes :=
  let host := hostFromAbsoluteURL raw in
  if bytes_eqb host [] then []
  else if isRoot s host then host
  else match lookupDependency s now host with Some e => root e | None => [] end.

Definition rootFromPropagationHeaders (s : AuditScope) (now : Z) (req : Request) : bytes * bytes :=
  let origin := rootFromHeaderURL s now (Header_Get (rq_Header req) (str "Origin")) in
  if negb (bytes_eqb origin []) then (origin, str "origin")
  else
    let referer := rootFromHeaderURL s now (Header_Get (rq_Header req) (str "Referer")) in
    if negb (bytes_eqb referer []) then (referer, str "referer") else ([], []).

Definition Decide (range : ranging) (s : option AuditScope) (now : Z) (req : option Request) (host : bytes)
  : AuditScopeDecision * option AuditScope :=
  match s with
  | None => (MkAuditDecision AuditClassRoot [] (str "disabled") true true true, s)
  | Some sc =>
      if negb (enabled sc) then (MkAuditDecision AuditClassRoot [] (str "disabled") true true true, s)
      else
        let host := normalizeAuditHost host in
        if bytes_eqb host [] then (noneDecision (str "empty_host"), s)
        else if isRoot sc host then (MkAuditDecision AuditClassRoot host (str "root_host") true true true, s)
        else match lookupDependency sc now host with
             | Some e => (dependencyDecision sc (root e) (str "known_dependency:" ++ reason e), s)
             | None =>
                 match req with
                 | Some req =>
                     let '(root, reason) := rootFromPropagationHeaders sc now req in
                     if negb (bytes_eqb root [])
                     then (dependencyDecision sc root reason, Some (RegisterDependency range sc now root host reason))
                     else (noneDecision (str "out_of_scope"), s)
                 | None => (noneDecision (str "out_of_scope"), s)
                 end
             end
  end.

(** ** Specification *)

(** The dependencies are at most [maxDependencies], each one a host outside the
    roots that was seen with a host inside them. *)
Definition scope_ok (s : AuditScope) : Prop :=
  (1 <= maxDependencies s)%Z /\
  (Z.of_nat (base.size (dependencies s)) <= maxDependencies s)%Z /\
  map_Forall (fun host e => host <> [] /\ isRoot s host = false /\ isRoot s (root e) = true) (dependencies s).

Inductive audit_step (range : ranging) : AuditScope -> AuditScope -> Prop :=
| step_decide s now req host dec s' :
    Decide range (Some s) now req host = (dec, Some s') -> audit_step range s s'
| step_register s now root dependency reason :
    audit_step range s (RegisterDependency range s now root dependency reason).

(** What a decision may say of a host of an enabled scope. *)
Definition decision_ok (s : AuditScope) (host : bytes) (dec : AuditScopeDecision) : Prop :=
  let host := normalizeAuditHost host in
  match Class dec with
  | AuditClassRoot => host <> [] /\ isRoot s host = true /\ Root dec = host
  | AuditClassDependency =>
      host <> [] /\ isRoot s host = false /\ isRoot s (Root dec) = true /\
      (MutationAllowed dec = true <-> dependencyMutations s = str "full")
  | AuditClassNone =>
      (host = [] \/ isRoot s host = false) /\
      MutationAllowed dec = false /\ InspectAllowed dec = false /\ DumpAllowed dec = false
  end.

(** ** Lemmas *)

Lemma bytes_eqb_false a b : bytes_eqb a b = false <-> a <> b.
Proof. unfold bytes_eqb. apply bool_decide_eq_false. Qed.

Lemma oldest_fold l host t :
  host <> [] -> Forall (fun kv => kv.1 <> []) l ->
  fst (fold_left (fun '(host, t) '(h, e) =>
    if bytes_eqb host [] || Z.ltb (lastSeen e) t then (h, lastSeen e) else (host, t)) l (host, t)) ∈ host :: l.*1.
Proof.
  revert host t. induction l as [|[h e] l IH]; intros host t Hne Hl; [left|]. inversion Hl; subst. cbn.
  apply bytes_eqb_false in Hne as Heq. rewrite Heq. cbn. destruct (Z.ltb _ _).
  - specialize (IH h (lastSeen e)). cbn in *. set_solver.
  - specialize (IH host t). cbn in *. set_solver.
Qed.

Lemma oldest_elem l : l <> [] -> Forall (fun kv => kv.1 <> []) l -> oldest l ∈ l.*1.
Proof.
  destruct l as [|[h e] l]; [done|]. intros _ Hl. inversion Hl; subst. unfold oldest. cbn.
  by apply oldest_fold.
Qed.

Section ranging.
Context (range : ranging) (range_perm : forall m, range m ≡ₚ map_to_list m).

Lemma oldest_in_map (m : gmap bytes auditDependencyEntry) :
  m <> ∅ -> map_Forall (fun host _ => host <> []) m -> is_Some (m !! oldest (range m)).
Proof.
  intros Hne Hm. assert (Hin : oldest (range m) ∈ (range m).*1).
  { apply oldest_elem.
    - intros E. pose proof (range_perm m) as Hp. rewrite E in Hp. apply Permutation_nil in Hp.
      by apply Hne, map_to_list_empty_iff.
    - rewrite range_perm. apply Forall_forall. intros [h e] He%elem_of_map_to_list. by apply (Hm h e). }
  apply list_elem_of_fmap in Hin as ([h e] & -> & He). rewrite range_perm in He.
  apply elem_of_map_to_list in He. by exists e.
Qed.

(** With the size of the table as fuel, the loop ends with the table within the
    bound, and only removes entries. *)
Lemma evict_spec (fuel : nat) (max : Z) (m : gmap bytes auditDependencyEntry) :
  (0 <= max)%Z -> base.size m <= fuel -> map_Forall (fun host _ => host <> []) m ->
  (Z.of_nat (base.size (evict fuel range max m)) <= max)%Z /\ evict fuel range max m ⊆ m.
Proof.
  intros Hmax. revert m. induction fuel as [|fuel IH]; intros m Hf Hm; cbn [evict].
  { destruct (Z.ltb_spec max (Z.of_nat (base.size m))); [lia|]. split; [lia|done]. }
  destruct (Z.ltb_spec max (Z.of_nat (base.size m))); [|split; [lia|done]].
  assert (Hs : is_Some (m !! oldest (range m))).
  { apply oldest_in_map; [|done]. intros ->. rewrite map_size_empty in *. lia. }
  destruct Hs as [e He]. assert (Hd : base.size (delete (oldest (range m)) m) = pred (base.size m)).
  { apply map_size_delete_Some. by exists e. }
  destruct (IH (delete (oldest (range m)) m)) as [Hb Hsub]; [lia| |].
  { by apply map_Forall_delete. }
  split; [done|]. etrans; [exact Hsub|]. apply delete_subseteq.
Qed.

Lemma isRoot_set s m host : isRoot (setDependencies s m) host = isRoot s host.
Proof. done. Qed.

Lemma lookupDependency_ok s now host e :
  scope_ok s -> lookupDependency s now host = Some e -> isRoot s (root e) = true.
Proof.
  intros (_ & _ & Hm). unfold lookupDependency. destruct (bytes_eqb _ []); [done|].
  destruct (dependencies s !! _) as [e'|] eqn:E; [|done]. destruct (Z.ltb _ _); [done|]. intros [= <-].
  by apply (Hm _ _ E).
Qed.

Lemma RegisterDependency_ok s now rt dep rs : scope_ok s -> scope_ok (RegisterDependency range s now rt dep rs).
Proof.
  intros Hs. unfold RegisterDependency. destruct (enabled s); cbn [negb]; [|done].
  destruct (bytes_eqb _ [] || _ || _ || _) eqn:Eg; [done|]. rewrite !orb_false_iff in Eg.
  destruct Eg as [[[_ Hdep%bytes_eqb_false] _] Hnr].
  destruct (if isRoot s _ then _ else _) as [r|] eqn:Er; [|done].
  assert (Hr : isRoot s r = true).
  { destruct (isRoot s (normalizeAuditHost rt)) eqn:E; [by simplify_eq|].
    destruct (lookupDependency s now _) as [e|] eqn:El; [|done]. cbn in Er. simplify_eq. by eapply lookupDependency_ok. }
  destruct Hs as (H1 & _ & Hm). set (next := <[_ := _]> _).
  assert (Hn : map_Forall (fun host e => host <> [] /\ isRoot s host = false /\ isRoot s (root e) = true) next).
  { apply map_Forall_insert_2; [done|]. intros h e [He _]%map_lookup_filter_Some. by apply (Hm h e). }
  destruct (evict_spec (base.size next) (maxDependencies s) next) as [Hb Hsub]; [lia|done| |].
  { eapply map_Forall_impl; [exact Hn|]. naive_solver. }
  split_and!; [done|done|]. intros h e He. apply (Hn h e). by eapply lookup_weaken.
Qed.

Lemma rootFromHeaderURL_ok s now raw :
  scope_ok s -> rootFromHeaderURL s now raw <> [] -> isRoot s (rootFromHeaderURL s now raw) = true.
Proof.
  intros Hs. unfold rootFromHeaderURL. destruct (bytes_eqb _ []); [done|].
  destruct (isRoot s _) eqn:E; [done|]. destruct (lookupDependency s now _) eqn:El; [|done]. intros _.
  by eapply lookupDependency_ok.
Qed.

Lemma rootFromPropagationHeaders_ok s now req rt rs :
  scope_ok s -> rootFromPropagationHeaders s now req = (rt, rs) -> rt <> [] -> isRoot s rt = true.
Proof.
  intros Hs. unfold rootFromPropagationHeaders.
  destruct (bytes_eqb (rootFromHeaderURL s now _) []) eqn:E1; cbn [negb].
  - destruct (bytes_eqb (rootFromHeaderURL s now (Header_Get _ (str "Referer"))) []); cbn [negb]; intros [= <- _]; [done|].
    by apply rootFromHeaderURL_ok.
  - intros [= <- _]. by apply rootFromHeaderURL_ok.
Qed.

Lemma none_ok s host rs :
  normalizeAuditHost host = [] \/ isRoot s (normalizeAuditHost host) = false -> decision_ok s host (noneDecision rs).
Proof. intros Hn. split; [exact Hn|]. by repeat split. Qed.

Lemma dependency_ok s host rt rs :
  normalizeAuditHost host <> [] -> isRoot s (normalizeAuditHost host) = false -> isRoot s rt = true ->
  decision_ok s host (dependencyDecision s rt rs).
Proof. intros H1 H2 H3. split_and!; [exact H1|exact H2|exact H3|]. apply bool_decide_eq_true. Qed.

Lemma Decide_ok s now req host :
  scope_ok s -> enabled s = true -> decision_ok s host (Decide range (Some s) now req host).1.
Proof.
  intros Hs He. unfold Decide. rewrite He. cbn [negb].
  destruct (bytes_eqb (normalizeAuditHost host) []) eqn:E0.
  { apply bool_decide_eq_true in E0. apply none_ok. by left. }
  apply bytes_eqb_false in E0. destruct (isRoot s _) eqn:Er; [by split|].
  destruct (lookupDependency s now _) as [e|] eqn:El.
  { apply dependency_ok; [done|done|]. by eapply lookupDependency_ok. }
  destruct req as [req|]; [|apply none_ok; by right].
  destruct (rootFromPropagationHeaders s now req) as [rt rs] eqn:Ep.
  destruct (bytes_eqb rt []) eqn:Ert; cbn [negb]; [apply none_ok; by right|].
  apply dependency_ok; [done|done|]. eapply rootFromPropagationHeaders_ok; [done|exact Ep|]. by apply bytes_eqb_false.
Qed.

Lemma RegisterDependency_frame s now rt dep rs :
  let s' := RegisterDependency range s now rt dep rs in enabled s' = enabled s /\ roots s' = roots s.
Proof.
  unfold RegisterDependency. destruct (negb _); [done|]. destruct (_ || _); [done|].
  by destruct (if isRoot s _ then _ else _).
Qed.

Lemma Decide_state s now req host :
  (Decide range (Some s) now req host).2 = Some s \/
  exists rt dep rs, (Decide range (Some s) now req host).2 = Some (RegisterDependency range s now rt dep rs).
Proof.
  unfold Decide. destruct (negb _); [by left|]. destruct (bytes_eqb _ []); [by left|]. destruct (isRoot s _); [by left|].
  destruct (lookupDependency s now _); [by left|]. destruct req as [req|]; [|by left].
  destruct (rootFromPropagationHeaders s now req) as [rt rs]. destruct (negb _); [|by left]. right. by eexists _, _, _.
Qed.

Lemma audit_step_ok s s' : audit_step range s s' -> scope_ok s ->
  scope_ok s' /\ enabled s' = enabled s /\ roots s' = roots s.
Proof.
  assert (Hreg : forall s now rt dep rs, scope_ok s -> let s' := RegisterDependency range s now rt dep rs in
    scope_ok s' /\ enabled s' = enabled s /\ roots s' = roots s).
  { intros. split; [by apply RegisterDependency_ok|apply RegisterDependency_frame]. }
  intros [s0 now req host dec s0' Hd|s0 now rt dep rs] Hs; [|by apply Hreg].
  destruct (Decide_state s0 now req host) as [E|(rt & dep & rs & E)]; rewrite Hd in E; injection E as ->; [done|].
  by apply Hreg.
Qed.

End ranging.

End audit_scope.

Lemma decision_immutable `{UnicodeTables} `{Regexp} s host dec (o : RelayOptions) :
  decision_ok s host dec -> isRoot s (normalizeAuditHost host) = false -> dependencyMutations s <> str "full" ->
  immutable (ForAuditScope o dec).
Proof.
  intros Hd Hr Hm. unfold decision_ok in Hd. unfold ForAuditScope. destruct (Class dec).
  - destruct Hd as (_ & Hr' & _). congruence.
  - destruct Hd as (_ & _ & _ & Hmut). destruct (MutationAllowed dec).
    + by destruct Hm; apply Hmut.
    + split; [done|]. by destruct (ro_Filter o).
  - done.
Qed.


Definition sample_scope : AuditScopeConfig :=
  MkAuditScopeConfig true [str "*.Example.com"] 0 2 [] [].

Definition listed : ranging := fun m => map_to_list m.

