(* ===== verification/Relay.v ===== *)
(** * Relaying messages (proxy/relay.go, proxy/altsvc.go, proxy/websocket.go)

    What is inspected, how a request and a response are written, and what is
    captured of a body.  The bytes on the connection are the result; a write
    does not fail here. *)

From S2P Require Import Prelude GoStrings GoRegexp GoUrl Http DomainTrie DomainRules Framing SemanticFilter FilterEngine InspectReader HtmlFilter MaskingFilter BodyFilters ContentFilter.

(** ** Headers of a hop *)

Definition mapHeader (f : Header -> Header) (req : Request) : Request :=
  MkRequest (Method req) (rq_URL req) (f (rq_Header req)) (rq_Host req) (rq_ContentLength req)
    (rq_TransferEncoding req) (rq_Close req) (rq_HasBody req).

Definition hopHeaders : list bytes :=
  [str "Connection"; str "Keep-Alive"; str "Proxy-Connection"; str "X-Forwarded-For"; str "Via"; str "X-Real-IP"].

Definition SanitizeHeaders (req : Request) : Request :=
  mapHeader (fun h => fold_left Header_Del hopHeaders h) req.

Definition normalizeRequestURL (req : Request) : Request :=
  match rq_URL req with
  | None => req
  | Some u =>
      if decide (u_Scheme u = []) then req
      else MkRequest (Method req)
             (Some (MkURL [] (u_Opaque u) [] (u_Path u) (u_RawPath u) (u_ForceQuery u) (u_RawQuery u)))
             (rq_Header req) (rq_Host req) (rq_ContentLength req) (rq_TransferEncoding req)
             (rq_Close req) (rq_HasBody req)
  end.

(** [stripHTTP3Advertising]: the headers, and whether any was removed. *)
Definition stripHTTP3Advertising (h : Header) : Header * bool :=
  fold_left
    (fun '(h, removed) name =>
       if hmem h (CanonicalHeaderKey name) then (Header_Del h name, true) else (h, removed))
    [str "Alt-Svc"; str "Alternate-Protocol"] (h, false).

Definition isResponseWriterManagedHeader (key : bytes) : bool :=
  bool_decide (CanonicalHeaderKey key ∈ framingKeys).

(** [copyResponseHeaders] into an [http.ResponseWriter]: what was there is
    deleted. *)
Definition copyResponseHeaders (src : Header) : Header :=
  fold_left
    (fun dst '(key, values) =>
       if isResponseWriterManagedHeader key then dst
       else fold_left (fun dst value => Header_Add dst key value) values dst)
    src [].

(** ** WebSocket handshakes *)

Definition headerContainsToken (values : list bytes) (token : bytes) : bool :=
  existsb (fun v => existsb (fun part => EqualFold (TrimSpace part) token) (SplitByte v ",")) values.

Definition isWebSocketUpgrade (req : option Request) : bool :=
  match req with
  | None => false
  | Some req =>
      if EqualFold (Method req) (str "GET") then
        if headerContainsToken (Header_Values (rq_Header req) (str "Connection")) (str "upgrade")
        then EqualFold (TrimSpace (Header_Get (rq_Header req) (str "Upgrade"))) (str "websocket")
        else false
      else false
  end.

Definition sanitizeWebSocketRequest (req : Request) : Request :=
  mapHeader (fun h => fold_left Header_Del
    [str "Proxy-Connection"; str "X-Forwarded-For"; str "Via"; str "X-Real-IP"] h) req.

(** ** Captured bodies *)

Record teeBuffer := MkTee { tee_limit : Z; tee_buf : bytes; tee_full : bool }.

Definition teeBuffer_Write (t : teeBuffer) (p : bytes) : teeBuffer :=
  if tee_full t then t
  else
    let remaining := (tee_limit t - Z.of_nat (length (tee_buf t)))%Z in
    if (remaining <=? 0)%Z then MkTee (tee_limit t) (tee_buf t) true
    else if (remaining <? Z.of_nat (length p))%Z
    then MkTee (tee_limit t) (tee_buf t ++ take (Z.to_nat remaining) p) true
    else MkTee (tee_limit t) (tee_buf t ++ p) false.

Record bodyCapture := MkBodyCapture { wantLog : bool; tee : option teeBuffer; skipped : bytes }.

(** The options of a capture. *)
Record captureOptions := MkCaptureOptions { LogBodies : bool; MaxCaptureBytes : Z; DumpDir : bytes }.

Definition defaultDumpCaptureBytes : Z := 8 * 2 ^ 20.

Definition newBodyCapture (hasBody : bool) (opts : captureOptions) : bodyCapture :=
  let want := LogBodies opts && negb (MaxCaptureBytes opts =? 0)%Z in
  if negb hasBody then MkBodyCapture want None []
  else if decide (DumpDir opts = []) then
    MkBodyCapture want None (if want then [] else str "capture disabled")
  else
    let limit := if (MaxCaptureBytes opts <=? 0)%Z then defaultDumpCaptureBytes else MaxCaptureBytes opts in
    MkBodyCapture want (Some (MkTee limit [] false)) [].

(** What the capture sees of the writes of a copy, through [io.TeeReader]. *)
Definition capture_writes (c : bodyCapture) (writes : list bytes) : bodyCapture :=
  MkBodyCapture (wantLog c) ((fun t => fold_left teeBuffer_Write writes t) <$> tee c) (skipped c).

Definition logBytes (c : option bodyCapture) (n : Z) : Z :=
  match c with Some c => if wantLog c then n else (-1)%Z | None => (-1)%Z end.

Definition dumpPayload (c : option bodyCapture) : bytes * bool * bytes :=
  match c with
  | None => ([], false, [])
  | Some c => match tee c with
              | None => ([], false, skipped c)
              | Some t => (tee_buf t, tee_full t, [])
              end
  end.

Section relay.
Context `{UnicodeTables} `{ContentSniffer} `{Regexp}.

(** ** What is inspected *)

Definition bodyMethod (m : bytes) : bool := bool_decide (m ∈ [str "POST"; str "PUT"; str "PATCH"]).

Definition shouldInspectRequest (req : Request) : bool :=
  if negb (rq_HasBody req) then false
  else if negb (bodyMethod (Method req)) then false
  else if isSupportedInspectEncoding (Header_Get (rq_Header req) (str "Content-Encoding"))
  then isMutableRequestContentType (Header_Get (rq_Header req) (str "Content-Type"))
  else false.

Definition shouldSubstituteRequest (req : Request) : bool :=
  if negb (rq_HasBody req) then false
  else if negb (bodyMethod (Method req)) then false
  else
    let ce := normalizeContentEncoding (Header_Get (rq_Header req) (str "Content-Encoding")) in
    if bool_decide (ce <> []) && bool_decide (ce <> str "identity") then false
    else
      let ct := Header_Get (rq_Header req) (str "Content-Type") in
      if isMutableRequestContentType ct then true
      else bytes_eqb (mediaTypeOf ct) (str "multipart/form-data").

Definition shouldBlockOnMatch (req : Request) : bool :=
  let host := ToLower (rq_Host req) in
  if Contains host (str "aistudio.google") || Contains host (str "googleapis.com")
     || Contains host (str "clients6.google.com")
  then true
  else
    let ct := ToLower (Header_Get (rq_Header req) (str "Content-Type")) in
    Contains ct (str "protobuf") || Contains ct (str "grpc").

Definition isRangeOrMediaResponse (resp : Response) : bool :=
  if (StatusCode resp =? 206)%Z then true
  else if match rs_Request resp with
          | Some req => bool_decide (Header_Get (rq_Header req) (str "Range") <> [])
          | None => false
          end
  then true
  else
    let ct := mediaTypeOf (Header_Get (rs_Header resp) (str "Content-Type")) in
    HasPrefix ct (str "video/") || HasPrefix ct (str "audio/").

Definition hasMagicFilter (content : option ContentFilter) : bool :=
  match content with
  | Some c => match cf_Magic c with Some m => bool_decide (mf_blocked m <> ∅) | None => false end
  | None => false
  end.

Definition shouldInspectResponse (resp : Response) (filter : option ContentFilter) : bool :=
  if negb (isSupportedInspectEncoding (Header_Get (rs_Header resp) (str "Content-Encoding"))) then false
  else if isRangeOrMediaResponse resp then false
  else if isFilterMutableResponseType (Header_Get (rs_Header resp) (str "Content-Type")) then true
  else hasMagicFilter filter.

(** Whether the antivirus scans the response. *)
Definition antivirusForResponse (resp : Response) (filter : option ContentFilter) : bool :=
  if negb (rs_HasBody resp && (StatusCode resp =? 200)%Z) then false
  else if isRangeOrMediaResponse resp then false
  else if isMutableContentType (Header_Get (rs_Header resp) (str "Content-Type")) then false
  else match filter with Some c => cf_Antivirus c | None => false end.

(** ** Writing a response *)

(** A response whose body is filtered: its length is no longer known. *)
Definition unframe (resp : Response) : Response :=
  MkResponse (Status resp) (StatusCode resp) (Header_Del (rs_Header resp) (str "Content-Length")) (-1)
    [str "chunked"] (rs_Close resp) (rs_HasBody resp) (rs_Request resp).

(** The engine of a response; [None] is a nil filter. *)
Definition responseEngine (filter : option ContentFilter) (resp : Response) : engine :=
  match filter with
  | None => Single StPass
  | Some c => respFilter c (Header_Get (rs_Header resp) (str "Content-Type")) (rs_Request resp)
  end.

Definition blockOf (d : bool * bytes * bytes) : PolicyDecision :=
  if d.1.1 then blockDecision d.1.2 d.2 else noDecision.

(** The copy of a body that is not inspected: the writes and the error that
    ends them. *)
Fixpoint plainCopy (src : list readEvent) : list bytes * readError :=
  match src with
  | [] => ([], EOF)
  | (data, err) :: src' =>
      let '(rest, e) := match err with Some e => ([], e) | None => plainCopy src' end in
      (if decide (data = []) then rest else data :: rest, e)
  end.

(** [writeResponseStreaming] of a response with a body, for the filters of the
    relay (not the antivirus), when the body is not compressed: the bytes on
    the connection and the decision.  [bypass] is the exemption of the request,
    [k] the buffer of the copy, [fuel] bounds its reads. *)
Definition writeResponseStreaming (statusText : Z -> bytes) (fuel k : nat) (bypass : bool)
    (filter : option ContentFilter) (resp : Response) (trailers : Header) (src : list readEvent)
    : option (bytes * PolicyDecision * readError) :=
  if shouldInspectResponse resp filter && negb bypass then
    '(writes, err, r) ← copyReader fuel k (newInspectReader src (responseEngine filter resp));
    let resp := unframe resp in
    Some (writeResponseHeader statusText resp
          ++ writeBodyStreaming writes (responseUsesChunked resp) trailers,
          blockOf (engine_Decision (ir_engine r)), err)
  else
    let '(writes, err) := plainCopy src in
    Some (writeResponseHeader statusText resp
          ++ writeBodyStreaming writes (responseUsesChunked resp) trailers,
          noDecision, err).

(** The answer to a blocked request. *)
Definition policyBlockBody : bytes :=
  str "<!doctype html><html lang=" ++ [Byte.x22] ++ str "en" ++ [Byte.x22]
  ++ str "><head><meta charset=" ++ [Byte.x22] ++ str "utf-8" ++ [Byte.x22]
  ++ str "><title>Access denied - LucidGate</title></head><body><h1>Access denied</h1><p>LucidGate blocked this request by URL policy.</p></body></html>".

Definition policyBlockResponse : bytes :=
  str "HTTP/1.1 403 Forbidden" ++ CRLF ++ str "Content-Type: text/html; charset=utf-8" ++ CRLF
  ++ str "Cache-Control: no-store" ++ CRLF ++ str "X-Content-Type-Options: nosniff" ++ CRLF
  ++ str "Connection: close" ++ CRLF
  ++ str "Content-Length: " ++ Itoa (Z.of_nat (length policyBlockBody)) ++ CRLF ++ CRLF ++ policyBlockBody.

Definition redirectResponse (targetURL : bytes) : bytes :=
  str "HTTP/1.1 302 Found" ++ CRLF ++ str "Location: " ++ targetURL ++ CRLF
  ++ str "Content-Length: 0" ++ CRLF ++ str "Connection: close" ++ CRLF ++ CRLF.

(** ** Writing a request *)

(** The stages a request body goes through: the phrase filter, then the
    substitution filter, each in a reader of its own. *)
Definition requestSubstitution (bypass : bool) (subst : option SubstitutionFilter) (req : Request)
    (protoAtLeast11 : bool) : option multiSubstitutionStreamFilter :=
  match subst with
  | None => None
  | Some s =>
      if negb bypass && HasRules s && shouldSubstituteRequest req && protoAtLeast11 then
        let f := newSubstitutionStream s in
        Some (MultiSubstitution (ms_rules f) (ms_regexRules f) (ms_pending f) (ms_maxWindow f)
                (ms_lengthPreserved f) (ms_BlockOnMatch f || shouldBlockOnMatch req)
                (ms_matchedError f) (ms_matches f))
      else None
  end.

(** The writes of one reader as the reads of the next. *)
Definition rereads (writes : list bytes) (err : readError) : list readEvent :=
  map (fun w => (w, None)) writes ++ match err with EOF => [] | e => [([], Some e)] end.

(** [writeRequestStreaming] of a request with a body: the bytes to the origin,
    the decision and the error, once the error of the exfiltration preventer
    is a decision. *)
Definition writeRequestStreaming (fuel k : nat) (bypass : bool) (filter : option ContentFilter)
    (subst : option SubstitutionFilter) (protoAtLeast11 : bool) (req : Request) (trailers : Header)
    (src : list readEvent) : option (bytes * PolicyDecision * readError) :=
  '(src, dec) ←
    (if negb bypass && shouldInspectRequest req then
       '(writes, err, r) ← copyReader fuel k
          (newInspectReader src (match filter with Some c => reqFilter c | None => Single StPass end));
       Some (rereads writes err, blockOf (engine_Decision (ir_engine r)))
     else Some (src, noDecision));
  '(writes, err) ←
    (match requestSubstitution bypass subst req protoAtLeast11 with
     | Some f => '(writes, err, _) ← copyReader fuel k (newInspectReader src f); Some (writes, err)
     | None => Some (plainCopy src)
     end);
  let wire := writeRequestHeader req ++ writeBodyStreaming writes (requestUsesChunked req) trailers in
  Some (match err with
        | FilterFailed ErrSecretExfiltrationBlocked =>
            (wire, blockDecision (str "exfiltration preventer") (str "sensitive data exfiltration blocked"), EOF)
        | _ => (wire, dec, err)
        end).

End relay.
