(* ===== verification/Exchange.v ===== *)
(** * Exchanges: errors, options, calls and logs (proxy/relay.go)

    What the connection loop of relay.go and the handlers of server.go share:
    the errors they pass around, the options of an exchange, the calls they
    make and the log of an exchange.  A handler is a program (Effects) over
    the calls [proxyE]; sockets, clocks, the tables shared with other
    connections and the copy of a body are answered by the environment. *)

From S2P Require Import Prelude Effects GoStrings GoConv GoRegexp GoUrl GoNetip Http GoMime DomainTrie DomainRules Framing PolicyRules UrlRules Policy SemanticFilter FilterEngine InspectReader BodyFilters MaskingFilter ContentFilter AuditScope UpstreamPool Relay.

(** [<] on float64. *)
Definition f64_ltb : float64 -> float64 -> bool := SpecFloat.SFltb.

(** ** Errors *)

(** What the code can find out about an error with [errors.Is], [errors.As]
    or a type assertion. *)
Inductive errorKind :=
| KEOF                          (* io.EOF *)
| KTimeout                      (* a net.Error with Timeout() *)
| KClosed                       (* io.ErrClosedPipe, net.ErrClosed *)
| KEPIPE | KECONNRESET          (* syscall errors *)
| KNotSupported                 (* http.ErrNotSupported *)
| KPolicy (d : PolicyDecision)  (* *policyBlockError *)
| KNegotiatedH2                 (* errNegotiatedH2 *)
| KOpenState                    (* gobreaker.ErrOpenState *)
| KExfiltration                 (* ErrSecretExfiltrationBlocked *)
| KAntivirus                    (* ErrAntivirusBlocked *)
| KOther.

(** [Wrapped m e] is [fmt.Errorf("m: %w", e)]. *)
Inductive error :=
| Fault (k : errorKind) (msg : bytes)
| Wrapped (msg : bytes) (e : error)
| benignError (e : error).

Fixpoint kindOf (e : error) : errorKind :=
  match e with Fault k _ => k | Wrapped _ e => kindOf e | benignError e => kindOf e end.

(** [e.Error()]. *)
Fixpoint errorText (e : error) : bytes :=
  match e with
  | Fault _ msg => msg
  | Wrapped msg e => msg ++ str ": " ++ errorText e
  | benignError e => errorText e
  end.

(** The type assertion to [interface{ Benign() bool }]: not through wrapping. *)
Definition Benign (e : error) : bool := match e with benignError _ => true | _ => false end.

Definition isEOF (e : error) : bool := match kindOf e with KEOF => true | _ => false end.

Definition isTimeoutError (e : error) : bool := match kindOf e with KTimeout => true | _ => false end.

Definition isNegotiatedH2 (e : error) : bool := match kindOf e with KNegotiatedH2 => true | _ => false end.

Definition isOpenState (e : error) : bool := match kindOf e with KOpenState => true | _ => false end.

Definition canReadPastDeadlineRefreshError (e : error) : bool :=
  match kindOf e with KClosed => true | _ => false end.

(** [ErrSecretExfiltrationBlocked] is a [*policyBlockError] too. *)
Definition exfiltrationDecision : PolicyDecision :=
  blockDecision (str "exfiltration preventer") (str "sensitive data exfiltration blocked").

Definition policyDecisionFromError (e : error) : option PolicyDecision :=
  match kindOf e with KPolicy d => Some d | KExfiltration => Some exfiltrationDecision | _ => None end.

Definition isBenignRelayError (err : option error) (bytesWritten contentLength : Z) (resp : Response) : bool :=
  match err with
  | None => false
  | Some e =>
      let errStr := errorText e in
      let isBrokenPipe :=
        Contains errStr (str "broken pipe") || Contains errStr (str "connection reset by peer")
        || Contains errStr (str "i/o timeout")
        || match kindOf e with KEPIPE | KECONNRESET => true | _ => false end in
      if negb isBrokenPipe then false
      else if (0 <=? contentLength)%Z && (contentLength <=? bytesWritten)%Z then true
      else (contentLength =? 0)%Z || (StatusCode resp =? 204)%Z || (StatusCode resp =? 304)%Z
  end.

(** ** Requests with their context *)

Record LogPhraseMatch := MkLogPhrase {
  lp_Matched : bool;
  lp_Suppressed : bool;
  lp_MatchType : bytes;
  lp_Value : bytes;
}.

(** A request with what its context carries: the exemption from filters and
    the phrase match to log; [TLS != nil], [RemoteAddr] and [Proto]. *)
Record Exchange := MkExchange {
  x_req : Request;
  x_bypass : bool;
  x_phrase : option LogPhraseMatch;
  x_tls : bool;
  x_remoteAddr : bytes;
  x_protoAtLeast11 : bool;
}.

Definition withReq (x : Exchange) (req : Request) : Exchange :=
  MkExchange req (x_bypass x) (x_phrase x) (x_tls x) (x_remoteAddr x) (x_protoAtLeast11 x).

Definition withBypass (x : Exchange) : Exchange :=
  MkExchange (x_req x) true (x_phrase x) (x_tls x) (x_remoteAddr x) (x_protoAtLeast11 x).

Definition withPhrase (x : Exchange) (p : option LogPhraseMatch) : Exchange :=
  match p with
  | None => x
  | Some _ => MkExchange (x_req x) (x_bypass x) p (x_tls x) (x_remoteAddr x) (x_protoAtLeast11 x)
  end.

Definition setURL (req : Request) (u : option URL) (host : bytes) : Request :=
  MkRequest (Method req) u (rq_Header req) host (rq_ContentLength req) (rq_TransferEncoding req)
    (rq_Close req) (rq_HasBody req).

Definition setClose (req : Request) (c : bool) : Request :=
  MkRequest (Method req) (rq_URL req) (rq_Header req) (rq_Host req) (rq_ContentLength req)
    (rq_TransferEncoding req) c (rq_HasBody req).

Definition setResponseHeader (resp : Response) (h : Header) : Response :=
  MkResponse (Status resp) (StatusCode resp) h (rs_ContentLength resp) (rs_TransferEncoding resp)
    (rs_Close resp) (rs_HasBody resp) (rs_Request resp).

(** [url.URL.Hostname]. *)
Definition Hostname (u : URL) : bytes :=
  let host := u_Host u in
  let host := match LastIndexByte host ":" with
              | Some colon => if validOptionalPort (drop colon host) then take colon host else host
              | None => host
              end in
  if HasPrefix host (str "[") && HasSuffix host (str "]") then take (length host - 2) (drop 1 host) else host.

(** [if req.URL != nil && req.URL.Hostname() != "" { host = req.URL.Hostname() }]. *)
Definition urlHostOr (req : Request) (host : bytes) : bytes :=
  match rq_URL req with
  | Some u => if bytes_eqb (Hostname u) [] then host else Hostname u
  | None => host
  end.

(** [host := req.Host; if host == "" && req.URL != nil { host = req.URL.Host }]. *)
Definition requestHost (req : Request) : bytes :=
  if bytes_eqb (rq_Host req) [] then match rq_URL req with Some u => u_Host u | None => [] end else rq_Host req.

(** ** Options *)

(** [slog.Attr]. *)
Inductive attr := AString (key value : bytes) | AInt (key : bytes) (value : Z) | ABool (key : bytes) (value : bool).

(** The loggers a record can go to. *)
Inductive sink := MainLog | AccessLog | AlertLog.

Section exchange.
Context `{UnicodeTables} `{ContentSniffer} `{Regexp} `{PrefixTable}.

(** [RelayOptions]; a pointer the relay only tests is a bool, and
    [op_NoneModeTunnel] is [AuditScope.NoneMode() == "tunnel"].  The fields
    the audit scope changes are those of [AuditScope.RelayOptions]. *)
Record Options := MkOptions {
  op_scoped : RelayOptions;
  op_LogBodiesSampleRate : float64;
  op_MaxCaptureBytes : Z;
  op_DumpOnPolicyHit : bool;
  op_DumpCredentialsCleartext : bool;
  op_AuditKey : bytes;
  op_DumpMaxSizeMB : Z;
  op_DumpMaxBackups : Z;
  op_DumpMinFreeSpaceMB : Z;
  op_DumpCompress : bool;
  op_IOTimeout : Z;
  op_WSIdleTimeout : Z;
  op_Policy : option Policy;
  op_AuditScope : bool;
  op_NoneModeTunnel : bool;
  op_RoundTripH2 : bool;
  op_H2Hosts : bool;
  op_HTTP3Enabled : bool;
  op_HTTP3Port : bytes;
  op_AccessLogger : bool;
  op_AlertLogger : bool;
  op_AlertCategories : gset bytes;
}.

Definition setScoped (o : Options) (s : RelayOptions) : Options :=
  MkOptions s (op_LogBodiesSampleRate o) (op_MaxCaptureBytes o) (op_DumpOnPolicyHit o)
    (op_DumpCredentialsCleartext o) (op_AuditKey o) (op_DumpMaxSizeMB o) (op_DumpMaxBackups o)
    (op_DumpMinFreeSpaceMB o) (op_DumpCompress o) (op_IOTimeout o) (op_WSIdleTimeout o) (op_Policy o)
    (op_AuditScope o) (op_NoneModeTunnel o) (op_RoundTripH2 o) (op_H2Hosts o) (op_HTTP3Enabled o) (op_HTTP3Port o)
    (op_AccessLogger o) (op_AlertLogger o) (op_AlertCategories o).

Definition scopedOptions (o : Options) (dec : AuditScopeDecision) : Options :=
  setScoped o (ForAuditScope (op_scoped o) dec).

Definition op_LogBodies (o : Options) : bool := ro_LogBodies (op_scoped o).
Definition op_DumpDir (o : Options) : bytes := ro_DumpDir (op_scoped o).

(** The options a capture reads. *)
Definition captureOf (o : Options) : captureOptions :=
  MkCaptureOptions (op_LogBodies o) (op_MaxCaptureBytes o) (op_DumpDir o).

(** [exchangeOpts.LogBodies = false; exchangeOpts.DumpDir = ""]. *)
Definition withoutCapture (o : Options) : Options :=
  setScoped o (MkRelayOptions false [] (ro_Filter (op_scoped o)) (ro_RequestFilter (op_scoped o))
                 (ro_RequestSubstitutionFilter (op_scoped o))).

(** The content filter of a direction, for the functions that assert
    [*ContentFilter]. *)
Definition contentOf (f : filterEngine) : option ContentFilter :=
  match f with Content c => Some c | _ => None end.

(** ** Calls *)

Inductive peer := Client | Upstream (c : nat).

(** How a body is copied: the filter engine and the encoding it works under,
    the substitution behind it, the antivirus, the framing and the capture. *)
Record bodyPlan := MkPlan {
  pl_engine : option engine;
  pl_encoding : bytes;
  pl_subst : option multiSubstitutionStreamFilter;
  pl_antivirus : bool;
  pl_chunked : bool;
  pl_capture : bodyCapture;
}.

(** What a copy did: the bytes and the chunks it wrote, its error, and what
    the engine decided by then. *)
Record copied := MkCopied {
  cp_n : Z;
  cp_writes : list bytes;
  cp_err : option error;
  cp_decision : bool * bytes * bytes;
  cp_phrase : option LogPhraseMatch;
}.

Record dumpEntry := MkDumpEntry {
  de_Timestamp : bytes;
  de_ExchangeID : bytes;
  de_Direction : bytes;
  de_Method : bytes;
  de_Host : bytes;
  de_Path : bytes;
  de_Status : Z;
  de_ContentType : bytes;
  de_Encoding : bytes;
  de_Headers : gmap bytes bytes;
  de_Body : bytes;
  de_BodyB64 : bool;
  de_BodyBytes : Z;
  de_Truncated : bool;
  de_Skipped : bytes;
  de_ContainsCleartextCredentials : bool;
  de_ClientIP : bytes;
  de_ClientDevice : bytes;
  de_User : bytes;
  de_PolicyAction : bytes;
  de_PolicyList : bytes;
  de_BodyHash : bytes;
}.

Inductive proxyE : Type -> Type :=
(* connections *)
| SetReadDeadline (p : peer) (timeout : Z) : proxyE (option error)
| SetWriteDeadline (p : peer) (timeout : Z) : proxyE (option error)
| SetDeadline (p : peer) (timeout : Z) : proxyE (option error)
| ClearDeadline (p : peer) : proxyE (option error)
| ReadRequest : proxyE (result error Exchange)
| ReadResponse (c : nat) (x : Exchange) : proxyE (result error Response)
| Buffered (p : peer) : proxyE Z
| Peek (c : nat) (n : Z) : proxyE bytes
| Write (p : peer) (b : bytes) : proxyE (option error)
| WriteRequest (c : nat) (req : Request) : proxyE (option error)
| WriteResponse (resp : Response) : proxyE (option error)
| CopyBody (dst : peer) (plan : bodyPlan) : proxyE copied
| CloseRequestBody : proxyE unit
| CloseResponseBody : proxyE unit
| CloseConn (p : peer) : proxyE unit
| Pump (c : nat) (idle : Z) : proxyE unit
| Tunnel (c : nat) : proxyE unit
(* the writer of a response *)
| SetHeader (key value : bytes) : proxyE unit
| DelHeader (key : bytes) : proxyE unit
| ReplaceHeaders (h : Header) : proxyE unit
| WriteHeader (status : Z) : proxyE unit
| WriteBody (b : bytes) : proxyE unit
| SetClientDeadline (read : bool) (timeout : Z) : proxyE (option error)
| Hijack : proxyE (option (result error Z))
| TrackConn : proxyE unit
| UntrackConn : proxyE unit
| Handshake : proxyE (result error bytes)
| NextStream : proxyE (option Exchange)
(* the upstream *)
| TakeIdle (key : upstreamPoolKey) : proxyE (option nat)
| Release (c : nat) (reusable : bool) : proxyE unit
| Resolve (address : bytes) (force : bool) : proxyE (result error (bytes * bytes))
| BreakerAllow (host : bytes) : proxyE (option error)
| BreakerReport (host : bytes) (success : bool) : proxyE unit
| DialTCP (address : bytes) : proxyE (result error nat)
| DialTLS (address serverName : bytes) : proxyE (result error nat)
| NegotiatedProtocol (c : nat) : proxyE (option bytes)
| NewClientConn (c : nat) : proxyE (option error)
| StoreH2Host (host : bytes) (h2 : bool) : proxyE unit
| StoreH2Conn (host : bytes) (c : nat) : proxyE unit
| LoadH2Conn (host : bytes) : proxyE (option nat)
| HostIsH2 (host : bytes) : proxyE bool
| RoundTripConn (c : nat) (x : Exchange) (plan : option bodyPlan) : proxyE (result error Response)
| RoundTripTransport (x : Exchange) (plan : option bodyPlan) : proxyE (result error Response)
(* admission *)
| AcquirePermit (profile : bytes) : proxyE (result bytes nat)
| ReleasePermit (permit : nat) : proxyE unit
| RateAllow (ip : bytes) (limit : float64) (burst : Z) : proxyE bool
| PreGenerateCert (host : bytes) : proxyE bool
(* shared tables, chance and time *)
| Decide (x : Exchange) (host : bytes) : proxyE AuditScopeDecision
| RandFloat64 : proxyE float64
| NewExchangeID : proxyE bytes
| Timestamp : proxyE bytes
| Stat (path : bytes) : proxyE bool
| Statfs (path : bytes) : proxyE (option (Z * Z))
(* metrics, logs and dumps *)
| Count (metric : bytes) (labels : list bytes) : proxyE unit
| Log (s : sink) (msg : bytes) (attrs : list attr) : proxyE unit
| Enqueue (opts : Options) (entry : dumpEntry) : proxyE unit.

Abbreviation program := (prog proxyE).

(** ** Deadlines *)

Definition setReadDeadline (p : peer) (timeout : Z) : program (option error) :=
  if (timeout <=? 0)%Z then Return None else call (SetReadDeadline p timeout).

Definition setWriteDeadline (p : peer) (timeout : Z) : program (option error) :=
  if (timeout <=? 0)%Z then Return None else call (SetWriteDeadline p timeout).

(** A refresher of a deadline, or none: [connReadDeadlineRefresher] and
    [connWriteDeadlineRefresher] of a connection. *)
Abbreviation refresher := (option (program (option error))).

Definition connReadDeadlineRefresher (p : option peer) (timeout : Z) : refresher :=
  match p with
  | Some p => if (timeout <=? 0)%Z then None else Some (call (SetReadDeadline p timeout))
  | None => None
  end.

Definition connWriteDeadlineRefresher (p : option peer) (timeout : Z) : refresher :=
  match p with
  | Some p => if (timeout <=? 0)%Z then None else Some (call (SetWriteDeadline p timeout))
  | None => None
  end.

(** [idleDeadlineReader.Read] and [idleDeadlineReadCloser.Read] around the
    read of the reader they wrap. *)
Definition idleDeadlineRead (refresh : refresher) (read : program (bytes * option error))
    : program (bytes * option error) :=
  match refresh with
  | None => read
  | Some refresh =>
      deadlineErr ← refresh;
      match deadlineErr with
      | Some e =>
          if negb (canReadPastDeadlineRefreshError e) then Return ([], Some e)
          else
            '(data, err) ← read;
            match err with
            | None => if bytes_eqb data [] then Return ([], Some e) else Return (data, None)
            | Some err => Return (data, Some err)
            end
      | None => read
      end
  end.

(** [idleDeadlineWriter.Write] and [idleDeadlineResponseWriter.Write]: the
    count and the error. *)
Definition idleDeadlineWrite (refresh : refresher) (write : program (Z * option error)) : program (Z * option error) :=
  match refresh with
  | None => write
  | Some refresh => err ← refresh; match err with Some e => Return (0%Z, Some e) | None => write end
  end.

Definition readCloserWithIdleDeadline (refresh : refresher) (r : option (program (bytes * option error)))
    : option (program (bytes * option error)) :=
  idleDeadlineRead refresh <$> r.

Definition writerWithIdleDeadline (refresh : refresher) (w : option (program (Z * option error)))
    : option (program (Z * option error)) :=
  idleDeadlineWrite refresh <$> w.

(** ** Logs *)

Definition requestPath (req : Request) : bytes :=
  let path := match rq_URL req with Some u => RequestURI u | None => [] end in
  if bytes_eqb path [] then str "/" else path.

(** The logger of an exchange: [opts.AccessLogger], or the one of the server,
    which may be nil. *)
Definition targetLogger (hasLogger : bool) (opts : Options) : option sink :=
  if op_AccessLogger opts then Some AccessLog else if hasLogger then Some MainLog else None.

Definition alert (opts : Options) (category : bytes) (attrs : list attr) : program unit :=
  if negb (bytes_eqb category []) && bool_decide (category ∈ op_AlertCategories opts) then
    call (Count (str "AlertsTotal") [category]) ;;
    when (op_AlertLogger opts) (call (Log AlertLog (str "exchange") attrs))
  else Return tt.

Definition logExchangeBlocked (hasLogger : bool) (x : Exchange) (decision : PolicyDecision) (opts : Options)
    : program unit :=
  match targetLogger hasLogger opts with
  | None => Return tt
  | Some target =>
      let req := x_req x in
      let attrs :=
        [AString (str "method") (Method req); AString (str "host") (rq_Host req);
         AString (str "path") (requestPath req); AInt (str "status") 403;
         ABool (str "policy_blocked") true;
         AString (str "policy_match_type") (MatchType decision);
         AString (str "policy_value") (Value decision); AString (str "profile") (str "default")] in
      call (Log target (str "exchange") attrs) ;;
      alert opts (MatchType decision) attrs
  end.

(** What the log of an exchange says about the policy: nothing to write, or
    the line with the list that asked for it. *)
Inductive policyLog := LogSuppressed | LogPlain | LogListed (matchType listName matchVal : bytes).

Definition exchangeLog (x : Exchange) (opts : Options) : policyLog :=
  let dec := match op_Policy opts with
             | Some _ => EvaluateLogging (op_Policy opts) (requestHost (x_req x)) (Some (x_req x)) (str "https")
             | None => noLogDecision
             end in
  if suppressed dec then LogSuppressed
  else
    let fromPolicy := if shouldLog dec then LogListed (ld_matchType dec) (listName dec) (matchVal dec) else LogPlain in
    match x_phrase x with
    | None => fromPolicy
    | Some pm =>
        if lp_Suppressed pm then LogSuppressed
        else if lp_Matched pm && negb (shouldLog dec)
        then LogListed (lp_MatchType pm) (str "logphraselist") (lp_Value pm)
        else fromPolicy
    end.

Definition exchangeAttrs (x : Exchange) (resp : option Response) (reqBytes respBytes : Z) (log : policyLog) : list attr :=
  let req := x_req x in
  [AString (str "method") (Method req); AString (str "host") (rq_Host req);
   AString (str "path") (requestPath req); AInt (str "req_bytes") reqBytes]
  ++ match resp with
     | Some resp => [AInt (str "status") (StatusCode resp); AInt (str "resp_bytes") respBytes]
     | None => []
     end
  ++ match log with
     | LogListed matchType listName matchVal =>
         [ABool (str "policy_log") true; AString (str "policy_match_type") matchType;
          AString (str "policy_list") listName; AString (str "policy_value") matchVal]
     | _ => []
     end.

Definition logExchange (hasLogger : bool) (x : Exchange) (resp : option Response) (reqBytes respBytes : Z)
    (opts : Options) : program unit :=
  match targetLogger hasLogger opts with
  | None => Return tt
  | Some target =>
      when (0 <? reqBytes)%Z (call (Count (str "BytesTransferred") [str "in"; Itoa reqBytes])) ;;
      when (0 <? respBytes)%Z (call (Count (str "BytesTransferred") [str "out"; Itoa respBytes])) ;;
      let log := exchangeLog x opts in
      let attrs := exchangeAttrs x resp reqBytes respBytes log in
      match log with
      | LogSuppressed => Return tt
      | LogPlain => call (Log target (str "exchange") attrs)
      | LogListed _ listName _ =>
          call (Count (str "RuleHits") [str "default"; listName; str "log"]) ;;
          call (Log target (str "exchange") attrs) ;;
          alert opts listName attrs
      end
  end.

(** ** Policy hits *)

(** Whether an exchange is of interest to the policy.  [resp.Request] is the
    request itself, so its phrase match is that of [x]. *)
Definition isPolicyHit (x : Exchange) (reqDec respDec : PolicyDecision) (policy : option Policy) : bool :=
  if Blocked reqDec || Blocked respDec then true
  else
    let dec := match policy with
               | Some _ =>
                   EvaluateLogging policy (urlHostOr (x_req x) (requestHost (x_req x))) (Some (x_req x))
                     (if x_tls x then str "https" else str "http")
               | None => noLogDecision
               end in
    if suppressed dec then false
    else if shouldLog dec then true
    else match x_phrase x with
         | Some pm => if lp_Suppressed pm then false else lp_Matched pm
         | None => false
         end.

Definition determineAction (x : Exchange) (reqDec respDec : PolicyDecision) (policy : option Policy) : bytes :=
  if Blocked reqDec || Blocked respDec then str "blocked"
  else if isPolicyHit x reqDec respDec policy then str "audited"
  else str "allowed".

End exchange.

Abbreviation program := (prog proxyE).
