(* ===== verification/Dump.v ===== *)
(** * Dumps of exchanges (proxy/relay.go)

    The record of a request or a response: which headers and bodies are
    redacted, what is left out, and when the disk is too full.  Digests,
    decoders and the compiled expressions of the redaction are parameters. *)

From S2P Require Import Prelude Effects GoStrings GoConv GoPem GoRegexp GoUrl GoNetip GoPath GoMime Http DomainTrie DomainRules PolicyRules UrlRules Policy SemanticFilter FilterEngine InspectReader BodyFilters MaskingFilter ContentFilter AuditScope Relay Exchange.

(** ** Encodings of the standard library *)

Fixpoint utf8_Valid_fuel (fuel : nat) (s : bytes) : bool :=
  match fuel, s with
  | S fuel', _ :: _ =>
      let '(r, w) := DecodeRune s in
      if N.eqb r RuneError && Nat.eqb w 1 then false else utf8_Valid_fuel fuel' (drop w s)
  | _, _ => true
  end.

(** [utf8.Valid]. *)
Definition utf8_Valid (s : bytes) : bool := utf8_Valid_fuel (length s) s.

(** ** Parameters *)

(** [hmac_hex key v] and [sha256_hex v] are lower-case hexadecimal digests.
    A decoder turns a compressed body into the body, or fails with the text
    of the error. *)
Class Digests : Type := {
  hmac_hex : bytes -> bytes -> bytes;
  sha256_hex : bytes -> bytes;
  gunzip : bytes -> result bytes bytes;
  inflate : bytes -> result bytes bytes;
  unbrotli : bytes -> result bytes bytes;
  unzstd : bytes -> result bytes bytes;
}.

Section dump.
Context `{UnicodeTables} `{ContentSniffer} `{Regexp} `{PrefixTable} `{Digests}.

(** ** Redaction *)

Definition hmacString (key val : bytes) : bytes :=
  if bytes_eqb key [] then str "[REDACTED]" else str "[REDACTED:HMAC-" ++ hmac_hex key val ++ str "]".

Definition sensitiveHeader (k : bytes) : bool :=
  bool_decide (ToLower k ∈ [str "authorization"; str "cookie"; str "set-cookie"; str "proxy-authorization"]).

Definition redactHeaders (h : gmap bytes bytes) (auditKey : bytes) (dumpCleartext : bool) : gmap bytes bytes :=
  if dumpCleartext then h
  else map_imap (fun k v => Some (if sensitiveHeader k then hmacString auditKey v else v)) h.

(** The compiled expressions of the redaction. *)
Record redactionRegexes := MkRedaction {
  jwtRegex : regexp;
  jsonKeyRegex : regexp;
  formKeyRegex : regexp;
  fallbackRegex : regexp;
}.

(** [ReplaceAllStringFunc]: what is between the matches is kept. *)
Fixpoint replaceMatches (f : bytes -> bytes) (pos : nat) (s : bytes) (locs : list (nat * nat * list Z)) : bytes :=
  match locs with
  | [] => drop pos s
  | (b, e, _) :: locs' => take (b - pos) (drop pos s) ++ f (take (e - b) (drop b s)) ++ replaceMatches f e s locs'
  end.

Definition ReplaceAllStringFunc (rx : regexp) (s : bytes) (f : bytes -> bytes) : bytes :=
  replaceMatches f 0 s (regexp_FindAllSubmatchIndex rx s).

Definition quote : bytes := [Byte.x22].

Definition redactJSONMatch (auditKey m : bytes) : bytes :=
  match Cut m (str ":") with
  | Some (name, value) =>
      name ++ str ": " ++ quote ++ hmacString auditKey (Trim value (str " " ++ quote)) ++ quote
  | None => m
  end.

Definition redactPairMatch (sep auditKey m : bytes) : bytes :=
  match Cut m sep with
  | Some (name, value) => name ++ sep ++ hmacString auditKey value
  | None => m
  end.

Definition redactBody (rx : redactionRegexes) (body contentType auditKey : bytes) (dumpCleartext : bool) : bytes :=
  if bytes_eqb body [] then []
  else if dumpCleartext then body
  else
    let mt := mediaTypeOf contentType in
    let body := ReplaceAllStringFunc (jwtRegex rx) body (hmacString auditKey) in
    let body :=
      if Contains mt (str "json") then ReplaceAllStringFunc (jsonKeyRegex rx) body (redactJSONMatch auditKey)
      else if bytes_eqb mt (str "application/x-www-form-urlencoded")
      then ReplaceAllStringFunc (formKeyRegex rx) body (redactPairMatch (str "=") auditKey)
      else body in
    ReplaceAllStringFunc (fallbackRegex rx) body (fun m =>
      redactPairMatch (if Contains m (str "=") then str "=" else str ":") auditKey m).

(** ** The record *)

Definition flattenHeaders (h : Header) : gmap bytes bytes :=
  fold_left (fun out '(k, v) => <[k := join_bytes (str ", ") v]> out) h ∅.

Definition isTextualContentType (ct : bytes) : bool :=
  if bytes_eqb ct [] then true
  else
    let mt := mediaTypeOf ct in
    if HasPrefix mt (str "text/") then true
    else if Contains mt (str "json") || Contains mt (str "xml") then true
    else bool_decide (mt ∈ [str "application/javascript"; str "application/x-javascript";
           str "application/ecmascript"; str "application/x-www-form-urlencoded";
           str "application/grpc-web-text"; str "application/x-ndjson"]).

Definition decompressBody (data encoding : bytes) : result bytes bytes :=
  let encoding := ToLower (TrimSpace encoding) in
  if bytes_eqb encoding [] || bytes_eqb encoding (str "identity") then Ok data
  else if bytes_eqb encoding (str "gzip") || bytes_eqb encoding (str "x-gzip") then gunzip data
  else if bytes_eqb encoding (str "deflate") then inflate data
  else if bytes_eqb encoding (str "br") then unbrotli data
  else if bytes_eqb encoding (str "zstd") then unzstd data
  else Err (str "unsupported encoding " ++ quote ++ encoding ++ quote).

(** The loop of [isDiskSpaceLow] to the closest directory that exists; the
    path gets shorter down to the root or to the current directory, so its
    length bounds the rounds. *)
Fixpoint existingAncestor (fuel : nat) (dir : bytes) : program bytes :=
  match fuel with
  | O => Return dir
  | S fuel =>
      exists_ ← call (Exchange.Stat dir);
      if exists_ : bool then Return dir
      else let parent := Dir dir in if bytes_eqb parent dir then Return dir else existingAncestor fuel parent
  end.

Definition isDiskSpaceLow (dir : bytes) (thresholdMB : Z) : program bool :=
  if (thresholdMB <=? 0)%Z then Return false
  else
    checkDir ← existingAncestor (S (S (length dir))) dir;
    stat ← call (Statfs checkDir);
    match stat with
    | None => Return false
    | Some (bavail, bsize) =>
        let freeBytes := wrapU 64 (wrapU 64 bavail * wrapU 64 bsize) in
        Return (freeBytes / (1024 * 1024) <? thresholdMB)%Z
    end.

Definition clientIP (remoteAddr : bytes) : bytes :=
  match SplitHostPort remoteAddr with Some (ip, _) => ip | None => remoteAddr end.

(** The user a request names. *)
Definition dumpUser (h : Header) : bytes :=
  let first (k : bytes) (other : bytes) := let v := Header_Get h k in if bytes_eqb v [] then other else v in
  first (str "X-User") (first (str "X-Forwarded-User") (first (str "X-Auth-Username")
    (let auth := Header_Get h (str "Proxy-Authorization") in
     if HasPrefix (ToLower auth) (str "basic ") then
       match base64_Decode (drop 6 auth) with Some payload => before_byte payload ":" | None => [] end
     else []))).

Definition dumpPolicyList (x : Exchange) (policy : option Policy) : bytes :=
  let listed := match policy with
                | Some _ => listName (EvaluateLogging policy (urlHostOr (x_req x) (rq_Host (x_req x)))
                              (Some (x_req x)) (if x_tls x then str "https" else str "http"))
                | None => []
                end in
  if bytes_eqb listed [] then
    match x_phrase x with Some pm => if lp_Matched pm then str "logphraselist" else [] | None => [] end
  else listed.

(** The body fields of a record: the text, whether it is base64, its length
    and the reason it is left out. *)
Definition dumpBody (rx : redactionRegexes) (opts : Options) (raw contentType encoding skipped : bytes)
    : bytes * bool * Z * bytes :=
  if bytes_eqb raw [] then ([], false, 0%Z, skipped)
  else if negb (bytes_eqb skipped []) then ([], false, Z.of_nat (length raw), skipped)
  else if negb (isTextualContentType contentType)
  then ([], false, Z.of_nat (length raw), str "non-textual content-type")
  else
    let '(decoded, skipped) := match decompressBody raw encoding with
                               | Ok d => (d, [])
                               | Err e => (raw, str "decompress error: " ++ e)
                               end in
    if utf8_Valid decoded
    then (redactBody rx decoded contentType (op_AuditKey opts) (op_DumpCredentialsCleartext opts), false,
          Z.of_nat (length decoded), skipped)
    else (base64_Encode decoded, true, Z.of_nat (length decoded), skipped).

(** [emitDump] of a request ([resp = None]) or of a response; [writeDumpLine]
    marshals the record and queues it. *)
Definition emitDump (rx : redactionRegexes) (opts : Options) (xid : bytes) (x : Exchange) (resp : option Response)
    (payload : bytes * bool * bytes) (policyAction : bytes) : program unit :=
  let '(raw, truncated, skipped) := payload in
  low ← isDiskSpaceLow (op_DumpDir opts) (op_DumpMinFreeSpaceMB opts);
  let skipped := if low && bytes_eqb skipped [] then str "low disk space warning" else skipped in
  ts ← call Timestamp;
  let req := x_req x in
  let headers := match resp with Some resp => rs_Header resp | None => rq_Header req end in
  let contentType := Header_Get headers (str "Content-Type") in
  let encoding := Header_Get headers (str "Content-Encoding") in
  let '(body, b64, n, skipped) := dumpBody rx opts raw contentType encoding skipped in
  call (Enqueue opts (MkDumpEntry ts xid (match resp with Some _ => str "resp" | None => str "req" end)
    (Method req) (rq_Host req) (match rq_URL req with Some u => RequestURI u | None => [] end)
    (match resp with Some resp => StatusCode resp | None => 0%Z end) contentType encoding
    (redactHeaders (flattenHeaders headers) (op_AuditKey opts) (op_DumpCredentialsCleartext opts))
    body b64 n truncated skipped (op_DumpCredentialsCleartext opts) (clientIP (x_remoteAddr x))
    (Header_Get (rq_Header req) (str "User-Agent")) (dumpUser (rq_Header req)) policyAction
    (dumpPolicyList x (op_Policy opts))
    (if bytes_eqb raw [] then [] else sha256_hex raw))).

End dump.
