(* ===== verification/Streaming.v ===== *)
(** * Streaming a message, with its errors (proxy/relay.go)

    [writeRequestStreaming], [writeResponseStreaming] and
    [writeResponseStreamingHTTP] as programs: which filters the body goes
    through, the header block that is sent, and the decision made from the
    outcome of the copy.  Relay and ContentFilter say what the copy does to
    the bytes; here any outcome of it, and a failure of any write, is
    considered.  A header block counts as one write. *)

From S2P Require Import Prelude Effects GoStrings GoRegexp GoNetip GoMime Http DomainTrie DomainRules Framing SemanticFilter FilterEngine InspectReader HtmlFilter MaskingFilter BodyFilters ContentFilter AuditScope Relay Exchange.

Section streaming.
Context `{UnicodeTables} `{ContentSniffer} `{Regexp} `{PrefixTable} (statusText : Z -> bytes).

(** The results of a streaming function: the count for the log, the decision
    and the error, the request with the phrase match found, the capture, and
    the response as the function left it. *)
Record streamed := MkStreamed {
  st_bytes : Z;
  st_dec : PolicyDecision;
  st_err : option error;
  st_x : Exchange;
  st_capture : bodyCapture;
}.

(** The decision behind [ErrAntivirusBlocked]. *)
Definition antivirusDecision (e : error) : PolicyDecision :=
  let prefix := str "antivirus blocked response: " in
  blockDecision (str "antivirus")
    (if HasPrefix (errorText e) prefix then drop (length prefix) (errorText e) else str "antivirus signature").

(** The decision and the phrase match after a copy through [active]. *)
Definition copyDecision (active : option engine) (out : copied) : PolicyDecision * option LogPhraseMatch :=
  match active with
  | Some _ => (blockOf (cp_decision out), cp_phrase out)
  | None => (noDecision, None)
  end.

Definition isAntivirusError (e : option error) : option error :=
  match e with Some err => match kindOf err with KAntivirus => Some err | _ => None end | None => None end.

Definition isExfiltrationError (e : option error) : bool :=
  match e with Some err => match kindOf err with KExfiltration => true | _ => false end | None => false end.

(** ** Requests *)

Definition requestEngine (f : filterEngine) : engine :=
  match f with Content c => reqFilter c | _ => Single StPass end.

Definition streamRequest (hasLogger : bool) (c : nat) (x : Exchange) (cap : bodyCapture) (opts : Options) : program streamed :=
  let req := x_req x in
  if negb (rq_HasBody req) then
    e ← call (WriteRequest c req);
    Return (MkStreamed 0 noDecision e x cap)
  else
    let scoped := op_scoped opts in
    let active := if negb (x_bypass x) && shouldInspectRequest req
                  then Some (requestEngine (ro_RequestFilter scoped)) else None in
    let skips := match ro_RequestSubstitutionFilter scoped with
                 | Some s => negb (x_bypass x) && HasRules s && shouldSubstituteRequest req
                             && negb (x_protoAtLeast11 x)
                 | None => false
                 end in
    when skips (
      call (Count (str "RequestSubstitutionSkippedTotal") [str "framing"]) ;;
      when hasLogger (call (Log MainLog (str "Request body substitution skipped due to unsupported framing") []))) ;;
    e ← call (Write (Upstream c) (writeRequestHeader req));
    match e with
    | Some _ => Return (MkStreamed 0 noDecision e x cap)
    | None =>
        out ← call (CopyBody (Upstream c)
          (MkPlan active [] (requestSubstitution (x_bypass x) (ro_RequestSubstitutionFilter scoped) req (x_protoAtLeast11 x))
             false (requestUsesChunked req) cap));
        let n := logBytes (Some cap) (cp_n out) in
        let cap := capture_writes cap (cp_writes out) in
        if isExfiltrationError (cp_err out) then
          Return (MkStreamed n exfiltrationDecision None x cap)
        else match isAntivirusError (cp_err out) with
             | Some err => Return (MkStreamed n (antivirusDecision err) (cp_err out) x cap)
             | None =>
                 let '(dec, phrase) := copyDecision active out in
                 Return (MkStreamed n dec (cp_err out) (withPhrase x phrase) cap)
             end
    end.

(** ** Responses *)

(** What is done to the body of a response, and the response it leaves. *)
Record responsePlan := MkResponsePlan {
  rp_active : option engine;
  rp_antivirus : bool;
  rp_resp : Response;
}.

Definition planResponse (x : Exchange) (resp : Response) (filter : filterEngine) : responsePlan :=
  let inspect := shouldInspectResponse resp (contentOf filter) && negb (x_bypass x) in
  let antivirus := negb (x_bypass x) && antivirusForResponse resp (contentOf filter) in
  MkResponsePlan (if inspect then Some (responseEngine (contentOf filter) resp) else None) antivirus
    (if inspect || antivirus then unframe resp else resp).

Definition finishResponse (x : Exchange) (cap : bodyCapture) (active : option engine) (out : copied) : streamed :=
  let n := logBytes (Some cap) (cp_n out) in
  let cap := capture_writes cap (cp_writes out) in
  match isAntivirusError (cp_err out) with
  | Some err => MkStreamed n (antivirusDecision err) (cp_err out) x cap
  | None =>
      let '(dec, phrase) := copyDecision active out in
      MkStreamed n dec (cp_err out) (withPhrase x phrase) cap
  end.

Definition streamResponse (x : Exchange) (resp : Response) (cap : bodyCapture) (filter : filterEngine)
    : program (streamed * Response) :=
  if negb (rs_HasBody resp) then
    e ← call (WriteResponse resp);
    Return (MkStreamed 0 noDecision e x cap, resp)
  else
    let plan := planResponse x resp filter in
    e ← call (Write Client (writeResponseHeader statusText (rp_resp plan)));
    match e with
    | Some _ => Return (MkStreamed 0 noDecision e x cap, rp_resp plan)
    | None =>
        out ← call (CopyBody Client
          (MkPlan (rp_active plan) (normalizeContentEncoding (Header_Get (rs_Header resp) (str "Content-Encoding")))
             None (rp_antivirus plan) (responseUsesChunked (rp_resp plan)) cap));
        Return (finishResponse x cap (rp_active plan) out, rp_resp plan)
    end.

Definition streamResponseHTTP (x : Exchange) (resp : Response) (cap : bodyCapture) (filter : filterEngine)
    : program (streamed * Response) :=
  if negb (rs_HasBody resp) then
    call (ReplaceHeaders (copyResponseHeaders (rs_Header resp))) ;;
    call (WriteHeader (StatusCode resp)) ;;
    Return (MkStreamed 0 noDecision None x cap, resp)
  else
    let plan := planResponse x resp filter in
    let resp' := rp_resp plan in
    call (ReplaceHeaders (copyResponseHeaders (rs_Header resp'))) ;;
    (if (0 <=? rs_ContentLength resp')%Z
     then call (SetHeader (str "Content-Length") (Itoa (rs_ContentLength resp')))
     else call (DelHeader (str "Content-Length"))) ;;
    call (WriteHeader (StatusCode resp')) ;;
    out ← call (CopyBody Client
      (MkPlan (rp_active plan) (normalizeContentEncoding (Header_Get (rs_Header resp) (str "Content-Encoding")))
         None (rp_antivirus plan) false cap));
    Return (finishResponse x cap (rp_active plan) out, resp').

End streaming.
