(* ===== verification/WebSocket.v ===== *)
(** * Relaying a WebSocket (proxy/websocket.go)

    The handshake with the upstream and the switch to a raw copy in both
    directions.  [Pump] is the pair of copies; [copyDirection] is one of
    them. *)

From S2P Require Import Prelude Effects GoStrings GoRegexp GoNetip GoMime Http DomainRules Framing AuditScope Relay Exchange.

Definition DefaultWebSocketIdleTimeout : Z := 5 * 60 * 1000000000.

Section websocket.
Context `{Regexp} `{PrefixTable} (statusText : Z -> bytes).

Definition session (label : bytes) : program unit := call (Count (str "WebSocketSessions") [label]).

(** A failed step: the metric, and the error with its text. *)
Definition wsFail (msg : bytes) (e : error) : program (option error) :=
  session (str "error") ;; Return (Some (Wrapped msg e)).

(** What the upstream sent behind its answer goes to the client first. *)
Definition forwardBuffered (c : nat) (idle : Z) (k : program (option error)) : program (option error) :=
  buffered ← call (Buffered (Upstream c));
  if (0 <? buffered)%Z then
    leftover ← call (Peek c buffered);
    e ← setWriteDeadline Client idle;
    match e with
    | Some e => wsFail (str "deadline prebuffered ws frame write") e
    | None =>
        e ← call (Write Client leftover);
        match e with
        | Some e => wsFail (str "forward prebuffered ws frame") e
        | None => call (Count (str "WebSocketBytes") [str "out"; Itoa buffered]) ;; k
        end
    end
  else k.

(** The answer of the upstream, 101 or a refusal. *)
Definition answerWebSocket (c : nat) (resp : Response) (handshake idle : Z) : program (option error) :=
  if negb (StatusCode resp =? 101)%Z then
    deferring (
      session (str "upstream_refused") ;;
      e ← setWriteDeadline Client handshake;
      match e with
      | Some e => Return (Some (Wrapped (str "deadline client ws-rejected response write") e))
      | None =>
          e ← call (WriteResponse resp);
          match e with
          | Some e => Return (Some (Wrapped (str "write ws-rejected response") e))
          | None => Return None
          end
      end) (when (rs_HasBody resp) (call CloseResponseBody))
  else
    when (rs_HasBody resp) (call CloseResponseBody) ;;
    e ← setWriteDeadline Client handshake;
    match e with
    | Some e => wsFail (str "deadline client ws 101 write") e
    | None =>
        e ← call (Write Client (writeResponseHeader statusText resp));
        match e with
        | Some e => wsFail (str "write 101 response header") e
        | None =>
            forwardBuffered c idle (
              session (str "opened") ;;
              call (Pump c idle) ;;
              Return None)
        end
    end.

Definition relayWebSocket (c : nat) (x : Exchange) (handshakeTimeout idleTimeout : Z) : program (option error) :=
  let handshake := if (handshakeTimeout <=? 0)%Z then idleTimeout else handshakeTimeout in
  let idle := if (idleTimeout <=? 0)%Z then DefaultWebSocketIdleTimeout else idleTimeout in
  let x := withReq x (normalizeRequestURL (sanitizeWebSocketRequest (x_req x))) in
  e ← setWriteDeadline (Upstream c) handshake;
  match e with
  | Some e => wsFail (str "deadline upstream ws request write") e
  | None =>
  e ← call (WriteRequest c (x_req x));
  match e with
  | Some e => wsFail (str "write upstream ws request") e
  | None =>
  e ← setReadDeadline (Upstream c) handshake;
  match e with
  | Some e => wsFail (str "deadline upstream ws response read") e
  | None =>
  r ← call (ReadResponse c x);
  match r with
  | Err e => wsFail (str "read upstream ws response") e
  | Ok resp =>
      let '(h, stripped) := stripHTTP3Advertising (rs_Header resp) in
      when stripped (call (Count (str "AltSvcStripped") [])) ;;
      answerWebSocket c (setResponseHeader resp h) handshake idle
  end end end end.

(** ** One direction of the copy *)

End websocket.
