(* ===== verification/Pump.v ===== *)
(** * The copies of a tunnel (proxy/websocket.go, proxy/server.go)

    Once a WebSocket is open, or a connection is not to be intercepted, two
    goroutines copy bytes, one for each direction, while a third one waits for
    the first of them to end.  A run is a sequence of rounds of the two
    copies and of steps of the one that waits, in any order. *)

From S2P Require Import Prelude.

(** ** One direction *)

(** What happens in a round of [copyDirection]: whether the deadline of the
    read could be set, what the read returned, whether it failed, whether the
    deadline of the write could be set, and, for a write that failed, after
    how many bytes. *)
Record copyRound := MkRound {
  cr_deadline : bool;
  cr_data : bytes;
  cr_readErr : bool;
  cr_writeDeadline : bool;
  cr_failed : option nat;
}.

Record direction := MkDirection {
  d_read : bytes;       (* read from the source *)
  d_written : bytes;    (* written to the destination *)
  d_counted : Z;        (* added to the metric *)
  d_live : bool;
}.

Definition direction0 : direction := MkDirection [] [] 0 true.

Definition copyDirection (r : copyRound) (d : direction) : direction :=
  let '(MkDirection rd wr n _) := d in
  if negb (cr_deadline r) then MkDirection rd wr n false
  else if bytes_eqb (cr_data r) [] then MkDirection rd wr n (negb (cr_readErr r))
  else
    let rd := rd ++ cr_data r in
    if negb (cr_writeDeadline r) then MkDirection rd wr n false
    else match cr_failed r with
         | Some k => MkDirection rd (wr ++ take k (cr_data r)) n false
         | None =>
             MkDirection rd (wr ++ cr_data r) (n + Z.of_nat (length (cr_data r))) (negb (cr_readErr r))
         end.

(** A round of a copy that nothing but its reads and writes can end, as those
    of [io.Copy]. *)
Definition copyPlain (r : copyRound) : direction -> direction :=
  copyDirection (MkRound true (cr_data r) (cr_readErr r) true (cr_failed r)).

(** ** [pumpWebSocket] *)

Record pump := MkPump {
  p_in : direction;         (* client to upstream *)
  p_out : direction;        (* upstream to client *)
  p_closed : bool;          (* both connections are closed *)
  p_returned : bool;
}.

Definition pump0 : pump := MkPump direction0 direction0 false false.

Inductive pumpEvent := In (r : copyRound) | Out (r : copyRound) | CloseBoth | Return.

(** A round of a direction that still runs; on connections that were closed
    under it, only one that ends it. *)
Definition stepDirection (ended : bool) (copy : direction -> direction) (d : direction) : option direction :=
  if negb (d_live d) then None
  else
    let d' := copy d in
    if ended && d_live d' then None else Some d'.

Definition pumpStep (ev : pumpEvent) (st : pump) : option pump :=
  let '(MkPump i o closed returned) := st in
  match ev with
  | In r => (fun i => MkPump i o closed returned) <$> stepDirection closed (copyDirection r) i
  | Out r => (fun o => MkPump i o closed returned) <$> stepDirection closed (copyDirection r) o
  | CloseBoth =>
      if (d_live i && d_live o) || closed then None else Some (MkPump i o true returned)
  | Return =>
      if negb closed || d_live i || d_live o || returned then None else Some (MkPump i o closed true)
  end.

Fixpoint pumpRun (evs : list pumpEvent) (st : pump) : option pump :=
  match evs with [] => Some st | ev :: evs => st ← pumpStep ev st; pumpRun evs st end.

(** ** The end of [handleBypassMITM] *)

Record tunnel := MkTunnel {
  t_early : bytes;          (* client bytes the HTTP server has buffered *)
  t_in : direction;
  t_out : direction;
  t_done : bool;            (* a copy has ended, and set the deadline of its destination *)
  t_returned : bool;        (* and both connections are closed *)
}.

Definition tunnel0 (early : bytes) : tunnel := MkTunnel early direction0 direction0 false false.

(** The first round of the direction to the upstream is [io.CopyN] of the
    buffered bytes. *)
Definition tunnelStep (ev : pumpEvent) (st : tunnel) : option tunnel :=
  let '(MkTunnel early i o done returned) := st in
  match ev with
  | In r =>
      let r := if bytes_eqb early [] then r else MkRound true early false true (cr_failed r) in
      i ← stepDirection ((done && bytes_eqb early []) || returned) (copyPlain r) i;
      Some (MkTunnel [] i o (done || negb (d_live i)) returned)
  | Out r =>
      o ← stepDirection done (copyPlain r) o;
      Some (MkTunnel early i o (done || negb (d_live o)) returned)
  | CloseBoth => None
  | Return => if negb done || returned then None else Some (MkTunnel early i o done true)
  end.

Fixpoint tunnelRun (evs : list pumpEvent) (st : tunnel) : option tunnel :=
  match evs with [] => Some st | ev :: evs => st ← tunnelStep ev st; tunnelRun evs st end.

(** ** Correctness *)

(** What was written is a prefix of what was read, all of it while the copy
    runs; the metric counts no byte that was not written. *)
Record direction_ok (d : direction) : Prop := MkDirectionOk {
  do_prefix : d_written d `prefix_of` d_read d;
  do_live : d_live d = true -> d_written d = d_read d /\ d_counted d = Z.of_nat (length (d_written d));
  do_counted : (0 <= d_counted d <= Z.of_nat (length (d_written d)))%Z;
}.

Lemma direction0_ok : direction_ok direction0.
Proof. by split. Qed.

Lemma copyDirection_ok r d : d_live d = true -> direction_ok d -> direction_ok (copyDirection r d).
Proof.
  destruct d as [rd wr n live], r as [dl data e wdl failed]. intros Hl [Hp Ha Hc]. simpl in Hl. subst live.
  destruct (Ha eq_refl) as [Hw Hn]. simpl in *. subst wr n.
  destruct dl; simpl; [|by split].
  unfold bytes_eqb; case_bool_decide as Hd; [subst data; by split|].
  destruct wdl; simpl; [|split; simpl; [by apply prefix_app_r|done|lia]].
  destruct failed as [k|]; split; simpl.
  - apply prefix_app, prefix_take.
  - done.
  - rewrite length_app. lia.
  - done.
  - intros _. rewrite length_app. split; [done|lia].
  - rewrite length_app. lia.
Qed.

Lemma stepDirection_ok ended copy d d' :
  (forall d, d_live d = true -> direction_ok d -> direction_ok (copy d)) ->
  direction_ok d -> stepDirection ended copy d = Some d' ->
  direction_ok d' /\ d_live d = true /\ (ended = true -> d_live d' = false).
Proof.
  unfold stepDirection. intros Hc Hd. destruct (d_live d) eqn:El; simpl; [|done].
  destruct (ended && d_live (copy d)) eqn:E; [done|]. intros [= <-]. split; [by apply Hc|]. split; [done|].
  intros ->. by destruct (d_live (copy d)).
Qed.

(** The end of a read ends a direction. *)
Definition hangUp : copyRound := MkRound true [] true true None.

Lemma hangUp_step ended d : d_live d = true -> is_Some (stepDirection ended (copyDirection hangUp) d).
Proof. destruct d as [rd wr n []]; [|done]. intros _. by destruct ended; eexists. Qed.

Record pump_ok (st : pump) : Prop := MkPumpOk {
  po_in : direction_ok (p_in st);
  po_out : direction_ok (p_out st);
  po_returned : p_returned st = true -> p_closed st = true /\ d_live (p_in st) = false /\ d_live (p_out st) = false;
}.

(** The events still to come after the connections were closed. *)
Definition remaining (st : pump) : nat :=
  Nat.b2n (d_live (p_in st)) + Nat.b2n (d_live (p_out st)) + Nat.b2n (negb (p_returned st)).

Ltac pump_cases H :=
  repeat match type of H with
         | None = Some _ => discriminate H
         | (_ <$> _) = Some _ => apply fmap_Some in H as (? & H & ->)
         | (_ ≫= _) = Some _ => apply bind_Some in H as (? & H & Hs); injection Hs as <-
         | (if ?b then _ else _) = Some _ => destruct b eqn:?; [discriminate|]; injection H as <-
         end.

Lemma pumpStep_ok ev st st' :
  pump_ok st -> pumpStep ev st = Some st' ->
  pump_ok st' /\ (p_closed st = true -> p_closed st' = true /\ remaining st' < remaining st).
Proof.
  destruct st as [i o c r]. intros [Hi Ho Hr] E. destruct ev as [rd|rd| |]; simpl in *; pump_cases E.
  - destruct (stepDirection_ok _ _ _ _ (copyDirection_ok rd) Hi E) as (Hi' & El & He). split.
    + split; simpl; [done..|]. intros Er. destruct (Hr Er) as (_ & Hf & _). congruence.
    + intros Ec. unfold remaining. simpl. rewrite El, (He Ec). simpl. split; [done|lia].
  - destruct (stepDirection_ok _ _ _ _ (copyDirection_ok rd) Ho E) as (Ho' & El & He). split.
    + split; simpl; [done..|]. intros Er. destruct (Hr Er) as (_ & _ & Hf). congruence.
    + intros Ec. unfold remaining. simpl. rewrite El, (He Ec). simpl. split; [done|lia].
  - apply orb_false_elim in Heqb as [_ ->]. split; [|done].
    split; simpl; [done..|]. intros Er. by destruct (Hr Er).
  - apply orb_false_elim in Heqb as [[[->%negb_false_iff Hli]%orb_false_elim Hlo]%orb_false_elim ->].
    split; [by split|]. intros _. unfold remaining. simpl. split; [done|lia].
Qed.

Lemma pumpRun_ok evs : forall st st',
  pump_ok st -> pumpRun evs st = Some st' ->
  pump_ok st' /\ (p_closed st = true -> length evs + remaining st' <= remaining st).
Proof.
  induction evs as [|ev evs IH]; simpl; intros st st' Hok E.
  { simplify_eq. split; [done|lia]. }
  apply bind_Some in E as (st1 & E1 & E). destruct (pumpStep_ok _ _ _ Hok E1) as [Hok1 Hc1].
  destruct (IH _ _ Hok1 E) as [Hok' Hc']. split; [done|]. intros Hc. destruct (Hc1 Hc) as [Hc2 Hlt].
  specialize (Hc' Hc2). lia.
Qed.

Lemma pump_moves st : p_returned st = false -> exists ev, is_Some (pumpStep ev st).
Proof.
  destruct st as [i o c r]. simpl. intros ->. destruct (d_live i) eqn:Ei.
  { destruct (hangUp_step c i Ei) as [i' E]. exists (In hangUp). simpl. rewrite E. by eexists. }
  destruct (d_live o) eqn:Eo.
  { destruct (hangUp_step c o Eo) as [o' E]. exists (Out hangUp). simpl. rewrite E. by eexists. }
  destruct c; [exists Return|exists CloseBoth]; by eexists.
Qed.


(** A client that sends a frame and closes, and an upstream that is cut off in
    the middle of its answer. *)
Definition sample_session : list pumpEvent :=
  [In (MkRound true (str "ping") false true None); In hangUp; CloseBoth;
   Out (MkRound true (str "pong") false true (Some 2)); Return].


(** ** Tunnels *)

(** The bytes the HTTP server had buffered go first. *)
Record tunnel_ok (early : bytes) (st : tunnel) : Prop := MkTunnelOk {
  to_in : direction_ok (t_in st);
  to_out : direction_ok (t_out st);
  to_early : (t_early st = early /\ d_read (t_in st) = []) \/ (t_early st = [] /\ early `prefix_of` d_read (t_in st));
  to_done : t_done st = negb (d_live (t_in st) && d_live (t_out st));
  to_returned : t_returned st = true -> t_done st = true;
}.

(** The events still to come after a copy has ended. *)
Definition leftover (st : tunnel) : nat :=
  Nat.b2n (negb (bytes_eqb (t_early st) [])) + Nat.b2n (d_live (t_in st)) + Nat.b2n (d_live (t_out st))
  + Nat.b2n (negb (t_returned st)).

Lemma copyPlain_ok r d : d_live d = true -> direction_ok d -> direction_ok (copyPlain r d).
Proof. apply copyDirection_ok. Qed.

Lemma copyPlain_read r d : d_read (copyPlain r d) = d_read d ++ cr_data r.
Proof.
  destruct d as [rd wr n l], r as [dl data e wdl failed]. unfold copyPlain. simpl.
  unfold bytes_eqb; case_bool_decide as Hd; [subst data; by rewrite app_nil_r|]. by destruct failed.
Qed.

Lemma stepDirection_copy ended copy d d' : stepDirection ended copy d = Some d' -> d' = copy d.
Proof. unfold stepDirection. repeat case_match; congruence. Qed.

Lemma tunnelStep_ok early ev st st' :
  tunnel_ok early st -> tunnelStep ev st = Some st' ->
  tunnel_ok early st' /\ (t_done st = true -> t_done st' = true /\ leftover st' < leftover st).
Proof.
  destruct st as [e i o dn r]. intros [Hi Ho He Hd Hr] E. unfold leftover.
  destruct ev as [rd|rd| |]; cbn [tunnelStep t_early t_in t_out t_done t_returned] in *; pump_cases E.
  - destruct (stepDirection_ok _ _ _ _ (copyPlain_ok _) Hi E) as (Hi' & El & Hend).
    pose proof (stepDirection_copy _ _ _ _ E) as Hc. split.
    + split; cbn; try done.
      * right. split; [done|]. rewrite Hc, copyPlain_read. destruct He as [[-> ->]|[-> Hp]]; cbn.
        -- unfold bytes_eqb. case_bool_decide; [subst; apply prefix_nil|done].
        -- by apply prefix_app_r.
      * rewrite Hd, El. by destruct (d_live o), (d_live x).
      * intros Er. by rewrite (Hr Er).
    + intros ->. split; [done|]. rewrite El. cbn. change (bytes_eqb [] []) with true.
      destruct (bytes_eqb e []) eqn:Ee; cbn in *; [rewrite (Hend eq_refl)|destruct (d_live x)]; cbn; lia.
  - destruct (stepDirection_ok _ _ _ _ (copyPlain_ok _) Ho E) as (Ho' & El & Hend). split.
    + split; cbn; try done.
      * rewrite Hd, El. by destruct (d_live i), (d_live x).
      * intros Er. by rewrite (Hr Er).
    + intros ->. split; [done|]. cbn [t_early t_in t_out t_returned]. rewrite El, (Hend eq_refl). cbn [Nat.b2n]. lia.
  - apply orb_false_elim in Heqb as [Hdn%negb_false_iff ->]. subst dn. split; [by split|].
    intros _. split; [done|]. cbn [t_early t_in t_out t_returned negb Nat.b2n]. lia.
Qed.

Lemma tunnelRun_ok early evs : forall st st',
  tunnel_ok early st -> tunnelRun evs st = Some st' ->
  tunnel_ok early st' /\ (t_done st = true -> length evs + leftover st' <= leftover st).
Proof.
  induction evs as [|ev evs IH]; simpl; intros st st' Hok E.
  { simplify_eq. split; [done|lia]. }
  apply bind_Some in E as (st1 & E1 & E). destruct (tunnelStep_ok _ _ _ _ Hok E1) as [Hok1 Hd1].
  destruct (IH _ _ Hok1 E) as [Hok' Hd']. split; [done|]. intros Hd. destruct (Hd1 Hd) as [Hd2 Hlt].
  specialize (Hd' Hd2). lia.
Qed.

Lemma tunnel_moves early st : tunnel_ok early st -> t_returned st = false -> exists ev, is_Some (tunnelStep ev st).
Proof.
  intros [_ _ _ Hd _]. destruct st as [e i o dn r]. cbn in *. intros ->. destruct dn eqn:Ed.
  { exists Return. by eexists. }
  symmetry in Hd. apply negb_false_iff, andb_true_iff in Hd as [Ei Eo].
  destruct (hangUp_step false o Eo) as [o' E]. exists (Out hangUp). cbn [tunnelStep].
  change (copyPlain hangUp) with (copyDirection hangUp). rewrite E. by eexists.
Qed.

(** Tunnels.  Each side of a connection that is not intercepted has received a
    prefix of what the other sent, beginning with the bytes the HTTP server had
    buffered, the tunnel is never stuck, it is left only when a copy has
    ended, and then at most one round of each copy, the buffered bytes and the
    return are to come. *)
Theorem tunnel_correct early evs st :
  tunnelRun evs (tunnel0 early) = Some st ->
  tunnel_ok early st /\
  (t_returned st = false -> exists ev, is_Some (tunnelStep ev st)) /\
  (forall more st', t_done st = true -> tunnelRun more st = Some st' -> length more + leftover st' <= 3).
Proof.
  intros E. assert (H0 : tunnel_ok early (tunnel0 early)) by (split; cbn; auto using direction0_ok; done).
  destruct (tunnelRun_ok _ _ _ _ H0 E) as [Hok _]. split; [done|]. split; [by apply (tunnel_moves early)|].
  intros more st' Hd E'. destruct (tunnelRun_ok _ _ _ _ Hok E') as [_ Hlen]. specialize (Hlen Hd).
  destruct Hok as [_ _ _ Hdone _]. rewrite Hd in Hdone.
  unfold leftover in *. destruct (d_live (t_in st)), (d_live (t_out st)), (t_returned st), (bytes_eqb (t_early st) []); simpl in *; try done; lia.
Qed.
