(* ===== verification/RelayLoop.v ===== *)
(** * The connection loop (proxy/relay.go, relayHTTPConnLease)

    The loop that serves the requests of one intercepted connection: it reads
    a request, applies the policy, forwards it to the upstream connection it
    holds, or to a new one, and writes the response back, until one side is
    done.  The function is cut at its stages; [relayHTTPConnLease] composes
    them as the code does. *)

From S2P Require Import Prelude Effects GoStrings GoConv GoRegexp GoUrl GoNetip GoMime Http DomainTrie DomainRules Framing PolicyRules UrlRules Policy SemanticFilter FilterEngine InspectReader BodyFilters MaskingFilter ContentFilter AuditScope Relay Exchange Dump Streaming WebSocket.

Section relay_loop.
Context `{UnicodeTables} `{ContentSniffer} `{Regexp} `{PrefixTable} `{Digests}
  (statusText : Z -> bytes) (rx : redactionRegexes) (hasLogger : bool).

(** ** What a request is before it is judged *)

(** The header rules, the removal of the absolute form and the URL rewrite. *)
Definition prepareRequest (policy : option Policy) (req : Request) : Request :=
  let req := if isWebSocketUpgrade (Some req) then req else SanitizeHeaders req in
  let req := match policy with
             | Some _ =>
                 let req := mapHeader (RewriteRequestHeaders policy) req in
                 let rawURL := canonicalPolicyURL (Some req) (str "https") in
                 mapHeader (fun h => AddRequestHeaders policy h rawURL) req
             | None => req
             end in
  let req := normalizeRequestURL req in
  match policy with
  | Some p =>
      match po_urls p with
      | Some _ =>
          let '(rewrittenURL, modified) := RewriteURL (po_urls p) (canonicalPolicyURL (Some req) (str "https")) in
          if modified then
            match Parse rewrittenURL with
            | Some parsed => setURL req (Some parsed) (u_Host parsed)
            | None => req
            end
          else req
      | None => req
      end
  | None => req
  end.

(** What the policy says of a prepared request. *)
Inductive verdict := Redirected (d : PolicyDecision) | Refused (d : PolicyDecision) | Passed (bypass : bool).

Definition requestVerdict (policy : option Policy) (req : Request) : verdict :=
  match policy with
  | None => Passed false
  | Some p =>
      let redirect := match po_urls p with
                      | Some _ => RedirectDecision (po_urls p) (canonicalPolicyURL (Some req) (str "https"))
                      | None => None
                      end in
      match redirect with
      | Some d => Redirected d
      | None =>
          let d := EvaluateRequest policy (urlHostOr req (rq_Host req)) (Some (setClose req false)) (str "https") in
          if Blocked d then Refused d else Passed (BypassFilters d)
      end
  end.

(** ** The state of the loop *)

(** How the current upstream connection is given back: the [release] of its
    lease, a plain close, or not at all ([releaseUpstream] is nil). *)
Inductive releaser := ByLease | ByClose.

Record relayState := MkRelay {
  rl_upstream : option (nat * option releaser);
  rl_exchanges : nat;
}.

(** A round goes on, or returns from the function with its error. *)
Abbreviation round := (program (relayState + (relayState * option error))).

Definition finish (s : relayState) : round := Return (inr (s, None)).
Definition fail (s : relayState) (msg : bytes) (e : error) : round := Return (inr (s, Some (Wrapped msg e))).
Definition failNew (s : relayState) (msg : bytes) : round := Return (inr (s, Some (Fault KOther msg))).

Definition ruleHit (matchType action : bytes) : program unit :=
  call (Count (str "RuleHits") [str "default"; matchType; action]).

Definition closeRequestBody (x : Exchange) : program unit := when (rq_HasBody (x_req x)) (call CloseRequestBody).
Definition closeResponseBody (resp : Response) : program unit := when (rs_HasBody resp) (call CloseResponseBody).

(** The answer to a blocked request, after which the function returns. *)
Definition answerBlocked (s : relayState) (opts : Options) (deadlineMsg answer : bytes) : round :=
  e ← setWriteDeadline Client (op_IOTimeout opts);
  match e with
  | Some e => fail s deadlineMsg e
  | None => call (Write Client answer) ;; finish s
  end.

Section loop.
Context (dial acquire : option (program (result error nat))) (opts : Options).

Definition releaseCurrent (s : relayState) (reusable : bool) : program relayState :=
  match rl_upstream s with
  | None => Return s
  | Some (c, r) =>
      match r with
      | Some ByLease => call (Release c reusable)
      | Some ByClose => call (CloseConn (Upstream c))
      | None => when (bool_decide (is_Some dial) || bool_decide (is_Some acquire)) (call (CloseConn (Upstream c)))
      end ;;
      Return (MkRelay None (rl_exchanges s))
  end.

(** [upstreamConn != nil && upstreamReader.Buffered() == 0]. *)
Definition reusableNow (s : relayState) : program bool :=
  match rl_upstream s with
  | None => Return false
  | Some (c, _) => n ← call (Buffered (Upstream c)); Return (n =? 0)%Z
  end.

(** ** An exchange over HTTP/2 *)

Definition altSvc (opts : Options) (resp : Response) : program Response :=
  let '(h, stripped) := stripHTTP3Advertising (rs_Header resp) in
  when stripped (call (Count (str "AltSvcStripped") [])) ;;
  Return (setResponseHeader resp
    (if op_HTTP3Enabled opts
     then Header_Set h (str "Alt-Svc") (str "h3=" ++ quote ++ str ":" ++ op_HTTP3Port opts ++ quote ++ str "; ma=86400")
     else h)).

(** [req.URL.Scheme = "https"; req.URL.Host = host; req.RequestURI = ""]. *)
Definition h2Request (req : Request) (host : bytes) : Request :=
  setURL req ((fun u => MkURL (str "https") (u_Opaque u) host (u_Path u) (u_RawPath u) (u_ForceQuery u) (u_RawQuery u))
                <$> rq_URL req) (rq_Host req).

Definition responseBlocked (policy : option Policy) (resp : Response) : option PolicyDecision :=
  match policy with
  | Some _ => let d := EvaluateResponse policy (Some resp) (str "https") in if Blocked d then Some d else None
  | None => None
  end.

(** [opts.RoundTripH2], which sends the request and its body unfiltered. *)
Context (roundTrip : Exchange -> program (result error Response)).

Definition doH2RoundTrip (s : relayState) (x : Exchange) (host : bytes) (xopts : Options) : round :=
  let x := withReq x (h2Request (x_req x) host) in
  r ← roundTrip x;
  match r with
  | Err e => closeRequestBody x ;; fail s (str "h2 roundtrip") e
  | Ok resp =>
      closeRequestBody x ;;
      resp ← altSvc xopts resp;
      match responseBlocked (op_Policy xopts) resp with
      | Some d =>
          closeResponseBody resp ;;
          ruleHit (MatchType d) (str "block") ;;
          logExchangeBlocked hasLogger x d xopts ;;
          e ← setWriteDeadline Client (op_IOTimeout xopts);
          match e with
          | Some e => fail s (str "deadline local policy response block write") e
          | None => call (Write Client policyBlockResponse) ;; Return (inl s)
          end
      | None =>
          let cap := newBodyCapture (rs_HasBody resp) (captureOf xopts) in
          e ← setWriteDeadline Client (op_IOTimeout xopts);
          match e with
          | Some e => closeResponseBody resp ;; fail s (str "deadline local write") e
          | None =>
              '(st, resp) ← streamResponse statusText x resp cap (ro_Filter (op_scoped xopts));
              match st_err st with
              | Some e =>
                  closeResponseBody resp ;;
                  when (Blocked (st_dec st)) (
                    ruleHit (MatchType (st_dec st)) (str "block") ;;
                    logExchangeBlocked hasLogger x (st_dec st) xopts) ;;
                  fail s (str "write local response") e
              | None =>
                  closeResponseBody resp ;;
                  Return (inl (MkRelay (rl_upstream s) (S (rl_exchanges s))))
              end
          end
      end
  end.

(** The function returns after an exchange over HTTP/2 when the client asked
    for it. *)
Definition h2Exchange (s : relayState) (x : Exchange) (host : bytes) (xopts : Options) (localClose : bool) : round :=
  r ← doH2RoundTrip s x host xopts;
  match r with
  | inl s => if localClose then finish s else Return (inl s)
  | inr out => Return (inr out)
  end.

(** ** A WebSocket *)

Definition webSocketExchange (s : relayState) (x : Exchange) : round :=
  let connected (s : relayState) (c : nat) : round :=
    call (ClearDeadline Client) ;;
    call (ClearDeadline (Upstream c)) ;;
    let wsIdle := if (op_WSIdleTimeout opts <=? 0)%Z then DefaultWebSocketIdleTimeout else op_WSIdleTimeout opts in
    wsErr ← relayWebSocket statusText c x (op_IOTimeout opts) wsIdle;
    closeRequestBody x ;;
    s ← releaseCurrent s false;
    Return (inr (s, wsErr)) in
  match rl_upstream s with
  | Some (c, _) => connected s c
  | None =>
      match acquire, dial with
      | Some acquire, _ =>
          r ← acquire;
          match r with
          | Ok c => connected (MkRelay (Some (c, Some ByLease)) (rl_exchanges s)) c
          | Err e =>
              match policyDecisionFromError e with
              | Some d =>
                  ruleHit (MatchType d) (str "block") ;;
                  logExchangeBlocked hasLogger x d opts ;;
                  session (str "denied") ;;
                  closeRequestBody x ;;
                  answerBlocked s opts (str "deadline local policy block write") policyBlockResponse
              | None =>
                  if isNegotiatedH2 e then
                    session (str "error") ;; closeRequestBody x ;;
                    failNew s (str "websocket over h2 not supported by upstream")
                  else closeRequestBody x ;; fail s (str "dial upstream for ws") e
              end
          end
      | None, Some dial =>
          r ← dial;
          match r with
          | Ok c => connected (MkRelay (Some (c, Some ByClose)) (rl_exchanges s)) c
          | Err e => closeRequestBody x ;; fail s (str "dial upstream for ws") e
          end
      | None, None => closeRequestBody x ;; failNew s (str "missing upstream connection for ws")
      end
  end.

(** ** An exchange over HTTP/1.1 *)

(** [safeReqDump], which every path of an exchange calls once. *)
Definition requestDump (xopts : Options) (xid : bytes) (x : Exchange) (cap : bodyCapture) (action : bytes) : program unit :=
  when (negb (bytes_eqb (op_DumpDir xopts) []))
    (emitDump rx xopts xid x None (dumpPayload (Some cap)) action).

Definition responseDump (xopts : Options) (xid : bytes) (x : Exchange) (resp : Response) (cap : bodyCapture) (action : bytes)
    : program unit :=
  when (negb (bytes_eqb (op_DumpDir xopts) []))
    (emitDump rx xopts xid x (Some resp) (dumpPayload (Some cap)) action).

(** The options of an exchange that is not sampled. *)
Definition sampleBodies (xopts : Options) : program Options :=
  let rate := op_LogBodiesSampleRate opts in
  if op_LogBodies opts && f64_ltb (f64 0 0) rate && f64_ltb rate (f64 1 0) then
    v ← call RandFloat64;
    Return (if f64_leb rate v then withoutCapture xopts else xopts)
  else Return xopts.

(** From the response on. *)
Definition deliverResponse (s : relayState) (c : nat) (x : Exchange) (xid : bytes) (xopts : Options) (localClose : bool)
    (reqDec : PolicyDecision) (reqBytes : Z) (reqCap : bodyCapture) (resp : Response) : round :=
  let resp := match op_Policy xopts with
              | Some _ => setResponseHeader resp (RewriteResponseHeaders (op_Policy xopts) (rs_Header resp))
              | None => resp
              end in
  resp ← altSvc xopts resp;
  match responseBlocked (op_Policy xopts) resp with
  | Some d =>
      closeResponseBody resp ;;
      ruleHit (MatchType d) (str "block") ;;
      logExchangeBlocked hasLogger x d xopts ;;
      requestDump xopts xid x reqCap (str "blocked") ;;
      answerBlocked s xopts (str "deadline local policy response block write") policyBlockResponse
  | None =>
      let cap := newBodyCapture (rs_HasBody resp) (captureOf xopts) in
      e ← setWriteDeadline Client (op_IOTimeout xopts);
      match e with
      | Some e =>
          closeResponseBody resp ;;
          when (negb (op_DumpOnPolicyHit xopts)) (requestDump xopts xid x reqCap (str "allowed")) ;;
          fail s (str "deadline local write") e
      | None =>
          '(st, resp) ← streamResponse statusText x resp cap (ro_Filter (op_scoped xopts));
          let x := st_x st in
          let respDec := st_dec st in
          let dumped := negb (op_DumpOnPolicyHit xopts) || isPolicyHit x reqDec respDec (op_Policy xopts) in
          let dumps : program unit :=
            when dumped (
              let action := determineAction x reqDec respDec (op_Policy xopts) in
              requestDump xopts xid x reqCap action ;;
              responseDump xopts xid x resp (st_capture st) action) in
          let blocked : program unit :=
            ruleHit (MatchType respDec) (str "block") ;; logExchangeBlocked hasLogger x respDec xopts in
          match st_err st with
          | Some e =>
              closeResponseBody resp ;;
              when (Blocked respDec) blocked ;;
              dumps ;;
              if isBenignRelayError (Some e) (st_bytes st) (rs_ContentLength resp) resp
              then Return (inr (s, Some (benignError (Wrapped (str "write local response") e))))
              else fail s (str "write local response") e
          | None =>
              (if Blocked respDec then blocked
               else logExchange hasLogger x (Some resp) reqBytes (st_bytes st) xopts) ;;
              dumps ;;
              n ← call (Buffered (Upstream c));
              let s := MkRelay (rl_upstream s) (S (rl_exchanges s)) in
              let upstreamReusable := negb (rs_Close resp) && (n =? 0)%Z in
              closeResponseBody resp ;;
              if localClose || rs_Close resp then
                s ← releaseCurrent s upstreamReusable; finish s
              else Return (inl s)
          end
      end
  end.

(** From the request on, with the upstream connection [c]. *)
Definition forwardExchange (s : relayState) (c : nat) (x : Exchange) (xid : bytes) (xopts : Options) (localClose : bool) : round :=
  xopts ← sampleBodies xopts;
  let cap := newBodyCapture (rq_HasBody (x_req x)) (captureOf xopts) in
  e ← setWriteDeadline (Upstream c) (op_IOTimeout xopts);
  match e with
  | Some e => closeRequestBody x ;; fail s (str "deadline upstream write") e
  | None =>
      st ← streamRequest hasLogger c x cap xopts;
      let x := st_x st in
      let reqDec := st_dec st in
      let cap := st_capture st in
      match st_err st with
      | Some e =>
          closeRequestBody x ;;
          when (negb (op_DumpOnPolicyHit xopts) || Blocked reqDec)
            (requestDump xopts xid x cap (determineAction x reqDec noDecision (op_Policy xopts))) ;;
          fail s (str "write upstream request") e
      | None =>
          closeRequestBody x ;;
          if Blocked reqDec then
            ruleHit (MatchType reqDec) (str "block") ;;
            logExchangeBlocked hasLogger x reqDec xopts ;;
            requestDump xopts xid x cap (str "blocked") ;;
            answerBlocked s xopts (str "deadline local policy request block write") policyBlockResponse
          else
            let allowed := when (negb (op_DumpOnPolicyHit xopts)) (requestDump xopts xid x cap (str "allowed")) in
            e ← setReadDeadline (Upstream c) (op_IOTimeout xopts);
            match e with
            | Some e => allowed ;; fail s (str "deadline upstream read") e
            | None =>
                r ← call (ReadResponse c x);
                match r with
                | Err e => allowed ;; fail s (str "read upstream response") e
                | Ok resp => deliverResponse s c x xid xopts localClose reqDec (st_bytes st) cap resp
                end
            end
      end
  end.

(** An upstream connection, then the exchange. *)
Definition upstreamExchange (s : relayState) (x : Exchange) (host xid : bytes) (xopts : Options) (localClose : bool) : round :=
  match rl_upstream s with
  | Some (c, _) => forwardExchange s c x xid xopts localClose
  | None =>
      match acquire, dial with
      | None, None => closeRequestBody x ;; failNew s (str "missing upstream connection")
      | Some acquire, _ =>
          r ← acquire;
          match r with
          | Ok c => forwardExchange (MkRelay (Some (c, Some ByLease)) (rl_exchanges s)) c x xid xopts localClose
          | Err e =>
              match policyDecisionFromError e with
              | Some d =>
                  ruleHit (MatchType d) (str "block") ;;
                  logExchangeBlocked hasLogger x d opts ;;
                  closeRequestBody x ;;
                  answerBlocked s opts (str "deadline local policy block write") policyBlockResponse
              | None =>
                  if isNegotiatedH2 e && op_RoundTripH2 opts then h2Exchange s x host xopts localClose
                  else closeRequestBody x ;; fail s (str "dial upstream") e
              end
          end
      | None, Some dial =>
          r ← dial;
          match r with
          | Ok c => forwardExchange (MkRelay (Some (c, Some ByClose)) (rl_exchanges s)) c x xid xopts localClose
          | Err e => closeRequestBody x ;; fail s (str "dial upstream") e
          end
      end
  end.

(** ** The loop *)

(** A request that was read. *)
Definition serveRequest (s : relayState) (x : Exchange) : round :=
  xid ← call NewExchangeID;
  let localClose := rq_Close (x_req x) in
  let isWS := isWebSocketUpgrade (Some (x_req x)) in
  let x := withReq x (prepareRequest (op_Policy opts) (x_req x)) in
  match requestVerdict (op_Policy opts) (x_req x) with
  | Redirected d =>
      closeRequestBody x ;;
      ruleHit (MatchType d) (str "redirect") ;;
      logExchangeBlocked hasLogger x d opts ;;
      answerBlocked s opts (str "deadline local redirect write") (redirectResponse (RedirectURL d))
  | Refused d =>
      let x := withReq x (setClose (x_req x) false) in
      closeRequestBody x ;;
      ruleHit (MatchType d) (str "block") ;;
      logExchangeBlocked hasLogger x d opts ;;
      when isWS (session (str "denied")) ;;
      answerBlocked s opts (str "deadline local policy block write") policyBlockResponse
  | Passed bypass =>
      let x := withReq x (setClose (x_req x) false) in
      let host := urlHostOr (x_req x) (rq_Host (x_req x)) in
      let x := if bypass then withBypass x else x in
      xopts ← (if op_AuditScope opts then dec ← call (Decide x host); Return (scopedOptions opts dec) else Return opts);
      if isWS then webSocketExchange s x
      else
        h2 ← (if op_RoundTripH2 opts && op_H2Hosts xopts then call (HostIsH2 host) else Return false);
        if h2 : bool then h2Exchange s x host xopts localClose
        else upstreamExchange s x host xid xopts localClose
  end.

Definition relayRound (s : relayState) : round :=
  e ← setReadDeadline Client (op_IOTimeout opts);
  match e with
  | Some e => fail s (str "deadline local read") e
  | None =>
      r ← call ReadRequest;
      match r with
      | Err e =>
          if isEOF e || (Nat.ltb 0 (rl_exchanges s) && isTimeoutError e) then
            reusable ← reusableNow s;
            s ← releaseCurrent s reusable;
            finish s
          else fail s (str "read local request") e
      | Ok x => serveRequest s x
      end
  end.

(** The result is [None] when [fuel] rounds were not enough. *)
Definition relayHTTPConnLease (fuel : nat) (upstream : option nat) : program (option (option error)) :=
  r ← iterate fuel relayRound (MkRelay ((fun c => (c, None)) <$> upstream) 0);
  match r with
  | None => Return None
  | Some (s, e) => releaseCurrent s false ;; Return (Some e)
  end.

End loop.

End relay_loop.
