(* ===== verification/Upstream.v ===== *)
(** * Destinations and upstream connections (proxy/server.go, proxy/breaker.go)

    Where a request goes, whether its address may be dialled, and how a
    connection is leased from the pool or dialled behind the circuit breaker
    of its host.  The breakers are a library of their own: whether one lets a
    call through is an answer of the environment. *)

From S2P Require Import Prelude Effects GoStrings GoRegexp GoUrl GoNetip GoMime Http DomainTrie DomainRules Access PolicyRules UrlRules Policy Schedule UpstreamPool AuditScope Relay Exchange.

Section upstream.
Context `{UnicodeTables} `{Regexp} `{PrefixTable}.

(** ** Destinations *)

Definition connectHostname (req : Request) : option bytes :=
  let fromHost :=
    match SplitHostPort (rq_Host req) with
    | Some (host, _) => Some host
    | None => if bytes_eqb (rq_Host req) [] then None else Some (rq_Host req)
    end in
  match rq_URL req with
  | Some u => if bytes_eqb (Hostname u) [] then fromHost else Some (Hostname u)
  | None => fromHost
  end.

Definition connectAddress (req : Request) : bytes :=
  let urlHost := match rq_URL req with Some u => u_Host u | None => [] end in
  let address := if bytes_eqb urlHost [] then rq_Host req else urlHost in
  if bytes_eqb address [] then []
  else match SplitHostPort address with
       | Some _ => address
       | None =>
           if Contains address (str ":") && HasPrefix address (str "[") then address
           else JoinHostPort address (str "443")
       end.

(** The host and the address of a plain request; the error is only reported
    to the trace. *)
Definition plainHTTPDestination (req : Request) : option (bytes * bytes) :=
  let finish (host address : bytes) :=
    if bytes_eqb host [] || bytes_eqb address [] then None
    else match SplitHostPort address with
         | Some _ => Some (host, address)
         | None => Some (host, JoinHostPort host (str "80"))
         end in
  let relative :=
    finish (match SplitHostPort (rq_Host req) with Some (h, _) => h | None => rq_Host req end) (rq_Host req) in
  match rq_URL req with
  | Some u =>
      if bytes_eqb (u_Scheme u) [] then relative
      else if EqualFold (u_Scheme u) (str "http") then finish (Hostname u) (u_Host u)
      else None
  | None => relative
  end.

Definition addressHost (address : bytes) : bytes :=
  match SplitHostPort address with
  | Some (host, _) => host
  | None => TrimPrefix (TrimSuffix address (str "]")) (str "[")
  end.

(** ** The server *)

(** What a handler reads of the server; one snapshot per request. *)
Record Server := MkServer {
  sv_addr : bytes;
  sv_logger : bool;
  sv_certs : bool;
  sv_upstream : bool;
  sv_h2Upstream : bool;
  sv_relay : Options;
  sv_policy : option Policy;
  sv_access : option AccessRules;
  sv_schedules : option ScheduleRules;
  sv_now : clock;
  sv_mitmBypass : option domainTrie;
  sv_greySSLSites : option domainTrie;
  sv_greySSLIps : option (table bool);
  sv_breakers : option bool;
  sv_dnsResolver : bool;
  sv_http3Enabled : bool;
}.

Context (s : Server).

(** Lists of interception: a host on the grey lists is always intercepted. *)
Definition shouldBypassMITM (host : bytes) : bool :=
  if DomainMatcher_Match (sv_greySSLSites s) host then false
  else if match sv_greySSLIps s with
          | Some _ =>
              let hostStr := match SplitHostPort host with Some (h, _) => h | None => host end in
              match ParseAddr hostStr with Some addr => IPMatcher_Match (sv_greySSLIps s) addr | None => false end
          | None => false
          end
  then false
  else match sv_mitmBypass s with Some m => Match m host | None => false end.

(** The address to dial, when the policy allows the host it resolved to. *)
Definition resolveDialAddress (address : bytes) : program (result error bytes) :=
  let forceResolve := RequiresResolvedSiteIP (sv_policy s) in
  let check (dialAddr resolvedHost : bytes) : program (result error bytes) :=
    let decision := EvaluateResolvedDestinationIP (sv_policy s) resolvedHost in
    if Blocked decision then Return (Err (Fault (KPolicy decision) (str "policy block " ++ MatchType decision ++ str "=" ++ Value decision)))
    else Return (Ok dialAddr) in
  if sv_dnsResolver s then
    r ← call (Resolve address forceResolve);
    match r with
    | Ok (resolved, host) => check resolved host
    | Err e => if forceResolve then Return (Err e) else check address (addressHost address)
    end
  else check address (addressHost address).

(** ** Circuit breakers *)

(** [CircuitBreakers.Execute] of [cb], which is [Some enabled]; nil runs the
    dial itself. *)
Definition Execute (cb : option bool) (host : bytes) (dial : program (result error nat)) : program (result error nat) :=
  match cb with
  | Some true =>
      refused ← call (BreakerAllow host);
      match refused with
      | Some e => Return (Err e)
      | None => r ← dial; call (BreakerReport host (is_ok r)) ;; Return r
      end
  | _ => dial
  end.

(** ** Connections *)

Definition dialPlainHTTP (address : bytes) : program (result error nat) :=
  let host := match SplitHostPort address with Some (h, _) => h | None => address end in
  r ← resolveDialAddress address;
  match r with
  | Err e => Return (Err e)
  | Ok dialAddr => Execute (sv_breakers s) host (call (DialTCP dialAddr))
  end.

(** A lease of the pool: an idle connection, or what [dial] returns. *)
Definition acquireUpstream (key : upstreamPoolKey) (dial : program (result error nat)) : program (result error nat) :=
  idle ← call (TakeIdle key);
  match idle with
  | Some c => Return (Ok c)
  | None => dial
  end.

Definition acquirePlainHTTP (address host : bytes) : program (result error nat) :=
  acquireUpstream (MkPoolKey (str "http") address host (str "http/1.1") (str "plain")) (dialPlainHTTP address).

(** A connection that negotiated HTTP/2 is handed to the HTTP/2 transport. *)
Definition acquireHTTPSUpstream (address host : bytes) : program (result error nat) :=
  if negb (sv_h2Upstream s || sv_upstream s) then Return (Err (Fault KOther (str "no upstream dialer configured")))
  else
    r ← acquireUpstream (MkPoolKey (str "https") address host (str "h2,http/1.1") (str "utls-firefox-120")) (
      r ← resolveDialAddress address;
      match r with
      | Err e => Return (Err e)
      | Ok dialAddr => Execute (sv_breakers s) host (call (DialTLS dialAddr host))
      end);
    match r with
    | Err e => Return (Err e)
    | Ok c =>
        alpn ← call (NegotiatedProtocol c);
        match alpn with
        | None => Return (Ok c)
        | Some p =>
            if bytes_eqb p (str "h2") then
              call (StoreH2Host host true) ;;
              failed ← call (NewClientConn c);
              match failed with
              | None => call (StoreH2Conn host c) ;;
                        Return (Err (Fault KNegotiatedH2 (str "negotiated HTTP/2 with upstream")))
              | Some e => when (sv_logger s) (call (Log MainLog (str "h2 NewClientConn failed") [])) ;; Return (Ok c)
              end
            else call (StoreH2Host host false) ;; Return (Ok c)
        end
    end.

(** [roundTripH2]: the connection stored for the host of the URL when it
    takes requests, or the transport, which dials. *)
Definition roundTripH2 (x : Exchange) (host : bytes) (plan : option bodyPlan) : program (result error Response) :=
  let urlHost := match rq_URL (x_req x) with Some u => u_Host u | None => [] end in
  let h := if bytes_eqb urlHost [] then host else urlHost in
  cc ← call (LoadH2Conn h);
  match cc with
  | Some c => call (RoundTripConn c x plan)
  | None => call (RoundTripTransport x plan)
  end.

(** [DialTLSContext] of the HTTP/2 transport. *)
Definition dialH2 (addr : bytes) : program (result error nat) :=
  let host := match SplitHostPort addr with Some (h, _) => h | None => addr end in
  if negb (sv_h2Upstream s || sv_upstream s) then Return (Err (Fault KOther (str "no upstream dialer configured")))
  else
    r ← resolveDialAddress addr;
    match r with
    | Err e => Return (Err e)
    | Ok dialAddr => Execute (sv_breakers s) host (call (DialTLS dialAddr host))
    end.

End upstream.
