(* ===== verification/Server.v ===== *)
(** * The handlers (proxy/server.go)

    [ServeHTTP] admits a client and dispatches its request: plain HTTP, a
    CONNECT that is intercepted or tunnelled, or an HTTP/3 request.  The
    handlers are programs (Effects) over the calls of Exchange; spans of the
    tracer are left out, and so are the attributes of error lines.  The
    streams of an HTTP/2 client are served one after the other. *)

From S2P Require Import Prelude Effects GoStrings GoConv GoRegexp GoUrl GoNetip GoMime Http DomainTrie DomainRules Framing Access PolicyRules UrlRules Policy Schedule SemanticFilter FilterEngine InspectReader BodyFilters MaskingFilter ContentFilter AuditScope Relay Exchange Dump Streaming WebSocket RelayLoop Upstream.

(** ** Pages *)

(** [html.EscapeString]. *)
Definition escapeByte (b : byte) : bytes :=
  if bool_decide (b = "&"%byte) then str "&amp;"
  else if bool_decide (b = "'"%byte) then str "&#39;"
  else if bool_decide (b = "<"%byte) then str "&lt;"
  else if bool_decide (b = ">"%byte) then str "&gt;"
  else if bool_decide (b = Byte.x22) then str "&#34;"
  else [b].

Definition EscapeString (s : bytes) : bytes := concat (map escapeByte s).

(** Text of the page, written with apostrophes for its quotation marks. *)
Definition quoted (s : string) : bytes :=
  map (fun b => if bool_decide (b = "'"%byte) then Byte.x22 else b) (str s).

Definition line (s : string) : bytes := quoted s ++ [Byte.x0a].

Definition blockPage (statusText : Z -> bytes) (status : Z) (title detail : bytes) : bytes :=
  line "<!doctype html>" ++ line "<html lang='en'>" ++ line "<head>" ++ line "<meta charset='utf-8'>"
  ++ line "<meta name='viewport' content='width=device-width, initial-scale=1'>"
  ++ str "<title>" ++ EscapeString title ++ line " - LucidGate</title>" ++ line "<style>"
  ++ line ":root { color-scheme: light dark; font-family: system-ui, -apple-system, BlinkMacSystemFont, 'Segoe UI', sans-serif; }"
  ++ line "body { margin: 0; min-height: 100vh; display: grid; place-items: center; background: #f6f7f9; color: #111827; }"
  ++ line "main { width: min(42rem, calc(100% - 2rem)); border: 1px solid #d8dee8; border-radius: 8px; background: #ffffff; padding: 2rem; box-shadow: 0 16px 40px rgb(15 23 42 / 10%); }"
  ++ line ".brand { color: #4b5563; font-size: .875rem; font-weight: 700; letter-spacing: .08em; text-transform: uppercase; }"
  ++ line "h1 { margin: .75rem 0 1rem; font-size: clamp(1.75rem, 2vw, 2.25rem); line-height: 1.15; }"
  ++ line "p { margin: 0; color: #374151; line-height: 1.55; }"
  ++ line ".code { margin-top: 1.5rem; color: #6b7280; font-size: .875rem; }"
  ++ line "@media (prefers-color-scheme: dark) {"
  ++ line "body { background: #111827; color: #f9fafb; }"
  ++ line "main { background: #1f2937; border-color: #374151; box-shadow: none; }"
  ++ line ".brand, p, .code { color: #d1d5db; }" ++ line "}" ++ line "</style>" ++ line "</head>"
  ++ line "<body>" ++ line "<main>" ++ line "<div class='brand'>LucidGate</div>"
  ++ str "<h1>" ++ EscapeString title ++ line "</h1>"
  ++ str "<p>" ++ EscapeString detail ++ line "</p>"
  ++ quoted "<p class='code'>HTTP " ++ Itoa status ++ str " " ++ EscapeString (statusText status) ++ line "</p>"
  ++ line "</main>" ++ line "</body>" ++ line "</html>".

Section server.
Context `{UnicodeTables} `{ContentSniffer} `{Regexp} `{PrefixTable} `{Digests}
  (statusText : Z -> bytes) (rx : redactionRegexes) (s : Server).

Definition writeBlockPage (status : Z) (title detail : bytes) : program unit :=
  call (SetHeader (str "Content-Type") (str "text/html; charset=utf-8")) ;;
  call (SetHeader (str "Cache-Control") (str "no-store")) ;;
  call (SetHeader (str "X-Content-Type-Options") (str "nosniff")) ;;
  call (WriteHeader status) ;;
  call (WriteBody (blockPage statusText status title detail)).

(** [http.Error]. *)
Definition httpError (msg : bytes) (status : Z) : program unit :=
  call (DelHeader (str "Content-Length")) ;;
  call (SetHeader (str "Content-Type") (str "text/plain; charset=utf-8")) ;;
  call (SetHeader (str "X-Content-Type-Options") (str "nosniff")) ;;
  call (WriteHeader status) ;;
  call (WriteBody (msg ++ [Byte.x0a])).

Definition logLine (msg : bytes) : program unit := when (sv_logger s) (call (Log MainLog msg [])).

Definition accessDenied (detail : bytes) : program unit := writeBlockPage 403 (str "Access denied") detail.

Definition upstreamUnavailable (detail : bytes) : program unit :=
  writeBlockPage 502 (str "Upstream unavailable") detail.

(** A request the policy refused. *)
Definition refuse (x : Exchange) (d : PolicyDecision) (opts : Options) (detail : bytes) : program unit :=
  ruleHit (MatchType d) (str "block") ;;
  logExchangeBlocked (sv_logger s) x d opts ;;
  accessDenied detail.

(** ** Deadlines of the client *)

Definition setHTTPDeadline (read : bool) (timeout : Z) : program (option error) :=
  if (timeout <=? 0)%Z then Return None
  else
    e ← call (SetClientDeadline read timeout);
    match e with
    | Some err => match kindOf err with KNotSupported => Return None | _ => Return e end
    | None => Return None
    end.

Definition setHTTPReadDeadline : Z -> program (option error) := setHTTPDeadline true.
Definition setHTTPWriteDeadline : Z -> program (option error) := setHTTPDeadline false.

(** ** Responses *)

Definition serverPort : bytes :=
  match SplitHostPort (sv_addr s) with
  | Some (_, port) => if bytes_eqb port [] then str "443" else port
  | None => str "443"
  end.

Definition altSvcValue : bytes := str "h3=" ++ quote ++ str ":" ++ serverPort ++ quote ++ str "; ma=86400".

(** The headers of a response before the policy sees them. *)
Definition advertise (resp : Response) : program Response :=
  let '(h, stripped) := stripHTTP3Advertising (rs_Header resp) in
  when stripped (call (Count (str "AltSvcStripped") [])) ;;
  Return (setResponseHeader resp (if sv_http3Enabled s then Header_Set h (str "Alt-Svc") altSvcValue else h)).

(** The detail of a request blocked by its body. *)
Definition bodyBlockDetail (d : PolicyDecision) : bytes :=
  if bytes_eqb (MatchType d) (str "exfiltration preventer")
  then str "LucidGate blocked this request to prevent sensitive data exfiltration."
  else str "LucidGate blocked this request by content policy.".

(** What follows the copy of a response: the log and the dumps. *)
Definition concludeExchange (x : Exchange) (xid : bytes) (opts : Options) (reqDec : PolicyDecision) (reqBytes : Z)
    (reqCap : bodyCapture) (resp : Response) (st : streamed) (errLine : bytes) : program unit :=
  let dec := st_dec st in
  (if Blocked dec
   then ruleHit (MatchType dec) (str "block") ;; logExchangeBlocked (sv_logger s) x dec opts
   else logExchange (sv_logger s) x (Some resp) reqBytes (st_bytes st) opts) ;;
  when (negb (op_DumpOnPolicyHit opts) || isPolicyHit x reqDec dec (op_Policy opts)) (
    let action := determineAction x reqDec dec (op_Policy opts) in
    requestDump rx opts xid x reqCap action ;;
    responseDump rx opts xid x resp (st_capture st) action) ;;
  when (bool_decide (is_Some (st_err st))) (logLine errLine).

(** ** Plain HTTP *)

(** From the response on; the result is whether the connection can be used
    again. *)
Definition plainResponse (c : nat) (x : Exchange) (xid : bytes) (opts : Options) (reqDec : PolicyDecision)
    (reqBytes : Z) (reqCap : bodyCapture) (resp : Response) : program bool :=
  resp ← advertise resp;
  let decResp := EvaluateResponse (sv_policy s) (Some resp) (str "http") in
  if Blocked decResp then
    ruleHit (MatchType decResp) (str "block") ;;
    logExchangeBlocked (sv_logger s) x decResp opts ;;
    requestDump rx opts xid x reqCap (str "blocked") ;;
    accessDenied (str "LucidGate blocked this download by file policy.") ;;
    closeResponseBody resp ;;
    Return false
  else
    e ← setHTTPWriteDeadline (op_IOTimeout opts);
    when (bool_decide (is_Some e)) (logLine (str "deadline http client write")) ;;
    let cap := newBodyCapture (rs_HasBody resp) (captureOf opts) in
    '(st, resp) ← streamResponseHTTP x resp cap (ro_Filter (op_scoped opts));
    concludeExchange (st_x st) xid opts reqDec reqBytes reqCap resp st (str "write http client response") ;;
    n ← call (Buffered (Upstream c));
    closeResponseBody resp ;;
    Return (bool_decide (st_err st = None) && negb (Blocked (st_dec st)) && negb (rs_Close resp) && (n =? 0)%Z).

Definition plainExchange (c : nat) (x : Exchange) (opts : Options) : program bool :=
  e ← setHTTPReadDeadline (op_IOTimeout opts);
  when (bool_decide (is_Some e)) (logLine (str "deadline http client read")) ;;
  e ← setWriteDeadline (Upstream c) (op_IOTimeout opts);
  match e with
  | Some _ =>
      closeRequestBody x ;;
      logLine (str "deadline http upstream write") ;;
      upstreamUnavailable (str "LucidGate could not prepare the upstream HTTP connection.") ;;
      Return false
  | None =>
      xid ← call NewExchangeID;
      let x := withReq x (setClose (normalizeRequestURL (SanitizeHeaders (x_req x))) false) in
      let cap := newBodyCapture (rq_HasBody (x_req x)) (captureOf opts) in
      st ← streamRequest (sv_logger s) c x cap opts;
      let x := st_x st in
      let reqDec := st_dec st in
      let cap := st_capture st in
      closeRequestBody x ;;
      match st_err st with
      | Some _ =>
          when (negb (op_DumpOnPolicyHit opts) || Blocked reqDec)
            (requestDump rx opts xid x cap (determineAction x reqDec noDecision (op_Policy opts))) ;;
          logLine (str "write http upstream request") ;;
          Return false
      | None =>
          if Blocked reqDec then
            ruleHit (MatchType reqDec) (str "block") ;;
            logExchangeBlocked (sv_logger s) x reqDec opts ;;
            requestDump rx opts xid x cap (str "blocked") ;;
            accessDenied (bodyBlockDetail reqDec) ;;
            Return false
          else
            let allowed := when (negb (op_DumpOnPolicyHit opts)) (requestDump rx opts xid x cap (str "allowed")) in
            e ← setReadDeadline (Upstream c) (op_IOTimeout opts);
            match e with
            | Some _ =>
                allowed ;; logLine (str "deadline http upstream read") ;;
                upstreamUnavailable (str "LucidGate could not read from the upstream HTTP connection.") ;;
                Return false
            | None =>
                r ← call (ReadResponse c x);
                match r with
                | Err _ =>
                    allowed ;; logLine (str "read http upstream response") ;;
                    upstreamUnavailable (str "LucidGate received an invalid response from the upstream HTTP connection.") ;;
                    Return false
                | Ok resp => plainResponse c x xid opts reqDec (st_bytes st) cap resp
                end
            end
      end
  end.

(** A WebSocket takes over the connection of the client. *)
Definition plainWebSocket (c : nat) (x : Exchange) (opts : Options) : program bool :=
  h ← call Hijack;
  match h with
  | None =>
      closeRequestBody x ;; session (str "error") ;;
      writeBlockPage 500 (str "WebSocket unavailable") (str "LucidGate could not take over the client connection.") ;;
      Return false
  | Some (Err _) =>
      closeRequestBody x ;; session (str "error") ;; logLine (str "hijack websocket client") ;; Return false
  | Some (Ok buffered) =>
      call TrackConn ;;
      when (0 <? buffered)%Z (logLine (str "websocket client sent early buffered bytes before 101")) ;;
      let wsIdle := if (op_WSIdleTimeout opts <=? 0)%Z then DefaultWebSocketIdleTimeout else op_WSIdleTimeout opts in
      e ← relayWebSocket statusText c x (op_IOTimeout opts) wsIdle;
      when (bool_decide (is_Some e)) (logLine (str "relay websocket")) ;;
      closeRequestBody x ;;
      call (CloseConn Client) ;;
      call UntrackConn ;;
      Return false
  end.

(** ** Admission *)

(** A handler returns [None] while a loop in it is still running. *)
Abbreviation handler := (program (option unit)).

(** One of the connections the limits allow, for the time of [k]. *)
Definition withPermit (profile : bytes) (k : handler) : handler :=
  r ← call (AcquirePermit profile);
  match r with
  | Err reason =>
      returning (
        call (Count (str "ConnectionsRejected") [reason]) ;;
        writeBlockPage 503 (str "Connection limit exceeded")
          (str "LucidGate is at the configured concurrent connection limit."))
  | Ok permit => finally k (call (ReleasePermit permit))
  end.

(** The exchange over a leased connection. *)
Definition plainLeased (x : Exchange) (isWS : bool) (opts : Options) (host address : bytes) : program unit :=
  r ← acquirePlainHTTP s address host;
  match r with
  | Err e =>
      match policyDecisionFromError e with
      | Some d =>
          ruleHit (MatchType d) (str "block") ;;
          logExchangeBlocked (sv_logger s) x d opts ;;
          when isWS (session (str "denied")) ;;
          accessDenied (str "LucidGate blocked this destination by IP policy.")
      | None =>
          logLine (str "dial http upstream") ;;
          if isOpenState e then
            writeBlockPage 502 (str "Service Suspended")
              (str "LucidGate circuit breaker is open. The upstream host is currently unreachable.")
          else upstreamUnavailable (str "LucidGate could not open a connection to the requested HTTP upstream.")
      end
  | Ok c =>
      reusable ← (if isWS then plainWebSocket c x opts else plainExchange c x opts);
      call (Release c reusable)
  end.

Definition handlePlainHTTP (x : Exchange) (profile : bytes) : handler :=
  match plainHTTPDestination (x_req x) with
  | None => returning (httpError (str "bad proxy request") 400)
  | Some (host, address) =>
      let opts := sv_relay s in
      let isWS := isWebSocketUpgrade (Some (x_req x)) in
      let dec := EvaluateRequest (sv_policy s) host (Some (x_req x)) (str "http") in
      if Blocked dec then
        returning (
          ruleHit (MatchType dec) (str "block") ;;
          logExchangeBlocked (sv_logger s) x dec opts ;;
          when isWS (session (str "denied")) ;;
          accessDenied (str "LucidGate blocked this destination by domain policy."))
      else
        let x := if BypassFilters dec then withBypass x else x in
        opts ← (if op_AuditScope opts then d ← call (Decide x host); Return (scopedOptions opts d) else Return opts);
        withPermit profile (returning (plainLeased x isWS opts host address))
  end.

(** ** Streams of an intercepted connection *)

Definition streamedResponse (c : nat) (x : Exchange) (xid : bytes) (opts : Options) (reqDec : PolicyDecision)
    (reqBytes : Z) (reqCap : bodyCapture) (resp : Response) : program bool :=
  resp ← advertise resp;
  match responseBlocked (op_Policy opts) resp with
  | Some d =>
      ruleHit (MatchType d) (str "block") ;;
      logExchangeBlocked (sv_logger s) x d opts ;;
      requestDump rx opts xid x reqCap (str "blocked") ;;
      accessDenied (str "LucidGate blocked this download by file policy.") ;;
      closeResponseBody resp ;;
      Return false
  | None =>
      e ← setHTTPWriteDeadline (op_IOTimeout opts);
      when (bool_decide (is_Some e)) (logLine (str "deadline h2 downstream client write")) ;;
      let cap := newBodyCapture (rs_HasBody resp) (captureOf opts) in
      '(st, resp) ← streamResponseHTTP x resp cap (ro_Filter (op_scoped opts));
      concludeExchange (st_x st) xid opts reqDec reqBytes reqCap resp st (str "write h2 downstream client response") ;;
      n ← call (Buffered (Upstream c));
      closeResponseBody resp ;;
      Return (bool_decide (st_err st = None) && negb (Blocked (st_dec st)) && negb (rs_Close resp) && (n =? 0)%Z)
  end.

Definition streamedExchange (c : nat) (x : Exchange) (xid : bytes) (opts : Options) : program bool :=
  e ← setWriteDeadline (Upstream c) (op_IOTimeout opts);
  match e with
  | Some _ =>
      closeRequestBody x ;;
      upstreamUnavailable (str "LucidGate could not prepare the upstream HTTPS connection.") ;;
      Return false
  | None =>
      let cap := newBodyCapture (rq_HasBody (x_req x)) (captureOf opts) in
      st ← streamRequest (sv_logger s) c x cap opts;
      let x := st_x st in
      let reqDec := st_dec st in
      let cap := st_capture st in
      closeRequestBody x ;;
      match st_err st with
      | Some _ =>
          when (negb (op_DumpOnPolicyHit opts) || Blocked reqDec)
            (requestDump rx opts xid x cap (determineAction x reqDec noDecision (op_Policy opts))) ;;
          logLine (str "write h2 downstream upstream request") ;;
          Return false
      | None =>
          if Blocked reqDec then
            ruleHit (MatchType reqDec) (str "block") ;;
            logExchangeBlocked (sv_logger s) x reqDec opts ;;
            requestDump rx opts xid x cap (str "blocked") ;;
            accessDenied (bodyBlockDetail reqDec) ;;
            Return false
          else
            let allowed := when (negb (op_DumpOnPolicyHit opts)) (requestDump rx opts xid x cap (str "allowed")) in
            e ← setReadDeadline (Upstream c) (op_IOTimeout opts);
            match e with
            | Some _ =>
                allowed ;;
                upstreamUnavailable (str "LucidGate could not read from the upstream HTTPS connection.") ;;
                Return false
            | None =>
                r ← call (ReadResponse c x);
                match r with
                | Err _ =>
                    allowed ;; logLine (str "read h2 downstream upstream response") ;;
                    upstreamUnavailable (str "LucidGate received an invalid response from the upstream HTTPS connection.") ;;
                    Return false
                | Ok resp => streamedResponse c x xid opts reqDec (st_bytes st) cap resp
                end
            end
      end
  end.

(** The filters the body of a request goes through on its way to an HTTP/2
    upstream. *)
Definition h2BodyPlan (x : Exchange) (opts : Options) : option bodyPlan :=
  let req := x_req x in
  if negb (rq_HasBody req) then None
  else
    let scoped := op_scoped opts in
    let active := if negb (x_bypass x) && shouldInspectRequest req
                  then Some (requestEngine (ro_RequestFilter scoped)) else None in
    let subst := requestSubstitution (x_bypass x) (ro_RequestSubstitutionFilter scoped) req (x_protoAtLeast11 x) in
    match active, subst with
    | None, None => None
    | _, _ => Some (MkPlan active [] subst false false (MkBodyCapture false None []))
    end.

Definition handleHTTPSStreamH2Upstream (x : Exchange) (host xid : bytes) (opts : Options) : program unit :=
  r ← roundTripH2 x host (h2BodyPlan x opts);
  closeRequestBody x ;;
  match r with
  | Err e =>
      match policyDecisionFromError e with
      | Some d =>
          refuse x d opts
            (if bytes_eqb (MatchType d) (str "exfiltration preventer")
             then str "LucidGate blocked this request to prevent sensitive data exfiltration."
             else str "LucidGate blocked this destination by IP policy.")
      | None =>
          logLine (str "h2 downstream h2 upstream roundtrip") ;;
          upstreamUnavailable (str "LucidGate could not complete the HTTP/2 upstream request.")
      end
  | Ok resp =>
      resp ← advertise resp;
      match responseBlocked (op_Policy opts) resp with
      | Some d =>
          refuse x d opts (str "LucidGate blocked this download by file policy.") ;;
          closeResponseBody resp
      | None =>
          let cap := newBodyCapture (rs_HasBody resp) (captureOf opts) in
          '(st, resp) ← streamResponseHTTP x resp cap (ro_Filter (op_scoped opts));
          let x := st_x st in
          let dec := st_dec st in
          (if Blocked dec
           then ruleHit (MatchType dec) (str "block") ;; logExchangeBlocked (sv_logger s) x dec opts
           else logExchange (sv_logger s) x (Some resp) (-1) (st_bytes st) opts) ;;
          when (negb (op_DumpOnPolicyHit opts) || isPolicyHit x noDecision dec (op_Policy opts)) (
            responseDump rx opts xid x resp (st_capture st) (determineAction x noDecision dec (op_Policy opts))) ;;
          when (bool_decide (is_Some (st_err st))) (logLine (str "write h2 downstream h2 response")) ;;
          closeResponseBody resp
      end
  end.

(** The request of a stream as it goes upstream. *)
Definition streamRequestOf (req : Request) (connectHost : bytes) : Request :=
  let u := match rq_URL req with
           | Some u =>
               let h := if bytes_eqb (u_Host u) [] then rq_Host req else u_Host u in
               let h := if bytes_eqb h [] then connectHost else h in
               Some (MkURL (str "https") (u_Opaque u) h (u_Path u) (u_RawPath u) (u_ForceQuery u) (u_RawQuery u))
           | None => None
           end in
  SanitizeHeaders (setClose (setURL req u (rq_Host req)) false).

Definition handleHTTPSStream (x : Exchange) (connectHost address : bytes) : program unit :=
  let opts := sv_relay s in
  xid ← call NewExchangeID;
  let host := if bytes_eqb (rq_Host (x_req x)) [] then connectHost else rq_Host (x_req x) in
  let host := match SplitHostPort host with Some (h, _) => h | None => host end in
  let x := withReq x (streamRequestOf (x_req x) connectHost) in
  let dec := match op_Policy opts with
             | Some _ => EvaluateRequest (op_Policy opts) host (Some (x_req x)) (str "https")
             | None => noDecision
             end in
  if Blocked dec then
    closeRequestBody x ;;
    refuse x dec opts (str "LucidGate blocked this request by URL policy.")
  else
    opts ← (if op_AuditScope opts then d ← call (Decide x host); Return (scopedOptions opts d) else Return opts);
    h2 ← call (HostIsH2 host);
    if h2 : bool then handleHTTPSStreamH2Upstream x host xid opts
    else
      r ← acquireHTTPSUpstream s address host;
      match r with
      | Err e =>
          if isNegotiatedH2 e then handleHTTPSStreamH2Upstream x host xid opts
          else match policyDecisionFromError e with
               | Some d =>
                   closeRequestBody x ;;
                   refuse x d opts (str "LucidGate blocked this destination by IP policy.")
               | None =>
                   closeRequestBody x ;;
                   logLine (str "dial h2 downstream upstream") ;;
                   upstreamUnavailable (str "LucidGate could not open a connection to the requested HTTPS upstream.")
               end
      | Ok c => reusable ← streamedExchange c x xid opts; call (Release c reusable)
      end.

(** ** Intercepted and tunnelled connections *)

Definition connectionEstablished : bytes := str "HTTP/1.1 200 Connection Established" ++ CRLF ++ CRLF.


(** A connection taken over from the HTTP server, closed and forgotten at the
    end.  Its buffer holds the line that answers a CONNECT, so that only the
    flush of it can fail. *)
Definition hijacked (errLine : bytes) (k : Z -> handler) : handler :=
  h ← call Hijack;
  match h with
  | None => returning (httpError (str "hijacking not supported") 500)
  | Some (Err _) => returning (logLine errLine)
  | Some (Ok buffered) =>
      call TrackConn ;;
      finally (k buffered) (call (CloseConn Client) ;; call UntrackConn)
  end.

Definition logged (msg : bytes) (p : program (option error)) : program unit :=
  e ← p; when (bool_decide (is_Some e)) (logLine msg).

Definition handleBypassMITM (handshake : Z) (x : Exchange) (host : bytes) : handler :=
  hijacked (str "hijack for bypass failed") (fun buffered => returning (
    logged (str "set bypass deadline failed") (call (SetDeadline Client handshake)) ;;
    when (0 <? buffered)%Z (logLine (str "discarding buffered client bytes before bypass")) ;;
    r ← dialPlainHTTP s (connectAddress (x_req x));
    match r with
    | Err e =>
        match policyDecisionFromError e with
        | Some d =>
            ruleHit (MatchType d) (str "block") ;;
            logExchangeBlocked (sv_logger s) x d (sv_relay s) ;;
            call (Write Client (str "HTTP/1.1 403 Forbidden" ++ CRLF ++ str "Content-Length: 0" ++ CRLF ++ CRLF)) ;;
            Return tt
        | None =>
            logLine (str "bypass dial upstream") ;;
            call (Write Client (str "HTTP/1.1 502 Bad Gateway" ++ CRLF ++ CRLF)) ;;
            Return tt
        end
    | Ok c =>
        deferring (
          logged (str "flush bypass connect response") (call (Write Client connectionEstablished)) ;;
          logged (str "clear bypass local deadline") (call (ClearDeadline Client)) ;;
          call (Tunnel c) ;;
          logLine (str "bypass session complete")) (call (CloseConn (Upstream c)))
    end)).

(** The streams of a client that negotiated HTTP/2. *)
Definition serveStreams (fuel : nat) (connectHost address : bytes) : handler :=
  iterate fuel (fun _ : unit =>
    next ← call NextStream;
    match next with
    | None => Return (inr tt)
    | Some x => handleHTTPSStream x connectHost address ;; Return (inl tt)
    end) tt.

Definition badGateway : bytes :=
  str "HTTP/1.1 502 Bad Gateway" ++ CRLF ++ str "Connection: close" ++ CRLF ++ str "Content-Length: 0" ++ CRLF ++ CRLF.

(** The options of the relay of an intercepted connection. *)
Definition interceptOptions (o : Options) : Options :=
  MkOptions (op_scoped o) (op_LogBodiesSampleRate o) (op_MaxCaptureBytes o) (op_DumpOnPolicyHit o)
    (op_DumpCredentialsCleartext o) (op_AuditKey o) (op_DumpMaxSizeMB o) (op_DumpMaxBackups o)
    (op_DumpMinFreeSpaceMB o) (op_DumpCompress o) (op_IOTimeout o) (op_WSIdleTimeout o) (op_Policy o)
    (op_AuditScope o) (op_NoneModeTunnel o) true true (op_HTTP3Enabled o) (op_HTTP3Port o)
    (op_AccessLogger o) (op_AlertLogger o) (op_AlertCategories o).

(** [relayHTTPLease] of the connection to [address]. *)
Definition relayIntercepted (fuel : nat) (address host : bytes) : program (option (option error)) :=
  relayHTTPConnLease statusText rx (sv_logger s) None
    (Some (
       r ← acquireHTTPSUpstream s address host;
       match r with
       | Err e => logLine (str "dial upstream") ;; Return (Err e)
       | Ok c => Return (Ok c)
       end))
    (interceptOptions (sv_relay s)) (fun x => roundTripH2 x host None) fuel None.

Definition handleHTTPS (fuel : nat) (handshake : Z) (x : Exchange) : handler :=
  hijacked (str "hijack failed") (fun buffered =>
    logged (str "set deadline failed") (call (SetDeadline Client handshake)) ;;
    when (0 <? buffered)%Z (logLine (str "discarding buffered client bytes after CONNECT")) ;;
    logged (str "flush connect response") (call (Write Client connectionEstablished)) ;;
    if negb (sv_certs s) then Return (Some tt)
    else
      let host := default [] (connectHostname (x_req x)) in
      r ← call Handshake;
      match r with
      | Err _ => returning (logLine (str "local tls handshake"))
      | Ok protocol =>
          call (Count (str "TLSHandshakeDuration") [str "downstream"]) ;;
          logged (str "clear deadline") (call (ClearDeadline Client)) ;;
          if negb (sv_upstream s) then Return (Some tt)
          else
            let address := connectAddress (x_req x) in
            if bytes_eqb protocol (str "h2") then serveStreams fuel host address
            else
              r ← relayIntercepted fuel address host;
              match r with
              | None => Return None
              | Some None => Return (Some tt)
              | Some (Some e) =>
                  returning (
                    when (Contains (errorText e) (str "dial upstream")) (call (Write Client badGateway) ;; Return tt) ;;
                    logLine (if Benign e then str "relay connection closed" else str "relay failed"))
              end
      end).

(** ** Dispatch *)

Definition profileRateLimit (profile : bytes) : option (float64 * Z) :=
  match ProfileLimits (sv_access s) profile with
  | Some (_, Some rateLimit, Some rateBurst) => Some (rateLimit, rateBurst)
  | _ => None
  end.

(** The client may send a request now; otherwise it gets the page here. *)
Definition admitClient (remoteAddr : bytes) (k : bytes -> handler) : handler :=
  let '(profile, allowed) := ProfileForRemoteAddr (sv_access s) remoteAddr in
  if negb allowed then
    returning (writeBlockPage 403 (str "Client access denied")
      (str "This client is not assigned to an allowed LucidGate access profile."))
  else if negb (Allowed (sv_schedules s) profile (sv_now s)) then
    returning (writeBlockPage 403 (str "Access outside allowed schedule")
      (str "The active access profile is outside its configured time window."))
  else match profileRateLimit profile with
       | None => k profile
       | Some (limit, burst) =>
           let hostIP := match SplitHostPort remoteAddr with Some (h, _) => h | None => [] end in
           let hostIP := if bytes_eqb hostIP [] then remoteAddr else hostIP in
           ok ← call (RateAllow hostIP limit burst);
           if ok : bool then k profile
           else
             returning (
               call (Count (str "ConnectionsRejected") [str "rate_limit"]) ;;
               logLine (str "client rate limit exceeded") ;;
               writeBlockPage 429 (str "Too many requests") (str "This client has exceeded the allowed request rate."))
       end.

Definition serveHTTP3 (x : Exchange) (profile : bytes) : handler :=
  let host := requestHost (x_req x) in
  let host := match SplitHostPort host with Some (h, _) => h | None => host end in
  if bytes_eqb host [] then returning (httpError (str "missing host in http3 request") 400)
  else
    let dec := EvaluateRequest (sv_policy s) host (Some (x_req x)) (str "https") in
    if Blocked dec then returning (refuse x dec (sv_relay s) (str "LucidGate blocked this destination by domain policy."))
    else withPermit profile (returning (handleHTTPSStream x host (JoinHostPort host (str "443")))).

Definition serveConnect (fuel : nat) (handshake : Z) (x : Exchange) (profile : bytes) : handler :=
  match connectHostname (x_req x) with
  | None => returning (httpError (str "bad connect host") 400)
  | Some host =>
      let opts := sv_relay s in
      let dec := EvaluateRequest (sv_policy s) host None (str "https") in
      if Blocked dec then returning (refuse x dec opts (str "LucidGate blocked this destination by domain policy."))
      else
        tunnelled ← (if op_AuditScope opts then
                       d ← call (Decide x host);
                       Return (bool_decide (Class d = AuditClassNone) && op_NoneModeTunnel opts)
                     else Return false);
        if (tunnelled : bool) || shouldBypassMITM s host then withPermit profile (handleBypassMITM handshake x host)
        else
          call (PreGenerateCert host) ;;
          withPermit profile (handleHTTPS fuel handshake x)
  end.

Definition ServeHTTP (fuel : nat) (handshake : Z) (http3 : bool) (x : Exchange) : handler :=
  call (Count (str "ActiveConnections") [str "inc"]) ;;
  finally (
    when (sv_http3Enabled s) (call (SetHeader (str "Alt-Svc") altSvcValue)) ;;
    admitClient (x_remoteAddr x) (fun profile =>
      if http3 then serveHTTP3 x profile
      else if negb (bytes_eqb (Method (x_req x)) (str "CONNECT")) then handlePlainHTTP x profile
      else serveConnect fuel handshake x profile))
    (call (Count (str "ActiveConnections") [str "dec"])).

End server.
