(* ===== verification/Quiet.v ===== *)
(** * Calls that no monitor looks at

    Metrics, logs, dumps and the like: the programs that only make such calls
    leave the state of every monitor of a handler alone. *)

From S2P Require Import Prelude Effects GoStrings GoConv GoRegexp GoUrl GoNetip GoMime Http DomainTrie DomainRules Framing Access PolicyRules UrlRules Policy Schedule SemanticFilter FilterEngine InspectReader BodyFilters MaskingFilter ContentFilter UpstreamPool AuditScope Relay Exchange Dump Streaming WebSocket RelayLoop Upstream Server.

Section mute.
Context `{UnicodeTables} `{ContentSniffer} `{Regexp} `{PrefixTable} `{Digests}.

(** Metrics, logs, dumps, closed bodies, prepared headers, identifiers and
    reads of shared tables. *)
Definition mute (X : Type) (e : proxyE X) : bool :=
  match e with
  | Count _ _ | Log _ _ _ | Enqueue _ _ | Timestamp | Exchange.Stat _ | Statfs _
  | CloseRequestBody | CloseResponseBody | SetHeader _ _ | DelHeader _ | ReplaceHeaders _ | WriteBody _
  | NewExchangeID | RandFloat64 | Decide _ _ | HostIsH2 _ | LoadH2Conn _ | StoreH2Host _ _ | StoreH2Conn _ _
  | BreakerReport _ _ | PreGenerateCert _ => true
  | _ => false
  end.

Ltac mute_tac := repeat first [only_step | exact eq_refl | assumption].

Lemma alert_mute opts cat attrs : only mute (alert opts cat attrs).
Proof. unfold alert. mute_tac. Qed.

Lemma logExchangeBlocked_mute hl x d opts : only mute (logExchangeBlocked hl x d opts).
Proof. unfold logExchangeBlocked. mute_tac. apply alert_mute. Qed.

Lemma logExchange_mute hl x resp a b opts : only mute (logExchange hl x resp a b opts).
Proof. unfold logExchange. mute_tac. apply alert_mute. Qed.

Lemma existingAncestor_mute fuel : forall dir, only mute (existingAncestor fuel dir).
Proof. induction fuel as [|fuel IH]; intros dir; cbn [existingAncestor]; mute_tac. apply IH. Qed.

Lemma emitDump_mute rx opts xid x resp payload action : only mute (emitDump rx opts xid x resp payload action).
Proof.
  unfold emitDump, isDiskSpaceLow. destruct payload as [[raw tr] sk].
  mute_tac. apply existingAncestor_mute.
Qed.

Lemma requestDump_mute rx opts xid x cap action : only mute (requestDump rx opts xid x cap action).
Proof. unfold requestDump. mute_tac. apply emitDump_mute. Qed.

Lemma responseDump_mute rx opts xid x resp cap action : only mute (responseDump rx opts xid x resp cap action).
Proof. unfold responseDump. mute_tac. apply emitDump_mute. Qed.

Lemma ruleHit_mute a b : only mute (ruleHit a b).
Proof. unfold ruleHit. mute_tac. Qed.

Lemma session_mute l : only mute (session l).
Proof. unfold session. mute_tac. Qed.

Lemma closeRequestBody_mute x : only mute (closeRequestBody x).
Proof. unfold closeRequestBody. mute_tac. Qed.

Lemma closeResponseBody_mute resp : only mute (closeResponseBody resp).
Proof. unfold closeResponseBody. mute_tac. Qed.

(** The framing of a response is not touched by its headers. *)
Definition same_framing (resp resp' : Response) : Prop :=
  rs_Close resp' = rs_Close resp /\ rs_HasBody resp' = rs_HasBody resp /\ StatusCode resp' = StatusCode resp.

Section watched.
Context {M : Type} (watch : M -> forall X, proxyE X -> X -> option M)
  (Hwatch : forall m X e x, mute X e = true -> watch m X e x = Some m).

Lemma altSvc_safe opts resp m : safe watch (altSvc opts resp) m (fun m' r => m' = m /\ same_framing resp r).
Proof.
  unfold altSvc. destruct (stripHTTP3Advertising _) as [h stripped]. apply safe_bind.
  apply (safe_only mute); [done|mute_tac|]. done.
Qed.

Lemma advertise_safe s resp m : safe watch (advertise s resp) m (fun m' r => m' = m /\ same_framing resp r).
Proof.
  unfold advertise. destruct (stripHTTP3Advertising _) as [h stripped]. apply safe_bind.
  apply (safe_only mute); [done|mute_tac|]. done.
Qed.
End watched.

Lemma sampleBodies_mute opts xopts : only mute (sampleBodies opts xopts).
Proof. unfold sampleBodies. mute_tac. Qed.
Lemma logLine_mute s msg : only mute (logLine s msg).
Proof. unfold logLine. mute_tac. Qed.

Lemma finishResponse_err x cap active out : st_err (finishResponse x cap active out) = cp_err out.
Proof. unfold finishResponse. destruct (isAntivirusError _); [done|]. by destruct (copyDecision _ _). Qed.

(** Calls that only concern the client or admission. *)
Definition local (X : Type) (e : proxyE X) : bool :=
  mute X e ||
  match e with
  | WriteHeader _ | Write Client _ | WriteResponse _ | SetReadDeadline Client _ | SetWriteDeadline Client _
  | SetDeadline Client _ | ClearDeadline Client | SetClientDeadline _ _ | CloseConn Client | TrackConn | UntrackConn
  | Hijack | Handshake => true
  | _ => false
  end.

Lemma mute_local {A} (p : program A) : only mute p -> only local p.
Proof. apply only_weaken. intros X e He. unfold local. by rewrite He. Qed.

Lemma client_deadline_local t : only local (setWriteDeadline Client t) /\ only local (setReadDeadline Client t).
Proof. unfold setWriteDeadline, setReadDeadline. by destruct (_ <=? _)%Z. Qed.

Lemma setHTTPDeadline_local r t : only local (setHTTPDeadline r t).
Proof. unfold setHTTPDeadline. repeat only_step; done. Qed.

Lemma writeBlockPage_local st status title detail : only local (writeBlockPage st status title detail).
Proof. unfold writeBlockPage. repeat only_step; done. Qed.

Lemma httpError_local msg status : only local (httpError msg status).
Proof. unfold httpError. repeat only_step; done. Qed.

Lemma refuse_local st s x d opts detail : only local (refuse st s x d opts detail).
Proof.
  unfold refuse. apply only_bind; [apply mute_local, ruleHit_mute|intros _].
  apply only_bind; [apply mute_local, logExchangeBlocked_mute|intros _]. apply writeBlockPage_local.
Qed.

Lemma logged_local s msg p : only local p -> only local (logged s msg p).
Proof.
  intros Hp. unfold logged. apply only_bind; [done|]. intros e. apply only_when, mute_local, logLine_mute.
Qed.

(** Calls on the way to an upstream connection. *)
Definition reaching (X : Type) (e : proxyE X) : bool :=
  mute X e ||
  match e with
  | TakeIdle _ | Resolve _ _ | BreakerAllow _ | DialTCP _ | DialTLS _ _ | NegotiatedProtocol _ | NewClientConn _ => true
  | _ => false
  end.

Lemma mute_reaching {A} (p : program A) : only mute p -> only reaching p.
Proof. apply only_weaken. intros X e He. unfold reaching. by rewrite He. Qed.

Lemma Execute_reaching cb host d : only reaching d -> only reaching (Execute cb host d).
Proof. intros Hd. unfold Execute. repeat first [only_step | exact eq_refl]; done. Qed.

Lemma resolveDialAddress_reaching s address : only reaching (resolveDialAddress s address).
Proof. unfold resolveDialAddress. repeat first [only_step | exact eq_refl]. Qed.

Lemma dialPlainHTTP_reaching s address : only reaching (dialPlainHTTP s address).
Proof.
  unfold dialPlainHTTP. apply only_bind; [apply resolveDialAddress_reaching|]. intros r.
  repeat only_step. by apply Execute_reaching.
Qed.

Lemma acquirePlainHTTP_reaching s address host : only reaching (acquirePlainHTTP s address host).
Proof.
  unfold acquirePlainHTTP, acquireUpstream. repeat first [only_step | exact eq_refl]. apply dialPlainHTTP_reaching.
Qed.

Lemma acquireHTTPSUpstream_reaching s address host : only reaching (acquireHTTPSUpstream s address host).
Proof.
  unfold acquireHTTPSUpstream, acquireUpstream.
  repeat first [only_step | exact eq_refl | apply resolveDialAddress_reaching | by apply Execute_reaching].
Qed.
End mute.

Create HintDb mute discriminated.
#[export] Hint Constants Opaque : mute.
#[export] Hint Resolve only_when only_if only_bind logExchangeBlocked_mute logExchange_mute requestDump_mute
  responseDump_mute ruleHit_mute session_mute closeRequestBody_mute closeResponseBody_mute sampleBodies_mute
  logLine_mute : mute.
#[export] Hint Extern 1 (only mute (call _)) => exact (conj eq_refl (fun _ => I)) : mute.

Create HintDb local discriminated.
#[export] Hint Constants Opaque : local.
#[export] Hint Resolve mute_local setHTTPDeadline_local writeBlockPage_local httpError_local refuse_local
  logged_local : local.
#[export] Hint Extern 1 (only local (call _)) => exact (conj eq_refl (fun _ => I)) : local.
#[export] Hint Extern 1 (only local (setWriteDeadline Client _)) => apply client_deadline_local : local.
#[export] Hint Extern 1 (only local (setReadDeadline Client _)) => apply client_deadline_local : local.
#[export] Hint Extern 1 (only local (accessDenied _ _)) => apply writeBlockPage_local : local.
#[export] Hint Extern 1 (only local (upstreamUnavailable _ _)) => apply writeBlockPage_local : local.
#[export] Hint Extern 1 (only local (setHTTPReadDeadline _)) => apply setHTTPDeadline_local : local.
#[export] Hint Extern 1 (only local (setHTTPWriteDeadline _)) => apply setHTTPDeadline_local : local.
