(* ===== verification/Custody.v ===== *)
(** * Custody of upstream connections

    A monitor of the connection a handler holds: it is taken from the pool or
    dialled, used by one exchange at a time, and given back exactly once.  It
    may only be given back for reuse between two exchanges, when the upstream
    did not announce to close it and nothing is left in its buffer. *)

From S2P Require Import Prelude Effects GoStrings GoConv GoRegexp GoUrl GoNetip GoMime Http DomainTrie DomainRules Framing Access PolicyRules UrlRules Policy Schedule SemanticFilter FilterEngine InspectReader BodyFilters MaskingFilter ContentFilter UpstreamPool AuditScope Relay Exchange Dump Streaming WebSocket RelayLoop Upstream Server Quiet.

(** ** The monitor *)

(** Where the exchange on a connection is: between two exchanges, after the
    request was begun, after the head of the response, or in a state from
    which the connection cannot be used again. *)
Inductive phase := Clean | Busy | Answered (closes : bool) | Spent.

Record hold := MkHold { h_conn : nat; h_phase : phase; h_empty : bool }.

Definition finished (closes : bool) : phase := if closes then Spent else Clean.

Section custody.
Context `{UnicodeTables} `{ContentSniffer} `{Regexp} `{PrefixTable} `{Digests}.

Definition holding (c : nat) (m : option hold) (f : hold -> option (option hold)) : option (option hold) :=
  match m with Some h => if Nat.eqb (h_conn h) c then f h else None | None => None end.

Definition take_conn (c : nat) (m : option hold) : option (option hold) :=
  match m with None => Some (Some (MkHold c Clean false)) | Some _ => None end.

Definition begin_request (c : nat) (m : option hold) : option (option hold) :=
  holding c m (fun h => match h_phase h with Clean => Some (Some (MkHold c Busy false)) | _ => None end).

Definition custodyWatch (m : option hold) (X : Type) (e : proxyE X) : X -> option (option hold) :=
  match e in proxyE X return X -> option (option hold) with
  | TakeIdle _ => fun r => match r with Some c => take_conn c m | None => Some m end
  | DialTCP _ => fun r => match r with Ok c => take_conn c m | Err _ => Some m end
  | DialTLS _ _ => fun r => match r with Ok c => take_conn c m | Err _ => Some m end
  | NewClientConn c => fun r => holding c m (fun h => match r with None => Some None | Some _ => Some m end)
  | Release c reusable => fun _ =>
      holding c m (fun h =>
        if reusable then match h_phase h with Clean => if h_empty h then Some None else None | _ => None end
        else Some None)
  | CloseConn (Upstream c) => fun _ => holding c m (fun _ => Some None)
  | Write (Upstream c) _ => fun _ => begin_request c m
  | WriteRequest c _ => fun _ => begin_request c m
  | CopyBody (Upstream c) _ => fun _ =>
      holding c m (fun h => match h_phase h with Busy => Some m | _ => None end)
  | ReadResponse c _ => fun r =>
      holding c m (fun h =>
        match h_phase h with
        | Busy => match r with
                  | Ok resp => Some (Some (MkHold c (if rs_HasBody resp then Answered (rs_Close resp)
                                                     else finished (rs_Close resp)) false))
                  | Err _ => Some m
                  end
        | _ => None
        end)
  | CopyBody Client _ => fun out =>
      match m with
      | Some (MkHold c (Answered closes) b) =>
          Some (Some (MkHold c (match cp_err out with None => finished closes | Some _ => Spent end) false))
      | _ => Some m
      end
  | Buffered (Upstream c) => fun n => holding c m (fun h => Some (Some (MkHold c (h_phase h) (n =? 0)%Z)))
  | SetReadDeadline (Upstream c) _ => fun _ => holding c m (fun _ => Some m)
  | SetWriteDeadline (Upstream c) _ => fun _ => holding c m (fun _ => Some m)
  | ClearDeadline (Upstream c) => fun _ => holding c m (fun _ => Some m)
  | Peek c _ => fun _ => holding c m (fun _ => Some m)
  | NegotiatedProtocol c => fun _ => holding c m (fun _ => Some m)
  | Pump c _ => fun _ => holding c m (fun _ => Some m)
  | Tunnel c => fun _ => holding c m (fun _ => Some m)
  | _ => fun _ => Some m
  end.

Lemma custody_mute m X (e : proxyE X) x : mute X e = true -> custodyWatch m X e x = Some m.
Proof. by destruct e. Qed.

Lemma custody_local m X (e : proxyE X) x : local X e = true -> custodyWatch m X e x = Some m.
Proof. destruct e; try done; match goal with p : peer |- _ => by destruct p end. Qed.

Lemma upstream_deadline_custody t h (Q : option hold -> option error -> Prop) :
  (forall e, Q (Some h) e) ->
  safe custodyWatch (setWriteDeadline (Upstream (h_conn h)) t) (Some h) Q /\
  safe custodyWatch (setReadDeadline (Upstream (h_conn h)) t) (Some h) Q.
Proof.
  unfold setWriteDeadline, setReadDeadline. intros HQ. destruct (_ <=? _)%Z; simpl; rewrite ?Nat.eqb_refl; auto.
Qed.

Ltac custody_step :=
  first
  [ match goal with |- safe _ (_ ≫= _) _ _ => apply safe_bind end
  | progress cbn [custodyWatch holding take_conn begin_request h_conn h_phase h_empty finished]
  | rewrite Nat.eqb_refl
  | match goal with
    | |- safe _ (setWriteDeadline (Upstream _) _) (Some ?h) _ => apply (upstream_deadline_custody _ h); intros ?
    | |- safe _ (setReadDeadline (Upstream _) _) (Some ?h) _ => apply (upstream_deadline_custody _ h); intros ?
    | |- safe _ ?p _ _ => apply (safe_only local custodyWatch p); [exact custody_local | solve [eauto with local mute nocore] | intros ?]
    end
  | safe_step ].

(** Streaming a request leaves its connection in the middle of an exchange. *)
Lemma streamRequest_custody hl c x cap opts b :
  safe custodyWatch (streamRequest hl c x cap opts) (Some (MkHold c Clean b))
    (fun m st => m = Some (MkHold c Busy false)).
Proof.
  unfold streamRequest. repeat custody_step; try done.
Qed.

(** The custody of [c], whatever happened on it. *)
Definition holds (c : nat) (m : option hold) : Prop := exists h, m = Some h /\ h_conn h = c.

Lemma planResponse_Close x resp filter : rs_Close (rp_resp (planResponse x resp filter)) = rs_Close resp.
Proof. unfold planResponse. simpl. by destruct (_ || _). Qed.

(** The phase after the head of a response. *)
Definition answeredPhase (resp : Response) : phase :=
  if rs_HasBody resp then Answered (rs_Close resp) else finished (rs_Close resp).

Section responses.
Context (statusText : Z -> bytes).

(** A response streamed without an error ends the exchange. *)
Definition delivered (c : nat) (resp : Response) (m : option hold) (r : streamed * Response) : Prop :=
  rs_Close r.2 = rs_Close resp /\ holds c m /\
  (st_err r.1 = None -> exists b, m = Some (MkHold c (finished (rs_Close resp)) b)).

Lemma streamResponse_custody x resp cap filter c b :
  safe custodyWatch (streamResponse statusText x resp cap filter) (Some (MkHold c (answeredPhase resp) b))
    (delivered c resp).
Proof.
  unfold streamResponse, answeredPhase, delivered.
  destruct (rs_HasBody resp); repeat custody_step;
    cbn [fst snd st_err]; rewrite ?finishResponse_err, ?planResponse_Close; split_and!; try done; try by eexists.
  by intros ->; eauto.
Qed.

Lemma streamResponseHTTP_custody x resp cap filter c b :
  safe custodyWatch (streamResponseHTTP x resp cap filter) (Some (MkHold c (answeredPhase resp) b))
    (delivered c resp).
Proof.
  unfold streamResponseHTTP, answeredPhase, delivered.
  destruct (rs_HasBody resp); repeat custody_step;
    cbn [fst snd st_err]; rewrite ?finishResponse_err, ?planResponse_Close; split_and!; try done; try by eexists.
  by intros ->; eauto.
Qed.

(** Nothing is held, or a connection between two exchanges. *)
Definition rests (m : option hold) : Prop := match m with Some h => h_phase h = Clean | None => True end.

Lemma streamResponse_rests x resp cap filter m :
  rests m ->
  safe custodyWatch (streamResponse statusText x resp cap filter) m (fun m' _ => m' = m).
Proof.
  intros Hm. assert (Hc : forall dst out, custodyWatch m copied (CopyBody Client dst) out = Some m).
  { intros dst out. simpl. destruct m as [[c [] b]|]; done. }
  unfold streamResponse. repeat (safe_step || (rewrite Hc) || custody_step); done.
Qed.

Lemma relayWebSocket_custody c x hs idle b :
  safe custodyWatch (relayWebSocket statusText c x hs idle) (Some (MkHold c Clean b)) (fun m _ => holds c m).
Proof.
  unfold relayWebSocket, answerWebSocket, forwardBuffered, wsFail.
  repeat custody_step; by eexists.
Qed.

End responses.

(** ** The connection loop *)

Section loop.
Context (statusText : Z -> bytes) (rx : redactionRegexes) (hl : bool)
  (dial acquire : option (program (result error nat))) (opts : Options)
  (roundTrip : Exchange -> program (result error Response)).

(** What the loop expects of the ways to get a connection. *)
Definition hands_over (p : option (program (result error nat))) : Prop :=
  forall q, p = Some q ->
  safe custodyWatch q None (fun m r =>
    match r with Ok c => exists b, m = Some (MkHold c Clean b) | Err _ => m = None end).

Context (Hdial : hands_over dial) (Hacquire : hands_over acquire)
  (HroundTrip : forall x m, safe custodyWatch (roundTrip x) m (fun m' _ => m' = m)).

(** At the start of a round, and when the function returns. *)
Definition between (lent : bool) (m : option hold) (s : relayState) : Prop :=
  match rl_upstream s with
  | None => m = None
  | Some (c, r) => (r <> None \/ lent = true) /\ exists b, m = Some (MkHold c Clean b)
  end.

Definition leaving (lent : bool) (m : option hold) (s : relayState) : Prop :=
  match rl_upstream s with
  | None => lent = false -> m = None
  | Some (c, r) => (r <> None \/ lent = true) /\ holds c m
  end.

Definition round_post (lent : bool) (m : option hold) (r : relayState + (relayState * option error)) : Prop :=
  match r with inl s => between lent m s | inr (s, _) => leaving lent m s end.

Lemma between_leaving lent m s : between lent m s -> leaving lent m s.
Proof.
  unfold between, leaving. destruct (rl_upstream s) as [[c r]|]; [|by intros ->].
  intros [? [b ->]]. split; [done|]. by eexists.
Qed.

Lemma releaseCurrent_custody lent m s reusable :
  leaving lent m s ->
  (reusable = true -> match rl_upstream s with Some (c, _) => m = Some (MkHold c Clean true) | None => True end) ->
  safe custodyWatch (releaseCurrent dial acquire s reusable) m
    (fun m s' => rl_upstream s' = None /\ (lent = false -> m = None)).
Proof.
  unfold leaving, releaseCurrent. destruct (rl_upstream s) as [[c r]|] eqn:Es; [|done].
  intros [Hr (h & -> & <-)] Hre. destruct r as [[]|].
  - destruct reusable; [specialize (Hre eq_refl) as [= ->]|]; repeat custody_step; done.
  - repeat custody_step; done.
  - destruct Hr as [| ->]; [done|]. repeat custody_step; done.
Qed.

Lemma answerBlocked_custody lent m s o msg answer :
  leaving lent m s -> safe custodyWatch (answerBlocked s o msg answer) m (round_post lent).
Proof. intros Hs. unfold answerBlocked, fail, finish. repeat custody_step; done. Qed.

(** A failed call of the loop returns as it is. *)
Lemma doH2RoundTrip_custody lent m s x host xopts :
  between lent m s ->
  safe custodyWatch (doH2RoundTrip statusText hl roundTrip s x host xopts) m (round_post lent).
Proof.
  intros Hs. pose proof (between_leaving _ _ _ Hs) as Hl.
  assert (Hrest : rests m).
  { unfold between in Hs. destruct (rl_upstream s) as [[c r]|]; [|by subst]. by destruct Hs as [_ [b ->]]. }
  unfold doH2RoundTrip, fail.
  apply safe_bind. eapply safe_mono; [apply HroundTrip|]. intros m' r ->.
  repeat custody_step; [|done..].
  eapply safe_mono; [apply (altSvc_safe _ custody_mute)|]. intros m' resp' [-> _].
  repeat custody_step; try done.
  all: eapply safe_mono; [by apply streamResponse_rests|]; intros m' [st resp''] ->.
  all: repeat custody_step; done.
Qed.

Lemma h2Exchange_custody lent m s x host xopts lc :
  between lent m s ->
  safe custodyWatch (h2Exchange statusText hl roundTrip s x host xopts lc) m (round_post lent).
Proof.
  intros Hs. unfold h2Exchange, finish. apply safe_bind.
  eapply safe_mono; [by apply doH2RoundTrip_custody|]. intros m' [s'|[s' e]] H'; repeat custody_step; try done.
  by apply between_leaving.
Qed.

Lemma deliverResponse_custody lent c r s x xid xopts lc reqDec n cap resp b :
  rl_upstream s = Some (c, r) -> (r <> None \/ lent = true) ->
  safe custodyWatch (deliverResponse statusText rx hl dial acquire s c x xid xopts lc reqDec n cap resp)
    (Some (MkHold c (answeredPhase resp) b)) (round_post lent).
Proof.
  intros Es Hr. unfold deliverResponse, fail, finish.
  set (resp0 := match op_Policy xopts with Some _ => _ | None => resp end).
  assert (H0' : same_framing resp resp0) by (unfold resp0; by destruct (op_Policy xopts)).
  apply safe_bind. eapply safe_mono; [apply (altSvc_safe _ custody_mute)|]. intros m' resp1 [-> H1'].
  assert (Hph : answeredPhase resp = answeredPhase resp1).
  { destruct H0' as (E1 & E2 & _), H1' as (E3 & E4 & _). unfold answeredPhase. by rewrite E4, E3, E2, E1. }
  rewrite Hph. clear Hph H0' H1' resp0.
  assert (Hleave : forall ph b', leaving lent (Some (MkHold c ph b')) s).
  { intros ph b'. unfold leaving. rewrite Es. split; [done|]. by eexists. }
  repeat custody_step; [by apply answerBlocked_custody|apply Hleave|].
  eapply safe_mono; [apply streamResponse_custody|]. intros m' [st resp'] (Ec & (h & -> & Eh) & Hok). simpl in Ec, Hok.
  cbn beta iota. destruct (st_err st) as [e'|].
  - repeat custody_step; destruct h as [c' ph b']; simpl in Eh; subst c'; apply Hleave.
  - destruct (Hok eq_refl) as [b' [= ->]]. repeat custody_step.
    + eapply safe_mono; [apply (releaseCurrent_custody lent)|].
      * unfold leaving. simpl. rewrite Es. split; [done|]. by eexists.
      * intros [Hc Hn]%andb_true_iff. simpl. rewrite Es, Hn. rewrite Ec in Hc. by destruct (rs_Close resp1).
      * intros m' s' [Es' Hm']. simpl. unfold leaving. by rewrite Es'.
    + apply orb_false_iff in Heqb0 as [_ Hc]. unfold round_post, between. simpl. rewrite Es.
      rewrite Ec in Hc. rewrite Hc. eauto.
Qed.

Lemma forwardExchange_custody lent c r s x xid xopts lc b :
  rl_upstream s = Some (c, r) -> (r <> None \/ lent = true) ->
  safe custodyWatch (forwardExchange statusText rx hl dial acquire opts s c x xid xopts lc)
    (Some (MkHold c Clean b)) (round_post lent).
Proof.
  intros Es Hr.
  assert (Hleave : forall ph b', leaving lent (Some (MkHold c ph b')) s).
  { intros ph b'. unfold leaving. rewrite Es. split; [done|]. by eexists. }
  unfold forwardExchange, fail. repeat custody_step; [apply Hleave|].
  eapply safe_mono; [apply streamRequest_custody|]. intros m' st ->.
  repeat custody_step; try apply Hleave; [by apply answerBlocked_custody|].
  by apply (deliverResponse_custody _ _ r).
Qed.

Lemma upstreamExchange_custody lent m s x host xid xopts lc :
  between lent m s ->
  safe custodyWatch (upstreamExchange statusText rx hl dial acquire opts roundTrip s x host xid xopts lc) m (round_post lent).
Proof.
  intros Hs. pose proof (between_leaving _ _ _ Hs) as Hl. unfold upstreamExchange, fail, failNew.
  unfold between in Hs. destruct (rl_upstream s) as [[c r]|] eqn:Es.
  - destruct Hs as [Hr [b ->]]. by apply (forwardExchange_custody _ _ r).
  - subst m. assert (Hb : between lent None s) by (unfold between; by rewrite Es).
    destruct acquire as [acq|]; [|destruct dial as [dl|]].
    + apply safe_bind. eapply safe_mono; [by apply Hacquire|]. intros m' [c|e].
      * intros [b ->]. apply (forwardExchange_custody _ _ (Some ByLease)); [done|by left].
      * intros ->. repeat custody_step; [by apply answerBlocked_custody|by apply h2Exchange_custody|done].
    + apply safe_bind. eapply safe_mono; [by apply Hdial|]. intros m' [c|e].
      * intros [b ->]. apply (forwardExchange_custody _ _ (Some ByClose)); [done|by left].
      * intros ->. repeat custody_step; done.
    + repeat custody_step; done.
Qed.

(** A WebSocket session always ends with its connection given back. *)
Lemma webSocket_connected lent c r s x b :
  rl_upstream s = Some (c, r) -> (r <> None \/ lent = true) ->
  safe custodyWatch
    (call (ClearDeadline Client) ;; call (ClearDeadline (Upstream c)) ;;
     let wsIdle := if (op_WSIdleTimeout opts <=? 0)%Z then DefaultWebSocketIdleTimeout else op_WSIdleTimeout opts in
     wsErr ← relayWebSocket statusText c x (op_IOTimeout opts) wsIdle;
     closeRequestBody x ;; s ← releaseCurrent dial acquire s false; Return (inr (s, wsErr)))
    (Some (MkHold c Clean b)) (round_post lent).
Proof.
  intros Es Hr. do 6 custody_step.
  repeat custody_step. eapply safe_mono; [apply relayWebSocket_custody|]. intros m' e Hm'.
  repeat custody_step. eapply safe_mono; [apply (releaseCurrent_custody lent)|].
  - unfold leaving. by rewrite Es.
  - done.
  - intros m'' s' [Es' Hm'']. simpl. unfold leaving. by rewrite Es'.
Qed.

Lemma webSocketExchange_custody lent m s x :
  between lent m s ->
  safe custodyWatch (webSocketExchange statusText hl dial acquire opts s x) m (round_post lent).
Proof.
  intros Hs. pose proof (between_leaving _ _ _ Hs) as Hl. unfold webSocketExchange, fail, failNew.
  unfold between in Hs. destruct (rl_upstream s) as [[c r]|] eqn:Es.
  - destruct Hs as [Hr [b ->]]. by apply (webSocket_connected _ _ r).
  - subst m. destruct acquire as [acq|] eqn:Ea; [|destruct dial as [dl|] eqn:Ed].
    + apply safe_bind. eapply safe_mono; [by apply Hacquire|]. intros m' [c|e].
      * intros [b ->]. rewrite <- Ea. apply (webSocket_connected _ _ (Some ByLease)); [done|by left].
      * intros ->. repeat custody_step; [by apply answerBlocked_custody|done..].
    + apply safe_bind. eapply safe_mono; [by apply Hdial|]. intros m' [c|e].
      * intros [b ->]. rewrite <- Ea, <- Ed. apply (webSocket_connected _ _ (Some ByClose)); [done|by left].
      * intros ->. repeat custody_step; done.
    + repeat custody_step; done.
Qed.

Lemma serveRequest_custody lent m s x :
  between lent m s ->
  safe custodyWatch (serveRequest statusText rx hl dial acquire opts roundTrip s x) m (round_post lent).
Proof.
  intros Hs. pose proof (between_leaving _ _ _ Hs) as Hl. unfold serveRequest.
  repeat custody_step; try (by apply answerBlocked_custody); try (by apply webSocketExchange_custody);
    try (by apply h2Exchange_custody); by apply upstreamExchange_custody.
Qed.

Lemma relayRound_custody lent m s :
  between lent m s ->
  safe custodyWatch (relayRound statusText rx hl dial acquire opts roundTrip s) m (round_post lent).
Proof.
  intros Hs. pose proof (between_leaving _ _ _ Hs) as Hl. unfold relayRound, fail, finish.
  repeat custody_step; [done|by apply serveRequest_custody| |done].
  apply (safe_mono _ _ (fun m' r => leaving lent m' s /\
    (r = true -> match rl_upstream s with Some (c, _) => m' = Some (MkHold c Clean true) | None => True end))).
  - unfold reusableNow. unfold between in Hs. destruct (rl_upstream s) as [[c r]|] eqn:Es; [|done].
    destruct Hs as [Hr [b ->]]. repeat custody_step. split; [|by intros ->].
    unfold leaving. rewrite Es. split; [done|]. by eexists.
  - intros m' r [Hm' Hr]. apply safe_bind. eapply safe_mono; [by apply (releaseCurrent_custody lent)|].
    intros m'' s' [Es' Hm'']. simpl. unfold leaving. by rewrite Es'.
Qed.

(** Whatever the client, the upstream and the policy do, a connection the
    loop obtained has been given back exactly once when it returns. *)
Lemma relayHTTPConnLease_custody fuel :
  safe custodyWatch (relayHTTPConnLease statusText rx hl dial acquire opts roundTrip fuel None) None
    (fun m r => r <> None -> m = None).
Proof.
  unfold relayHTTPConnLease. apply safe_bind.
  eapply safe_mono.
  { apply (safe_iterate _ _ (between false) (fun m r => leaving false m r.1)); [|done].
    intros m s Hs. eapply safe_mono; [by apply relayRound_custody|]. by intros m' [s'|[s' e]]. }
  intros m [[s e]|] Hm; [|by cbn; intros []].
  apply safe_bind. eapply safe_mono; [by apply (releaseCurrent_custody false)|].
  intros m' s' [_ Hm']. simpl. auto.
Qed.

End loop.

(** ** Getting a connection *)

Section upstream.
Context (s : Server).

(** The result of a dial: the connection is held when there is one. *)
Definition dialled (m : option hold) (r : result error nat) : Prop :=
  match r with Ok c => exists b, m = Some (MkHold c Clean b) | Err _ => m = None end.

Lemma resolveDialAddress_custody address m :
  safe custodyWatch (resolveDialAddress s address) m (fun m' _ => m' = m).
Proof. unfold resolveDialAddress. repeat custody_step; done. Qed.

Lemma Execute_custody cb host dial :
  safe custodyWatch dial None dialled -> safe custodyWatch (Execute cb host dial) None dialled.
Proof.
  intros Hd. unfold Execute. repeat custody_step; try done.
  eapply safe_mono; [exact Hd|]. intros m r Hr. by repeat custody_step.
Qed.

Lemma dialPlainHTTP_custody address : safe custodyWatch (dialPlainHTTP s address) None dialled.
Proof.
  unfold dialPlainHTTP. apply safe_bind. eapply safe_mono; [apply resolveDialAddress_custody|]. intros m r ->.
  repeat custody_step; [|done]. apply Execute_custody. repeat custody_step; [|done]. by eexists.
Qed.

Lemma acquireUpstream_custody key dial :
  safe custodyWatch dial None dialled -> safe custodyWatch (acquireUpstream key dial) None dialled.
Proof. intros Hd. unfold acquireUpstream. repeat custody_step; [by eexists|done]. Qed.

Lemma acquireHTTPSUpstream_custody address host : safe custodyWatch (acquireHTTPSUpstream s address host) None dialled.
Proof.
  unfold acquireHTTPSUpstream. custody_step; [done|]. apply safe_bind.
  eapply safe_mono; [apply acquireUpstream_custody|].
  - apply safe_bind. eapply safe_mono; [apply resolveDialAddress_custody|]. intros m r ->.
    repeat custody_step; [|done]. apply Execute_custody. repeat custody_step; [|done]. by eexists.
  - intros m [c|e]; [intros [b ->]|intros ->; done].
    repeat custody_step; try done; by eexists.
Qed.

Lemma roundTripH2_custody x host plan m : safe custodyWatch (roundTripH2 x host plan) m (fun m' _ => m' = m).
Proof. unfold roundTripH2. repeat custody_step; done. Qed.

End upstream.

(** ** The handlers *)

Section handlers.
Context (statusText : Z -> bytes) (rx : redactionRegexes) (s : Server).

(** The end of an exchange with a response writer: whether the connection is
    reusable is decided as the monitor asks. *)
Definition returned (c : nat) (m : option hold) (reusable : bool) : Prop :=
  holds c m /\ (reusable = true -> m = Some (MkHold c Clean true)).

Lemma returned_false c ph b : returned c (Some (MkHold c ph b)) false.
Proof. split; [by eexists|done]. Qed.

Lemma Release_custody c m reusable (Q : option hold -> unit -> Prop) :
  returned c m reusable -> Q None tt -> safe custodyWatch (call (Release c reusable)) m Q.
Proof.
  intros [(h & -> & Eh) Hr] HQ []. simpl. rewrite Eh, Nat.eqb_refl.
  destruct reusable; [|done]. by specialize (Hr eq_refl) as [= ->].
Qed.

Lemma concludeExchange_mute x xid opts reqDec n cap resp st err :
  only mute (concludeExchange rx s x xid opts reqDec n cap resp st err).
Proof. unfold concludeExchange. repeat only_step; eauto with mute nocore. Qed.

(** The common end of [plainResponse] and [streamedResponse]. *)
Lemma respond_custody x xid opts reqDec n cap reqCap resp c b err :
  safe custodyWatch
    ('(st, resp) ← streamResponseHTTP x resp cap (ro_Filter (op_scoped opts));
     concludeExchange rx s (st_x st) xid opts reqDec n reqCap resp st err ;;
     n ← call (Buffered (Upstream c));
     closeResponseBody resp ;;
     Return (bool_decide (st_err st = None) && negb (Blocked (st_dec st)) && negb (rs_Close resp) && (n =? 0)%Z))
    (Some (MkHold c (answeredPhase resp) b)) (returned c).
Proof.
  apply safe_bind. eapply safe_mono; [apply streamResponseHTTP_custody|].
  intros m [st resp'] (Ec & (h & -> & Eh) & Hok). simpl in Ec, Hok. cbn beta iota.
  apply safe_bind. apply (safe_only mute); [exact custody_mute|apply concludeExchange_mute|intros []].
  destruct h as [c' ph b']. simpl in Eh. subst c'. repeat custody_step.
  split; [by eexists|]. rewrite !andb_true_iff, bool_decide_eq_true. intros [[[He _] Hc] Hn].
  destruct (Hok He) as [b'' [= -> ->]]. rewrite Ec in Hc. rewrite Hn. by destruct (rs_Close resp).
Qed.

Lemma plainResponse_custody c x xid opts reqDec n cap resp b :
  safe custodyWatch (plainResponse statusText rx s c x xid opts reqDec n cap resp)
    (Some (MkHold c (answeredPhase resp) b)) (returned c).
Proof.
  unfold plainResponse. apply safe_bind.
  eapply safe_mono; [apply (advertise_safe _ custody_mute)|]. intros m resp1 [-> (E1 & E2 & _)].
  assert (Hph : answeredPhase resp = answeredPhase resp1) by (unfold answeredPhase; by rewrite E1, E2).
  rewrite Hph. custody_step.
  - repeat custody_step. apply returned_false.
  - repeat (lazymatch goal with |- safe _ (streamResponseHTTP _ _ _ _ ≫= _) _ _ => fail | _ => custody_step end).
    apply respond_custody.
Qed.

Lemma streamedResponse_custody c x xid opts reqDec n cap resp b :
  safe custodyWatch (streamedResponse statusText rx s c x xid opts reqDec n cap resp)
    (Some (MkHold c (answeredPhase resp) b)) (returned c).
Proof.
  unfold streamedResponse. apply safe_bind.
  eapply safe_mono; [apply (advertise_safe _ custody_mute)|]. intros m resp1 [-> (E1 & E2 & _)].
  assert (Hph : answeredPhase resp = answeredPhase resp1) by (unfold answeredPhase; by rewrite E1, E2).
  rewrite Hph. custody_step.
  - repeat custody_step. apply returned_false.
  - repeat (lazymatch goal with |- safe _ (streamResponseHTTP _ _ _ _ ≫= _) _ _ => fail | _ => custody_step end).
    apply respond_custody.
Qed.

Lemma plainExchange_custody c x opts b :
  safe custodyWatch (plainExchange statusText rx s c x opts) (Some (MkHold c Clean b)) (returned c).
Proof.
  unfold plainExchange. repeat custody_step; [apply returned_false|].
  eapply safe_mono; [apply streamRequest_custody|]. intros m st ->.
  repeat custody_step; try apply returned_false. apply plainResponse_custody.
Qed.

Lemma streamedExchange_custody c x xid opts b :
  safe custodyWatch (streamedExchange statusText rx s c x xid opts) (Some (MkHold c Clean b)) (returned c).
Proof.
  unfold streamedExchange. repeat custody_step; [apply returned_false|].
  eapply safe_mono; [apply streamRequest_custody|]. intros m st ->.
  repeat custody_step; try apply returned_false. apply streamedResponse_custody.
Qed.

Lemma plainWebSocket_custody c x opts b :
  safe custodyWatch (plainWebSocket statusText s c x opts) (Some (MkHold c Clean b)) (returned c).
Proof.
  unfold plainWebSocket. repeat custody_step; try apply returned_false.
  eapply safe_mono; [apply relayWebSocket_custody|]. intros m e Hm. repeat custody_step. by split.
Qed.

(** A handler that has returned holds nothing. *)
Definition empty_handed {A} (m : option hold) (r : option A) : Prop := r <> None -> m = None.

Ltac at_rest := lazymatch goal with |- empty_handed _ _ => by intros ? | |- _ = None => done end.

Lemma withPermit_custody profile k :
  safe custodyWatch k None empty_handed -> safe custodyWatch (withPermit statusText profile k) None empty_handed.
Proof.
  intros Hk. unfold withPermit. repeat custody_step; [|done].
  eapply safe_mono; [exact Hk|]. intros m [r|] Hm; repeat custody_step; [by rewrite Hm|done].
Qed.

Lemma plainLeased_custody x isWS opts host address :
  safe custodyWatch (plainLeased statusText rx s x isWS opts host address) None (fun m _ => m = None).
Proof.
  unfold plainLeased. apply safe_bind.
  eapply safe_mono; [apply acquireUpstream_custody, dialPlainHTTP_custody|]. intros m [c|e]; cbn [dialled].
  - intros [b ->]. apply (safe_cut _ (returned c)).
    + destruct isWS; [apply plainWebSocket_custody|apply plainExchange_custody].
    + intros m r Hm. by apply Release_custody.
  - intros ->. repeat custody_step; done.
Qed.

Lemma handlePlainHTTP_custody x profile : safe custodyWatch (handlePlainHTTP statusText rx s x profile) None empty_handed.
Proof.
  unfold handlePlainHTTP. repeat custody_step; try done; apply withPermit_custody; custody_step; apply safe_bind;
    (eapply safe_mono; [apply plainLeased_custody|]); by intros m [] ->.
Qed.

Lemma handleHTTPSStreamH2Upstream_custody x host xid opts :
  safe custodyWatch (handleHTTPSStreamH2Upstream statusText rx s x host xid opts) None (fun m _ => m = None).
Proof.
  unfold handleHTTPSStreamH2Upstream. apply safe_bind.
  eapply safe_mono; [apply roundTripH2_custody|]. intros m r ->.
  repeat custody_step; try done.
  eapply safe_mono; [apply (advertise_safe _ custody_mute)|]. intros m resp [-> _].
  repeat custody_step; try done.
  unfold streamResponseHTTP. repeat custody_step; done.
Qed.

Lemma handleHTTPSStream_custody x connectHost address :
  safe custodyWatch (handleHTTPSStream statusText rx s x connectHost address) None (fun m _ => m = None).
Proof.
  unfold handleHTTPSStream. repeat custody_step; try done; try apply handleHTTPSStreamH2Upstream_custody.
  all: eapply safe_mono; [apply acquireHTTPSUpstream_custody|]; intros m [c|e]; cbn [dialled].
  all: try (intros ->; repeat custody_step; try done; apply handleHTTPSStreamH2Upstream_custody).
  all: intros [b ->]; apply (safe_cut _ (returned c)); [apply streamedExchange_custody|].
  all: intros m r Hm; by apply Release_custody.
Qed.

Lemma hijacked_custody errLine k :
  (forall n, safe custodyWatch (k n) None empty_handed) ->
  safe custodyWatch (hijacked s errLine k) None empty_handed.
Proof.
  intros Hk. unfold hijacked. repeat custody_step; try done.
  eapply safe_mono; [apply Hk|]. intros m [[]|] Hm; repeat custody_step; [by rewrite Hm|done].
Qed.

Lemma handleBypassMITM_custody handshake x host :
  safe custodyWatch (handleBypassMITM s handshake x host) None empty_handed.
Proof.
  apply hijacked_custody. intros n. repeat custody_step.
  eapply safe_mono; [apply dialPlainHTTP_custody|]. intros m [c|e]; cbn [dialled].
  - intros [b ->]. repeat custody_step; done.
  - intros ->. repeat custody_step; done.
Qed.

Lemma serveStreams_custody fuel host address :
  safe custodyWatch (serveStreams statusText rx s fuel host address) None empty_handed.
Proof.
  unfold serveStreams. eapply safe_mono.
  - apply (safe_iterate _ _ (fun m _ => m = None) (fun m _ => m = None)); [|done]. intros m [] ->.
    repeat custody_step; [|done]. eapply safe_mono; [apply handleHTTPSStream_custody|]. by intros m [] ->.
  - by intros m [[]|] Hm; unfold empty_handed.
Qed.

Lemma relayIntercepted_custody fuel address host :
  safe custodyWatch (relayIntercepted statusText rx s fuel address host) None empty_handed.
Proof.
  apply relayHTTPConnLease_custody.
  - by intros q [=].
  - intros q [= <-]. apply safe_bind. eapply safe_mono; [apply acquireHTTPSUpstream_custody|].
    intros m [c|e]; cbn [dialled]; intros Hm; repeat custody_step; done.
  - intros x m. apply roundTripH2_custody.
Qed.

Lemma handleHTTPS_custody fuel handshake x :
  safe custodyWatch (handleHTTPS statusText rx s fuel handshake x) None empty_handed.
Proof.
  apply hijacked_custody. intros n. repeat custody_step; try done; [apply serveStreams_custody|].
  eapply safe_mono; [apply relayIntercepted_custody|]. intros m r Hm.
  assert (Hm' : r <> None -> m = None) by done. clear Hm.
  destruct r as [[e|]|]; [rewrite Hm' by done|rewrite Hm' by done|]; repeat custody_step; by intros ?.
Qed.

Lemma serveHTTP3_custody x profile : safe custodyWatch (serveHTTP3 statusText rx s x profile) None empty_handed.
Proof.
  unfold serveHTTP3. repeat custody_step; try at_rest. apply withPermit_custody. custody_step. apply safe_bind.
  eapply safe_mono; [apply handleHTTPSStream_custody|]. by intros m [] ->.
Qed.

Lemma serveConnect_custody fuel handshake x profile :
  safe custodyWatch (serveConnect statusText rx s fuel handshake x profile) None empty_handed.
Proof.
  pose proof (handleBypassMITM_custody handshake x) as Hbypass.
  pose proof (handleHTTPS_custody fuel handshake x) as Hhttps.
  remember (handleBypassMITM s handshake x) as bypass. remember (handleHTTPS statusText rx s fuel handshake x) as https.
  unfold serveConnect. rewrite <- Heqbypass, <- Heqhttps.
  repeat custody_step; try at_rest; by apply withPermit_custody.
Qed.

Lemma ServeHTTP_custody fuel handshake http3 x :
  safe custodyWatch (ServeHTTP statusText rx s fuel handshake http3 x) None empty_handed.
Proof.
  assert (Hk : forall profile, safe custodyWatch
    (if http3 then serveHTTP3 statusText rx s x profile
     else if negb (bytes_eqb (Method (x_req x)) (str "CONNECT")) then handlePlainHTTP statusText rx s x profile
     else serveConnect statusText rx s fuel handshake x profile) None empty_handed).
  { intros profile. destruct http3; [apply serveHTTP3_custody|].
    destruct (negb _); [apply handlePlainHTTP_custody|apply serveConnect_custody]. }
  unfold ServeHTTP, admitClient. repeat custody_step; try at_rest;
    (eapply safe_mono; [apply Hk|]; intros m [[]|] Hm; repeat custody_step; [by rewrite Hm|at_rest]).
Qed.

End handlers.

End custody.

