(* ===== verification/Mediation.v ===== *)
(** * Complete mediation

    A monitor of admission: whatever reaches an upstream was allowed to.  The
    client has a profile, is inside its schedule and within its rate, holds a
    permit of the connection limits, and asked for a destination the policy
    admits; a request that is read from an intercepted connection, or that is
    a stream of it, was judged on its own, and what is written upstream is the
    judged request. *)

From S2P Require Import Prelude Effects GoStrings GoConv GoRegexp GoUrl GoNetip GoMime Http DomainTrie DomainRules Framing Access PolicyRules UrlRules Policy Schedule SemanticFilter FilterEngine InspectReader BodyFilters MaskingFilter ContentFilter UpstreamPool AuditScope Relay Exchange Dump Streaming WebSocket RelayLoop Upstream Server Quiet.

#[global] Instance URL_eq_dec : EqDecision URL.
Proof. solve_decision. Defined.

#[global] Instance Request_eq_dec : EqDecision Request.
Proof. solve_decision. Defined.

(** ** The monitor *)

(** Whose request is being served: the one the handler was called with, one
    that the loop read, or a stream of the connection. *)
Inductive scope := Asked | Relayed (x : Exchange) | Streamed (x : Exchange).

Record gate := MkGate { g_rate : bool; g_permit : option nat; g_scope : scope }.

Section mediation.
Context `{UnicodeTables} `{ContentSniffer} `{Regexp} `{PrefixTable} `{Digests}
  (s : Server) (http3 : bool) (x : Exchange).

Definition clientProfile : bytes := (ProfileForRemoteAddr (sv_access s) (x_remoteAddr x)).1.

Definition clientAdmissible : bool :=
  (ProfileForRemoteAddr (sv_access s) (x_remoteAddr x)).2 && Allowed (sv_schedules s) clientProfile (sv_now s).

Definition isConnect : bool := bytes_eqb (Method (x_req x)) (str "CONNECT").

Definition http3Host : bytes :=
  let host := requestHost (x_req x) in match SplitHostPort host with Some (h, _) => h | None => host end.

(** The destination passes the policy. *)
Definition destinationAllowed : bool :=
  if http3 then
    negb (bytes_eqb http3Host []) && negb (Blocked (EvaluateRequest (sv_policy s) http3Host (Some (x_req x)) (str "https")))
  else if isConnect then
    match connectHostname (x_req x) with
    | Some host => negb (Blocked (EvaluateRequest (sv_policy s) host None (str "https")))
    | None => false
    end
  else match plainHTTPDestination (x_req x) with
       | Some (host, _) => negb (Blocked (EvaluateRequest (sv_policy s) host (Some (x_req x)) (str "http")))
       | None => false
       end.

(** What may be written upstream for a request that was allowed: the request,
    without the headers between the client and the proxy, for HTTP/1.1, as a
    WebSocket handshake, or for HTTP/2. *)
Definition plainForms (req : Request) : list Request :=
  [setClose (normalizeRequestURL (SanitizeHeaders req)) false; normalizeRequestURL (sanitizeWebSocketRequest req)].

Definition relayedForms (req : Request) : list Request :=
  let req := prepareRequest (op_Policy (sv_relay s)) req in
  match requestVerdict (op_Policy (sv_relay s)) req with
  | Passed _ =>
      let req := setClose req false in
      [req; normalizeRequestURL (sanitizeWebSocketRequest req); h2Request req (urlHostOr req (rq_Host req))]
  | _ => []
  end.

Definition streamForms (connectHost : bytes) (req : Request) : list Request :=
  let host := if bytes_eqb (rq_Host req) [] then connectHost else rq_Host req in
  let host := match SplitHostPort host with Some (h, _) => h | None => host end in
  let req := streamRequestOf req connectHost in
  match op_Policy (sv_relay s) with
  | Some _ => if Blocked (EvaluateRequest (op_Policy (sv_relay s)) host (Some req) (str "https")) then [] else [req]
  | None => [req]
  end.

Definition forms (sc : scope) : list Request :=
  match sc with
  | Asked => if http3 then streamForms http3Host (x_req x) else if isConnect then [] else plainForms (x_req x)
  | Relayed y => relayedForms (x_req y)
  | Streamed y => streamForms (default [] (connectHostname (x_req x))) (x_req y)
  end.

(** Only a CONNECT on the lists, or outside the audited traffic, is tunnelled
    without being looked at. *)
Definition tunnelAllowed (sc : scope) : bool :=
  match sc with
  | Asked =>
      negb http3 && isConnect &&
      match connectHostname (x_req x) with
      | Some host => shouldBypassMITM s host || op_AuditScope (sv_relay s) && op_NoneModeTunnel (sv_relay s)
      | None => false
      end
  | _ => false
  end.

(** The request being served may reach an upstream. *)
Definition opened (m : gate) : bool :=
  clientAdmissible && destinationAllowed && g_rate m && bool_decide (is_Some (g_permit m))
  && (bool_decide (forms (g_scope m) <> []) || tunnelAllowed (g_scope m)).

Definition gateWatch (m : gate) (X : Type) (e : proxyE X) : X -> option gate :=
  let pass (b : bool) : option gate := if opened m && b then Some m else None in
  match e in proxyE X return X -> option gate with
  | RateAllow _ _ _ => fun ok => Some (MkGate ok (g_permit m) (g_scope m))
  | AcquirePermit profile => fun r =>
      match r with
      | Ok permit => if bytes_eqb profile clientProfile && bool_decide (g_permit m = None)
                     then Some (MkGate (g_rate m) (Some permit) (g_scope m)) else None
      | Err _ => Some m
      end
  | ReleasePermit permit => fun _ =>
      if bool_decide (g_permit m = Some permit) then Some (MkGate (g_rate m) None (g_scope m)) else None
  | ReadRequest => fun r => match r with Ok y => Some (MkGate (g_rate m) (g_permit m) (Relayed y)) | Err _ => Some m end
  | NextStream => fun r => match r with Some y => Some (MkGate (g_rate m) (g_permit m) (Streamed y)) | None => Some m end
  | WriteRequest _ req => fun _ => pass (bool_decide (req ∈ forms (g_scope m)))
  | Write (Upstream _) b => fun _ => pass (bool_decide (b ∈ map writeRequestHeader (forms (g_scope m))))
  | RoundTripConn _ y _ => fun _ => pass (bool_decide (x_req y ∈ forms (g_scope m)))
  | RoundTripTransport y _ => fun _ => pass (bool_decide (x_req y ∈ forms (g_scope m)))
  | Tunnel _ => fun _ => pass (tunnelAllowed (g_scope m))
  | TakeIdle _ => fun _ => pass true
  | DialTCP _ => fun _ => pass true
  | DialTLS _ _ => fun _ => pass true
  | CopyBody (Upstream _) _ => fun _ => pass true
  | Pump _ _ => fun _ => pass true
  | _ => fun _ => Some m
  end.

Definition gate0 : gate := MkGate (bool_decide (profileRateLimit s clientProfile = None)) None Asked.

(** ** Serving one request *)

(** Calls for one request that was allowed to be written as one of [F]. *)
Definition within (F : list Request) (X : Type) (e : proxyE X) : bool :=
  match e with
  | RateAllow _ _ _ | AcquirePermit _ | ReleasePermit _ | ReadRequest | NextStream | Tunnel _ => false
  | WriteRequest _ req => bool_decide (req ∈ F)
  | Write (Upstream _) b => bool_decide (b ∈ map writeRequestHeader F)
  | RoundTripConn _ y _ | RoundTripTransport y _ => bool_decide (x_req y ∈ F)
  | _ => true
  end.

Lemma within_watch m X (e : proxyE X) r :
  opened m = true -> within (forms (g_scope m)) X e = true -> gateWatch m X e r = Some m.
Proof.
  intros Ho He. destruct e; simpl in *; try done; rewrite ?Ho, ?He; try done;
    match goal with p : peer |- _ => destruct p end; rewrite ?Ho; simpl; rewrite ?He; done.
Qed.

Lemma local_watch m X (e : proxyE X) r : local X e = true -> gateWatch m X e r = Some m.
Proof. destruct e; try done; match goal with p : peer |- _ => by destruct p end. Qed.

Lemma local_within F {A} (p : program A) : only local p -> only (within F) p.
Proof.
  apply only_weaken. intros X e. destruct e; try done; match goal with p : peer |- _ => by destruct p end.
Qed.

Section stages.
Context (F : list Request).

Lemma deadline_within p t : only (within F) (setWriteDeadline p t) /\ only (within F) (setReadDeadline p t).
Proof. unfold setWriteDeadline, setReadDeadline. by destruct (_ <=? _)%Z. Qed.

Ltac within_step :=
  first
  [ match goal with |- only _ (_ ≫= _) => apply only_bind; [|intros ?] end
  | apply deadline_within
  | match goal with
    | |- only (within _) (call _) => apply only_call; solve [reflexivity | by apply bool_decide_eq_true]
    | |- only (within _) ?p => apply local_within; solve [eauto with local mute nocore]
    end
  | only_step ].

Lemma streamRequest_within hl c y cap opts : x_req y ∈ F -> only (within F) (streamRequest hl c y cap opts).
Proof.
  intros Hy. assert (Hh : writeRequestHeader (x_req y) ∈ map writeRequestHeader F) by by apply list_elem_of_fmap_2.
  unfold streamRequest. repeat within_step.
Qed.

Lemma streamResponse_within st y resp cap f : only (within F) (streamResponse st y resp cap f).
Proof. unfold streamResponse. repeat within_step. Qed.

Lemma streamResponseHTTP_within y resp cap f : only (within F) (streamResponseHTTP y resp cap f).
Proof. unfold streamResponseHTTP. repeat within_step. Qed.

Lemma relayWebSocket_within st c y hs idle :
  normalizeRequestURL (sanitizeWebSocketRequest (x_req y)) ∈ F -> only (within F) (relayWebSocket st c y hs idle).
Proof. intros Hy. unfold relayWebSocket, answerWebSocket, forwardBuffered, wsFail. repeat within_step. Qed.

Lemma altSvc_within opts resp : only (within F) (altSvc opts resp).
Proof. unfold altSvc. repeat within_step. Qed.

Lemma advertise_within resp : only (within F) (advertise s resp).
Proof. unfold advertise. repeat within_step. Qed.

(** *** Connections *)

Lemma reaching_within {A} (p : program A) : only reaching p -> only (within F) p.
Proof. apply only_weaken. by intros X []. Qed.

Lemma roundTripH2_within y host plan : x_req y ∈ F -> only (within F) (roundTripH2 y host plan).
Proof. intros Hy. unfold roundTripH2. repeat within_step. Qed.

(** *** The loop *)

Lemma releaseCurrent_within dl acq st r : only (within F) (releaseCurrent dl acq st r).
Proof. unfold releaseCurrent. repeat within_step. Qed.

Section loop.
Context (statusText : Z -> bytes) (rx : redactionRegexes) (hl : bool)
  (dial acquire : option (program (result error nat))) (opts : Options)
  (roundTrip : Exchange -> program (result error Response))
  (Hdial : forall q, dial = Some q -> only (within F) q) (Hacquire : forall q, acquire = Some q -> only (within F) q)
  (HroundTrip : forall y, x_req y ∈ F -> only (within F) (roundTrip y)).

Lemma answerBlocked_within st o msg answer : only (within F) (answerBlocked st o msg answer).
Proof. unfold answerBlocked, fail, finish. repeat within_step. Qed.

Lemma h2Exchange_within st y host xopts lc :
  h2Request (x_req y) host ∈ F -> only (within F) (h2Exchange statusText hl roundTrip st y host xopts lc).
Proof.
  intros Hy. unfold h2Exchange, doH2RoundTrip, fail, finish.
  repeat first [within_step | apply HroundTrip | apply altSvc_within | apply streamResponse_within | done].
Qed.

Lemma deliverResponse_within st c y xid xopts lc reqDec n cap resp :
  only (within F) (deliverResponse statusText rx hl dial acquire st c y xid xopts lc reqDec n cap resp).
Proof.
  unfold deliverResponse, fail, finish.
  repeat first [within_step | apply altSvc_within | apply streamResponse_within | apply releaseCurrent_within
               | apply answerBlocked_within].
Qed.

Lemma forwardExchange_within st c y xid xopts lc :
  x_req y ∈ F -> only (within F) (forwardExchange statusText rx hl dial acquire opts st c y xid xopts lc).
Proof.
  intros Hy. unfold forwardExchange, fail.
  repeat first [within_step | by apply streamRequest_within | apply answerBlocked_within | apply deliverResponse_within].
Qed.

Lemma upstreamExchange_within st y host xid xopts lc :
  x_req y ∈ F -> h2Request (x_req y) host ∈ F ->
  only (within F) (upstreamExchange statusText rx hl dial acquire opts roundTrip st y host xid xopts lc).
Proof.
  intros Hy Hh. unfold upstreamExchange, fail, failNew.
  destruct (rl_upstream st) as [[c r]|]; [by apply forwardExchange_within|].
  destruct acquire as [acq|] eqn:Ea; [|destruct dial as [dl|] eqn:Ed].
  all: repeat first [within_step | by apply forwardExchange_within | by apply h2Exchange_within
    | apply answerBlocked_within | by apply Hacquire | by apply Hdial ].
Qed.

Lemma webSocketExchange_within st y :
  normalizeRequestURL (sanitizeWebSocketRequest (x_req y)) ∈ F ->
  only (within F) (webSocketExchange statusText hl dial acquire opts st y).
Proof.
  intros Hy. unfold webSocketExchange, fail, failNew.
  destruct (rl_upstream st) as [[c r]|]; [|destruct acquire as [acq|] eqn:Ea; [|destruct dial as [dl|] eqn:Ed]].
  all: repeat first [within_step | by apply relayWebSocket_within | apply releaseCurrent_within
    | apply answerBlocked_within | by apply Hacquire | by apply Hdial ].
Qed.

End loop.

(** *** The handlers *)

Section handlers.
Context (statusText : Z -> bytes) (rx : redactionRegexes).

Lemma concludeExchange_local y xid opts reqDec n cap resp st line' :
  only local (concludeExchange rx s y xid opts reqDec n cap resp st line').
Proof. unfold concludeExchange. repeat (only_step || solve [eauto with local mute nocore]). Qed.

Lemma plainResponse_within c y xid opts reqDec n cap resp :
  only (within F) (plainResponse statusText rx s c y xid opts reqDec n cap resp).
Proof.
  unfold plainResponse.
  repeat first [within_step | apply advertise_within | apply streamResponseHTTP_within
               | apply local_within, concludeExchange_local].
Qed.

Lemma streamedResponse_within c y xid opts reqDec n cap resp :
  only (within F) (streamedResponse statusText rx s c y xid opts reqDec n cap resp).
Proof.
  unfold streamedResponse.
  repeat first [within_step | apply advertise_within | apply streamResponseHTTP_within
               | apply local_within, concludeExchange_local].
Qed.

Lemma plainExchange_within c y opts :
  setClose (normalizeRequestURL (SanitizeHeaders (x_req y))) false ∈ F ->
  only (within F) (plainExchange statusText rx s c y opts).
Proof.
  intros Hy. unfold plainExchange.
  repeat first [within_step | by apply streamRequest_within | apply plainResponse_within].
Qed.

Lemma streamedExchange_within c y xid opts :
  x_req y ∈ F -> only (within F) (streamedExchange statusText rx s c y xid opts).
Proof.
  intros Hy. unfold streamedExchange.
  repeat first [within_step | by apply streamRequest_within | apply streamedResponse_within].
Qed.

Lemma plainWebSocket_within c y opts :
  normalizeRequestURL (sanitizeWebSocketRequest (x_req y)) ∈ F ->
  only (within F) (plainWebSocket statusText s c y opts).
Proof. intros Hy. unfold plainWebSocket. repeat first [within_step | by apply relayWebSocket_within]. Qed.

Lemma plainLeased_within y isWS opts host address :
  plainForms (x_req y) ⊆ F -> only (within F) (plainLeased statusText rx s y isWS opts host address).
Proof.
  intros Hy. unfold plainLeased.
  repeat first [within_step | apply reaching_within, acquirePlainHTTP_reaching | apply plainExchange_within, Hy; set_solver
    | apply plainWebSocket_within, Hy; set_solver].
Qed.

Lemma handleHTTPSStreamH2Upstream_within y host xid opts :
  x_req y ∈ F -> only (within F) (handleHTTPSStreamH2Upstream statusText rx s y host xid opts).
Proof.
  intros Hy. unfold handleHTTPSStreamH2Upstream.
  repeat first [within_step | by apply roundTripH2_within | apply advertise_within | apply streamResponseHTTP_within].
Qed.

End handlers.

End stages.

(** ** From the client to an open gate *)

(** The client, its destination, its rate and its permit are all right. *)
Definition standing (m : gate) : bool :=
  clientAdmissible && destinationAllowed && g_rate m && bool_decide (is_Some (g_permit m)).

Lemma standing_opened m req : standing m = true -> req ∈ forms (g_scope m) -> opened m = true.
Proof.
  unfold standing, opened. intros -> Hr. rewrite andb_true_l, orb_true_iff. left. apply bool_decide_eq_true.
  intros E. rewrite E in Hr. by apply not_elem_of_nil in Hr.
Qed.

Lemma safe_within {A} (p : program A) m (Q : gate -> A -> Prop) :
  opened m = true -> only (within (forms (g_scope m))) p -> (forall a, Q m a) -> safe gateWatch p m Q.
Proof.
  intros Ho. induction p as [a|X e k IH]; simpl; intros Hp HQ; [auto|].
  intros r. destruct Hp as [He Hk]. rewrite within_watch by done. auto.
Qed.

Lemma safe_local {A} (p : program A) m (Q : gate -> A -> Prop) :
  only local p -> (forall a, Q m a) -> safe gateWatch p m Q.
Proof. apply safe_only, local_watch. Qed.

(** The same server state for another request. *)
Definition same_standing (m m' : gate) : Prop := g_rate m' = g_rate m /\ g_permit m' = g_permit m.

Section served.
Context (statusText : Z -> bytes) (rx : redactionRegexes).

Ltac local_tac := repeat first [only_step | exact eq_refl | solve [eauto with local mute nocore]].

(** *** Streams *)

Lemma handleHTTPSStream_gate m y connectHost address :
  standing m = true -> forms (g_scope m) = streamForms connectHost (x_req y) ->
  safe gateWatch (handleHTTPSStream statusText rx s y connectHost address) m (fun m' _ => m' = m).
Proof.
  intros Hm HF. unfold streamForms in HF. unfold handleHTTPSStream.
  set (host := match SplitHostPort _ with Some (h, _) => h | None => _ end) in *.
  set (y' := withReq y _) in *. set (dec := match op_Policy _ with Some _ => _ | None => noDecision end).
  apply safe_skip; [done|]. intros xid.
  assert (Hdec : Blocked dec = true \/ Blocked dec = false /\ x_req y' ∈ forms (g_scope m)).
  { unfold dec. rewrite HF. destruct (op_Policy (sv_relay s)); [|right; split; [done|set_solver]].
    destruct (Blocked _) eqn:E; [by left|right]. split; [done|]. set_solver. }
  destruct Hdec as [->|[-> Hy]]; [apply safe_local; [local_tac|done]|].
  apply safe_within; [by eapply standing_opened| |done].
  repeat first [only_step | exact eq_refl | by apply handleHTTPSStreamH2Upstream_within
    | apply reaching_within, acquireHTTPSUpstream_reaching | by apply streamedExchange_within
    | apply local_within; solve [eauto with local mute nocore]].
Qed.

(** A handler that has returned left the rate and the permit alone. *)
Definition keeps {A} (m m' : gate) (r : option A) : Prop := r <> None -> same_standing m m'.

Lemma keeps_refl {A} m (r : option A) : keeps m m r.
Proof. done. Qed.

Lemma same_standing_standing m m' : same_standing m m' -> standing m' = standing m.
Proof. unfold standing. by intros [-> ->]. Qed.

Lemma serveStreams_gate fuel m address :
  standing m = true ->
  safe gateWatch (serveStreams statusText rx s fuel (default [] (connectHostname (x_req x))) address) m (keeps m).
Proof.
  intros Hm. unfold serveStreams. eapply safe_mono.
  - apply (safe_iterate _ _ (fun m' _ => same_standing m m') (fun m' _ => same_standing m m')); [|done].
    intros m' [] Hm'. apply safe_bind. intros [y|]; cbn [gateWatch safe]; [|done].
    apply safe_bind. eapply safe_mono; [apply handleHTTPSStream_gate|]; [|done|].
    + rewrite <- Hm. apply same_standing_standing, Hm'.
    + intros m'' [] ->. exact Hm'.
  - intros m' [r|]; unfold keeps; naive_solver.
Qed.

(** *** The loop *)

Lemma serveRequest_gate m st y hl dial acquire opts roundTrip :
  (forall F q, dial = Some q -> only (within F) q) -> (forall F q, acquire = Some q -> only (within F) q) ->
  (forall F y, x_req y ∈ F -> only (within F) (roundTrip y)) ->
  op_Policy opts = op_Policy (sv_relay s) ->
  standing m = true -> g_scope m = Relayed y ->
  safe gateWatch (serveRequest statusText rx hl dial acquire opts roundTrip st y) m (fun m' _ => m' = m).
Proof.
  intros Hd Ha Hr Ho Hm Hs.
  assert (HF : forms (g_scope m) = relayedForms (x_req y)) by by rewrite Hs.
  unfold relayedForms in HF. unfold serveRequest. rewrite Ho. apply safe_skip; [done|]. intros xid.
  cbn [withReq x_req]. destruct (requestVerdict _ _) as [d|d|bypass] eqn:Ev.
  1, 2: apply safe_local; [|done]; unfold answerBlocked, fail, finish; local_tac.
  set (req := setClose (prepareRequest (op_Policy (sv_relay s)) (x_req y)) false) in *.
  set (y' := if bypass then _ else _).
  assert (Hy : x_req y' = req) by by destruct bypass.
  assert (H1' : x_req y' ∈ forms (g_scope m)) by (rewrite Hy, HF; set_solver).
  assert (H2' : normalizeRequestURL (sanitizeWebSocketRequest (x_req y')) ∈ forms (g_scope m))
    by (rewrite Hy, HF; set_solver).
  assert (H3' : h2Request (x_req y') (urlHostOr (x_req y') (rq_Host (x_req y'))) ∈ forms (g_scope m))
    by (rewrite Hy, HF; set_solver).
  rewrite Hy in H1', H3'.
  apply safe_within; [by eapply standing_opened| |done].
  cbn [withReq x_req] in *.
  repeat first [only_step | exact eq_refl]; 
    first [apply webSocketExchange_within; eauto | apply h2Exchange_within; rewrite ?Hy; eauto
          | apply upstreamExchange_within; rewrite ?Hy; eauto].
Qed.

Lemma relayIntercepted_gate fuel m address host :
  standing m = true -> safe gateWatch (relayIntercepted statusText rx s fuel address host) m (keeps m).
Proof.
  intros Hm. unfold relayIntercepted, relayHTTPConnLease. apply safe_bind. eapply safe_mono.
  - apply (safe_iterate _ _ (fun m' _ => same_standing m m') (fun m' _ => same_standing m m')); [|done].
    intros m' st Hm'. unfold relayRound. apply safe_bind, safe_local; [eauto with local nocore|]. intros [e|]; [done|].
    apply safe_bind. intros [y|e]; cbn [gateWatch safe].
    + eapply safe_mono; [apply serveRequest_gate|intros m'' r ->].
      * done.
      * intros F q [= <-]. repeat first [only_step | apply reaching_within, acquireHTTPSUpstream_reaching
          | apply local_within; solve [eauto with local mute nocore]].
      * intros F z Hz. by apply roundTripH2_within.
      * done.
      * rewrite <- Hm. apply same_standing_standing, Hm'.
      * done.
      * by destruct r as [?|[? ?]].
    + repeat safe_step; try done.
      all: unfold reusableNow, releaseCurrent, finish; repeat first [done | safe_step | progress cbn [gateWatch]].
  - intros m' [[st e]|] Hm'; [|by intros ?]. unfold releaseCurrent.
    repeat first [safe_step | progress cbn [gateWatch]]; by intros _.
Qed.

(** *** The handlers *)

Ltac gate_step :=
  first
  [ match goal with |- safe _ (_ ≫= _) _ _ => apply safe_bind end
  | match goal with |- safe _ ?p _ _ => apply (safe_local p); [solve [eauto with local mute nocore] | intros ?] end
  | safe_step ].

Lemma finally_gate {A} (p : program (option A)) cleanup m :
  safe gateWatch p m (keeps m) -> only local cleanup -> safe gateWatch (finally p cleanup) m (keeps m).
Proof.
  intros Hp Hc. apply safe_bind. eapply safe_mono; [exact Hp|]. intros m' [r|] Hm'; [|by intros ?].
  apply safe_bind, safe_local; [done|]. intros []. done.
Qed.

Lemma hijacked_gate errLine k m :
  (forall n, safe gateWatch (k n) m (keeps m)) -> safe gateWatch (hijacked s errLine k) m (keeps m).
Proof.
  intros Hk. unfold hijacked. apply safe_bind. intros [[n|e]|]; cbn [gateWatch safe].
  - apply safe_bind. intros []. cbn [gateWatch safe]. apply finally_gate; [apply Hk|]. by repeat only_step.
  - repeat gate_step. apply keeps_refl.
  - repeat gate_step. apply keeps_refl.
Qed.

Lemma handleHTTPS_gate fuel handshake m :
  standing m = true -> safe gateWatch (handleHTTPS statusText rx s fuel handshake x) m (keeps m).
Proof.
  intros Hm. apply hijacked_gate. intros n. repeat gate_step; cbn [gateWatch]; repeat gate_step;
    try apply keeps_refl; [by apply serveStreams_gate|].
  eapply safe_mono; [by apply relayIntercepted_gate|]. intros m' [[e|]|] Hm'; repeat gate_step; intros ?; by apply Hm'.
Qed.

Lemma handleBypassMITM_gate handshake host m :
  standing m = true -> tunnelAllowed (g_scope m) = true ->
  safe gateWatch (handleBypassMITM s handshake x host) m (keeps m).
Proof.
  intros Hm Ht. assert (Ho : opened m = true).
  { unfold opened, standing in *. by rewrite Hm, Ht, orb_true_r. }
  apply hijacked_gate. intros n. unfold returning. do 6 gate_step.
  apply safe_within; [done|apply reaching_within, dialPlainHTTP_reaching|]. intros [c|e].
  - repeat gate_step; cbn [gateWatch]; rewrite ?Ho, ?Ht; repeat gate_step; apply keeps_refl.
  - repeat gate_step; apply keeps_refl.
Qed.

(** A permit of the client's profile, for the time of [k]. *)
Lemma withPermit_gate k m :
  g_permit m = None ->
  (forall permit, safe gateWatch k (MkGate (g_rate m) (Some permit) (g_scope m)) (keeps (MkGate (g_rate m) (Some permit) (g_scope m)))) ->
  safe gateWatch (withPermit statusText clientProfile k) m (keeps m).
Proof.
  intros Hm Hk. unfold withPermit. apply safe_bind. intros [permit|reason]; cbn [gateWatch safe].
  - unfold bytes_eqb. rewrite !bool_decide_true by done. cbn [andb]. apply safe_bind. eapply safe_mono; [apply Hk|].
    intros m' [r|] Hm'; [|by intros ?]. destruct (Hm' ltac:(done)) as [Er Ep]. repeat gate_step. cbn [gateWatch].
    rewrite Ep. cbn [g_permit]. rewrite bool_decide_true by done. repeat gate_step. intros _. split; [exact Er|by rewrite Hm].
  - repeat gate_step. apply keeps_refl.
Qed.

(** *** Dispatch *)

(** The client is admitted and its rate allows the request. *)
Definition entered (m : gate) : Prop :=
  clientAdmissible = true /\ g_rate m = true /\ g_permit m = None /\ g_scope m = Asked.

Lemma entered_standing m permit :
  entered m -> destinationAllowed = true -> standing (MkGate (g_rate m) (Some permit) (g_scope m)) = true.
Proof. intros (Hc & Hr & _) Hd. unfold standing. cbn [g_rate g_permit]. by rewrite Hc, Hd, Hr, bool_decide_true. Qed.

Lemma handlePlainHTTP_gate m :
  entered m -> http3 = false -> isConnect = false ->
  safe gateWatch (handlePlainHTTP statusText rx s x clientProfile) m (keeps m).
Proof.
  intros Hm Hh Hc. unfold handlePlainHTTP.
  assert (Hd : forall host address, plainHTTPDestination (x_req x) = Some (host, address) ->
    Blocked (EvaluateRequest (sv_policy s) host (Some (x_req x)) (str "http")) = false -> destinationAllowed = true).
  { intros host address E E'. unfold destinationAllowed. by rewrite Hh, Hc, E, E'. }
  destruct (plainHTTPDestination (x_req x)) as [[host address]|]; [|repeat gate_step; apply keeps_refl].
  destruct (Blocked _) eqn:Eb; [repeat gate_step; apply keeps_refl|]. specialize (Hd _ _ eq_refl Eb).
  apply safe_bind, safe_local; [local_tac|]. intros opts.
  apply withPermit_gate; [apply Hm|]. intros permit. unfold returning. apply safe_bind.
  set (m' := MkGate _ _ _). assert (Hm' : standing m' = true) by by apply entered_standing.
  assert (HF : forms (g_scope m') = plainForms (x_req x)).
  { destruct Hm as (_ & _ & _ & Es). unfold m'. cbn [g_scope]. rewrite Es. unfold forms. by rewrite Hh, Hc. }
  apply safe_within; [|rewrite HF; apply plainLeased_within; by destruct (BypassFilters _)|by intros []].
  eapply standing_opened; [done|]. rewrite HF. by left.
Qed.

Lemma serveHTTP3_gate m :
  entered m -> http3 = true -> safe gateWatch (serveHTTP3 statusText rx s x clientProfile) m (keeps m).
Proof.
  intros Hm Hh. unfold serveHTTP3.
  assert (Hd : bytes_eqb http3Host [] = false ->
    Blocked (EvaluateRequest (sv_policy s) http3Host (Some (x_req x)) (str "https")) = false -> destinationAllowed = true).
  { intros E E'. unfold destinationAllowed. by rewrite Hh, E, E'. }
  fold http3Host. destruct (bytes_eqb _ _); [repeat gate_step; apply keeps_refl|].
  destruct (Blocked _); [repeat gate_step; apply keeps_refl|]. specialize (Hd eq_refl eq_refl).
  apply withPermit_gate; [apply Hm|]. intros permit. unfold returning. apply safe_bind.
  eapply safe_mono; [apply handleHTTPSStream_gate|]; [by apply entered_standing| |by intros m' [] ->].
  destruct Hm as (_ & _ & _ & Es). cbn [g_scope]. rewrite Es. unfold forms. by rewrite Hh.
Qed.

Lemma serveConnect_gate fuel handshake m :
  entered m -> http3 = false -> isConnect = true ->
  safe gateWatch (serveConnect statusText rx s fuel handshake x clientProfile) m (keeps m).
Proof.
  intros Hm Hh Hc. unfold serveConnect.
  assert (Hd : forall host, connectHostname (x_req x) = Some host ->
    Blocked (EvaluateRequest (sv_policy s) host None (str "https")) = false -> destinationAllowed = true).
  { intros host E E'. unfold destinationAllowed. by rewrite Hh, Hc, E, E'. }
  destruct (connectHostname (x_req x)) as [host|] eqn:Eh; [|repeat gate_step; apply keeps_refl].
  destruct (Blocked _) eqn:Eb; [repeat gate_step; apply keeps_refl|]. specialize (Hd _ eq_refl Eb).
  apply (safe_cut _ (fun m' tunnelled =>
    m' = m /\ (tunnelled = true -> op_AuditScope (sv_relay s) && op_NoneModeTunnel (sv_relay s) = true))).
  { destruct (op_AuditScope (sv_relay s)); [|done]. apply safe_bind. intros d. cbn [gateWatch safe]. split; [done|].
    by intros [_ ->]%andb_true_iff. }
  intros m' tunnelled [-> Ht]. destruct (tunnelled || shouldBypassMITM s host) eqn:Et.
  - apply withPermit_gate; [apply Hm|]. intros permit.
    apply handleBypassMITM_gate; [by apply entered_standing|].
    destruct Hm as (_ & _ & _ & Es). cbn [g_scope]. rewrite Es. unfold tunnelAllowed. rewrite Hh, Hc, Eh.
    apply orb_true_iff in Et as [Et%Ht|Et]; by rewrite Et, ?orb_true_r.
  - gate_step. gate_step. apply withPermit_gate; [apply Hm|]. intros permit.
    by apply handleHTTPS_gate, entered_standing.
Qed.

Lemma dispatch_gate fuel handshake m :
  entered m ->
  safe gateWatch
    (if http3 then serveHTTP3 statusText rx s x clientProfile
     else if negb isConnect then handlePlainHTTP statusText rx s x clientProfile
     else serveConnect statusText rx s fuel handshake x clientProfile) m (fun m' r => r <> None -> g_permit m' = None).
Proof.
  intros Hm. apply (safe_mono _ _ (keeps m)).
  - apply safe_if; [by apply serveHTTP3_gate|]. intros Eh. apply safe_if; [intros Ec%negb_true_iff|intros Ec%negb_false_iff].
    + by apply handlePlainHTTP_gate.
    + by apply serveConnect_gate.
  - intros m' r Hr Hn. destruct (Hr Hn) as [_ ->]. apply Hm.
Qed.

Lemma ServeHTTP_gate fuel handshake :
  safe gateWatch (ServeHTTP statusText rx s fuel handshake http3 x) gate0 (fun m r => r <> None -> g_permit m = None).
Proof.
  unfold ServeHTTP. fold isConnect. gate_step. gate_step. apply (safe_cut _ (fun m r => r <> None -> g_permit m = None)).
  - gate_step. gate_step. unfold admitClient.
    assert (Hp : ProfileForRemoteAddr (sv_access s) (x_remoteAddr x) =
      (clientProfile, (ProfileForRemoteAddr (sv_access s) (x_remoteAddr x)).2)) by apply surjective_pairing.
    rewrite Hp. destruct (_.2) eqn:Ea; [|by repeat gate_step]. destruct (Allowed _ _ _) eqn:Es; [|by repeat gate_step].
    assert (Hc : clientAdmissible = true) by (unfold clientAdmissible; by rewrite Ea, Es).
    cbn [negb]. destruct (profileRateLimit s clientProfile) as [[limit burst]|] eqn:El.
    + apply safe_bind. intros ok. cbn [gateWatch safe]. destruct ok; [by apply dispatch_gate|by repeat gate_step].
    + apply dispatch_gate. split_and!; try done. cbn [gate0 g_rate]. by rewrite El.
  - intros m [r|] Hm; by repeat gate_step.
Qed.

(** ** What is written is what was judged *)

(** The method, the host and the path with the query. *)
Definition target (req : Request) : bytes * bytes * option (bytes * bytes * bool * bytes) :=
  (Method req, rq_Host req, (fun u => (u_Path u, u_RawPath u, u_ForceQuery u, u_RawQuery u)) <$> rq_URL req).

(** The request the policy judged. *)
Definition judged (sc : scope) : Request :=
  match sc with
  | Asked => x_req x
  | Relayed y => prepareRequest (op_Policy (sv_relay s)) (x_req y)
  | Streamed y => x_req y
  end.

Lemma normalizeRequestURL_target req : target (normalizeRequestURL req) = target req.
Proof. unfold normalizeRequestURL, target. destruct (rq_URL req) as [u|] eqn:E; [|by rewrite E]. by case_decide; simpl; rewrite ?E. Qed.

Lemma streamForms_target connectHost req req' : req' ∈ streamForms connectHost req -> target req' = target req.
Proof.
  unfold streamForms. intros Hr.
  assert (req' = streamRequestOf req connectHost) as ->.
  { destruct (op_Policy _); [destruct (Blocked _)|]; set_solver. }
  unfold target, streamRequestOf. simpl. by destruct (rq_URL req).
Qed.

Lemma forms_target sc req : req ∈ forms sc -> target req = target (judged sc).
Proof.
  destruct sc as [|y|y]; cbn [forms judged].
  - destruct http3; [apply streamForms_target|]. destruct isConnect; [set_solver|]. unfold plainForms.
    intros [->|[->|[]%not_elem_of_nil]%elem_of_cons]%elem_of_cons.
    + exact (normalizeRequestURL_target _).
    + exact (normalizeRequestURL_target _).
  - unfold relayedForms. destruct (requestVerdict _ _); [set_solver..|].
    set (r := prepareRequest _ _). intros [->|[->|[->|[]%not_elem_of_nil]%elem_of_cons]%elem_of_cons]%elem_of_cons.
    + done.
    + exact (normalizeRequestURL_target _).
    + unfold target, h2Request. simpl. by destruct (rq_URL r).
  - apply streamForms_target.
Qed.

End served.

End mediation.

(** C1. Complete mediation.  Whatever the client, the upstreams, the clock and
    the disk answer, the handler of a request takes a connection, dials,
    writes, tunnels or copies to an upstream only while the client has a
    profile and is inside its schedule, its rate was not exceeded, it holds a
    permit taken for that profile, and the policy admits the destination it
    asked for; a request read from an intercepted connection, or a stream of
    it, is only forwarded when the policy admits that request too.  The request
    that is written is the one that was judged, with its method, host, path and
    query.  The permit is given back once, before the handler returns. *)
Theorem complete_mediation `{UnicodeTables} `{ContentSniffer} `{Regexp} `{PrefixTable} `{Digests}
    statusText rx s fuel handshake http3 x (o : oracle proxyE) :
  (exists m,
    accept (gateWatch s http3 x) (gate0 s x) (run o 0 (ServeHTTP statusText rx s fuel handshake http3 x)).1 = Some m /\
    ((run o 0 (ServeHTTP statusText rx s fuel handshake http3 x)).2 = Some tt -> g_permit m = None)) /\
  (forall sc req, req ∈ forms s http3 x sc -> target req = target (judged s x sc)).
Proof.
  split; [|apply forms_target].
  destruct (safe_run _ _ _ o _ 0 (ServeHTTP_gate s http3 x statusText rx fuel handshake)) as (m & Ha & Hm).
  exists m. split; [done|]. intros E. apply Hm. by rewrite E.
Qed.
