(* ===== verification/Faults.v ===== *)
(** * Faults of the connection loop

    A monitor of the errors that the calls of the loop report.  After a fault
    the loop only cleans up, and the error it returns wraps that fault; it
    returns without an error only when there was none. *)

From S2P Require Import Prelude Effects GoStrings GoConv GoRegexp GoUrl GoNetip GoMime Http DomainTrie DomainRules Framing Access PolicyRules UrlRules Policy Schedule SemanticFilter FilterEngine InspectReader BodyFilters MaskingFilter ContentFilter UpstreamPool AuditScope Relay Exchange Dump Streaming WebSocket RelayLoop Upstream Server Quiet.

(** ** The monitor *)

(** [Doubtful e]: the last thing that happened is the error [e] of a call
    whose error is tolerated in places, such as the write of a block page. *)
Inductive health := Healthy | Doubtful (e : error) | Failed (e : error).

(** The error at the end of the chain of [errors.Unwrap]. *)
Fixpoint cause (e : error) : error :=
  match e with Fault _ _ => e | Wrapped _ e => cause e | benignError e => cause e end.

Section faults.
Context `{UnicodeTables} `{ContentSniffer} `{Regexp} `{PrefixTable} `{Digests}.

(** What is done on the way out. *)
Definition cleanup (X : Type) (e : proxyE X) : bool :=
  mute X e || match e with Release _ _ | CloseConn _ => true | _ => false end.

(** Errors of the way to a connection that the loop handles. *)
Definition handled (e : error) : bool := bool_decide (is_Some (policyDecisionFromError e)) || isNegotiatedH2 e.

Definition dialFault (e : error) : health := if handled e then Doubtful e else Failed e.

Definition fault (r : option error) : health := match r with Some e => Failed e | None => Healthy end.

(** What an answer says of the state of the loop. *)
Definition diagnose (X : Type) (e : proxyE X) : X -> health :=
  match e in proxyE X return X -> health with
  | SetReadDeadline _ _ => fault
  | SetWriteDeadline _ _ => fault
  | WriteRequest _ _ => fault
  | WriteResponse _ => fault
  | Write (Upstream _) _ => fault
  | Write Client _ => fun r => match r with Some e => Doubtful e | None => Healthy end
  | ReadRequest => fun r =>
      match r with
      | Err e => if isEOF e then Healthy else if isTimeoutError e then Doubtful e else Failed e
      | Ok _ => Healthy
      end
  | ReadResponse _ _ => fun r => match r with Err e => Failed e | Ok _ => Healthy end
  | CopyBody Client _ => fun out => fault (cp_err out)
  | CopyBody (Upstream _) _ => fun out => if isExfiltrationError (cp_err out) then Healthy else fault (cp_err out)
  | RoundTripConn _ _ _ => fun r => match r with Err e => Failed e | Ok _ => Healthy end
  | RoundTripTransport _ _ => fun r => match r with Err e => Failed e | Ok _ => Healthy end
  | Resolve _ force => fun r => match r with Err e => if force then dialFault e else Healthy | Ok _ => Healthy end
  | BreakerAllow _ => fun r => match r with Some e => dialFault e | None => Healthy end
  | DialTCP _ => fun r => match r with Err e => dialFault e | Ok _ => Healthy end
  | DialTLS _ _ => fun r => match r with Err e => dialFault e | Ok _ => Healthy end
  | _ => fun _ => Healthy
  end.

Definition faultWatch (m : health) (X : Type) (e : proxyE X) (r : X) : option health :=
  if cleanup X e then Some m
  else match m with Failed _ => None | _ => Some (diagnose X e r) end.

(** Errors the functions make themselves. *)
Definition internal (e : error) : Prop :=
  cause e ∈ Fault KOther <$> [str "missing upstream connection"; str "missing upstream connection for ws";
    str "websocket over h2 not supported by upstream"; str "no upstream dialer configured"].

(** The error [e] that is returned when the state is [m]. *)
Definition explains (m : health) (e : error) : Prop :=
  match m with
  | Failed f => cause e = cause f
  | Doubtful f => cause e = cause f \/ internal e
  | Healthy => internal e
  end.

Definition fine (m : health) : Prop := match m with Failed _ => False | _ => True end.

Definition verdictOn (m : health) (r : option error) : Prop :=
  match r with Some e => explains m e | None => fine m end.

Lemma faultWatch_cleanup m X (e : proxyE X) r : cleanup X e = true -> faultWatch m X e r = Some m.
Proof. unfold faultWatch. by intros ->. Qed.

Lemma mute_cleanup {A} (p : program A) : only mute p -> only cleanup p.
Proof. apply only_weaken. intros X e He. unfold cleanup. by rewrite He. Qed.

Lemma fault_mute {A} (p : program A) m (Q : health -> A -> Prop) :
  only mute p -> (forall a, Q m a) -> safe faultWatch p m Q.
Proof. intros Hp. apply (safe_only cleanup); [apply faultWatch_cleanup|by apply mute_cleanup]. Qed.

Lemma deadline_fault p t m (Q : health -> option error -> Prop) :
  fine m -> (forall e, Q (Failed e) (Some e)) -> (forall m', fine m' -> Q m' None) ->
  safe faultWatch (setWriteDeadline p t) m Q /\ safe faultWatch (setReadDeadline p t) m Q.
Proof.
  intros Hm He HQ. unfold setWriteDeadline, setReadDeadline. destruct (_ <=? _)%Z.
  - by split; apply HQ.
  - split; intros [e|]; unfold faultWatch, fine in *; destruct m; try done; simpl; auto.
Qed.

Ltac fault_step :=
  first
  [ match goal with
    | |- safe _ (_ ≫= _) _ _ => apply safe_bind
    | |- safe _ (Return _) _ _ => cbn [safe]
    | |- safe _ (match ?x with _ => _ end) _ _ => destruct x eqn:?; try discriminate
    | |- safe _ (setWriteDeadline _ _) _ _ =>
        apply (deadline_fault _ _ _ _); [done | intros ?e | intros ?m ?Hm]
    | |- safe _ (setReadDeadline _ _) _ _ =>
        apply (deadline_fault _ _ _ _); [done | intros ?e | intros ?m ?Hm]
    | |- safe _ ?p _ _ => apply (fault_mute p); [solve [eauto with mute nocore] | intros ?]
    end
  | match goal with
    | Hm : fine ?m |- match faultWatch ?m _ _ _ with _ => _ end => is_var m; destruct m as [|?|?]; [| |done]
    end
  | progress cbn [faultWatch cleanup mute orb diagnose fault]
  | safe_step ].

(** A stage of a program, by its lemma. *)
Ltac stage L := eapply safe_mono; [by apply L|]; cbn beta.

Lemma fault_verdict r : verdictOn (fault r) r.
Proof. by destruct r. Qed.

Ltac settle := try first [done | apply fault_verdict | rewrite finishResponse_err; apply fault_verdict | by left].

Lemma streamRequest_fault hl c y cap opts m :
  fine m -> safe faultWatch (streamRequest hl c y cap opts) m (fun m st => verdictOn m (st_err st)).
Proof. intros Hm. unfold streamRequest. repeat fault_step; settle. Qed.

Section loop.
Context (statusText : Z -> bytes) (rx : redactionRegexes) (hl : bool)
  (acquire : option (program (result error nat))) (opts : Options)
  (roundTrip : Exchange -> program (result error Response)).

Lemma streamResponse_fault y resp cap f m :
  fine m -> safe faultWatch (streamResponse statusText y resp cap f) m (fun m r => verdictOn m (st_err r.1)).
Proof. intros Hm. unfold streamResponse. repeat fault_step; cbn [fst]; settle. Qed.

Lemma relayWebSocket_fault c y hs idle m :
  fine m -> safe faultWatch (relayWebSocket statusText c y hs idle) m verdictOn.
Proof.
  intros Hm. unfold relayWebSocket, answerWebSocket, forwardBuffered, wsFail. repeat fault_step; settle.
Qed.

(** What the loop expects of the ways to get a connection. *)
Definition connects (p : option (program (result error nat))) : Prop :=
  forall q m, p = Some q -> fine m ->
  safe faultWatch q m (fun m r =>
    match r with Ok _ => fine m | Err e => if handled e then fine m else explains m e end).

Context (Hacquire : connects acquire) (Hh2 : op_RoundTripH2 opts = true)
  (HroundTrip : forall y m, fine m ->
     safe faultWatch (roundTrip y) m (fun m r => match r with Ok _ => fine m | Err e => m = Failed e end)).

Definition round_verdict (m : health) (r : relayState + (relayState * option error)) : Prop :=
  match r with inl _ => fine m | inr (_, e) => verdictOn m e end.

Lemma releaseCurrent_fault dl acq m st r : safe faultWatch (releaseCurrent dl acq st r) m (fun m' _ => m' = m).
Proof. unfold releaseCurrent. destruct m; repeat fault_step; done. Qed.

Lemma altSvc_fault m o resp : safe faultWatch (altSvc o resp) m (fun m' _ => m' = m).
Proof.
  eapply safe_mono; [apply altSvc_safe|]; [|by intros m' r [-> _]].
  intros m' X e r He. apply faultWatch_cleanup. unfold cleanup. by rewrite He.
Qed.

Lemma answerBlocked_fault m st o msg answer : fine m -> safe faultWatch (answerBlocked st o msg answer) m round_verdict.
Proof. intros Hm. unfold answerBlocked, fail, finish. repeat fault_step; try done; by destruct x. Qed.

Lemma doH2RoundTrip_fault m st y host xopts :
  fine m -> safe faultWatch (doH2RoundTrip statusText hl roundTrip st y host xopts) m round_verdict.
Proof.
  intros Hm. unfold doH2RoundTrip, fail. fault_step. stage HroundTrip. intros m' [resp|e] Hm'; [|subst; by repeat fault_step].
  do 2 fault_step. fault_step. stage altSvc_fault. intros m'' resp' ->. fault_step.
  - repeat fault_step; settle; by destruct x.
  - fault_step. fault_step; [by repeat fault_step|]. repeat fault_step. stage streamResponse_fault.
    intros m'' [st' resp''] Hm''; cbn [fst] in Hm''; cbn beta iota. destruct (st_err st') as [e|]; by repeat fault_step.
Qed.

Lemma h2Exchange_fault m st y host xopts lc :
  fine m -> safe faultWatch (h2Exchange statusText hl roundTrip st y host xopts lc) m round_verdict.
Proof.
  intros Hm. unfold h2Exchange, finish. fault_step. stage doH2RoundTrip_fault.
  intros m' [s'|[s' e]] H'; by repeat fault_step.
Qed.

Lemma deliverResponse_fault m st c y xid xopts lc reqDec n cap resp :
  fine m ->
  safe faultWatch (deliverResponse statusText rx hl None acquire st c y xid xopts lc reqDec n cap resp) m round_verdict.
Proof.
  intros Hm. unfold deliverResponse, fail, finish. fault_step. stage altSvc_fault. intros m' resp' ->.
  fault_step; [repeat fault_step; by apply answerBlocked_fault|].
  repeat fault_step; [done|]. stage streamResponse_fault.
  intros m' [st' resp''] Hm'; cbn [fst] in Hm'; cbn beta iota. destruct (st_err st') as [e|]; repeat fault_step; try done.
  all: stage releaseCurrent_fault; by intros m'' s'' ->.
Qed.

Lemma forwardExchange_fault m st c y xid xopts lc :
  fine m -> safe faultWatch (forwardExchange statusText rx hl None acquire opts st c y xid xopts lc) m round_verdict.
Proof.
  intros Hm. unfold forwardExchange, fail. repeat fault_step; [done|]. stage streamRequest_fault. intros m' st' Hm'. 
  destruct (st_err st') as [e|]; [by repeat fault_step|].
  repeat fault_step; try done; [by apply answerBlocked_fault|by apply deliverResponse_fault..].
Qed.

Lemma upstreamExchange_fault m st y host xid xopts lc :
  fine m ->
  safe faultWatch (upstreamExchange statusText rx hl None acquire opts roundTrip st y host xid xopts lc) m round_verdict.
Proof.
  intros Hm. unfold upstreamExchange, fail, failNew.
  destruct (rl_upstream st) as [[c r]|]; [by apply forwardExchange_fault|].
  destruct acquire as [acq|] eqn:Ea.
  - fault_step. stage Hacquire. rewrite <- Ea. intros m' [c|e] Hm'; [by apply forwardExchange_fault|].
    unfold handled in Hm'. rewrite Hh2, andb_true_r.
    destruct (policyDecisionFromError e) as [d|]; [repeat fault_step; by apply answerBlocked_fault|].
    destruct (isNegotiatedH2 e); [by apply h2Exchange_fault|by repeat fault_step].
  - repeat fault_step. destruct m; try done; [|right]; unfold internal; set_solver.
Qed.

Lemma webSocketExchange_fault m st y :
  fine m -> safe faultWatch (webSocketExchange statusText hl None acquire opts st y) m round_verdict.
Proof.
  intros Hm. unfold webSocketExchange, fail, failNew.
  assert (Hsess : forall m c st' acq, fine m -> safe faultWatch
    (call (ClearDeadline Client) ;; call (ClearDeadline (Upstream c)) ;;
     let wsIdle := if (op_WSIdleTimeout opts <=? 0)%Z then DefaultWebSocketIdleTimeout else op_WSIdleTimeout opts in
     wsErr ← relayWebSocket statusText c y (op_IOTimeout opts) wsIdle;
     closeRequestBody y ;; s ← releaseCurrent None acq st' false; Return (inr (s, wsErr))) m round_verdict).
  { intros m' c st' acq Hm'. repeat fault_step; (stage relayWebSocket_fault; intros m'' wsErr Hm''; repeat fault_step;
      stage releaseCurrent_fault; by intros m3 s3 ->). }
  destruct (rl_upstream st) as [[c r]|]; [by apply Hsess|].
  destruct acquire as [acq|] eqn:Ea.
  - fault_step. stage Hacquire. intros m' [c|e] Hm'; [by apply Hsess|].
    unfold handled in Hm'.
    destruct (policyDecisionFromError e) as [d|]; [repeat fault_step; by apply answerBlocked_fault|].
    destruct (isNegotiatedH2 e); repeat fault_step; [|done].
    simpl in Hm'. destruct m'; try done; [|right]; unfold internal; set_solver.
  - repeat fault_step. destruct m; try done; [|right]; unfold internal; set_solver.
Qed.

Lemma serveRequest_fault m st y :
  fine m -> safe faultWatch (serveRequest statusText rx hl None acquire opts roundTrip st y) m round_verdict.
Proof.
  intros Hm. unfold serveRequest. repeat fault_step;
    first [by apply answerBlocked_fault | by apply webSocketExchange_fault | by apply h2Exchange_fault
          | by apply upstreamExchange_fault].
Qed.

Lemma relayRound_fault m st :
  fine m -> safe faultWatch (relayRound statusText rx hl None acquire opts roundTrip st) m round_verdict.
Proof.
  intros Hm. unfold relayRound, fail, finish. fault_step. fault_step; [done|]. fault_step.
  assert (Hread : forall m r, m = diagnose _ ReadRequest r -> safe faultWatch
    match r with
    | Ok y => serveRequest statusText rx hl None acquire opts roundTrip st y
    | Err e =>
        if isEOF e || (Nat.ltb 0 (rl_exchanges st) && isTimeoutError e) then
          reusable ← reusableNow st;
          st ← releaseCurrent None acquire st reusable;
          Return (inr (st, None))
        else Return (inr (st, Some (Wrapped (str "read local request") e)))
    end m round_verdict).
  { intros m' [y|e] ->; cbn [diagnose]; [by apply serveRequest_fault|]. fault_step.
    - assert (Hf : fine (if isEOF e then Healthy else if isTimeoutError e then Doubtful e else Failed e)).
      { destruct (isEOF e), (isTimeoutError e); try done. by rewrite andb_false_r in Heqb. }
      revert Hf. generalize (if isEOF e then Healthy else if isTimeoutError e then Doubtful e else Failed e).
      intros m' Hm'. unfold reusableNow. repeat fault_step; stage releaseCurrent_fault; by intros m'' s'' ->.
    - apply orb_false_iff in Heqb as [-> _]. fault_step. destruct (isTimeoutError e); [by left|done]. }
  intros r. destruct m0; try done; by apply Hread.
Qed.

Lemma relayHTTPConnLease_fault fuel upstream m :
  fine m ->
  safe faultWatch (relayHTTPConnLease statusText rx hl None acquire opts roundTrip fuel upstream) m
    (fun m r => match r with Some e => verdictOn m e | None => True end).
Proof.
  intros Hm. unfold relayHTTPConnLease. apply safe_bind. eapply safe_mono.
  - apply (safe_iterate _ _ (fun m _ => fine m) (fun m r => verdictOn m r.2)); [|done].
    intros m' st Hm'. stage relayRound_fault. by intros m'' [?|[? ?]].
  - intros m' [[st e]|]; [|done]. intros Hm'. fault_step. stage releaseCurrent_fault. by intros m'' s'' ->.
Qed.

End loop.

(** ** The loop of the server *)

Section server.
Context (statusText : Z -> bytes) (rx : redactionRegexes) (s : Server).

(** The outcome of a way to a connection. *)
Definition outcome {A} (m : health) (r : result error A) : Prop :=
  match r with Ok _ => fine m | Err e => if handled e then fine m else explains m e end.

Lemma dialFault_outcome {A} e : outcome (A := A) (dialFault e) (Err e).
Proof. unfold outcome, dialFault. by destruct (handled e). Qed.

Lemma resolveDialAddress_fault address m : fine m -> safe faultWatch (resolveDialAddress s address) m outcome.
Proof. intros Hm. unfold resolveDialAddress. repeat fault_step; try done; apply dialFault_outcome. Qed.

Lemma Execute_fault cb host d m :
  (forall m, fine m -> safe faultWatch d m outcome) -> fine m -> safe faultWatch (Execute cb host d) m outcome.
Proof.
  intros Hd Hm. unfold Execute. destruct cb as [[]|]; [|by apply Hd..].
  fault_step. intros [e|]; repeat fault_step; try apply dialFault_outcome;
    (stage Hd; intros m' r Hr; repeat fault_step; exact Hr).
Qed.

Lemma dialTLS_fault address host m : fine m -> safe faultWatch (call (DialTLS address host)) m outcome.
Proof. intros Hm [c|e]; repeat fault_step; try done; apply dialFault_outcome. Qed.

Lemma acquireHTTPSUpstream_fault address host m :
  fine m -> safe faultWatch (acquireHTTPSUpstream s address host) m outcome.
Proof.
  intros Hm. unfold acquireHTTPSUpstream, acquireUpstream.
  destruct (negb _); [fault_step; destruct m; try done; [|right]; unfold internal; set_solver|].
  apply (safe_cut _ outcome).
  - repeat fault_step; try done; stage resolveDialAddress_fault; intros m' [a'|e'] Hm'; try done;
      apply Execute_fault; try done; apply dialTLS_fault.
  - intros m' [c|e] Hm'; [|exact Hm']. repeat fault_step; done.
Qed.

Lemma roundTripH2_fault y host plan m :
  fine m -> safe faultWatch (roundTripH2 y host plan) m (fun m r => match r with Ok _ => fine m | Err e => m = Failed e end).
Proof. intros Hm. unfold roundTripH2. repeat fault_step; by destruct x. Qed.

End server.
End faults.

