(* ===== verification/Returns.v ===== *)
(** * Handlers return

    The two loops of a handler, over the requests and over the streams of an
    intercepted connection, end when the client hangs up; every other part of
    a handler returns as soon as its calls do. *)

From S2P Require Import Prelude Effects GoStrings GoConv GoRegexp GoUrl GoNetip GoMime Http DomainTrie DomainRules Framing Access PolicyRules UrlRules Policy Schedule SemanticFilter FilterEngine InspectReader BodyFilters MaskingFilter ContentFilter UpstreamPool AuditScope Relay Exchange Dump Streaming WebSocket RelayLoop Upstream Server.

(** ** The client hangs up *)

Section handlers.
Context `{UnicodeTables} `{ContentSniffer} `{Regexp} `{PrefixTable} `{Digests}.

(** From its call [N] on, every read of a request ends with EOF and there is
    no further stream. *)
Definition hangs_up (o : oracle proxyE) (N : nat) : Prop :=
  forall k, N <= k ->
  (exists e, o k (result error Exchange) ReadRequest = Err e /\ isEOF e = true) /\ o k (option Exchange) NextStream = None.

Context (statusText : Z -> bytes) (rx : redactionRegexes) (o : oracle proxyE) (N : nat) (Ho : hangs_up o N).

Section loop.
Context (hl : bool) (dial acquire : option (program (result error nat))) (opts : Options)
  (roundTrip : Exchange -> program (result error Response)).

Abbreviation round := (relayRound statusText rx hl dial acquire opts roundTrip).

(** A round is a deadline and a read. *)
Lemma relayRound_reads k st : 1 <= length (run o k (round st)).1.
Proof.
  unfold relayRound, setReadDeadline. destruct (_ <=? _)%Z.
  - cbn. destruct (run o (S k) _). cbn. lia.
  - cbn. destruct (run o (S k) _). cbn. lia.
Qed.

Lemma run_call {A X} (e : proxyE X) (f : X -> program A) k :
  (run o k (call e ≫= f)).2 = (run o (S k) (f (o k X e))).2.
Proof. change (call e ≫= f) with (Call e f). cbn [run]. by destruct (run o (S k) _). Qed.

Lemma hang_up_ends k st : N <= k -> exists a,
  (run o k
    (r ← call ReadRequest;
     match r with
     | Err e =>
         if isEOF e || (Nat.ltb 0 (rl_exchanges st) && isTimeoutError e) then
           reusable ← reusableNow st; st ← releaseCurrent dial acquire st reusable; finish st
         else fail st (str "read local request") e
     | Ok y => serveRequest statusText rx hl dial acquire opts roundTrip st y
     end)).2 = inr a.
Proof.
  intros Hk. rewrite run_call. destruct (Ho k Hk) as [(e & -> & ->) _]. cbn [orb].
  apply (run_always o _ (fun r => exists a, r = inr a)).
  unfold reusableNow, releaseCurrent, finish. repeat first [safe_step | eexists; reflexivity].
Qed.

Lemma relayRound_ends k st : N <= k -> exists a, (run o k (round st)).2 = inr a.
Proof.
  intros Hk. unfold relayRound, setReadDeadline. destruct (_ <=? _)%Z; [by apply hang_up_ends|].
  rewrite run_call. destruct (o k _ _) as [e|]; [by eexists|]. apply hang_up_ends. lia.
Qed.

Lemma relayHTTPConnLease_returns fuel upstream :
  N < fuel -> returns o 0 (relayHTTPConnLease statusText rx hl dial acquire opts roundTrip fuel upstream).
Proof.
  intros Hfuel. apply returns_cut.
  - apply (returns_iterate o _ N relayRound_reads relayRound_ends). lia.
  - intros [st e]. apply returns_bind. intros _. apply returns_Some.
Qed.

End loop.

(** ** The handlers *)

Context (s : Server) (fuel : nat) (Hfuel : N < fuel).

Lemma serveStreams_returns host address : returns o 0 (serveStreams statusText rx s fuel host address).
Proof.
  unfold serveStreams. apply (returns_iterate o _ N); [| |lia].
  - intros k []. change (call NextStream ≫= ?f) with (Call NextStream f). cbn [run].
    destruct (run o (S k) _). cbn. lia.
  - intros k [] Hk. rewrite run_call. destruct (Ho k Hk) as [_ ->]. by eexists.
Qed.

Lemma hijacked_returns errLine k : (forall n, returns o 0 (k n)) -> returns o 0 (hijacked s errLine k).
Proof.
  intros Hk. apply returns_bind. intros [[n|e]|]; [|apply returns_returning..].
  apply returns_bind. intros _. by apply returns_finally.
Qed.

Lemma handleHTTPS_returns handshake x : returns o 0 (handleHTTPS statusText rx s fuel handshake x).
Proof.
  apply hijacked_returns. intros n. do 3 (apply returns_bind; intros _). destruct (negb _); [apply returns_Some|].
  apply returns_bind. intros [protocol|e]; [|apply returns_returning]. do 2 (apply returns_bind; intros _).
  destruct (negb _); [apply returns_Some|]. destruct (bytes_eqb _ _); [apply serveStreams_returns|].
  apply returns_cut; [by apply relayHTTPConnLease_returns|].
  intros [e|]; [apply returns_returning|apply returns_Some].
Qed.

Lemma withPermit_returns profile k : returns o 0 k -> returns o 0 (withPermit statusText profile k).
Proof.
  intros Hk. apply returns_bind. intros [permit|reason]; [by apply returns_finally|apply returns_returning].
Qed.

Lemma serveConnect_returns handshake x profile : returns o 0 (serveConnect statusText rx s fuel handshake x profile).
Proof.
  unfold serveConnect. destruct (connectHostname _) as [host|]; [|apply returns_returning].
  destruct (Blocked _); [apply returns_returning|]. apply returns_bind. intros tunnelled. destruct (_ || _).
  - apply withPermit_returns, hijacked_returns. intros n. apply returns_returning.
  - apply returns_bind. intros _. apply withPermit_returns, handleHTTPS_returns.
Qed.

Lemma handlePlainHTTP_returns x profile : returns o 0 (handlePlainHTTP statusText rx s x profile).
Proof.
  unfold handlePlainHTTP. destruct (plainHTTPDestination _) as [[host address]|]; [|apply returns_returning].
  destruct (Blocked _); [apply returns_returning|]. apply returns_bind. intros opts.
  apply withPermit_returns, returns_returning.
Qed.

Lemma serveHTTP3_returns x profile : returns o 0 (serveHTTP3 statusText rx s x profile).
Proof.
  unfold serveHTTP3. destruct (bytes_eqb _ _); [apply returns_returning|]. destruct (Blocked _); [apply returns_returning|].
  apply withPermit_returns, returns_returning.
Qed.

Lemma ServeHTTP_returns handshake http3 x : returns o 0 (ServeHTTP statusText rx s fuel handshake http3 x).
Proof.
  unfold ServeHTTP. apply returns_bind. intros _. apply returns_finally. apply returns_bind. intros _.
  assert (Hk : forall profile, returns o 0
    (if http3 then serveHTTP3 statusText rx s x profile
     else if negb (bytes_eqb (Method (x_req x)) (str "CONNECT")) then handlePlainHTTP statusText rx s x profile
     else serveConnect statusText rx s fuel handshake x profile)).
  { intros profile. destruct http3; [apply serveHTTP3_returns|].
    destruct (negb _); [apply handlePlainHTTP_returns|apply serveConnect_returns]. }
  unfold admitClient. destruct (ProfileForRemoteAddr _ _) as [profile allowed].
  destruct allowed; [|apply returns_returning]. destruct (Allowed _ _ _); [|apply returns_returning]. cbn [negb].
  destruct (profileRateLimit s profile) as [[limit burst]|]; [|apply Hk].
  apply returns_bind. intros []; [apply Hk|apply returns_returning].
Qed.

End handlers.

(** C16. Handlers return.  When every call returns and the client hangs up (from
    the call [N] on, a read of a request ends with EOF and no stream follows),
    the handler of a request returns, whatever the calls answer: no loop of it
    takes more than [N] rounds and one, so that [fuel] of them are enough. *)
Theorem serve_returns `{UnicodeTables} `{ContentSniffer} `{Regexp} `{PrefixTable} `{Digests}
    statusText rx s fuel handshake http3 x (o : oracle proxyE) N :
  hangs_up o N -> N < fuel ->
  (run o 0 (ServeHTTP statusText rx s fuel handshake http3 x)).2 = Some tt.
Proof.
  intros Ho Hfuel. destruct (ServeHTTP_returns statusText rx o N Ho s fuel Hfuel handshake http3 x 0 ltac:(lia)) as [[] Hr].
  exact Hr.
Qed.

(** An environment that refuses everything: the client sends nothing, and no
    upstream can be reached. *)
Definition refusing_oracle `{Regexp} `{PrefixTable} : oracle proxyE := fun _ X e =>
  match e in proxyE X return X with
  | ReadRequest => Err (Fault KEOF [])
  | Hijack => Some (Ok 0%Z)
  | Handshake => Ok []
  | AcquirePermit _ => Ok 0
  | RateAllow _ _ _ => true
  | SetReadDeadline _ _ | SetWriteDeadline _ _ | SetDeadline _ _ | ClearDeadline _ | Write _ _ | WriteRequest _ _
  | WriteResponse _ | SetClientDeadline _ _ | NextStream | TakeIdle _ | BreakerAllow _ | NegotiatedProtocol _
  | NewClientConn _ | LoadH2Conn _ | Statfs _ => None
  | ReadResponse _ _ | Resolve _ _ | DialTCP _ | DialTLS _ _ | RoundTripConn _ _ _ | RoundTripTransport _ _ =>
      Err (Fault KOther [])
  | Buffered _ => 0%Z
  | Peek _ _ | NewExchangeID | Timestamp => []
  | CopyBody _ _ => MkCopied 0 [] None (false, [], []) None
  | HostIsH2 _ | PreGenerateCert _ | Exchange.Stat _ => false
  | Decide _ _ => MkAuditDecision AuditClassNone [] [] false false false
  | RandFloat64 => f64 0 0
  | _ => tt
  end.

Section sample.

#[local] Instance sample_sniffer' : ContentSniffer := {| DetectContentType _ := str "application/octet-stream" |}.

#[local] Instance sample_digests : Digests := {|
  hmac_hex key value := key ++ value; sha256_hex value := value;
  gunzip b := Ok b; inflate b := Ok b; unbrotli b := Ok b; unzstd b := Ok b |}.

#[local] Existing Instances ascii_tables literal_regexp list_table.

Definition sample_options : Options :=
  MkOptions (MkRelayOptions false [] NoFilter NoFilter None) (f64 0 0) 0 false false [] 0 0 0 false 0 0 None
    false false false false false [] false false ∅.

(** A server without rules, and a CONNECT. *)
Definition sample_server : Server :=
  MkServer (str ":8080") false true true true sample_options None None None (MkClock 0 0 0) None None None None false false.

Definition sample_connect : Exchange :=
  MkExchange (MkRequest (str "CONNECT") None [] (str "example.org:443") 0 [] false false) false None false
    (str "10.0.0.1:4000") true.

Definition sample_redaction : redactionRegexes := MkRedaction (str "eyJ") (str "key") (str "key=") (str "password").

Lemma serve_returns_witness :
  hangs_up refusing_oracle 0 /\
  (run refusing_oracle 0 (ServeHTTP (fun _ => []) sample_redaction sample_server 1 0 false sample_connect)).2 = Some tt.
Proof.
  assert (Ho : hangs_up refusing_oracle 0) by (intros k _; split; [by eexists|done]).
  split; [exact Ho|]. apply (serve_returns _ _ _ _ _ _ _ _ 0 Ho). lia.
Defined.

End sample.
