(* ===== verification/Replies.v ===== *)
(** * One reply to a request

    A monitor of what the client of a plain request, of an HTTP/3 request or
    of a stream gets: a status line once, before the body, or its connection
    is taken over. *)

From S2P Require Import Prelude Effects GoStrings GoConv GoRegexp GoUrl GoNetip GoMime Http DomainTrie DomainRules Framing Access PolicyRules UrlRules Policy Schedule SemanticFilter FilterEngine InspectReader BodyFilters MaskingFilter ContentFilter UpstreamPool AuditScope Relay Exchange Dump Streaming WebSocket RelayLoop Upstream Server Quiet Returns.

(** [Excused]: the request could not be written to the upstream, or the
    connection could not be taken over. *)
Inductive reply := Unanswered | Excused | Replied | Taken.

Section replies.
Context `{UnicodeTables} `{ContentSniffer} `{Regexp} `{PrefixTable} `{Digests}.

Definition unanswered (m : reply) : bool := match m with Unanswered | Excused => true | _ => false end.

Definition excuse (m : reply) (e : option error) : reply :=
  match e, m with Some _, Unanswered => Excused | _, _ => m end.

Definition replyWatch (m : reply) (X : Type) (e : proxyE X) : X -> option reply :=
  match e in proxyE X return X -> option reply with
  | WriteHeader _ => fun _ => if unanswered m then Some Replied else None
  | CopyBody Client _ => fun _ => if unanswered m then None else Some m
  | Hijack => fun r =>
      if unanswered m then
        match r with Some (Ok _) => Some Taken | Some (Err _) => Some Excused | None => Some m end
      else None
  | WriteRequest _ _ => fun e => Some (excuse m e)
  | Write (Upstream _) _ => fun e => Some (excuse m e)
  | CopyBody (Upstream _) _ => fun out => Some (excuse m (cp_err out))
  | ReadRequest | NextStream => fun _ => None
  | _ => fun _ => Some m
  end.

Lemma replyWatch_mute m X (e : proxyE X) r : mute X e = true -> replyWatch m X e r = Some m.
Proof. by destruct e. Qed.

Lemma reply_mute {A} (p : program A) m (Q : reply -> A -> Prop) :
  only mute p -> (forall a, Q m a) -> safe replyWatch p m Q.
Proof. apply safe_only, replyWatch_mute. Qed.

Lemma deadline_reply p t m (Q : reply -> option error -> Prop) :
  (forall r, Q m r) -> safe replyWatch (setWriteDeadline p t) m Q /\ safe replyWatch (setReadDeadline p t) m Q.
Proof. intros HQ. unfold setWriteDeadline, setReadDeadline. destruct (_ <=? _)%Z; split; try intros ?; apply HQ. Qed.

Lemma setHTTPDeadline_reply rd t m (Q : reply -> option error -> Prop) :
  (forall r, Q m r) -> safe replyWatch (setHTTPDeadline rd t) m Q.
Proof. intros HQ. unfold setHTTPDeadline. repeat safe_step; cbn [replyWatch]; repeat safe_step; apply HQ. Qed.

(** A page is the reply. *)
Lemma writeBlockPage_reply st status title detail m (Q : reply -> unit -> Prop) :
  unanswered m = true -> Q Replied tt -> safe replyWatch (writeBlockPage st status title detail) m Q.
Proof.
  intros Hm HQ. unfold writeBlockPage. do 3 (apply safe_skip; [done|]; intros []).
  apply safe_bind. intros []. cbn [replyWatch]. rewrite Hm. by intros [].
Qed.

Lemma httpError_reply msg status m (Q : reply -> unit -> Prop) :
  unanswered m = true -> Q Replied tt -> safe replyWatch (httpError msg status) m Q.
Proof.
  intros Hm HQ. unfold httpError. do 3 (apply safe_skip; [done|]; intros []).
  apply safe_bind. intros []. cbn [replyWatch]. rewrite Hm. by intros [].
Qed.

Ltac reply_step :=
  first
  [ match goal with
    | |- safe _ (_ ≫= _) _ _ => apply safe_bind
    | |- safe _ (Return _) _ _ => cbn [safe]
    | |- safe _ (match ?x with _ => _ end) _ _ => destruct x eqn:?; try discriminate
    | |- safe _ (setWriteDeadline _ _) _ _ => apply deadline_reply; intros ?
    | |- safe _ (setReadDeadline _ _) _ _ => apply deadline_reply; intros ?
    | |- safe _ (setHTTPReadDeadline _) _ _ => apply setHTTPDeadline_reply; intros ?
    | |- safe _ (setHTTPWriteDeadline _) _ _ => apply setHTTPDeadline_reply; intros ?
    | |- safe _ (writeBlockPage _ _ _ _) _ _ => apply writeBlockPage_reply; [done|]
    | |- safe _ (accessDenied _ _) _ _ => apply writeBlockPage_reply; [done|]
    | |- safe _ (upstreamUnavailable _ _) _ _ => apply writeBlockPage_reply; [done|]
    | |- safe _ (httpError _ _) _ _ => apply httpError_reply; [done|]
    | |- safe _ (refuse _ _ _ _ _ _) _ _ => unfold refuse
    | |- safe _ ?p _ _ => apply (reply_mute p); [solve [eauto with mute nocore] | intros ?]
    end
  | progress cbn [replyWatch unanswered excuse]
  | safe_step ].

Lemma reply_reaching {A} (p : program A) m (Q : reply -> A -> Prop) :
  only reaching p -> (forall a, Q m a) -> safe replyWatch p m Q.
Proof. apply safe_only. by intros m' X []. Qed.

Lemma roundTripH2_reply y host plan m (Q : reply -> result error Response -> Prop) :
  (forall r, Q m r) -> safe replyWatch (roundTripH2 y host plan) m Q.
Proof. intros HQ. unfold roundTripH2. repeat reply_step; apply HQ. Qed.

Lemma advertise_reply s resp m (Q : reply -> Response -> Prop) :
  (forall r, Q m r) -> safe replyWatch (advertise s resp) m Q.
Proof. intros HQ. eapply safe_mono; [apply advertise_safe, replyWatch_mute|]. intros m' r [-> _]. apply HQ. Qed.

(** The request was written, or there is an excuse. *)
Definition excused (m : reply) (e : option error) : Prop := unanswered m = true /\ (is_Some e -> m = Excused).

Lemma excuse_excused e : excused (excuse Unanswered e) e.
Proof. destruct e; split; done || by intros []. Qed.

Lemma streamRequest_reply hl c y cap opts :
  safe replyWatch (streamRequest hl c y cap opts) Unanswered (fun m st => excused m (st_err st)).
Proof.
  unfold streamRequest. repeat reply_step; try apply excuse_excused.
  - done.
  - split; [by destruct (cp_err _)|by intros []].
Qed.

Lemma streamResponseHTTP_reply y resp cap f m :
  unanswered m = true -> safe replyWatch (streamResponseHTTP y resp cap f) m (fun m _ => m = Replied).
Proof. intros Hm. unfold streamResponseHTTP. destruct m; try done; repeat reply_step; done. Qed.

Lemma relayWebSocket_reply st c y hs idle :
  safe replyWatch (relayWebSocket st c y hs idle) Taken (fun m _ => m = Taken).
Proof.
  unfold relayWebSocket, answerWebSocket, forwardBuffered, wsFail. repeat reply_step; try done.
Qed.

Section handlers.
Context (statusText : Z -> bytes) (rx : redactionRegexes) (s : Server).

(** The client got its reply, lost its connection to a takeover, or there is
    an excuse. *)
Definition served {A} (m : reply) (_ : A) : Prop := m <> Unanswered.

Lemma concludeExchange_silent y xid opts reqDec n cap resp st line' :
  only mute (concludeExchange rx s y xid opts reqDec n cap resp st line').
Proof. unfold concludeExchange. repeat (only_step || solve [eauto with mute nocore]). Qed.

Ltac reply_stage :=
  first
  [ apply advertise_reply; intros ?
  | eapply safe_mono; [by apply streamResponseHTTP_reply|]; intros ? [? ?] ->; cbn beta iota
  | apply reply_mute; [apply concludeExchange_silent|intros ?]
  | apply roundTripH2_reply; intros ?
  | apply reply_reaching; [first [apply acquirePlainHTTP_reaching | apply acquireHTTPSUpstream_reaching]|intros ?]
  | reply_step ].

Lemma plainResponse_reply c y xid opts reqDec n cap resp m :
  unanswered m = true ->
  safe replyWatch (plainResponse statusText rx s c y xid opts reqDec n cap resp) m served.
Proof. intros Hm. unfold plainResponse. repeat reply_stage; done. Qed.

Lemma streamedResponse_reply c y xid opts reqDec n cap resp m :
  unanswered m = true ->
  safe replyWatch (streamedResponse statusText rx s c y xid opts reqDec n cap resp) m served.
Proof. intros Hm. unfold streamedResponse. repeat reply_stage; done. Qed.

(** After the request was streamed. *)
Ltac request_streamed :=
  eapply safe_mono; [apply streamRequest_reply|]; cbn beta; intros ?m ?st [?Hm ?He];
  match goal with He : is_Some (st_err ?st) -> _ |- _ =>
    destruct (st_err st); [rewrite (He ltac:(by eexists)) in *|clear He] end.

Lemma plainExchange_reply c y opts :
  safe replyWatch (plainExchange statusText rx s c y opts) Unanswered served.
Proof.
  unfold plainExchange. repeat reply_stage; try done.
  request_streamed; repeat reply_stage; try done. by apply plainResponse_reply.
Qed.

Lemma streamedExchange_reply c y xid opts :
  safe replyWatch (streamedExchange statusText rx s c y xid opts) Unanswered served.
Proof.
  unfold streamedExchange. repeat reply_stage; try done.
  request_streamed; repeat reply_stage; try done. by apply streamedResponse_reply.
Qed.

Lemma plainWebSocket_reply c y opts :
  safe replyWatch (plainWebSocket statusText s c y opts) Unanswered served.
Proof.
  unfold plainWebSocket. repeat reply_stage; try done.
  eapply safe_mono; [apply relayWebSocket_reply|]. intros m e ->. repeat reply_stage; done.
Qed.

Lemma plainLeased_reply y isWS opts host address :
  safe replyWatch (plainLeased statusText rx s y isWS opts host address) Unanswered served.
Proof.
  unfold plainLeased. do 2 reply_stage. destruct a as [c|e]; [|repeat reply_stage; done].
  apply (safe_cut _ served); [destruct isWS; [apply plainWebSocket_reply|apply plainExchange_reply]|].
  intros m r Hm. by intros [].
Qed.

Lemma handleHTTPSStreamH2Upstream_reply y host xid opts :
  safe replyWatch (handleHTTPSStreamH2Upstream statusText rx s y host xid opts) Unanswered served.
Proof. unfold handleHTTPSStreamH2Upstream. repeat reply_stage; done. Qed.

Lemma handleHTTPSStream_reply y connectHost address :
  safe replyWatch (handleHTTPSStream statusText rx s y connectHost address) Unanswered served.
Proof.
  unfold handleHTTPSStream. repeat reply_stage; try done; try apply handleHTTPSStreamH2Upstream_reply.
  all: eapply safe_mono; [apply streamedExchange_reply|]; intros m r Hm; by intros [].
Qed.

Lemma withPermit_reply profile (p : program unit) :
  safe replyWatch p Unanswered served -> safe replyWatch (withPermit statusText profile (returning p)) Unanswered served.
Proof.
  intros Hp. unfold withPermit. repeat reply_stage; try done.
  eapply safe_mono; [exact Hp|]. intros m r Hm. repeat reply_stage; done.
Qed.

Lemma handlePlainHTTP_reply y profile :
  safe replyWatch (handlePlainHTTP statusText rx s y profile) Unanswered served.
Proof.
  unfold handlePlainHTTP. repeat reply_stage; try done; apply withPermit_reply, plainLeased_reply.
Qed.

Lemma serveHTTP3_reply y profile :
  safe replyWatch (serveHTTP3 statusText rx s y profile) Unanswered served.
Proof.
  unfold serveHTTP3. repeat reply_stage; try done; apply withPermit_reply, handleHTTPSStream_reply.
Qed.

(** Everything but a CONNECT. *)
Lemma ServeHTTP_reply fuel handshake http3 y :
  http3 || negb (bytes_eqb (Method (x_req y)) (str "CONNECT")) = true ->
  safe replyWatch (ServeHTTP statusText rx s fuel handshake http3 y) Unanswered served.
Proof.
  intros Hc.
  assert (Hk : forall profile, safe replyWatch
    (if http3 then serveHTTP3 statusText rx s y profile
     else if negb (bytes_eqb (Method (x_req y)) (str "CONNECT")) then handlePlainHTTP statusText rx s y profile
     else serveConnect statusText rx s fuel handshake y profile) Unanswered served).
  { intros profile. destruct http3; [apply serveHTTP3_reply|]. cbn [orb] in Hc. rewrite Hc. apply handlePlainHTTP_reply. }
  unfold ServeHTTP, admitClient. repeat reply_stage; try done;
    (eapply safe_mono; [apply Hk|]; intros m [r'|] Hm; repeat reply_stage; done).
Qed.

End handlers.
End replies.


#[local] Existing Instances sample_sniffer' sample_digests ascii_tables literal_regexp list_table.

