(* ===== verification/Dialling.v ===== *)
(** * Dialling an upstream

    A monitor of one dial: the address was resolved, the policy allows what
    it resolved to, the circuit breaker of the host lets the call through, and
    is told how it went. *)

From S2P Require Import Prelude Effects GoStrings GoRegexp GoUrl GoNetip GoMime Http DomainTrie DomainRules Access PolicyRules UrlRules Policy Schedule UpstreamPool AuditScope Relay Exchange Upstream.

Section dialling.
Context `{UnicodeTables} `{Regexp} `{PrefixTable} (s : Server) (address host : bytes).

(** The address to dial with the host that is judged for it; whether the
    breaker let the call through; and how the dial went, until the breaker
    is told. *)
Record attempt := MkAttempt { at_route : option (bytes * bytes); at_pass : bool; at_unreported : option bool }.

(** The breaker is in use. *)
Definition guarded : bool := bool_decide (sv_breakers s = Some true).

Definition attempt0 : attempt :=
  MkAttempt (if sv_dnsResolver s then None else Some (address, addressHost address)) (negb guarded) None.

Definition mayDial (m : attempt) (dialAddr : bytes) : bool :=
  match at_route m with
  | Some (a, h) => bytes_eqb a dialAddr && negb (Blocked (EvaluateResolvedDestinationIP (sv_policy s) h))
  | None => false
  end && at_pass m.

Definition dialled (m : attempt) (dialAddr : bytes) (ok : bool) : option attempt :=
  if mayDial m dialAddr then Some (MkAttempt None false (if guarded then Some ok else None)) else None.

Definition dialWatch (m : attempt) (X : Type) (e : proxyE X) : X -> option attempt :=
  match e in proxyE X return X -> option attempt with
  | Resolve a force => fun r =>
      if bytes_eqb a address && eqb force (RequiresResolvedSiteIP (sv_policy s)) then
        Some (MkAttempt match r with
                        | Ok route => Some route
                        | Err _ => if force then None else Some (address, addressHost address)
                        end (at_pass m) (at_unreported m))
      else None
  | BreakerAllow h => fun r =>
      if bytes_eqb h host
      then Some (MkAttempt (at_route m) (match r with None => true | Some _ => false end) (at_unreported m)) else None
  | BreakerReport h ok => fun _ =>
      if bytes_eqb h host && bool_decide (at_unreported m = Some ok)
      then Some (MkAttempt (at_route m) (at_pass m) None) else None
  | DialTCP a => fun r => dialled m a (is_ok r)
  | DialTLS a _ => fun r => dialled m a (is_ok r)
  | _ => fun _ => Some m
  end.

(** Nothing is left to be told to the breaker. *)
Definition reported {A} (m : attempt) (_ : A) : Prop := at_unreported m = None.

Definition routed (dialAddr : bytes) (m : attempt) : Prop :=
  at_pass m = negb guarded /\ at_unreported m = None /\
  exists h, at_route m = Some (dialAddr, h) /\ Blocked (EvaluateResolvedDestinationIP (sv_policy s) h) = false.

Lemma resolveDialAddress_dial m :
  m = attempt0 ->
  safe dialWatch (resolveDialAddress s address) m
    (fun m r => at_unreported m = None /\ match r with Ok a => routed a m | Err _ => True end).
Proof.
  intros ->. unfold resolveDialAddress, attempt0. destruct (sv_dnsResolver s).
  - apply safe_bind. intros r. cbn [dialWatch]. unfold bytes_eqb.
    rewrite bool_decide_true by done. rewrite eqb_reflx. cbn [andb safe at_pass at_unreported].
    destruct r as [[a h]|e]; [|destruct (RequiresResolvedSiteIP _); [done|]].
    all: destruct (Blocked _) eqn:Eb; [done|]; split; [done|]; split_and!; eauto.
  - destruct (Blocked _) eqn:Eb; [done|]; split; [done|]; split_and!; eauto.
Qed.

Lemma Execute_dial dialAddr m (d : proxyE (result error nat)) :
  routed dialAddr m -> (forall m' r, dialWatch m' _ d r = dialled m' dialAddr (is_ok r)) ->
  safe dialWatch (Execute (sv_breakers s) host (call d)) m reported.
Proof.
  intros (Hp & Hu & h & Hr & Hb) Hd.
  assert (Hdial : forall m' ok, at_route m' = at_route m -> at_pass m' = true ->
    dialled m' dialAddr ok = Some (MkAttempt None false (if guarded then Some ok else None))).
  { intros m' ok Er Ep. unfold dialled, mayDial, bytes_eqb. by rewrite Er, Hr, Ep, bool_decide_true, Hb. }
  unfold Execute. destruct (sv_breakers s) as [[]|] eqn:Es.
  - apply safe_bind. intros [e|]; cbn [dialWatch]; unfold bytes_eqb; rewrite bool_decide_true by done; [done|].
    cbn [safe]. apply safe_bind. intros r. rewrite Hd, Hdial by done. cbn [safe]. apply safe_bind. intros []. cbn [dialWatch].
    unfold guarded. rewrite Es. unfold bytes_eqb. cbn [at_unreported]. by rewrite !bool_decide_true.
  - intros r. rewrite Hd, Hdial; [|done|]; unfold guarded in *; by rewrite Es in *.
  - intros r. rewrite Hd, Hdial; [|done|]; unfold guarded in *; by rewrite Es in *.
Qed.

(** The part the ways to a connection share. *)
Lemma resolve_and_dial (d : bytes -> proxyE (result error nat)) :
  (forall a m r, dialWatch m _ (d a) r = dialled m a (is_ok r)) ->
  safe dialWatch
    (r ← resolveDialAddress s address;
     match r with Err e => Return (Err e) | Ok dialAddr => Execute (sv_breakers s) host (call (d dialAddr)) end)
    attempt0 reported.
Proof.
  intros Hd. eapply safe_cut; [by apply resolveDialAddress_dial|]. intros m [a|e] [Hu Hr]; [|done].
  by eapply Execute_dial.
Qed.

Lemma acquireHTTPSUpstream_dial : safe dialWatch (acquireHTTPSUpstream s address host) attempt0 reported.
Proof.
  unfold acquireHTTPSUpstream. destruct (negb _); [done|]. apply (safe_cut _ reported).
  - unfold acquireUpstream. apply safe_skip; [done|]. intros [c|]; [done|]. by apply (resolve_and_dial (fun a => DialTLS a host)).
  - intros m [c|e] Hm; [|exact Hm]. repeat first [safe_step | progress cbn [dialWatch]]; exact Hm.
Qed.

End dialling.

(** C13. The dial of an upstream.  Whatever the resolver, the breakers and the
    network answer, each of the three ways to a new connection dials at most
    once, and only the address that its destination was resolved to, when the
    policy allows that IP; when a site rule needs the resolved IP, a failed
    lookup ends the attempt.  The circuit breaker of the host lets the dial
    through first, and is told afterwards, once, whether it succeeded. *)
Theorem dial_gate `{UnicodeTables} `{Regexp} `{PrefixTable} s address host (o : oracle proxyE) :
  let named := match SplitHostPort address with Some (h, _) => h | None => address end in
  Forall (fun '(h, p) =>
      exists m, accept (dialWatch s address h) (attempt0 s address) (run o 0 p).1 = Some m /\ at_unreported m = None)
    [(named, dialPlainHTTP s address); (named, dialH2 s address); (host, acquireHTTPSUpstream s address host)].
Proof.
  intros named.
  assert (Hplain : safe (dialWatch s address named) (dialPlainHTTP s address) (attempt0 s address) reported).
  { unfold dialPlainHTTP. fold named. apply (resolve_and_dial s address named DialTCP). done. }
  assert (Hh2 : safe (dialWatch s address named) (dialH2 s address) (attempt0 s address) reported).
  { unfold dialH2. destruct (negb _); [exact eq_refl|]. fold named.
    apply (resolve_and_dial s address named (fun a => DialTLS a named)). done. }
  apply Forall_cons; split; [|apply Forall_cons; split; [|apply Forall_cons; split; [|by apply Forall_nil]]].
  - exact (safe_run _ _ _ o _ 0 Hplain).
  - exact (safe_run _ _ _ o _ 0 Hh2).
  - exact (safe_run _ _ _ o _ 0 (acquireHTTPSUpstream_dial s address host)).
Qed.
