(* ===== verification/Redaction.v ===== *)
(** * What a dump shows

    Every record that a handler queues for the dump files has its credentials
    redacted, unless the operator asked for cleartext. *)

From S2P Require Import Prelude Effects GoStrings GoConv GoRegexp GoUrl GoPath GoNetip GoMime Http DomainTrie DomainRules Framing Access PolicyRules UrlRules Policy Schedule SemanticFilter FilterEngine InspectReader BodyFilters MaskingFilter ContentFilter UpstreamPool AuditScope Relay Exchange Dump Streaming WebSocket RelayLoop Upstream Server.

Lemma only_iterate {E : Type -> Type} (P : forall X, E X -> bool) {S A} fuel (round : S -> prog E (S + A)) :
  (forall s, only P (round s)) -> forall s, only P (iterate fuel round s).
Proof.
  intros Hr. induction fuel as [|fuel IH]; intros s; [exact I|]. cbn [iterate]. apply only_bind; [apply Hr|].
  intros [s'|a]; [apply IH|exact I].
Qed.

Section redaction.
Context `{UnicodeTables} `{ContentSniffer} `{Regexp} `{PrefixTable} `{Digests} (rx : redactionRegexes).

(** A value that was replaced: by a constant, or with a key by a digest. *)
Definition isRedacted (key v : bytes) : bool :=
  if bytes_eqb key [] then bytes_eqb v (str "[REDACTED]") else HasPrefix v (str "[REDACTED:HMAC-").

(** The headers that carry credentials, in any spelling. *)
Definition carriesCredentials (k : bytes) : bool :=
  existsb (bytes_eqb (ToLower k)) [str "authorization"; str "proxy-authorization"; str "cookie"; str "set-cookie"].

(** An entry is marked when it shows credentials; otherwise the sensitive
    headers are replaced.  A body shows only when its type is textual. *)
Definition discreet (opts : Options) (entry : dumpEntry) : bool :=
  eqb (de_ContainsCleartextCredentials entry) (op_DumpCredentialsCleartext opts) &&
  (op_DumpCredentialsCleartext opts
   || bool_decide (map_Forall (fun k v => carriesCredentials k = true -> isRedacted (op_AuditKey opts) v = true) (de_Headers entry))) &&
  (bytes_eqb (de_Body entry) [] || isTextualContentType (de_ContentType entry)).

Definition discreetly (X : Type) (e : proxyE X) : bool :=
  match e with Enqueue opts entry => discreet opts entry | _ => true end.

Lemma hmacString_redacted key v : isRedacted key (hmacString key v) = true.
Proof. unfold hmacString, isRedacted. destruct (bytes_eqb key []); [done|]. apply HasPrefix_app. Qed.

Lemma credentials_sensitive k : carriesCredentials k = true -> sensitiveHeader k = true.
Proof.
  unfold carriesCredentials, sensitiveHeader. intros (name & Hin & E%bytes_eqb_eq)%existsb_exists.
  apply bool_decide_eq_true. rewrite E. apply list_elem_of_In. set_solver.
Qed.

Lemma redactHeaders_redacted h key :
  map_Forall (fun k v => carriesCredentials k = true -> isRedacted key v = true) (redactHeaders h key false).
Proof.
  intros k v Hk Hs. unfold redactHeaders in Hk. rewrite map_lookup_imap in Hk.
  destruct (h !! k); [|done]. injection Hk as <-. rewrite (credentials_sensitive _ Hs). apply hmacString_redacted.
Qed.

Lemma dumpBody_textual opts raw ct enc sk :
  bytes_eqb (dumpBody rx opts raw ct enc sk).1.1.1 [] || isTextualContentType ct = true.
Proof.
  unfold dumpBody. destruct (bytes_eqb raw []); [done|]. destruct (negb (bytes_eqb sk [])); [done|].
  destruct (isTextualContentType ct); [by rewrite orb_true_r|done].
Qed.

Lemma existingAncestor_discreetly fuel : forall dir, only discreetly (existingAncestor fuel dir).
Proof. induction fuel as [|fuel IH]; intros dir; cbn [existingAncestor]; repeat (only_step || done). Qed.

Lemma emitDump_discreetly opts xid x resp payload action :
  only discreetly (emitDump rx opts xid x resp payload action).
Proof.
  unfold emitDump, isDiskSpaceLow. destruct payload as [[raw truncated] skipped].
  apply only_bind; [repeat (only_step || done); apply existingAncestor_discreetly|]. intros low.
  apply only_bind; [done|]. intros ts.
  set (ct := Header_Get _ (str "Content-Type")). set (sk := if low && _ then _ else _).
  pose proof (dumpBody_textual opts raw ct (Header_Get match resp with Some resp => rs_Header resp | None => rq_Header (x_req x) end (str "Content-Encoding")) sk) as Hb.
  destruct (dumpBody _ _ _ _ _ _) as [[[body b64] n] sk']. cbn [fst] in Hb. apply only_call.
  cbn [discreetly]. unfold discreet. cbn [de_Headers de_Body de_ContentType de_ContainsCleartextCredentials].
  rewrite eqb_reflx, Hb. destruct (op_DumpCredentialsCleartext opts); [done|].
  by rewrite bool_decide_true by apply redactHeaders_redacted.
Qed.

Ltac handler_step :=
  first [only_step | exact eq_refl | apply emitDump_discreetly | apply only_iterate; intros ?
        | match goal with |- only _ (finally _ _) => unfold finally end ].

Lemma relay_discreetly st hl dial acquire opts roundTrip fuel upstream :
  (forall q, dial = Some q -> only discreetly q) -> (forall q, acquire = Some q -> only discreetly q) ->
  (forall y, only discreetly (roundTrip y)) ->
  only discreetly (relayHTTPConnLease st rx hl dial acquire opts roundTrip fuel upstream).
Proof.
  intros Hd Ha Hr.
  unfold relayHTTPConnLease, relayRound, serveRequest, upstreamExchange, webSocketExchange, forwardExchange, h2Exchange,
    doH2RoundTrip, deliverResponse, releaseCurrent, reusableNow, answerBlocked, streamRequest, streamResponse,
    relayWebSocket, answerWebSocket, forwardBuffered, wsFail, requestDump, responseDump, logExchange, logExchangeBlocked,
    alert, closeRequestBody, closeResponseBody, sampleBodies, altSvc, setReadDeadline, setWriteDeadline, ruleHit, session, fail, finish, failNew.
  repeat first [handler_step | apply Hr | by apply Ha | by apply Hd].
Qed.

Section server.
Context (st : Z -> bytes) (s : Server).

(** The ways to an upstream queue nothing. *)
Lemma dialPlainHTTP_discreetly address : only discreetly (dialPlainHTTP s address).
Proof. unfold dialPlainHTTP, resolveDialAddress, Execute. repeat handler_step. Qed.

Lemma acquirePlainHTTP_discreetly address host : only discreetly (acquirePlainHTTP s address host).
Proof.
  unfold acquirePlainHTTP, acquireUpstream. apply only_bind; [done|].
  intros [c|]; [done|apply dialPlainHTTP_discreetly].
Qed.

Lemma acquireHTTPSUpstream_discreetly address host : only discreetly (acquireHTTPSUpstream s address host).
Proof. unfold acquireHTTPSUpstream, acquireUpstream, resolveDialAddress, Execute. repeat handler_step. Qed.

Lemma roundTripH2_discreetly y host plan : only discreetly (roundTripH2 y host plan).
Proof. unfold roundTripH2. repeat handler_step. Qed.

Ltac server_tac :=
  repeat first [ only_step | exact eq_refl
               | lazymatch goal with
                 | |- only _ (acquirePlainHTTP _ _ _) => apply acquirePlainHTTP_discreetly
                 | |- only _ (acquireHTTPSUpstream _ _ _) => apply acquireHTTPSUpstream_discreetly
                 | |- only _ (roundTripH2 _ _ _) => apply roundTripH2_discreetly
                 | |- only _ (emitDump _ _ _ _ _ _ _) => apply emitDump_discreetly
                 | |- only _ (finally _ _) => unfold finally
                 end ].

Lemma stream_discreetly y connectHost address : only discreetly (handleHTTPSStream st rx s y connectHost address).
Proof.
  unfold handleHTTPSStream, handleHTTPSStreamH2Upstream, streamedExchange, streamedResponse, streamRequest, streamResponseHTTP,
    concludeExchange, refuse, accessDenied, upstreamUnavailable, writeBlockPage, advertise, setHTTPWriteDeadline,
    setHTTPDeadline, requestDump, responseDump, logExchange, logExchangeBlocked, alert, closeRequestBody, closeResponseBody,
    setReadDeadline, setWriteDeadline, ruleHit, logLine.
  server_tac.
Qed.

Lemma plain_discreetly y profile : only discreetly (handlePlainHTTP st rx s y profile).
Proof.
  unfold handlePlainHTTP, withPermit, plainLeased, plainExchange, plainResponse, plainWebSocket, relayWebSocket, answerWebSocket,
    forwardBuffered, wsFail, streamRequest, streamResponseHTTP, concludeExchange, httpError, accessDenied,
    upstreamUnavailable, writeBlockPage, advertise, setHTTPWriteDeadline, setHTTPReadDeadline, setHTTPDeadline, requestDump, responseDump,
    logExchange, logExchangeBlocked, alert, closeRequestBody, closeResponseBody, setReadDeadline, setWriteDeadline,
    ruleHit, session, logLine.
  server_tac.
Qed.

Lemma relayIntercepted_discreetly fuel address host : only discreetly (relayIntercepted st rx s fuel address host).
Proof.
  apply relay_discreetly.
  - done.
  - intros q [= <-]. unfold logLine. server_tac.
  - intros y. apply roundTripH2_discreetly.
Qed.

Lemma ServeHTTP_discreetly fuel handshake http3 y : only discreetly (ServeHTTP st rx s fuel handshake http3 y).
Proof.
  unfold ServeHTTP, admitClient, serveHTTP3, serveConnect, withPermit, handleBypassMITM, handleHTTPS, serveStreams,
    hijacked, logged, refuse, httpError, accessDenied, writeBlockPage, logExchangeBlocked, alert, ruleHit, logLine.
  repeat first [ only_step | exact eq_refl | apply only_iterate; intros ?
               | lazymatch goal with
                 | |- only _ (finally _ _) => unfold finally
                 | |- only _ (handleHTTPSStream _ _ _ _ _ _) => apply stream_discreetly
                 | |- only _ (handlePlainHTTP _ _ _ _ _) => apply plain_discreetly
                 | |- only _ (relayIntercepted _ _ _ _ _ _) => apply relayIntercepted_discreetly
                 | |- only _ (dialPlainHTTP _ _) => apply dialPlainHTTP_discreetly
                 end ].
Qed.

End server.
End redaction.

(** C18. Credentials in the dump files.  Whatever the client, the upstreams, the
    clock and the disk answer, every record that the handler of a request
    queues for the dump files either is marked to hold credentials in
    cleartext, which happens only when the operator asked for it, or has the
    values of its Authorization, Cookie, Set-Cookie and Proxy-Authorization
    headers replaced, by a constant or, when there is an audit key, by a marked
    digest; and it holds a body only when its type is textual. *)
Theorem dump_redacted `{UnicodeTables} `{ContentSniffer} `{Regexp} `{PrefixTable} `{Digests}
    statusText rx s fuel handshake http3 x (o : oracle proxyE) :
  Forall (fun ob => discreetly (o_type _ ob) (o_call _ ob) = true)
    (run o 0 (ServeHTTP statusText rx s fuel handshake http3 x)).1.
Proof. apply run_only, ServeHTTP_discreetly. Qed.
