(* ===== verification/Dumper.v ===== *)
(** * The writer of the dump files (proxy/relay.go, ForensicDumper)

    Records are queued by the handlers and written by one goroutine, through
    a buffer, to a file that is replaced when it has grown; old files are
    compressed and removed. *)

From S2P Require Import Prelude GoStrings DomainTrie.

(** ** Files *)

(** What was appended to a file between its opening and its closing; [ss_ok]
    until a write to it failed.  [ss_lines] are the lines given to its
    buffer. *)
Record session := MkSession { ss_name : bytes; ss_lines : list bytes; ss_data : bytes; ss_ok : bool }.

(** The open file with the contents of its [bufio.Writer]. *)
Record dumpFile := MkDumpFile { df_session : session; df_buf : bytes }.

Definition bufferSize : nat := 64 * 1024.

(** [file.Write(p)] with room for some bytes: how many are written. *)
Definition written (room : option nat) (p : bytes) : nat :=
  match room with None => length p | Some r => min r (length p) end.

Definition roomAfter (room : option nat) (n : nat) : option nat := (fun r => r - n) <$> room.

Definition append (f : dumpFile) (data : bytes) (buf : bytes) (ok : bool) : dumpFile :=
  MkDumpFile (MkSession (ss_name (df_session f)) (ss_lines (df_session f)) (ss_data (df_session f) ++ data) ok) buf.

(** [bw.Flush()]: after an error it does nothing. *)
Definition flush (room : option nat) (f : dumpFile) : dumpFile * option nat :=
  if negb (ss_ok (df_session f)) || bytes_eqb (df_buf f) [] then (f, room)
  else
    let n := written room (df_buf f) in
    (append f (take n (df_buf f)) (drop n (df_buf f)) (n =? length (df_buf f)), roomAfter room n).

(** The loop of [bw.Write(p)]: fill the buffer and flush it, or write past an
    empty one; the rest of [p] stays in the buffer. *)
Fixpoint bufWrite (fuel : nat) (room : option nat) (f : dumpFile) (p : bytes) : dumpFile * option nat :=
  if negb (ss_ok (df_session f)) then (f, room)
  else
    let available := bufferSize - length (df_buf f) in
    match fuel with
    | S fuel =>
        if available <? length p then
          if bytes_eqb (df_buf f) [] then
            let n := written room p in
            bufWrite fuel (roomAfter room n) (append f (take n p) [] (n =? length p)) (drop n p)
          else
            let '(f, room) := flush room (MkDumpFile (df_session f) (df_buf f ++ take available p)) in
            bufWrite fuel room f (drop available p)
        else (MkDumpFile (df_session f) (df_buf f ++ p), room)
    | O => (MkDumpFile (df_session f) (df_buf f ++ p), room)
    end.

(** A line, counted as given to the buffer; a buffer with less than 4096 free
    bytes is flushed. *)
Definition writeLine (room : option nat) (f : dumpFile) (l : bytes) : dumpFile :=
  let s := df_session f in
  let f := MkDumpFile (MkSession (ss_name s) (ss_lines s ++ [l]) (ss_data s) (ss_ok s)) (df_buf f) in
  let '(f, room) := bufWrite 3 room f l in
  if bufferSize - length (df_buf f) <? 4096 then (flush room f).1 else f.

(** ** Rotation *)

(** One pass of the inner loop: the smaller one of each pair stays. *)
Fixpoint selectMin (x : bytes) (l : list bytes) : bytes * list bytes :=
  match l with
  | [] => (x, [])
  | y :: l => if bytes_ltb y x then let '(m, l) := selectMin y l in (m, x :: l)
              else let '(m, l) := selectMin x l in (m, y :: l)
  end.

Fixpoint sortLoop (n : nat) (l : list bytes) : list bytes :=
  match n, l with
  | S n, x :: l => let '(m, l) := selectMin x l in m :: sortLoop n l
  | _, _ => l
  end.

Definition sortStrings (l : list bytes) : list bytes := sortLoop (length l) l.

Definition isDumpFile (name : bytes) : bool :=
  HasPrefix name (str "dump_") && (HasSuffix name (str ".jsonl") || HasSuffix name (str ".jsonl.gz")).

(** The names [rotateDumpFiles] removes from a directory, which is listed with
    what is a directory itself; all paths have the same parent. *)
Definition expired (maxBackups : Z) (entries : list (bytes * bool)) : list bytes :=
  if (0 <? maxBackups)%Z then
    let names := filter (fun n => isDumpFile n = true) (map fst (filter (fun e => e.2 = false) entries)) in
    let sorted := sortStrings names in
    if (maxBackups <? Z.of_nat (length sorted))%Z then take (length sorted - Z.to_nat maxBackups) sorted else []
  else [].

(** ** The goroutine *)

Record dumpOptions := MkDumpOptions { do_MaxSizeMB : Z; do_MaxBackups : Z; do_Compress : bool }.

Record dumper := MkDumper {
  du_queue : list bytes;
  du_closed : list session;
  du_current : option dumpFile;
  du_dir : list (bytes * bool);      (* the dump directory *)
  du_compressing : list bytes;       (* files being compressed *)
  du_lastWarned : Z;
  du_stopped : bool;
}.

Definition queueSize : nat := 4096.

(** What a task meets: low disk space, the time, the directory, the files
    that can be created, the size of the open file, the listing, and the room
    on the disk. *)
Record taskEnv := MkTaskEnv {
  te_low : bool;
  te_now : Z;
  te_mkdir : bool;
  te_create : bool;
  te_size : option Z;
  te_list : bool;
  te_room : option nat;
}.

Definition dumpName (now : Z) : bytes := str "dump_" ++ Itoa now ++ str ".jsonl".

Definition openDump (now : Z) : dumpFile := MkDumpFile (MkSession (dumpName now) [] [] true) [].

Definition created (name : bytes) (dir : list (bytes * bool)) : list (bytes * bool) :=
  if bool_decide (name ∈ map fst dir) then dir else dir ++ [(name, false)].

Definition rotateDumpFiles (opts : dumpOptions) (listed : bool) (name : bytes) (dir : list (bytes * bool))
    (compressing : list bytes) : list (bytes * bool) * list bytes :=
  (if listed then filter (fun e => e.1 ∉ expired (do_MaxBackups opts) dir) dir else dir,
   if do_Compress opts then compressing ++ [name] else compressing).

Definition tooLarge (opts : dumpOptions) (size : option Z) : bool :=
  match size with Some n => (wrapS 64 (wrapS 64 (do_MaxSizeMB opts * 1024) * 1024) <=? n)%Z | None => false end.

(** The file a task writes to: opened at first, replaced when it has grown. *)
Definition currentFile (opts : dumpOptions) (env : taskEnv) (d : dumper) : dumper :=
  match du_current d with
  | None =>
      if te_mkdir env && te_create env
      then MkDumper (du_queue d) (du_closed d) (Some (openDump (te_now env))) (created (dumpName (te_now env)) (du_dir d))
             (du_compressing d) (du_lastWarned d) (du_stopped d)
      else d
  | Some f =>
      if tooLarge opts (te_size env) then
        let closed := df_session (flush (te_room env) f).1 in
        let '(dir, compressing) := rotateDumpFiles opts (te_list env) (ss_name closed) (du_dir d) (du_compressing d) in
        MkDumper (du_queue d) (du_closed d ++ [closed])
          (if te_create env then Some (openDump (te_now env)) else None)
          (if te_create env then created (dumpName (te_now env)) dir else dir)
          compressing (du_lastWarned d) (du_stopped d)
      else d
  end.

Definition processTask (opts : dumpOptions) (env : taskEnv) (l : bytes) (d : dumper) : dumper :=
  if te_low env then
    MkDumper (du_queue d) (du_closed d) (du_current d) (du_dir d) (du_compressing d)
      (if (5000000000 <? te_now env - du_lastWarned d)%Z then te_now env else du_lastWarned d) (du_stopped d)
  else
    let d := currentFile opts env d in
    MkDumper (du_queue d) (du_closed d) ((fun f => writeLine (te_room env) f l) <$> du_current d) (du_dir d)
      (du_compressing d) (du_lastWarned d) (du_stopped d).

(** A record finds room in the queue or is dropped. *)
Definition writeDumpLine (l : bytes) (d : dumper) : dumper :=
  if length (du_queue d) <? queueSize
  then MkDumper (du_queue d ++ [l]) (du_closed d) (du_current d) (du_dir d) (du_compressing d) (du_lastWarned d) (du_stopped d)
  else d.

(** The end of a compression: whether the two files could be opened and the
    copy succeeded, after which the source is removed. *)
Definition compressFileGzip (name : bytes) (opened ok : bool) (d : dumper) : dumper :=
  if bool_decide (name ∈ du_compressing d) then
    let compressing := filter (fun n => n <> name) (du_compressing d) in
    let dir := if opened then created (name ++ str ".gz") (du_dir d) else du_dir d in
    let dir := if opened && ok then filter (fun e => e.1 <> name) dir else dir in
    MkDumper (du_queue d) (du_closed d) (du_current d) dir compressing (du_lastWarned d) (du_stopped d)
  else d.

Inductive event :=
| Queue (l : bytes)                            (* writeDumpLine *)
| Task (env : taskEnv)                         (* the goroutine takes a record *)
| Tick (room : option nat)                     (* the ticker *)
| Compressed (name : bytes) (opened ok : bool) (* compressFileGzip *)
| Stop (room : option nat).                    (* the queue is empty after Close *)

Definition dumpStep (opts : dumpOptions) (ev : event) (d : dumper) : dumper :=
  match ev with
  | Queue l => writeDumpLine l d
  | Task env =>
      match du_stopped d, du_queue d with
      | false, l :: q =>
          processTask opts env l
            (MkDumper q (du_closed d) (du_current d) (du_dir d) (du_compressing d) (du_lastWarned d) (du_stopped d))
      | _, _ => d
      end
  | Tick room =>
      if du_stopped d then d
      else MkDumper (du_queue d) (du_closed d) ((fun f => (flush room f).1) <$> du_current d) (du_dir d) (du_compressing d)
             (du_lastWarned d) (du_stopped d)
  | Compressed name opened ok => compressFileGzip name opened ok d
  | Stop room =>
      match du_stopped d, du_queue d with
      | false, [] =>
          MkDumper [] (du_closed d ++ match du_current d with Some f => [df_session (flush room f).1] | None => [] end)
            None (du_dir d) (du_compressing d) (du_lastWarned d) true
      | _, _ => d
      end
  end.

Definition dumpRun (opts : dumpOptions) (evs : list event) (d : dumper) : dumper :=
  fold_left (fun d ev => dumpStep opts ev d) evs d.

Definition newForensicDumper (dir : list (bytes * bool)) : dumper := MkDumper [] [] None dir [] 0 false.

(** ** Lines *)

(** The lines that found room in the queue. *)
Fixpoint accepted (opts : dumpOptions) (evs : list event) (d : dumper) : list bytes :=
  match evs with
  | [] => []
  | ev :: evs =>
      match ev with Queue l => if length (du_queue d) <? queueSize then [l] else [] | _ => [] end
      ++ accepted opts evs (dumpStep opts ev d)
  end.

(** The lines that were given to a file, and the files with what they got. *)
Definition sessions (d : dumper) : list session :=
  du_closed d ++ match du_current d with Some f => [df_session f] | None => [] end.

Definition linesOut (d : dumper) : list bytes := concat (map ss_lines (sessions d)).

(** A file holds its lines, whole and in order, or what came before the first
    failed write. *)
Definition session_ok (s : session) : Prop :=
  exists lost, ss_data s ++ lost = concat (ss_lines s) /\ (ss_ok s = true -> lost = []).

(** The same of an open file, before [rest] is written to it. *)
Definition file_holds (f : dumpFile) (rest : bytes) (text : bytes) : Prop :=
  exists lost, ss_data (df_session f) ++ df_buf f ++ lost = text /\ (ss_ok (df_session f) = true -> lost = rest).

(** The disk is never full, and files can be created. *)
Definition smooth (ev : event) : Prop :=
  match ev with Task env => te_low env = false /\ te_mkdir env = true /\ te_create env = true | _ => True end.

#[local] Opaque bufferSize.

Lemma flush_holds room f rest text :
  file_holds f rest text -> file_holds (flush room f).1 rest text /\
  ss_lines (df_session (flush room f).1) = ss_lines (df_session f) /\
  (ss_ok (df_session (flush room f).1) = true -> df_buf (flush room f).1 = []).
Proof.
  unfold flush. destruct (ss_ok (df_session f)) eqn:Eo; cbn [negb orb fst]; [|by rewrite Eo].
  destruct (bytes_eqb (df_buf f) []) eqn:Eb; cbn [fst]; [by apply bool_decide_eq_true in Eb|].
  intros (lost & E & Hl). specialize (Hl Eo) as ->. cbn. set (n := written room (df_buf f)). split_and!; [|done|].
  - exists rest. split; [|done]. cbn. rewrite <- E, <- !app_assoc. f_equal. by rewrite (app_assoc (take n _)), take_drop.
  - intros Hn%Nat.eqb_eq. by rewrite Hn, drop_all.
Qed.

Lemma bufWrite_holds fuel : forall room f p text,
  file_holds f p text -> file_holds (bufWrite fuel room f p).1 [] text /\
  ss_lines (df_session (bufWrite fuel room f p).1) = ss_lines (df_session f).
Proof.
  assert (Hlast : forall f p text, ss_ok (df_session f) = true -> file_holds f p text ->
    file_holds (MkDumpFile (df_session f) (df_buf f ++ p)) [] text).
  { intros f p text Eo (lost & E & Hl). exists []. split; [|done]. cbn. by rewrite app_nil_r, <- E, (Hl Eo). }
  induction fuel as [|fuel IH]; intros room f p text Hf; cbn [bufWrite].
  all: destruct (ss_ok (df_session f)) eqn:Eo; cbn [negb fst];
    [|split; [|done]; destruct Hf as (lost & E & _); exists lost; split; [done|by rewrite Eo]].
  - split; [by apply Hlast|done].
  - destruct (_ <? length p); [|split; [by apply Hlast|done]].
    destruct Hf as (lost & E & Hl). specialize (Hl Eo) as ->. destruct (bytes_eqb (df_buf f) []) eqn:Eb.
    + apply bool_decide_eq_true in Eb. set (n := written room p).
      destruct (IH (roomAfter room n) (append f (take n p) [] (n =? length p)) (drop n p) text) as [? El]; [|by rewrite El].
      exists (drop n p). split; [|done]. cbn. by rewrite <- E, Eb, <- !app_assoc, take_drop.
    + set (g := MkDumpFile _ (df_buf f ++ take _ p)).
      assert (Hg : file_holds g (drop (bufferSize - length (df_buf f)) p) text).
      { exists (drop (bufferSize - length (df_buf f)) p). split; [|reflexivity]. cbn. by rewrite <- app_assoc, take_drop. }
      destruct (flush_holds room g _ _ Hg) as (Hf' & El & _). destruct (flush room g) as [f' room']. cbn [fst] in *.
      destruct (IH room' f' _ _ Hf') as [? ->]. by rewrite El.
Qed.

Lemma writeLine_holds room f l :
  file_holds f [] (concat (ss_lines (df_session f))) ->
  file_holds (writeLine room f l) [] (concat (ss_lines (df_session (writeLine room f l)))) /\
  ss_lines (df_session (writeLine room f l)) = ss_lines (df_session f) ++ [l].
Proof.
  intros (lost & E & Hl). unfold writeLine. cbn [df_session ss_lines].
  set (g := MkDumpFile (MkSession _ _ _ _) _).
  assert (Hg : file_holds g l (concat (ss_lines (df_session f) ++ [l]))).
  { exists (lost ++ l). cbn. rewrite concat_app, <- E, <- !app_assoc. cbn. rewrite app_nil_r. split; [done|].
    intros ->%Hl. done. }
  destruct (bufWrite_holds 3 room g l _ Hg) as [Hb El]. destruct (bufWrite 3 room g l) as [h room']. cbn [fst] in *.
  destruct (_ <? 4096); [destruct (flush_holds room' h _ _ Hb) as (Hf' & El' & _); rewrite El'|]; by rewrite El.
Qed.

Lemma closed_ok room f :
  file_holds f [] (concat (ss_lines (df_session f))) -> session_ok (df_session (flush room f).1).
Proof.
  intros Hf. destruct (flush_holds room f _ _ Hf) as ((lost & E & Hl) & El & Hb).
  exists (df_buf (flush room f).1 ++ lost). rewrite El. split; [done|]. intros Ho. by rewrite (Hb Ho), (Hl Ho).
Qed.

(** ** Runs *)

Record dumper_ok (d : dumper) : Prop := MkDumperOk {
  dk_closed : Forall session_ok (du_closed d);
  dk_current : forall f, du_current d = Some f -> file_holds f [] (concat (ss_lines (df_session f)));
}.

(** The lines given to a file, then those in the queue. *)
Definition out (d : dumper) : list bytes := linesOut d ++ du_queue d.

Lemma openDump_holds now : file_holds (openDump now) [] (concat (ss_lines (df_session (openDump now)))).
Proof. by exists []. Qed.

Lemma linesOut_split d :
  linesOut d = concat (map ss_lines (du_closed d)) ++ match du_current d with Some f => ss_lines (df_session f) | None => [] end.
Proof.
  unfold linesOut, sessions. rewrite map_app, concat_app. f_equal. destruct (du_current d); [|done].
  cbn. by rewrite app_nil_r.
Qed.

Lemma flush_lines room f : ss_lines (df_session (flush room f).1) = ss_lines (df_session f).
Proof. unfold flush. by destruct (_ || _). Qed.

Lemma currentFile_ok opts env d :
  dumper_ok d ->
  dumper_ok (currentFile opts env d) /\ linesOut (currentFile opts env d) = linesOut d /\
  du_queue (currentFile opts env d) = du_queue d /\
  (te_mkdir env = true -> te_create env = true -> du_current (currentFile opts env d) <> None).
Proof.
  intros Hd. pose proof Hd as [Hc Hf]. unfold currentFile. destruct (du_current d) as [f|] eqn:E.
  - destruct (tooLarge _ _); [|split_and!; [done..|by rewrite E]].
    unfold rotateDumpFiles. cbn beta iota. split_and!.
    + split; cbn.
      * apply Forall_app. split; [done|]. apply Forall_singleton, closed_ok. by apply Hf.
      * intros f'. destruct (te_create env); [|done]. intros [= <-]. apply openDump_holds.
    + rewrite !linesOut_split, E. cbn. rewrite map_app, concat_app. cbn. rewrite app_nil_r, flush_lines.
      destruct (te_create env); cbn; by rewrite app_nil_r.
    + done.
    + by intros _ ->.
  - destruct (te_mkdir env), (te_create env); cbn [andb]; split_and!; try done.
    + split; cbn; [done|]. intros f [= <-]. apply openDump_holds.
    + by rewrite !linesOut_split, E.
Qed.

Lemma processTask_ok opts env l d :
  dumper_ok d ->
  dumper_ok (processTask opts env l d) /\ du_queue (processTask opts env l d) = du_queue d /\
  (linesOut (processTask opts env l d) = linesOut d ++ [l] \/
   linesOut (processTask opts env l d) = linesOut d /\ ~ smooth (Task env)).
Proof.
  intros Hd. unfold processTask. destruct (te_low env) eqn:El.
  { destruct Hd. split_and!; [by split|done|]. right. split; [done|]. cbn. rewrite El. naive_solver. }
  destruct (currentFile_ok opts env d Hd) as ([Hc Hf] & Hlines & Hq & Hnone).
  destruct (currentFile opts env d) as [q cl [f|] dir cmp w stp]; cbn -[linesOut writeLine smooth] in *.
  - destruct (writeLine_holds (te_room env) f l (Hf f eq_refl)) as [Hw Hl]. split_and!; [|done|left].
    + split; [done|]. by intros f' [= <-].
    + rewrite <- Hlines, !linesOut_split. cbn. by rewrite Hl, app_assoc.
  - split_and!; [by split|done|]. right. split; [by rewrite <- Hlines|]. intros (_ & Hm & Hcr). by destruct (Hnone Hm Hcr).
Qed.

Definition queued (ev : event) (d : dumper) : list bytes :=
  match ev with Queue l => if length (du_queue d) <? queueSize then [l] else [] | _ => [] end.

Lemma dumpStep_ok opts ev d :
  dumper_ok d ->
  dumper_ok (dumpStep opts ev d) /\ sublist (out (dumpStep opts ev d)) (out d ++ queued ev d) /\
  (smooth ev -> out (dumpStep opts ev d) = out d ++ queued ev d).
Proof.
  intros Hd. pose proof Hd as [Hc Hf].
  assert (Hsame : forall d', dumper_ok d' -> out d' = out d ++ queued ev d ->
    dumper_ok d' /\ sublist (out d') (out d ++ queued ev d) /\ (smooth ev -> out d' = out d ++ queued ev d))
    by (by intros d' ? ->).
  destruct ev as [l|env|room|name opened ok|room]; cbn [dumpStep]; unfold writeDumpLine, compressFileGzip.
  - cbn [queued] in *. destruct (_ <? queueSize); apply Hsame; try done; [by unfold out; rewrite <- app_assoc|by rewrite app_nil_r].
  - cbn [queued] in *. destruct (du_stopped d); [apply Hsame; [done|by rewrite app_nil_r]|].
    destruct (du_queue d) as [|l q] eqn:Eq; [apply Hsame; [done|by rewrite app_nil_r]|].
    set (d' := MkDumper q _ _ _ _ _ _). assert (Hd' : dumper_ok d') by by split.
    destruct (processTask_ok opts env l d' Hd') as (Hp & Hq & Hl). split; [done|].
    assert (Eo : out d = linesOut d' ++ l :: q) by (unfold out; by rewrite Eq).
    rewrite app_nil_r, Eo. unfold out. rewrite Hq. cbn [du_queue d'].
    destruct Hl as [->|[-> Hns]]; [rewrite <- app_assoc; done|].
    split; [|done]. apply sublist_app; [done|]. by constructor.
  - cbn [queued] in *. destruct (du_stopped d); [apply Hsame; [done|by rewrite app_nil_r]|]. apply Hsame.
    + split; [done|]. cbn. intros f'. destruct (du_current d) as [f|] eqn:E; [|done]. intros [= <-].
      rewrite flush_lines. by apply flush_holds, Hf.
    + unfold out. rewrite app_nil_r, !linesOut_split. cbn. destruct (du_current d); cbn; [by rewrite flush_lines|done].
  - cbn [queued] in *. destruct (bool_decide _); apply Hsame; try done; by rewrite app_nil_r.
  - cbn [queued] in *. destruct (du_stopped d); [apply Hsame; [done|by rewrite app_nil_r]|].
    destruct (du_queue d) as [|l q] eqn:Eq; [|apply Hsame; [done|by rewrite app_nil_r]]. apply Hsame.
    + split; cbn; [|done]. apply Forall_app. split; [done|]. destruct (du_current d) as [f|] eqn:E; [|done].
      by apply Forall_singleton, closed_ok, Hf.
    + unfold out. rewrite app_nil_r, Eq, !linesOut_split. cbn. f_equal. rewrite map_app, concat_app, app_nil_r.
      f_equal. destruct (du_current d); cbn; [by rewrite flush_lines, app_nil_r|done].
Qed.

Lemma dumpRun_ok opts evs : forall d,
  dumper_ok d ->
  dumper_ok (dumpRun opts evs d) /\ sublist (out (dumpRun opts evs d)) (out d ++ accepted opts evs d) /\
  (Forall smooth evs -> out (dumpRun opts evs d) = out d ++ accepted opts evs d).
Proof.
  induction evs as [|ev evs IH]; intros d Hd; [cbn; by rewrite app_nil_r|].
  destruct (dumpStep_ok opts ev d Hd) as (Hd' & Hs & He). destruct (IH _ Hd') as (Hr & Hrs & Hre).
  cbn [accepted]. fold (queued ev d). change (dumpRun opts (ev :: evs) d) with (dumpRun opts evs (dumpStep opts ev d)).
  rewrite app_assoc. split_and!; [done| |].
  - etrans; [exact Hrs|]. by apply sublist_app.
  - intros [Hev Hevs]%Forall_cons. by rewrite (Hre Hevs), (He Hev).
Qed.

(** ** Rotation *)

Lemma selectMin_perm x l : x :: l ≡ₚ (selectMin x l).1 :: (selectMin x l).2.
Proof.
  revert x. induction l as [|y l IH]; intros x; [done|]. cbn [selectMin]. destruct (bytes_ltb y x).
  - specialize (IH y). destruct (selectMin y l) as [m l']. cbn in *. etrans; [by apply Permutation_skip, IH|]. apply Permutation_swap.
  - specialize (IH x). destruct (selectMin x l) as [m l']. cbn in *.
    etrans; [apply Permutation_swap|]. etrans; [by apply Permutation_skip, IH|]. apply Permutation_swap.
Qed.

Lemma selectMin_le x l : Forall (bytes_le (selectMin x l).1) (x :: (selectMin x l).2).
Proof.
  assert (Hrefl : forall a, bytes_le a a) by (intros a; apply bytes_ltb_irrefl).
  revert x. induction l as [|y l IH]; intros x; [by repeat constructor|]. cbn [selectMin].
  destruct (bytes_ltb y x) eqn:E.
  - specialize (IH y). destruct (selectMin y l) as [m l']. cbn in *. apply Forall_cons in IH as [Hy Hl].
    assert (Hx : bytes_le m x).
    { transitivity y; [done|]. unfold bytes_le. destruct (bytes_ltb x y) eqn:E'; [|done].
      by rewrite <- (bytes_ltb_irrefl x), (bytes_ltb_trans _ _ _ E' E). }
    by repeat constructor.
  - specialize (IH x). destruct (selectMin x l) as [m l']. cbn in *. apply Forall_cons in IH as [Hx Hl].
    repeat constructor; try done. by transitivity x.
Qed.

Lemma sortLoop_correct n : forall l, length l <= n -> sortLoop n l ≡ₚ l /\ StronglySorted bytes_le (sortLoop n l).
Proof.
  induction n as [|n IH]; intros [|x l] Hl; try (cbn in *; lia); cbn [sortLoop]; try (split; [done|constructor]).
  pose proof (selectMin_perm x l) as Hp. pose proof (selectMin_le x l) as Hle.
  destruct (selectMin x l) as [m l']. cbn [fst snd] in *.
  pose proof (Permutation_length Hp) as Hn. cbn in Hn, Hl. destruct (IH l' ltac:(lia)) as [Hp' Hs].
  split; [by rewrite Hp', Hp|]. constructor; [done|]. rewrite Hp'. by apply Forall_cons in Hle as [_ ?].
Qed.

Lemma sortStrings_correct l : sortStrings l ≡ₚ l /\ StronglySorted bytes_le (sortStrings l).
Proof. by apply sortLoop_correct. Qed.

(** The dump files of a directory. *)
Definition dumpFiles (dir : list (bytes * bool)) : list bytes :=
  filter (fun n => isDumpFile n = true) (map fst (filter (fun e => e.2 = false) dir)).

Lemma StronglySorted_split {A} (R : A -> A -> Prop) n l :
  StronglySorted R l -> forall x y, x ∈ take n l -> y ∈ drop n l -> R x y.
Proof.
  rewrite <- (take_drop n l) at 1. intros Hs x y Hx Hy.
  eapply StronglySorted_app_1_elem_of; done.
Qed.

Lemma expired_spec n dir :
  (0 < n)%Z ->
  exists kept, dumpFiles dir ≡ₚ expired n dir ++ kept /\ (Z.of_nat (length kept) <= n)%Z /\
    (expired n dir <> [] -> Z.of_nat (length kept) = n) /\
    forall old new, old ∈ expired n dir -> new ∈ kept -> bytes_le old new.
Proof.
  intros Hn. unfold expired. destruct (Z.ltb_spec 0 n); [|lia]. fold (dumpFiles dir).
  destruct (sortStrings_correct (dumpFiles dir)) as [Hp Hs]. set (l := sortStrings (dumpFiles dir)) in *.
  destruct (Z.ltb_spec n (Z.of_nat (length l))).
  - exists (drop (length l - Z.to_nat n) l). rewrite take_drop, length_drop. split_and!; [done|lia|lia|].
    intros old new. by apply StronglySorted_split.
  - exists l. split_and!; [done|lia|done|]. by intros old new ?%elem_of_nil.
Qed.


(** A line written at second 7, with room on the disk unless [low]. *)
Definition sample_env (low : bool) : taskEnv := MkTaskEnv low 7 true true (Some 0%Z) true None.


Lemma dumpFiles_filter (gone : list bytes) dir :
  dumpFiles (filter (fun e => e.1 ∉ gone) dir) = filter (fun n => n ∉ gone) (dumpFiles dir).
Proof.
  unfold dumpFiles. induction dir as [|[n b] dir IH]; [done|].
  assert (Hcons : forall l, filter (fun e : bytes * bool => e.2 = false) ((n, b) :: l) =
    (if b then [] else [(n, b)]) ++ filter (fun e => e.2 = false) l) by by destruct b.
  assert (Hone : forall l, filter (fun n => isDumpFile n = true) (n :: l) =
    (if isDumpFile n then [n] else []) ++ filter (fun n => isDumpFile n = true) l)
    by (intros l; rewrite filter_cons; case_decide as E; [by rewrite E|by destruct (isDumpFile n)]).
  destruct (decide (n ∉ gone)) as [Hg|Hg].
  - rewrite (filter_cons_True _ (n, b)) by done. rewrite !Hcons. destruct b; [done|]. cbn [map app fst].
    rewrite !Hone. destruct (isDumpFile n); [|done]. cbn [app]. by rewrite filter_cons_True, IH.
  - rewrite (filter_cons_False _ (n, b)) by done. rewrite Hcons. destruct b; [done|]. cbn [map app fst].
    rewrite Hone. destruct (isDumpFile n); [|done]. cbn [app]. by rewrite filter_cons_False, IH.
Qed.

Lemma filter_out (gone l : list bytes) : (forall x, x ∈ l -> x ∉ gone) -> filter (fun n => n ∉ gone) l = l.
Proof.
  induction l as [|x l IH]; intros Hl; [done|]. rewrite filter_cons_True by (apply Hl; by left).
  f_equal. apply IH. intros y Hy. apply Hl. by right.
Qed.

Lemma filter_gone (gone l : list bytes) : l ⊆ gone -> filter (fun n => n ∉ gone) l = [].
Proof.
  induction l as [|x l IH]; intros Hl; [done|]. rewrite filter_cons_False by (intros Hx; apply Hx, Hl; by left).
  apply IH. set_solver.
Qed.

Lemma dumpFiles_NoDup dir : NoDup (map fst dir) -> NoDup (dumpFiles dir).
Proof.
  intros H. apply NoDup_filter. induction dir as [|[n b] dir IH]; [constructor|].
  cbn in H. apply NoDup_cons in H as [Hn Hd]. destruct b.
  - rewrite filter_cons_False by done. by apply IH.
  - rewrite filter_cons_True by done. cbn. apply NoDup_cons. split; [|by apply IH].
    intros [[n' b'] [-> [_ Hin]%list_elem_of_filter]]%list_elem_of_fmap. apply Hn. by apply (list_elem_of_fmap_2 fst _ (n', b')).
Qed.

(** Rotation keeps the last dump files in the order of their names, which hold
    the time they were opened: no more of them than the backups the operator
    asked for, none that comes before a removed one, and every other file. *)
Theorem dump_rotation opts name dir compressing :
  (0 < do_MaxBackups opts)%Z -> NoDup (map fst dir) ->
  let dir' := (rotateDumpFiles opts true name dir compressing).1 in
  (Z.of_nat (length (dumpFiles dir')) = Z.min (Z.of_nat (length (dumpFiles dir))) (do_MaxBackups opts)) /\
  (forall old new, old ∈ dumpFiles dir -> old ∉ dumpFiles dir' -> new ∈ dumpFiles dir' -> bytes_le old new) /\
  (forall e, e ∈ dir -> e.1 ∉ dumpFiles dir -> e ∈ dir').
Proof.
  intros Hn Hd dir'. unfold dir', rotateDumpFiles. cbn [fst].
  destruct (expired_spec (do_MaxBackups opts) dir Hn) as (kept & Hp & Hlen & Hall & Hle).
  pose proof (dumpFiles_NoDup _ Hd) as Hnd. rewrite Hp in Hnd. apply NoDup_app in Hnd as (_ & Hdis & _).
  rewrite dumpFiles_filter.
  set (gone := expired _ _) in *.
  assert (Hk : filter (fun n => n ∉ gone) (dumpFiles dir) ≡ₚ kept).
  { rewrite Hp, filter_app, (filter_gone gone gone), filter_out; [done| |done]. intros x Hx Hg. by apply (Hdis x). }
  split_and!.
  - rewrite Hk, Hp, length_app. destruct (decide (gone = [])) as [E|E]; [rewrite E; cbn; lia|]. pose proof (Hall E). lia.
  - intros old new Ho Hno Hnew. rewrite Hk in Hno, Hnew. apply Hle; [|done]. rewrite Hp in Ho. set_solver.
  - intros e He Hne. apply list_elem_of_filter. split; [|done]. intros Hg. apply Hne. rewrite Hp. set_solver.
Qed.

Lemma dump_rotation_witness :
  let opts := MkDumpOptions 1 1 false in
  let dir := [(str "dump_1.jsonl", false); (str "dump_2.jsonl", false); (str "notes.txt", false)] in
  (0 < do_MaxBackups opts)%Z /\ NoDup (map fst dir) /\
  length (dumpFiles (rotateDumpFiles opts true (str "dump_2.jsonl") dir []).1) = 1.
Proof.
  intros opts dir.
  assert (Hb : (0 < do_MaxBackups opts)%Z) by done.
  assert (Hd : NoDup (map fst dir)) by (apply (bool_decide_unpack _); vm_compute; exact I).
  split_and!; [exact Hb|exact Hd|].
  apply Nat2Z.inj. rewrite (proj1 (dump_rotation opts (str "dump_2.jsonl") dir [] Hb Hd)). reflexivity.
Defined.

(** ** The first record creates the dumper

    [initDumper] checks the shared pointer, and again with the lock: however
    the handlers interleave, one dumper is created, with the options of the
    handler that created it. *)

Inductive initPC {O : Type} :=
| InitCheck (opts : O)            (* in front of the first check *)
| InitLock (opts : O)
| InitRecheck (opts : O)
| InitCreate (opts : O)
| InitStore (opts : O)            (* the goroutine of the new dumper runs *)
| InitUnlock
| InitDone.
Arguments initPC : clear implicits.

(** The pointer, the holder of the lock and the dumpers that were created, by
    their options. *)
Record initState (O : Type) := MkInit {
  in_global : option O;
  in_lock : option nat;
  in_created : list O;
  in_threads : gmap nat (initPC O);
}.
Arguments MkInit {O}.
Arguments in_global {O}.
Arguments in_lock {O}.
Arguments in_created {O}.
Arguments in_threads {O}.

Inductive init_step {O} : initState O -> initState O -> Prop :=
| init_call s t opts : in_threads s !! t = None ->
    init_step s (MkInit (in_global s) (in_lock s) (in_created s) (<[t := InitCheck opts]> (in_threads s)))
| init_check s t opts : in_threads s !! t = Some (InitCheck opts) ->
    init_step s (MkInit (in_global s) (in_lock s) (in_created s)
      (<[t := match in_global s with Some _ => InitDone | None => InitLock opts end]> (in_threads s)))
| init_lock s t opts : in_threads s !! t = Some (InitLock opts) -> in_lock s = None ->
    init_step s (MkInit (in_global s) (Some t) (in_created s) (<[t := InitRecheck opts]> (in_threads s)))
| init_recheck s t opts : in_threads s !! t = Some (InitRecheck opts) ->
    init_step s (MkInit (in_global s) (in_lock s) (in_created s)
      (<[t := match in_global s with Some _ => InitUnlock | None => InitCreate opts end]> (in_threads s)))
| init_create s t opts : in_threads s !! t = Some (InitCreate opts) ->
    init_step s (MkInit (in_global s) (in_lock s) (in_created s ++ [opts]) (<[t := InitStore opts]> (in_threads s)))
| init_store s t opts : in_threads s !! t = Some (InitStore opts) ->
    init_step s (MkInit (Some opts) (in_lock s) (in_created s) (<[t := InitUnlock]> (in_threads s)))
| init_unlock s t : in_threads s !! t = Some InitUnlock ->
    init_step s (MkInit (in_global s) None (in_created s) (<[t := InitDone]> (in_threads s))).

(** What a thread knows: who holds the lock, and what was created under it. *)
Definition init_thread_ok {O} (s : initState O) (t : nat) (pc : initPC O) : Prop :=
  match pc with
  | InitCheck _ | InitLock _ => True
  | InitRecheck _ => in_lock s = Some t /\ in_created s = option_list (in_global s)
  | InitCreate _ => in_lock s = Some t /\ in_global s = None /\ in_created s = []
  | InitStore opts => in_lock s = Some t /\ in_global s = None /\ in_created s = [opts]
  | InitUnlock => in_lock s = Some t /\ in_created s = option_list (in_global s) /\ is_Some (in_global s)
  | InitDone => in_global s <> None
  end.

Definition init_ok {O} (s : initState O) : Prop :=
  length (in_created s) <= 1 /\ (in_lock s = None -> in_created s = option_list (in_global s)) /\
  map_Forall (init_thread_ok s) (in_threads s).

(** One thread moves: what it knows afterwards, and what the others still
    know. *)
Lemma init_threads_ok {O} (s s' : initState O) t pc :
  map_Forall (init_thread_ok s) (in_threads s) -> in_threads s' = <[t := pc]> (in_threads s) ->
  init_thread_ok s' t pc -> (forall t' pc', t' <> t -> init_thread_ok s t' pc' -> init_thread_ok s' t' pc') ->
  map_Forall (init_thread_ok s') (in_threads s').
Proof.
  intros Ht Heq Hme Hother t' pc' Hl. rewrite Heq in Hl. destruct (decide (t' = t)) as [->|Hne].
  - rewrite lookup_insert_eq in Hl. by injection Hl as <-.
  - rewrite lookup_insert_ne in Hl by done. by apply Hother, Ht.
Qed.

Lemma init_step_ok {O} (s s' : initState O) : init_ok s -> init_step s s' -> init_ok s'.
Proof.
  intros (Hc & Hl & Ht) Hstep. unfold init_ok.
  destruct Hstep as [s t opts Hn|s t opts Hn|s t opts Hn Hk|s t opts Hn|s t opts Hn|s t opts Hn|s t Hn];
    try (pose proof (Ht _ _ Hn) as Hme; cbn in Hme); cbn [in_created in_lock in_global].
  - split_and!; [done|done|]. by eapply (init_threads_ok s _ t).
  - split_and!; [done|done|]. eapply (init_threads_ok s _ t); [done|done| |done]. by destruct (in_global s) eqn:E; cbn; rewrite ?E.
  - split_and!; [done|done|]. eapply (init_threads_ok s _ t); [done|done|by cbn; auto|].
    intros t' [] Hne; cbn; rewrite ?Hk; naive_solver.
  - destruct Hme as [Hlock Hcr]. split_and!; [done|done|]. eapply (init_threads_ok s _ t); [done|done| |done].
    destruct (in_global s) eqn:E; cbn in *; rewrite ?E; eauto.
  - destruct Hme as (Hlock & Hg & Hcr). rewrite Hcr. split_and!; [done|by rewrite Hlock|].
    eapply (init_threads_ok s _ t); [done|done|done|]. intros t' [] Hne; cbn; rewrite ?Hlock; naive_solver.
  - destruct Hme as (Hlock & Hg & Hcr). split_and!; [done|by rewrite Hlock|].
    eapply (init_threads_ok s _ t); [done|done|by cbn; eauto|]. intros t' [] Hne; cbn; rewrite ?Hlock; naive_solver.
  - destruct Hme as (Hlock & Hcr & Hg). split_and!; [done|done|].
    eapply (init_threads_ok s _ t); [done|done|by destruct Hg as [? Hg]; cbn; rewrite Hg|].
    intros t' [] Hne; cbn; rewrite ?Hlock; naive_solver.
Qed.

(** However the calls interleave, at most one dumper is created, and a call
    that has returned finds it in the pointer. *)
Theorem dumper_created_once {O} (s : initState O) t :
  rtc init_step (MkInit None None [] ∅) s ->
  length (in_created s) <= 1 /\ (in_threads s !! t = Some InitDone -> exists opts, in_global s = Some opts).
Proof.
  intros Hs. assert (Hok : init_ok s).
  { eapply (rtc_ind_l (fun s0 => init_ok s0 -> init_ok s) s); [done| |exact Hs|].
    - intros x y Hxy _ IH Hx. by eapply IH, init_step_ok.
    - split_and!; [cbn; lia|done|]. apply map_Forall_empty. }
  destruct Hok as (Hc & _ & Ht). split; [done|]. intros Hd. specialize (Ht _ _ Hd). cbn in Ht.
  destruct (in_global s); [eauto|done].
Qed.
