(* ===== verification/Runtime.v ===== *)
(** * Start-up and reload (main.go, the setters of proxy/server.go)

    [applyRuntimeConfig] builds everything the handlers read from a
    configuration and stores it in the server, at start-up and at each SIGHUP.
    It has effects before it knows whether the configuration is good: it is
    modelled with the state it leaves behind when it returns an error. *)

From S2P Require Import Prelude DList Lru GoStrings GoConv GoRegexp GoUrl GoPath ListLoader GoNetip Dns GoMime DomainTrie DomainRules Http Access Schedule TimeBands UpstreamPool Limiter PolicyRules UrlRules Policy PolicyTheorems Rules Framing SemanticFilter FilterEngine Antivirus MaskingFilter BodyFilters Config ContentFilter AuditScope Relay Exchange Upstream.

Section runtime.
Context `{UnicodeTables} `{ContentSniffer} `{Regexp} `{PrefixTable} `{Limiter.Weighted} {rate : Type}.

(** ** The state *)

(** A log file in use: its path, and the handler that writes to it. *)
Record logSink := MkSink { lk_path : bytes; lk_handler : option nat }.

Record logSinks := MkSinks {
  lk_access : logSink;
  lk_alert : logSink;
  lk_next : nat;
  lk_closing : list nat;    (* handlers that a timer will close *)
}.

(** What the setters of the server store. *)
Record runtime := MkRuntime {
  rt_addr : bytes;
  rt_http3Enabled : bool;
  rt_waitTimeout : Z;
  rt_certWorkers : Z;
  rt_limiter : limiterState;
  rt_bypass : option domainTrie;
  rt_grey : option (domainTrie * table bool);
  rt_breakers : bool * Z * Z;
  rt_dns : DNSResolver;
  rt_pool : option upstreamConnPool;
  rt_closed : list nat;     (* pooled connections that were closed *)
  rt_relay : Options;
  rt_policy : option Policy;
  rt_access : AccessRules;
  rt_schedules : ScheduleRules;
  rt_rates : @lru rate;
  rt_sinks : logSinks;
}.

Definition setLimits wait workers lim (rt : runtime) : runtime :=
  MkRuntime (rt_addr rt) (rt_http3Enabled rt) wait workers lim (rt_bypass rt) (rt_grey rt) (rt_breakers rt) (rt_dns rt)
    (rt_pool rt) (rt_closed rt) (rt_relay rt) (rt_policy rt) (rt_access rt) (rt_schedules rt) (rt_rates rt) (rt_sinks rt).

Definition setUpstream bypass grey breakers dns pool closed (rt : runtime) : runtime :=
  MkRuntime (rt_addr rt) (rt_http3Enabled rt) (rt_waitTimeout rt) (rt_certWorkers rt) (rt_limiter rt) bypass grey breakers dns
    pool closed (rt_relay rt) (rt_policy rt) (rt_access rt) (rt_schedules rt) (rt_rates rt) (rt_sinks rt).

Definition setRules relay policy access schedules rates sinks (rt : runtime) : runtime :=
  MkRuntime (rt_addr rt) (rt_http3Enabled rt) (rt_waitTimeout rt) (rt_certWorkers rt) (rt_limiter rt) (rt_bypass rt)
    (rt_grey rt) (rt_breakers rt) (rt_dns rt) (rt_pool rt) (rt_closed rt) relay policy access schedules rates sinks.

(** ** Setters *)

Definition SetWaitTimeout (timeout : Z) (rt : runtime) : runtime :=
  setLimits timeout (rt_certWorkers rt) (rt_limiter rt) rt.

(** The number is an [int32]. *)
Definition SetCertWorkers (n : Z) (rt : runtime) : runtime :=
  setLimits (rt_waitTimeout rt) (wrapS 32 n) (rt_limiter rt) rt.

Definition SetMaxConns (max : Z) (rt : runtime) : runtime :=
  setLimits (rt_waitTimeout rt) (rt_certWorkers rt) (SetMaxConnections max (rt_limiter rt)) rt.

Definition SetProfileMaxConns (profiles : list AccessProfile) (rt : runtime) : runtime :=
  setLimits (rt_waitTimeout rt) (rt_certWorkers rt) (SetProfileMaxConnections profiles (rt_limiter rt)) rt.

Definition SetMITMBypass (hosts : list bytes) (rt : runtime) : runtime :=
  setUpstream (Some (fold_left (fun t host => Add t (TrimPrefix host (str "*."))) hosts emptyTrie))
    (rt_grey rt) (rt_breakers rt) (rt_dns rt) (rt_pool rt) (rt_closed rt) rt.

Definition SetGreySSLRules (sites : domainTrie) (ips : table bool) (rt : runtime) : runtime :=
  setUpstream (rt_bypass rt) (Some (sites, ips)) (rt_breakers rt) (rt_dns rt) (rt_pool rt) (rt_closed rt) rt.

Definition SetCircuitBreaker (enabled : bool) (failures timeout : Z) (rt : runtime) : runtime :=
  setUpstream (rt_bypass rt) (rt_grey rt) (enabled, failures, timeout) (rt_dns rt) (rt_pool rt) (rt_closed rt) rt.

Definition SetDNSResolver (enabled : bool) (ttl : Z) (rt : runtime) : runtime :=
  setUpstream (rt_bypass rt) (rt_grey rt) (rt_breakers rt) (NewDNSResolver enabled ttl) (rt_pool rt) (rt_closed rt) rt.

Definition SetUpstreamPool (cfg : UpstreamPoolConfig) (rt : runtime) : runtime :=
  let '(_, closed) := closeIdle (rt_pool rt) in
  setUpstream (rt_bypass rt) (rt_grey rt) (rt_breakers rt) (rt_dns rt) (newUpstreamConnPool cfg) (rt_closed rt ++ closed) rt.

Definition withPolicy (o : Options) (p : option Policy) : Options :=
  MkOptions (op_scoped o) (op_LogBodiesSampleRate o) (op_MaxCaptureBytes o) (op_DumpOnPolicyHit o)
    (op_DumpCredentialsCleartext o) (op_AuditKey o) (op_DumpMaxSizeMB o) (op_DumpMaxBackups o)
    (op_DumpMinFreeSpaceMB o) (op_DumpCompress o) (op_IOTimeout o) (op_WSIdleTimeout o) p
    (op_AuditScope o) (op_NoneModeTunnel o) (op_RoundTripH2 o) (op_H2Hosts o) (op_HTTP3Enabled o) (op_HTTP3Port o)
    (op_AccessLogger o) (op_AlertLogger o) (op_AlertCategories o).

Definition withHTTP3 (o : Options) (enabled : bool) (port : bytes) : Options :=
  MkOptions (op_scoped o) (op_LogBodiesSampleRate o) (op_MaxCaptureBytes o) (op_DumpOnPolicyHit o)
    (op_DumpCredentialsCleartext o) (op_AuditKey o) (op_DumpMaxSizeMB o) (op_DumpMaxBackups o)
    (op_DumpMinFreeSpaceMB o) (op_DumpCompress o) (op_IOTimeout o) (op_WSIdleTimeout o) (op_Policy o)
    (op_AuditScope o) (op_NoneModeTunnel o) (op_RoundTripH2 o) (op_H2Hosts o) enabled port
    (op_AccessLogger o) (op_AlertLogger o) (op_AlertCategories o).

Definition storeRelay (o : Options) (rt : runtime) : runtime :=
  setRules o (rt_policy rt) (rt_access rt) (rt_schedules rt) (rt_rates rt) (rt_sinks rt) rt.

Definition relayPort (rt : runtime) : bytes :=
  match SplitHostPort (rt_addr rt) with
  | Some (_, port) => if bytes_eqb port [] then str "443" else port
  | None => str "443"
  end.

(** Options without a policy get the current one. *)
Definition SetRelayOptions (o : Options) (rt : runtime) : runtime :=
  let o := match op_Policy o with Some _ => o | None => withPolicy o (rt_policy rt) end in
  storeRelay (withHTTP3 o (rt_http3Enabled rt) (relayPort rt)) rt.

Definition setHTTP3 (enabled : bool) (rt : runtime) : runtime :=
  MkRuntime (rt_addr rt) enabled (rt_waitTimeout rt) (rt_certWorkers rt) (rt_limiter rt) (rt_bypass rt) (rt_grey rt)
    (rt_breakers rt) (rt_dns rt) (rt_pool rt) (rt_closed rt) (rt_relay rt) (rt_policy rt) (rt_access rt) (rt_schedules rt)
    (rt_rates rt) (rt_sinks rt).

Definition SetHTTP3Enabled (enabled : bool) (rt : runtime) : runtime :=
  storeRelay (withHTTP3 (rt_relay rt) enabled (relayPort rt)) (setHTTP3 enabled rt).

Definition updateRelayPolicy (p : option Policy) (rt : runtime) : runtime :=
  storeRelay (withPolicy (rt_relay rt) p) rt.

Definition storePolicy (p : option Policy) (rt : runtime) : runtime :=
  setRules (rt_relay rt) p (rt_access rt) (rt_schedules rt) (rt_rates rt) (rt_sinks rt) rt.

(** [policy] is not nil. *)
Definition SetPolicy (p : Policy) (rt : runtime) : runtime := updateRelayPolicy (Some p) (storePolicy (Some p) rt).

Definition SetAccessRules (r : AccessRules) (rt : runtime) : runtime :=
  setRules (rt_relay rt) (rt_policy rt) r (rt_schedules rt) (rt_rates rt) (rt_sinks rt) rt.

Definition SetScheduleRules (r : ScheduleRules) (rt : runtime) : runtime :=
  setRules (rt_relay rt) (rt_policy rt) (rt_access rt) r (rt_rates rt) (rt_sinks rt) rt.

Definition ResetIPRateLimiter (rt : runtime) : runtime :=
  setRules (rt_relay rt) (rt_policy rt) (rt_access rt) (rt_schedules rt) (reset (rt_rates rt)) (rt_sinks rt) rt.

(** *** A new server *)

Definition defaultAddr : bytes := str "127.0.0.1:8080".

(** [RelayOptions] with what [NewServer] sets, and zero values. *)
Definition defaultOptions : Options :=
  MkOptions (MkRelayOptions true [] NoFilter NoFilter None) (f64 0 0) (2 ^ 20) false false [] 0 0 0 false
    (30 * 1000000000) 0 None false false false false false [] false false ∅.

Definition orDefault {E A} (r : result E A) (a : A) : A := match r with Ok a => a | Err _ => a end.

(** The constructors cannot fail on empty configurations. *)
Definition NewServer (addr : bytes) : runtime :=
  let addr := if bytes_eqb addr [] then defaultAddr else addr in
  let policy := match NewPolicy (policyOf (MkRules (fun _ => []) (fun _ => []) (fun _ => []) [] [] [] [])) with
                | Ok p => Some p
                | Err _ => None
                end in
  let access := orDefault (NewAccessRules []) emptyRules in
  let schedules := orDefault (NewScheduleRules []) (MkScheduleRules ∅) in
  let rt := MkRuntime addr false 0 0 limiter0 None None (true, 5, 30 * 1000000000)%Z
              (NewDNSResolver false (60 * 1000000000)) None [] defaultOptions policy access schedules
              (newLRUCache (Z.to_nat 16384)) (MkSinks (MkSink [] None) (MkSink [] None) 0 []) in
  let rt := SetWaitTimeout (250 * 1000000) rt in
  let rt := SetCertWorkers 4 rt in
  let rt := SetUpstreamPool (MkPoolConfig 32 (90 * 1000000000)) rt in
  SetMaxConns 1024 rt.

(** What a handler reads: one snapshot per request. *)
Definition serverOf (logger certs upstream h2Upstream : bool) (now : clock) (rt : runtime) : Server :=
  MkServer (rt_addr rt) logger certs upstream h2Upstream (rt_relay rt) (rt_policy rt) (Some (rt_access rt))
    (Some (rt_schedules rt)) now (rt_bypass rt) (fst <$> rt_grey rt) (snd <$> rt_grey rt)
    (Some (rt_breakers rt).1.1) true (rt_http3Enabled rt).

(** ** The configuration *)

Inductive applyError :=
| ApplyRequestRegex (e : configError)
| ApplyRules (e : rulesError)
| ApplySink (path : bytes)
| ApplyPhrases (e : phraseError)
| ApplySubstitution (e : substitutionError)
| ApplyNoCheckIPs (entry : bytes)
| ApplyGreyIPs (entry : bytes)
| ApplyLogPhrases (e : phraseError)
| ApplyPolicy (e : policyError)
| ApplyAccess (e : accessError)
| ApplySchedules (e : scheduleError).

(** State and errors: a step that fails leaves the state it reached. *)
Definition apply (A : Type) : Type := runtime -> runtime * result applyError A.
#[global] Instance apply_ret : MRet apply := fun A a rt => (rt, Ok a).
#[global] Instance apply_bind : MBind apply := fun A B f m rt =>
  let '(rt, r) := m rt in match r with Ok a => f a rt | Err e => (rt, Err e) end.

Definition try {E A} (wrap : E -> applyError) (r : result E A) : apply A := fun rt =>
  (rt, match r with Ok a => Ok a | Err e => Err (wrap e) end).
Definition store (f : runtime -> runtime) : apply unit := fun rt => (f rt, Ok tt).

(** The part of the configuration the rule files read. *)
Definition rulesOf (cfg : appConfig) : rulesConfig :=
  MkRulesConfig (c_ConfigPath cfg) (c_IncludeDirs cfg)
    (fun l => match l with
              | SemanticPhrases => c_SemanticPhrases cfg
              | SemanticExceptionPhrases => c_SemanticExceptionPhrases cfg
              | LogPhrases => c_LogPhrases cfg
              | ExceptionLogPhrases => c_ExceptionLogPhrases cfg
              | BannedClients => c_BannedClients cfg
              | ExceptionClients => c_ExceptionClients cfg
              | FilterGroups => c_FilterGroups cfg
              | NoCheckCertSites => c_NoCheckCertSites cfg
              | NoCheckCertSiteIPs => c_NoCheckCertSiteIPs cfg
              | GreySSLSites => c_GreySSLSites cfg
              | GreySSLSiteIPs => c_GreySSLSiteIPs cfg
              | AlertCategories => c_AlertCategories cfg
              end)
    (c_SemanticWeighted cfg) (c_SemanticWeightedExceptions cfg) (c_IPGroupMappings cfg) (c_ScheduleWindows cfg)
    (c_AccessProfiles cfg).

(** ** Log sinks *)

(** The handler that writes to [path]; [opens]: the file can be opened. *)
Definition setupSink (opens : bytes -> bool) (path : bytes) (sink : logSink) (next : nat) (closing : list nat)
    : result bytes (logSink * nat) * list nat :=
  if bytes_eqb path (lk_path sink) then (Ok (sink, next), closing)
  else
    let closing := match lk_handler sink with Some h => closing ++ [h] | None => closing end in
    if bytes_eqb path [] then (Ok (MkSink [] None, next), closing)
    else if opens path then (Ok (MkSink path (Some next), S next), closing)
    else (Err path, closing).

Definition setupLoggerSinks (opens : bytes -> bool) (cfg : appConfig) : apply unit := fun rt =>
  let k := rt_sinks rt in
  let setSinks k := setRules (rt_relay rt) (rt_policy rt) (rt_access rt) (rt_schedules rt) (rt_rates rt) k rt in
  let '(access, closing) := setupSink opens (c_AccessLog cfg) (lk_access k) (lk_next k) (lk_closing k) in
  match access with
  | Err path => (setSinks (MkSinks (lk_access k) (lk_alert k) (lk_next k) closing), Err (ApplySink path))
  | Ok (access, next) =>
      let '(alert, closing) := setupSink opens (c_AlertLog cfg) (lk_alert k) next closing in
      match alert with
      | Err path => (setSinks (MkSinks access (lk_alert k) next closing), Err (ApplySink path))
      | Ok (alert, next) => (setSinks (MkSinks access alert next closing), Ok tt)
      end
  end.

(** ** Filters *)

Definition normalizeWeightedKey (phrase : bytes) : bytes := ToLower (TrimSpace phrase).

(** The weighted phrases without the excepted ones. *)
Definition weightedPhrases (weighted exceptions : list SemanticPhraseConfig) : list WeightedPhrase :=
  let excluded := map (fun p => normalizeWeightedKey (sp_Phrase p)) exceptions in
  map (fun p => MkWeightedPhrase (sp_Phrase p) (sp_Weight p))
    (filter (fun p => normalizeWeightedKey (sp_Phrase p) ∉ excluded) weighted).

(** A later rule for the same text replaces an earlier one; [order] is the
    iteration of the map. *)
Definition substitutionRules (order : gmap bytes bytes -> list (bytes * bytes)) (rules : list SubstitutionConfig)
    : list (bytes * bytes) :=
  order (fold_left (fun m r => <[su_Search r := su_Replace r]> m) rules ∅).

Definition regexRulesOf (rules : list RegexSubstitutionConfig) : list RegexSubstitutionRule :=
  map (fun r => MkRegexSubstitutionRule (ListLoader.rs_Pattern r) (ListLoader.rs_Replace r)
                  (ListLoader.rs_MaxWindowBytes r) (ListLoader.rs_Source r)) rules.

Definition lengthPreserved (f : SubstitutionFilter) : SubstitutionFilter :=
  MkSubstitutionFilter (sf_rules f) (sf_regexRules f) true.

(** ** The whole of it *)

(** What a reload meets: the files, the capacities of slices, the log files
    that can be opened, and the order of map iterations. *)
Record world := MkWorld {
  w_fs : fileSystem;
  w_spare : nat -> nat;
  w_opens : bytes -> bool;
  w_order : gmap bytes bytes -> list (bytes * bytes);
}.

(** What of the result is not stored in the server: the matchers of hosts
    whose certificate is not checked. *)
Record insecure := MkInsecure { in_sites : domainTrie; in_ips : table bool }.

Definition relayOptionsOf (cfg : appConfig) (lists : configList -> list bytes) (filter : ContentFilter)
    (request : SubstitutionFilter) (policy : Policy) (scope : AuditScope) (sinks : logSinks) : Options :=
  MkOptions (MkRelayOptions (c_LogBodies cfg) (c_DumpDir cfg) (Content filter) (Content filter) (Some request))
    (c_LogBodiesSampleRate cfg) (c_MaxCaptureBytes cfg) (c_DumpOnPolicyHit cfg) (c_DumpCredentialsCleartext cfg)
    (c_AuditKey cfg) (c_DumpMaxSizeMB cfg) (c_DumpMaxBackups cfg) (c_DumpMinFreeSpaceMB cfg) (c_DumpCompress cfg)
    (c_IOTimeout cfg) (c_WSIdleTimeout cfg) (Some policy) true
    (bytes_eqb (NoneMode (Some scope)) (str "tunnel")) false false false []
    (bool_decide (is_Some (lk_handler (lk_access sinks)))) (bool_decide (is_Some (lk_handler (lk_alert sinks))))
    (list_to_set (lists AlertCategories)).

Definition auditScopeOf (cfg : appConfig) : AuditScope :=
  NewAuditScope (MkAuditScopeConfig (c_AuditScopeEnabled cfg) (c_AuditScopeRoots cfg) (c_AuditScopeDependencyTTL cfg)
    (c_AuditScopeMaxDependencies cfg) (c_AuditScopeNoneMode cfg) (c_AuditScopeDependencyMutations cfg)).

(** What is built before the server is touched, but for the grey lists. *)
Record built := MkBuilt {
  b_rules : rulesConfig;
  b_filter : ContentFilter;
  b_request : SubstitutionFilter;
  b_insecure : insecure;
  b_policy : Policy;
}.

(** A scanner is configured when the antivirus is enabled, whatever its
    address: a nil [*ClamAVScanner] is not a nil interface. *)
Definition buildAll (w : world) (cfg : appConfig) : apply built :=
  _ ← try ApplyRequestRegex (validateRequestRegexSubstitutionSafety (c_RegexRequestSubstitutions cfg));
  '(policyConfig, rc) ← try ApplyRules (loadRulePolicy (w_fs w) (w_spare w) (rulesOf cfg));
  _ ← setupLoggerSinks (w_opens w) cfg;
  semantic ← try ApplyPhrases (NewPhraseFilterWithExceptions (rc_lists rc SemanticPhrases)
    (weightedPhrases (rc_SemanticWeighted rc) (rc_SemanticWeightedExceptions rc))
    (rc_lists rc SemanticExceptionPhrases) (c_SemanticThreshold cfg));
  let masking := NewMaskingFilter (c_MaskingPhrases cfg) in
  let magic := NewMagicFilter (c_MagicBlockedTypes cfg) in
  substitution ← try ApplySubstitution (NewSubstitutionFilterWithRegex
    (substitutionRules (w_order w) (c_Substitutions cfg)) (regexRulesOf (c_RegexSubstitutions cfg)));
  request ← try ApplySubstitution (NewSubstitutionFilterWithRegex
    (substitutionRules (w_order w) (c_RequestSubstitutions cfg)) (regexRulesOf (c_RegexRequestSubstitutions cfg)));
  noCheckIPs ← try ApplyNoCheckIPs (NewIPMatcher (rc_lists rc NoCheckCertSiteIPs));
  greyIPs ← try ApplyGreyIPs (NewIPMatcher (rc_lists rc GreySSLSiteIPs));
  _ ← store (SetGreySSLRules (NewDomainMatcher (rc_lists rc GreySSLSites)) greyIPs);
  logPhrases ← try ApplyLogPhrases (NewPhraseFilterWithExceptions (rc_lists rc LogPhrases) []
    (rc_lists rc ExceptionLogPhrases) 0);
  let filter := WithLogSemantic (NewContentFilter (Some semantic) (Some masking) (Some (c_HTMLBanner cfg)) magic
    (Some substitution) (c_AntivirusEnabled cfg)) (Some logPhrases) in
  policy ← try ApplyPolicy (NewPolicy policyConfig);
  mret (MkBuilt rc filter (lengthPreserved request) (MkInsecure (NewDomainMatcher (rc_lists rc NoCheckCertSites)) noCheckIPs)
    policy).

(** The settings, the filters and the policy. *)
Definition installPolicy (cfg : appConfig) (b : built) (rt : runtime) : runtime :=
  let rt := SetWaitTimeout (c_WaitTimeout cfg) rt in
  let rt := SetCertWorkers (c_CertWorkers cfg) rt in
  let rt := SetMaxConns (c_MaxConnections cfg) rt in
  let rt := SetMITMBypass (c_MITMBypassHosts cfg) rt in
  let rt := SetCircuitBreaker (c_CircuitBreakerEnabled cfg) (c_CircuitBreakerFailures cfg) (c_CircuitBreakerTimeout cfg) rt in
  let rt := SetDNSResolver (c_DNSCacheEnabled cfg) (c_DNSCacheTTL cfg) rt in
  let rt := SetUpstreamPool (MkPoolConfig (c_UpstreamMaxIdlePerHost cfg) (c_UpstreamIdleTimeout cfg)) rt in
  let rt := SetRelayOptions (relayOptionsOf cfg (rc_lists (b_rules b)) (b_filter b) (b_request b) (b_policy b)
              (auditScopeOf cfg) (rt_sinks rt)) rt in
  SetPolicy (b_policy b) rt.

(** [NewAccessRules], [SetBanned] and [SetExceptions]. *)
Definition accessRulesOf (profiles : list AccessProfile) (banned exceptions : list bytes) : result accessError AccessRules :=
  r ← NewAccessRules profiles;
  let '(r, e) := SetBanned r banned in
  match e with
  | Some e => Err e
  | None => let '(r, e) := SetExceptions r exceptions in match e with Some e => Err e | None => Ok r end
  end.

Definition applyRuntimeConfig (w : world) (cfg : appConfig) : apply insecure :=
  b ← buildAll w cfg;
  _ ← store (installPolicy cfg b);
  let profiles := rc_AccessProfiles (b_rules b) in
  access ← try ApplyAccess (accessRulesOf profiles (rc_lists (b_rules b) BannedClients) (rc_lists (b_rules b) ExceptionClients));
  _ ← store (SetAccessRules access);
  _ ← store (SetProfileMaxConns profiles);
  _ ← store ResetIPRateLimiter;
  schedules ← try ApplySchedules (NewScheduleRules (rc_ScheduleWindows (b_rules b)));
  _ ← store (SetScheduleRules schedules);
  mret (b_insecure b).

(** What [main] does with a server before it serves. *)
Definition startServer (w : world) (cfg : appConfig) : runtime * result applyError insecure :=
  let rt := NewServer (c_ListenAddr cfg) in
  let rt := SetMaxConns (c_MaxConnections cfg) rt in
  let rt := SetHTTP3Enabled (c_HTTP3Enabled cfg) rt in
  let rt := SetUpstreamPool (MkPoolConfig (c_UpstreamMaxIdlePerHost cfg) (c_UpstreamIdleTimeout cfg)) rt in
  applyRuntimeConfig w cfg rt.

(** ** Reloads *)

(** The server, and [currentConfig] with its matchers. *)
Record process := MkProcess { p_runtime : runtime; p_config : appConfig; p_insecure : insecure }.

(** A SIGHUP: [parseConfig], then [applyRuntimeConfig]; [currentConfig] is
    only replaced when both succeed. *)
Definition reload {E} (w : world) (parsed : result E appConfig) (p : process) : process :=
  match parsed with
  | Err _ => p
  | Ok cfg =>
      let '(rt, r) := applyRuntimeConfig w cfg (p_runtime p) in
      match r with
      | Ok ins => MkProcess rt cfg ins
      | Err _ => MkProcess rt (p_config p) (p_insecure p)
      end
  end.

(** [insecureFunc]: the certificate of an upstream is not checked. *)
Definition skipsVerification (ins : insecure) (address serverName : bytes) : bool :=
  DomainMatcher_Match (Some (in_sites ins)) serverName ||
  let hostStr := match SplitHostPort address with Some (h, _) => h | None => address end in
  match ParseAddr hostStr with Some addr => IPMatcher_Match (Some (in_ips ins)) addr | None => false end.

(** The answer of /readyz. *)
Definition readyz (reloading shuttingDown saturated : bool) : Z * bytes :=
  if reloading then (503%Z, str "Config reload in progress")
  else if shuttingDown then (503%Z, str "Shutting down")
  else if saturated then (503%Z, str "Connection pool saturated")
  else (200%Z, str "OK").

(** ** Certificates ahead of time *)

Definition certQueueSize : nat := 4096.

(** A host is queued for the workers, or dropped when the queue is full. *)
Definition preGenerateCert (queue : list bytes) (host : bytes) : list bytes * bool :=
  if length queue <? certQueueSize then (queue ++ [host], true) else (queue, false).

(** The loop of [PrewarmCertificates]: the queue, the hosts seen and the
    number that was queued. *)
Fixpoint prewarmLoop (hosts : list bytes) (queue seen : list bytes) (enqueued : nat) : list bytes * nat :=
  match hosts with
  | [] => (queue, enqueued)
  | host :: hosts =>
      let host := TrimSpace host in
      if bytes_eqb host [] then prewarmLoop hosts queue seen enqueued
      else if bool_decide (host ∈ seen) then prewarmLoop hosts queue seen enqueued
      else
        let '(queue, ok) := preGenerateCert queue host in
        prewarmLoop hosts queue (host :: seen) (if ok : bool then S enqueued else enqueued)
  end.

Definition PrewarmCertificates (certs : bool) (hosts queue : list bytes) : list bytes * nat :=
  if bool_decide (hosts = []) || negb certs then (queue, 0) else prewarmLoop hosts queue [] 0.

(** The hosts that are named, each one once, in their order. *)
Fixpoint namedHosts (seen hosts : list bytes) : list bytes :=
  match hosts with
  | [] => []
  | host :: hosts =>
      let host := TrimSpace host in
      if bytes_eqb host [] || bool_decide (host ∈ seen) then namedHosts seen hosts
      else host :: namedHosts (host :: seen) hosts
  end.

(** ** Specification *)

(** The server goes by the configuration [cfg], its rule files included. *)
Record in_force (w : world) (cfg : appConfig) (rt : runtime) : Prop := MkInForce {
  if_rules : exists pc rc p,
    loadRulePolicy (w_fs w) (w_spare w) (rulesOf cfg) = Ok (pc, rc) /\ NewPolicy pc = Ok p /\
    rt_policy rt = Some p /\ op_Policy (rt_relay rt) = Some p /\
    accessRulesOf (rc_AccessProfiles rc) (rc_lists rc BannedClients) (rc_lists rc ExceptionClients) = Ok (rt_access rt) /\
    NewScheduleRules (rc_ScheduleWindows rc) = Ok (rt_schedules rt);
  if_content : exists f, ro_Filter (op_scoped (rt_relay rt)) = Content f /\ ro_RequestFilter (op_scoped (rt_relay rt)) = Content f /\
    cf_Antivirus f = c_AntivirusEnabled cfg;
  if_request : exists f, ro_RequestSubstitutionFilter (op_scoped (rt_relay rt)) = Some f /\ sf_LengthPreserved f = true;
  if_timeouts : op_IOTimeout (rt_relay rt) = c_IOTimeout cfg /\ rt_waitTimeout rt = c_WaitTimeout cfg;
  if_breakers : rt_breakers rt = (c_CircuitBreakerEnabled cfg, c_CircuitBreakerFailures cfg, c_CircuitBreakerTimeout cfg);
  if_pool : rt_pool rt = newUpstreamConnPool (MkPoolConfig (c_UpstreamMaxIdlePerHost cfg) (c_UpstreamIdleTimeout cfg));
}.

(** Everything a reload stores but for the grey lists and the log files. *)
Definition settings (rt : runtime) :=
  (rt_waitTimeout rt, rt_certWorkers rt, rt_limiter rt, rt_bypass rt, rt_breakers rt, rt_dns rt, rt_pool rt, rt_closed rt,
   rt_relay rt, rt_policy rt, rt_access rt, rt_schedules rt, rt_rates rt).

(** The errors that come after the policy was installed. *)
Definition late (e : applyError) : bool := match e with ApplyAccess _ | ApplySchedules _ => true | _ => false end.

(** The policy that requests and the one that intercepted connections are
    judged by are the same. *)
Definition agrees (rt : runtime) : Prop := is_Some (rt_policy rt) /\ op_Policy (rt_relay rt) = rt_policy rt.

(** ** Lemmas *)

#[local] Opaque certQueueSize.

Lemma prewarmLoop_spec hosts : forall queue seen n,
  length queue <= certQueueSize ->
  let fresh := take (certQueueSize - length queue) (namedHosts seen hosts) in
  prewarmLoop hosts queue seen n = (queue ++ fresh, n + length fresh).
Proof.
  induction hosts as [|host hosts IH]; intros queue seen n Hq; cbn [prewarmLoop namedHosts].
  { by rewrite take_nil, app_nil_r, Nat.add_0_r. }
  destruct (bytes_eqb _ []); [by apply IH|]. cbn [orb]. destruct (bool_decide _); [by apply IH|].
  unfold preGenerateCert. destruct (Nat.ltb_spec (length queue) certQueueSize) as [Hl|Hl].
  - cbn zeta. rewrite IH by (rewrite length_app; cbn; lia). rewrite length_app.
    replace (certQueueSize - length queue) with (S (certQueueSize - (length queue + 1))) by lia.
    cbn. rewrite <- app_assoc. cbn. f_equal. lia.
  - cbn zeta. rewrite IH by done. by replace (certQueueSize - length queue) with 0 by lia.
Qed.

(** [PrewarmCertificates] queues the named hosts, each once, as far as there
    is room, and counts them. *)
Theorem prewarm_correct hosts queue :
  length queue <= certQueueSize ->
  let fresh := take (certQueueSize - length queue) (namedHosts [] hosts) in
  PrewarmCertificates true hosts queue = (queue ++ fresh, length fresh).
Proof.
  intros Hq fresh. unfold PrewarmCertificates. destruct (decide (hosts = [])) as [->|Hne].
  - unfold fresh. cbn. by rewrite take_nil, app_nil_r.
  - rewrite bool_decide_false by done. cbn. by rewrite prewarmLoop_spec.
Qed.

(** When the file of a new access log cannot be opened, the handler in use
    stays in use although a timer will close it. *)
Theorem sink_closed_in_use opens cfg rt h :
  lk_handler (lk_access (rt_sinks rt)) = Some h -> c_AccessLog cfg <> [] -> c_AccessLog cfg <> lk_path (lk_access (rt_sinks rt)) ->
  opens (c_AccessLog cfg) = false ->
  let rt' := (setupLoggerSinks opens cfg rt).1 in
  lk_handler (lk_access (rt_sinks rt')) = Some h /\ h ∈ lk_closing (rt_sinks rt').
Proof.
  intros Hh Hne Hpath Ho. unfold setupLoggerSinks, setupSink, bytes_eqb.
  rewrite (bool_decide_false _ Hpath), (bool_decide_false _ Hne), Ho, Hh. cbn. split; [done|]. set_solver.
Qed.

(** [m] started in [rt] ends as [Q] says. *)
Definition ends {A} (m : apply A) (rt : runtime) (Q : runtime -> result applyError A -> Prop) : Prop :=
  Q (m rt).1 (m rt).2.

Lemma ends_bind {A B} (m : apply A) (f : A -> apply B) rt Q :
  ends m rt (fun rt r => match r with Ok a => ends (f a) rt Q | Err e => Q rt (Err e) end) -> ends (m ≫= f) rt Q.
Proof. unfold ends, mbind, apply_bind. by destruct (m rt) as [rt' [a|e]]. Qed.

Lemma ends_try_bind {E A B} (wrap : E -> applyError) (r : result E A) (k : A -> apply B) rt Q :
  (forall a, r = Ok a -> ends (k a) rt Q) -> (forall e, r = Err e -> Q rt (Err (wrap e))) ->
  ends (try wrap r ≫= k) rt Q.
Proof. intros Ha He. unfold ends, try, mbind, apply_bind. destruct r; [by apply Ha|by apply He]. Qed.

Lemma ends_store {B} f (k : unit -> apply B) rt Q : ends (k tt) (f rt) Q -> ends (store f ≫= k) rt Q.
Proof. done. Qed.

Lemma ends_ret {A} (a : A) rt (Q : runtime -> result applyError A -> Prop) : Q rt (Ok a) -> ends (mret a) rt Q.
Proof. done. Qed.

Lemma ends_mono {A} (m : apply A) rt (P Q : runtime -> result applyError A -> Prop) :
  ends m rt P -> (forall rt r, P rt r -> Q rt r) -> ends m rt Q.
Proof. intros Hp HQ. by apply HQ. Qed.

Lemma setupLoggerSinks_settings opens cfg rt :
  ends (setupLoggerSinks opens cfg) rt (fun rt' r =>
    settings rt' = settings rt /\ match r with Err e => late e = false | Ok _ => True end).
Proof.
  unfold ends, setupLoggerSinks. destruct (setupSink opens (c_AccessLog cfg) _ _ _) as [[[access next]|path] closing]; [|done].
  by destruct (setupSink opens (c_AlertLog cfg) _ _ _) as [[[alert next']|path] closing'].
Qed.

Ltac apply_step :=
  lazymatch goal with
  | |- ends (try _ _ ≫= _) _ _ => apply ends_try_bind; [intros ? ?|intros ? ?]
  | |- ends (store _ ≫= _) _ _ => apply ends_store
  | |- ends (mret _) _ _ => apply ends_ret
  | |- ends (let '(_, _) := ?p in _) _ _ => destruct p as [? ?]
  end.

Lemma buildAll_spec w cfg rt :
  ends (buildAll w cfg) rt (fun rt' r =>
    settings rt' = settings rt /\
    match r with
    | Err e => late e = false
    | Ok b => exists pc, loadRulePolicy (w_fs w) (w_spare w) (rulesOf cfg) = Ok (pc, b_rules b) /\ NewPolicy pc = Ok (b_policy b) /\
        cf_Antivirus (b_filter b) = c_AntivirusEnabled cfg /\ sf_LengthPreserved (b_request b) = true
    end).
Proof.
  unfold buildAll. apply_step; [|done]. apply_step; [|done]. apply_step.
  apply ends_bind. eapply ends_mono; [apply setupLoggerSinks_settings|]. intros rt1 [[]|e] [Hs1 He]; [|done].
  repeat first [apply_step | split; [exact Hs1|reflexivity]].
  split; [exact Hs1|]. cbn [b_rules b_policy b_filter b_request]. eauto.
Qed.

(** What a reload did, by its result. *)
Definition reloaded (w : world) (cfg : appConfig) (before after : runtime) (r : result applyError insecure) : Prop :=
  match r with
  | Ok _ => in_force w cfg after
  | Err e =>
      if late e
      then agrees after /\ rt_schedules after = rt_schedules before /\
           match e with ApplyAccess _ => rt_access after = rt_access before | _ => True end
      else settings after = settings before
  end.

(** The state after the policy was installed. *)
Definition installed (cfg : appConfig) (b : built) (rt1 rt2 : runtime) : Prop :=
  rt_policy rt2 = Some (b_policy b) /\ op_Policy (rt_relay rt2) = Some (b_policy b) /\
  op_scoped (rt_relay rt2) =
    MkRelayOptions (c_LogBodies cfg) (c_DumpDir cfg) (Content (b_filter b)) (Content (b_filter b)) (Some (b_request b)) /\
  op_IOTimeout (rt_relay rt2) = c_IOTimeout cfg /\ rt_waitTimeout rt2 = c_WaitTimeout cfg /\
  rt_breakers rt2 = (c_CircuitBreakerEnabled cfg, c_CircuitBreakerFailures cfg, c_CircuitBreakerTimeout cfg) /\
  rt_pool rt2 = newUpstreamConnPool (MkPoolConfig (c_UpstreamMaxIdlePerHost cfg) (c_UpstreamIdleTimeout cfg)) /\
  rt_access rt2 = rt_access rt1 /\ rt_schedules rt2 = rt_schedules rt1.

Lemma installPolicy_installed cfg b rt : installed cfg b rt (installPolicy cfg b rt).
Proof.
  unfold installed, installPolicy, SetUpstreamPool. destruct (closeIdle _) as [pool closed]. cbn. done.
Qed.

Lemma installed_agrees cfg b rt1 rt2 : installed cfg b rt1 rt2 -> agrees rt2.
Proof. intros (P1 & P2 & _). unfold agrees. rewrite P1, P2. by split; [eexists|]. Qed.

Lemma installed_in_force w cfg pc b rt1 rt2 profiles access schedules :
  loadRulePolicy (w_fs w) (w_spare w) (rulesOf cfg) = Ok (pc, b_rules b) -> NewPolicy pc = Ok (b_policy b) ->
  cf_Antivirus (b_filter b) = c_AntivirusEnabled cfg -> sf_LengthPreserved (b_request b) = true ->
  installed cfg b rt1 rt2 ->
  accessRulesOf (rc_AccessProfiles (b_rules b)) (rc_lists (b_rules b) BannedClients)
    (rc_lists (b_rules b) ExceptionClients) = Ok access ->
  NewScheduleRules (rc_ScheduleWindows (b_rules b)) = Ok schedules ->
  in_force w cfg
    (SetScheduleRules schedules (ResetIPRateLimiter (SetProfileMaxConns profiles (SetAccessRules access rt2)))).
Proof.
  intros Hload Hpol Hav Hlen (P1 & P2 & P3 & P4 & P5 & P6 & P7 & _) Ha Hs. split; cbn.
  - exists pc, (b_rules b), (b_policy b). done.
  - rewrite P3. by exists (b_filter b).
  - rewrite P3. by exists (b_request b).
  - done.
  - done.
  - done.
Qed.

Lemma applyRuntimeConfig_spec w cfg rt : ends (applyRuntimeConfig w cfg) rt (reloaded w cfg rt).
Proof.
  unfold applyRuntimeConfig. apply ends_bind. eapply ends_mono; [apply buildAll_spec|]. cbn beta.
  intros rt1 [b|e] [Hs Hb]; [|unfold reloaded; by rewrite Hb].
  destruct Hb as (pc & Hload & Hpol & Hav & Hlen).
  assert (Hold : rt_schedules rt1 = rt_schedules rt /\ rt_access rt1 = rt_access rt)
    by (unfold settings in Hs; by simplify_eq).
  destruct Hold as [Hsch Hacc].
  apply ends_store. pose proof (installPolicy_installed cfg b rt1) as Hi. generalize dependent (installPolicy cfg b rt1).
  intros rt2 Hi. pose proof (installed_agrees _ _ _ _ Hi) as Hag.
  assert (Hold2 : rt_access rt2 = rt_access rt /\ rt_schedules rt2 = rt_schedules rt).
  { destruct Hi as (_ & _ & _ & _ & _ & _ & _ & Ea & Es). by rewrite Ea, Es. }
  destruct Hold2 as [Ea Es].
  apply ends_try_bind; [|intros e _; exact (conj Hag (conj Es Ea))].
  intros access Haccess. do 3 apply ends_store. apply ends_try_bind; [|intros e _; exact (conj Hag (conj Es I))].
  intros schedules Hsched. apply ends_store, ends_ret. by eapply installed_in_force.
Qed.

(** A server whose two policies agreed keeps them so, whatever comes of a
    reload. *)
Corollary reload_agrees (w : world) (cfg : appConfig) (rt : runtime) :
  agrees rt -> agrees (applyRuntimeConfig w cfg rt).1.
Proof.
  pose proof (applyRuntimeConfig_spec w cfg rt) as Hr. unfold ends in Hr.
  destruct (applyRuntimeConfig w cfg rt) as [rt' [ins|e]]; cbn in *; intros [Hs Ha].
  - destruct Hr as [(pc & rc & p & _ & _ & Hp & Hp' & _)]. unfold agrees. rewrite Hp, Hp'. by split; [eexists|].
  - destruct (late e); [by destruct Hr|]. unfold settings, agrees in *. split; congruence.
Qed.
End runtime.

