(* ===== verification/Stealth.v ===== *)
(** * Dialling upstreams over TLS (stealth/dial.go)

    [Dialer.DialFirefox] as a program: the TCP connection, the configuration
    and the ClientHello of the handshake, and the connection on every path.
    The extensions of the browser's ClientHello and the handshake belong to a
    third-party library, and so does every answer here.  [main] makes two
    dialers from the configuration. *)

From S2P Require Import Prelude GoStrings GoRegexp GoNetip GoMime DomainTrie DomainRules FilterEngine BodyFilters Access Limiter Config Runtime Effects.

(** ** The ClientHello *)

(** The extensions the code tells apart; the others by a number. *)
Inductive extension :=
| ALPNExtension (protocols : list bytes)
| UtlsPreSharedKeyExtension
| FakePreSharedKeyExtension
| OtherExtension (id : N).

Definition isPSK (e : extension) : bool :=
  match e with UtlsPreSharedKeyExtension | FakePreSharedKeyExtension => true | _ => false end.

Definition setALPN (protocols : list bytes) (e : extension) : extension :=
  match e with ALPNExtension _ => ALPNExtension protocols | _ => e end.

(** [base] is the specification of the browser. *)
Definition firefoxSpecWithALPNAndPSK (base : list extension) (protocols : list bytes) : list extension :=
  let exts := map (setALPN protocols) base in
  if existsb isPSK base then exts else exts ++ [UtlsPreSharedKeyExtension].

(** ** The dialer *)

(** The fields of [utls.Config] that are used; a session cache by a number,
    0 for the shared one. *)
Record tlsConfig := MkTLSConfig {
  tc_ServerName : bytes;
  tc_InsecureSkipVerify : bool;
  tc_NextProtos : list bytes;
  tc_ClientSessionCache : option nat;
  tc_OmitEmptyPsk : bool;
}.

Definition emptyTLSConfig : tlsConfig := MkTLSConfig [] false [] None false.
Definition upstreamSessionCache : nat := 0.

Record Dialer := MkDialer {
  dl_Timeout : Z;
  dl_Config : option tlsConfig;
  dl_InsecureSkipVerifyFunc : option (bytes -> bytes -> bool);
}.

Definition second : Z := 1000000000.
Definition defaultDialTimeout : Z := 10 * second.
Definition upstreamKeepAlive : Z := 30 * second.
Definition upstreamHTTP1ALPN : list bytes := [str "http/1.1"].

Definition handshakeConfig (d : Dialer) (address serverName : bytes) : tlsConfig :=
  let config := default emptyTLSConfig (dl_Config d) in
  let skip := match dl_InsecureSkipVerifyFunc d with Some f => f address serverName | None => false end in
  MkTLSConfig serverName (if skip then true else tc_InsecureSkipVerify config)
    (if decide (tc_NextProtos config = []) then upstreamHTTP1ALPN else tc_NextProtos config)
    (match tc_ClientSessionCache config with Some c => Some c | None => Some upstreamSessionCache end) true.

(** The calls; a connection is a number.  [SetDeadline c (Some t)] is [t] from
    now on, [None] clears it. *)
Inductive dialE : Type -> Type :=
| DialTCP (address : bytes) (timeout keepAlive : Z) : dialE (option nat)
| SetDeadline (c : nat) (timeout : option Z) : dialE bool
| FirefoxExtensions : dialE (option (list extension))
| ApplyPreset (c : nat) (config : tlsConfig) (spec : list extension) : dialE bool
| Handshake (c : nat) (config : tlsConfig) : dialE bool
| CloseTCP (c : nat) : dialE unit.

Inductive dialError :=
| ErrEmptyAddress | ErrEmptyServerName | ErrDialTCP | ErrSetDeadline | ErrBuildSpec | ErrApplySpec
| ErrHandshake | ErrClearDeadline.

(** The part behind the TCP connection, without the deferred close. *)
Definition secure (d : Dialer) (address serverName : bytes) (timeout : Z) (c : nat) : prog dialE (result dialError nat) :=
  ok ← call (SetDeadline c (Some timeout));
  if negb ok then Return (Err ErrSetDeadline)
  else
    let config := handshakeConfig d address serverName in
    base ← call FirefoxExtensions;
    match base with
    | None => Return (Err ErrBuildSpec)
    | Some base =>
        ok ← call (ApplyPreset c config (firefoxSpecWithALPNAndPSK base (tc_NextProtos config)));
        if negb ok then Return (Err ErrApplySpec)
        else
          ok ← call (Handshake c config);
          if negb ok then Return (Err ErrHandshake)
          else
            ok ← call (SetDeadline c None);
            if negb ok then Return (Err ErrClearDeadline) else Return (Ok c)
    end.

Definition DialFirefox (d : Dialer) (address serverName : bytes) : prog dialE (result dialError nat) :=
  if bytes_eqb address [] then Return (Err ErrEmptyAddress)
  else if bytes_eqb serverName [] then Return (Err ErrEmptyServerName)
  else
    let timeout := if (dl_Timeout d <=? 0)%Z then defaultDialTimeout else dl_Timeout d in
    conn ← call (DialTCP address timeout upstreamKeepAlive);
    match conn with
    | None => Return (Err ErrDialTCP)
    | Some c =>
        r ← secure d address serverName timeout c;
        match r with
        | Ok c => Return (Ok c)
        | Err e => call (CloseTCP c) ;; Return (Err e)
        end
    end.

(** ** The dialers of [main] *)

Section dialers.
Context `{UnicodeTables} `{PrefixTable}.

(** [insecureFunc] looks at the configuration of the last reload, [ins]; the
    rest is fixed at the start. *)
Definition upstreamDialer (cfg : appConfig) (ins : insecure) (h2 : bool) : Dialer :=
  MkDialer (c_DialTimeout cfg)
    (Some (MkTLSConfig [] (c_UpstreamInsecure cfg) (if h2 then [str "h2"; str "http/1.1"] else []) None false))
    (Some (skipsVerification ins)).

End dialers.

(** ** Lemmas *)

(** Where a connection stands: open, with the ClientHello chosen, secured
    with a configuration, ready for the caller, closed. *)
Inductive dialState :=
| NotDialled
| Connected (c : nat) (deadline : bool)
| Prepared (c : nat) (config : tlsConfig) (spec : list extension)
| Secured (c : nat) (config : tlsConfig)
| Ready (c : nat) (config : tlsConfig)
| Closed.

#[global] Instance tlsConfig_eq_dec : EqDecision tlsConfig.
Proof. solve_decision. Defined.

(** The ALPN lists are the protocols of the configuration, and a session can
    be resumed. *)
Definition helloOk (config : tlsConfig) (spec : list extension) : bool :=
  forallb (fun e => match e with ALPNExtension ps => bool_decide (ps = tc_NextProtos config) | _ => true end) spec &&
  existsb isPSK spec.

(** The order of the calls.  A step that fails leaves the connection open. *)
Definition dialWatch (s : dialState) (X : Type) (e : dialE X) : X -> option dialState :=
  match e in dialE X return X -> option dialState with
  | DialTCP _ _ _ => fun x => match s, x with NotDialled, Some c => Some (Connected c false) | NotDialled, None => Some s | _, _ => None end
  | SetDeadline c (Some _) => fun ok =>
      match s with Connected c' false => if bool_decide (c = c') then Some (Connected c ok) else None | _ => None end
  | SetDeadline c None => fun ok =>
      match s with
      | Secured c' config => if bool_decide (c = c') then Some (if ok then Ready c config else s) else None
      | _ => None
      end
  | FirefoxExtensions => fun _ => Some s
  | ApplyPreset c config spec => fun ok =>
      match s with Connected c' true => if bool_decide (c = c') && helloOk config spec then Some (if ok then Prepared c config spec else s) else None | _ => None end
  | Handshake c config => fun ok =>
      match s with
      | Prepared c' config' spec =>
          if bool_decide (c = c') && bool_decide (config = config') then Some (if ok then Secured c config else s) else None
      | _ => None
      end
  | CloseTCP c => fun _ =>
      match s with
      | Connected c' _ | Prepared c' _ _ | Secured c' _ => if bool_decide (c = c') then Some Closed else None
      | _ => None
      end
  end.

(** The connection that is open and not yet ready. *)
Definition unfinished (s : dialState) : option nat :=
  match s with Connected c _ | Prepared c _ _ | Secured c _ => Some c | _ => None end.

Lemma firefoxSpec_ok config base : helloOk config (firefoxSpecWithALPNAndPSK base (tc_NextProtos config)) = true.
Proof.
  unfold helloOk, firefoxSpecWithALPNAndPSK.
  assert (Ha : forallb (fun e => match e with ALPNExtension ps => bool_decide (ps = tc_NextProtos config) | _ => true end)
            (map (setALPN (tc_NextProtos config)) base) = true).
  { induction base as [|[] base IH]; cbn; rewrite ?bool_decide_eq_true_2 by done; done. }
  assert (Hp : existsb isPSK (map (setALPN (tc_NextProtos config)) base) = existsb isPSK base).
  { clear Ha. induction base as [|[] base IH]; cbn; by rewrite ?IH. }
  destruct (existsb isPSK base) eqn:E.
  - by rewrite Ha, Hp.
  - by rewrite forallb_app, existsb_app, Ha, orb_true_r.
Qed.

Lemma secure_safe d address serverName timeout c :
  safe dialWatch (secure d address serverName timeout c) (Connected c false)
    (fun s r => match r with
                | Ok c' => c' = c /\ s = Ready c (handshakeConfig d address serverName)
                | Err _ => unfinished s = Some c
                end).
Proof.
  unfold secure. apply safe_call. intros [|]; cbn; rewrite bool_decide_eq_true_2 by done; [|done].
  intros [base|]; cbn; [|done].
  intros [|]; cbn; rewrite bool_decide_eq_true_2, (firefoxSpec_ok (handshakeConfig d address serverName)) by done; [|done].
  intros [|]; cbn; rewrite !bool_decide_eq_true_2 by done; cbn; [|done].
  intros [|]; cbn; by rewrite bool_decide_eq_true_2 by done.
Qed.

Lemma DialFirefox_safe d address serverName :
  safe dialWatch (DialFirefox d address serverName) NotDialled
    (fun s r => match r with
                | Ok c => s = Ready c (handshakeConfig d address serverName)
                | Err _ => s = NotDialled \/ s = Closed
                end).
Proof.
  unfold DialFirefox. destruct (bytes_eqb address []); [by left|]. destruct (bytes_eqb serverName []); [by left|].
  apply safe_call. intros [c|]; [|by left]. cbn [dialWatch]. eapply safe_cut; [apply secure_safe|].
  intros s [c'|e]; cbn; [by intros [-> ->]|]. intros Hu _.
  destruct s; try discriminate Hu; injection Hu as ->; cbn; rewrite bool_decide_eq_true_2 by done; by right.
Qed.

(** ** Theorems *)

Section theorems.
Context `{UnicodeTables} `{PrefixTable}.

(** C14.  Dialling an upstream over TLS.  In every execution the calls come in
    order: the handshake is only made with the deadline set, and with a
    ClientHello whose ALPN lists are the protocols of the configuration and
    that can resume a session.  A dial that fails has closed its connection; a
    dial that succeeds returns a connection whose handshake succeeded with this
    configuration and whose deadline was cleared.  The configuration names the
    server, offers HTTP/2 only where [main] asks for it, and leaves the
    certificate unchecked only when the operator turned the check off or
    exempted the server by name or address. *)
Theorem upstream_tls_dial cfg ins h2 address serverName (o : oracle dialE) :
  let d := upstreamDialer cfg ins h2 in
  let config := handshakeConfig d address serverName in
  let '(tr, r) := Effects.run o 0 (DialFirefox d address serverName) in
  (exists s, accept dialWatch NotDialled tr = Some s /\
     match r with Ok c => s = Ready c config | Err _ => s = NotDialled \/ s = Closed end) /\
  tc_ServerName config = serverName /\
  tc_NextProtos config = (if h2 then [str "h2"; str "http/1.1"] else [str "http/1.1"]) /\
  tc_InsecureSkipVerify config = c_UpstreamInsecure cfg || skipsVerification ins address serverName.
Proof.
  cbv zeta.
  pose proof (safe_run _ _ _ o _ 0 (DialFirefox_safe (upstreamDialer cfg ins h2) address serverName)) as Hs.
  destruct (Effects.run o 0 _) as [tr r]. split; [exact Hs|]. split; [done|]. split; [by destruct h2|].
  cbn. destruct (skipsVerification ins address serverName); [by rewrite orb_true_r|by rewrite orb_false_r].
Qed.

End theorems.
