(* ===== verification/Listeners.v ===== *)
(** * Listeners (proxy/upgrader.go, proxy/upgrader_unix.go)

    [Listen] of the two upgraders: one listener, or one per processor on the
    same address.  The upgrader of Unix systems hands listeners from one
    process to the next under a key; that table and the sockets are calls. *)

From S2P Require Import Prelude Effects GoStrings.

(** A listener is a number.  [Inherit] is the table of the process upgrade:
    an error, no listener with this key, or the one of the previous process. *)
Inductive listenE : Type -> Type :=
| Inherit (network key : bytes) : listenE (option (option nat))
| OpenListener (reusePort : bool) (network addr : bytes) : listenE (option nat)
| CloseListener (l : nat) : listenE unit.

Section listen.
Context (procs : Z).

Definition numListeners (reusePort : bool) : nat :=
  if reusePort then (if (procs <=? 0)%Z then 1 else Z.to_nat procs) else 1.

(** [fmt.Sprintf("%s-%d", addr, i)], and its suffix. *)
Definition keySuffix (i : nat) : bytes := str "-" ++ Itoa (Z.of_nat i).
Definition listenKey (addr : bytes) (i : nat) : bytes := addr ++ keySuffix i.

(** [ListenWithCallback] of the process upgrade: an inherited listener, or a
    new one from the callback. *)
Definition ListenWithCallback (network key : bytes) (callback : bytes -> bytes -> prog listenE (option nat))
    : prog listenE (option nat) :=
  r ← call (Inherit network key);
  match r with
  | None => Return None
  | Some (Some l) => Return (Some l)
  | Some None => callback network key
  end.

(** The listener of round [i], with the upgrader of Unix systems or without. *)
Definition openRound (unix : bool) (network addr : bytes) (reusePort : bool) (i : nat) : prog listenE (option nat) :=
  if unix then
    if reusePort then
      ListenWithCallback network (listenKey addr i)
        (fun netw address => call (OpenListener true netw (TrimSuffix address (keySuffix i))))
    else ListenWithCallback network addr (fun netw address => call (OpenListener false netw address))
  else call (OpenListener reusePort network addr).

Fixpoint closeListeners (ls : list nat) : prog listenE unit :=
  match ls with
  | [] => Return tt
  | l :: ls => call (CloseListener l) ;; closeListeners ls
  end.

(** The loop, with [n] rounds to go. *)
Fixpoint listenLoop (unix : bool) (network addr : bytes) (reusePort : bool) (n i : nat) (listeners : list nat)
    : prog listenE (option (list nat)) :=
  match n with
  | O => Return (Some listeners)
  | S n =>
      ln ← openRound unix network addr reusePort i;
      match ln with
      | None => closeListeners listeners ;; Return None
      | Some l => listenLoop unix network addr reusePort n (S i) (listeners ++ [l])
      end
  end.

Definition Listen (unix : bool) (network addr : bytes) (reusePort : bool) : prog listenE (option (list nat)) :=
  listenLoop unix network addr reusePort (numListeners reusePort) 0 [].

(** ** Lemmas *)

(** The listeners that are open, in order; a socket may only be opened for
    the address that was asked for. *)
Definition listenWatch (network addr : bytes) (open : list nat) (X : Type) (e : listenE X) : X -> option (list nat) :=
  match e in listenE X return X -> option (list nat) with
  | Inherit netw _ => fun r =>
      if bool_decide (netw = network) then Some (match r with Some (Some l) => open ++ [l] | _ => open end) else None
  | OpenListener _ netw address => fun r =>
      if bool_decide (netw = network) && bool_decide (address = addr)
      then Some (match r with Some l => open ++ [l] | None => open end) else None
  | CloseListener l => fun _ => match open with l' :: open => if bool_decide (l = l') then Some open else None | [] => None end
  end.

Lemma TrimSuffix_app a b : TrimSuffix (a ++ b) b = a.
Proof.
  unfold TrimSuffix, HasSuffix. rewrite length_app, Nat.add_sub, drop_app_length.
  rewrite (proj2 (Nat.leb_le _ _)) by lia. rewrite (proj2 (bytes_eqb_eq b b)) by done. cbn [andb]. by rewrite take_app_length.
Qed.

Lemma openRound_safe unix network addr reusePort i open :
  safe (listenWatch network addr) (openRound unix network addr reusePort i) open
    (fun open' r => open' = match r with Some l => open ++ [l] | None => open end).
Proof.
  assert (Hk : TrimSuffix (listenKey addr i) (keySuffix i) = addr) by apply TrimSuffix_app.
  unfold openRound, ListenWithCallback. destruct unix; [destruct reusePort|].
  1-2: apply safe_call; intros [[l|]|]; cbn [listenWatch]; rewrite bool_decide_eq_true_2 by done; [done| |done].
  1-2: intros [l|]; cbn [listenWatch]; rewrite ?Hk, !bool_decide_eq_true_2 by done; done.
  intros [l|]; cbn; by rewrite !bool_decide_eq_true_2.
Qed.

Lemma closeListeners_safe network addr ls : safe (listenWatch network addr) (closeListeners ls) ls (fun open _ => open = []).
Proof. induction ls as [|l ls IH]; [done|]. cbn. intros _. by rewrite bool_decide_eq_true_2. Qed.

Lemma listenLoop_safe unix network addr reusePort n i ls :
  safe (listenWatch network addr) (listenLoop unix network addr reusePort n i ls) ls
    (fun open r => match r with Some ls' => open = ls' /\ length ls' = length ls + n | None => open = [] end).
Proof.
  revert i ls. induction n as [|n IH]; intros i ls; cbn [listenLoop]; [by split; [|lia]|].
  eapply safe_cut; [apply openRound_safe|]. intros open [l|] ->.
  - eapply safe_mono; [apply IH|]. intros m [ls'|]; [|done]. rewrite length_app. cbn. intros [-> Hl]. split; [done|lia].
  - eapply safe_cut; [apply closeListeners_safe|]. by intros m [] ->.
Qed.

End listen.

(** The listeners are opened all or none, in every execution and with either
    upgrader: every socket is opened for the address that was asked for; when
    [Listen] succeeds, it returns the listeners that are open, one or as many
    as there are processors; when it fails, those it had opened are closed. *)
Theorem listen_all_or_none procs unix network addr reusePort (o : oracle listenE) :
  let '(tr, r) := run o 0 (Listen procs unix network addr reusePort) in
  exists open, accept (listenWatch network addr) [] tr = Some open /\
    match r with Some ls => open = ls /\ length ls = numListeners procs reusePort | None => open = [] end.
Proof.
  pose proof (safe_run _ _ _ o _ 0 (listenLoop_safe unix network addr reusePort (numListeners procs reusePort) 0 [])) as Hs.
  unfold Listen. by destruct (run o 0 _) as [tr r].
Qed.
