(* ===== verification/Lifecycle.v ===== *)
(** * The life of the server (Serve and drainHijacked of proxy/server.go)

    [Serve] opens the listeners, waits for the signal to stop or for a
    listener to fail, and takes everything down again; [drainHijacked] gives
    the tunnels time to end. *)

From S2P Require Import Prelude Effects.

Inductive lifeError := ErrServerClosed | ErrCanceled | LifeFault (msg : bytes) | LifeWrapped (msg : bytes) (e : lifeError).

(** What ends the wait of [Serve]. *)
Inductive ending := Cancelled | ListenerEnded (e : option lifeError) | HTTP3Ended (e : option lifeError).

Inductive lifeE : Type -> Type :=
| MakeUpgrader : lifeE (option lifeError)
| Listen (reusePort : bool) : lifeE (result lifeError nat)   (* how many listeners *)
| StartWorker : lifeE unit
| StartListener (i : nat) : lifeE unit
| ResolveUDP : lifeE (option lifeError)
| ListenUDP : lifeE (option lifeError)
| StartHTTP3 : lifeE unit
| Ready : lifeE (option lifeError)
| Select : lifeE ending
| CloseHTTP3 : lifeE (option lifeError)
| Shutdown : lifeE (option lifeError)
| Now : lifeE Z
| ActiveConns : lifeE nat
| Tick : lifeE unit
| CloseActive : lifeE unit
| ListenerResult : lifeE (option lifeError)
| HTTP3Result : lifeE (option lifeError)
| CloseListeners : lifeE unit
| CloseIdle : lifeE unit
| CloseUDP : lifeE unit
| LogLine (msg : bytes) : lifeE unit.

Abbreviation life := (prog lifeE).

(** The tick of [drainHijacked] and the two timeouts, in nanoseconds. *)
Definition tick : Z := 100 * 1000000.
Definition drainTimeout : Z := 30 * 1000000000.

(** ** The operations *)

Section serve.
Context (hasLogger hasUpgrader reusePort http3 : bool) (certWorkers : Z).

Definition note (msg : bytes) : life unit := when hasLogger (call (LogLine msg)).

(** One round of the loop of [drainHijacked]; [false] when the time is up. *)
Definition drainRound (timeout start : Z) (_ : unit) : life (unit + bool) :=
  now ← call Now;
  if (now - start <? timeout)%Z then
    count ← call ActiveConns;
    if count =? 0 then note (str "all hijacked connections drained successfully") ;; Return (inr true)
    else call Tick ;; Return (inl tt)
  else Return (inr false).

Definition drainHijacked (fuel : nat) (timeout : Z) : life (option unit) :=
  note (str "draining active hijacked connections") ;;
  start ← call Now;
  r ← iterate fuel (drainRound timeout start) tt;
  match r with
  | None => Return None
  | Some true => Return (Some tt)
  | Some false =>
      call CloseActive ;;
      note (str "graceful drain timeout exceeded, remaining connections force-closed") ;;
      Return (Some tt)
  end.

Fixpoint repeatCall (n : nat) (p : nat -> life unit) : life unit :=
  match n with O => Return tt | S n => repeatCall n p ;; p n end.

Definition startCertWorkers : life unit :=
  if (certWorkers <=? 0)%Z then Return tt
  else note (str "starting background certificate pre-generation workers") ;;
       repeatCall (Z.to_nat certWorkers) (fun _ => call StartWorker).

(** The result of each listener, up to one that did not just close. *)
Fixpoint waitListeners (n : nat) : life (option lifeError) :=
  match n with
  | O => Return None
  | S n =>
      e ← call ListenerResult;
      match e with
      | None | Some ErrServerClosed => waitListeners n
      | Some _ => Return e
      end
  end.

(** The result of [Serve] is [Some r]; [None] while it is still draining. *)
Abbreviation outcome := (life (option (option lifeError))).

Definition wrapped (msg : bytes) (e : lifeError) : outcome := Return (Some (Some (LifeWrapped msg e))).

Definition shutDown (fuel n : nat) : outcome :=
  e ← call Shutdown;
  match e with
  | Some e => wrapped (str "shutdown proxy") e
  | None =>
      d ← drainHijacked fuel drainTimeout;
      match d with
      | None => Return None
      | Some _ =>
          e ← waitListeners n;
          match e with
          | Some _ => Return (Some e)
          | None =>
              e ← (if http3 then call HTTP3Result else Return None);
              match e with
              | Some _ => Return (Some e)
              | None => Return (Some (Some ErrCanceled))
              end
          end
      end
  end.

Definition stopServing (fuel n : nat) : outcome :=
  when http3 (e ← call CloseHTTP3; when (bool_decide (is_Some e)) (note (str "close http3 server failed"))) ;;
  shutDown fuel n.

(** Without HTTP/3 the third channel is nil, and nothing ever comes from it. *)
Definition waitEnd (fuel n : nat) : outcome :=
  e ← call Ready;
  match e with
  | Some e => wrapped (str "upgrader ready") e
  | None =>
      ending ← call Select;
      match ending with
      | Cancelled => stopServing fuel n
      | ListenerEnded (Some ErrServerClosed) => Return (Some None)
      | ListenerEnded e | HTTP3Ended e => Return (Some e)
      end
  end.

Definition serveHTTP3Listener (fuel n : nat) : outcome :=
  e ← call ResolveUDP;
  match e with
  | Some e => wrapped (str "resolve udp addr") e
  | None =>
      e ← call ListenUDP;
      match e with
      | Some e => wrapped (str "listen udp proxy") e
      | None => finally (call StartHTTP3 ;; waitEnd fuel n) (call CloseUDP)
      end
  end.

Definition Serve (fuel : nat) : outcome :=
  e ← (if hasUpgrader then Return None else call MakeUpgrader);
  match e with
  | Some e => wrapped (str "create upgrader") e
  | None =>
      r ← call (Listen reusePort);
      match r with
      | Err e => wrapped (str "listen proxy") e
      | Ok n =>
          finally (finally (
            startCertWorkers ;;
            repeatCall n (fun i => call (StartListener i)) ;;
            note (str "proxy listening") ;;
            if http3 then serveHTTP3Listener fuel n else waitEnd fuel n)
            (call CloseIdle)) (call CloseListeners)
      end
  end.

End serve.

(** ** The monitor *)

(** What is open, and what was done about the tunnels. *)
Record lifeState := MkLife {
  l_listeners : option nat;     (* open listeners *)
  l_running : nat;              (* of them, those that serve and have given no result *)
  l_udp : bool;
  l_idle : bool;                (* the idle connections may be open *)
  l_cancelled : bool;           (* it was told to stop *)
  l_stopped : option bool;      (* [Shutdown] was called, and succeeded *)
  l_tunnels : bool;             (* tunnels may be open *)
}.

Definition life0 : lifeState := MkLife None 0 false false false None true.

(** A listener is started on an open one, gives one result, and no result is
    waited for that does not come; a connection is closed once. *)
Definition lifeWatch (m : lifeState) (X : Type) (e : lifeE X) : X -> option lifeState :=
  let '(MkLife ls running udp idle cancelled stopped tunnels) := m in
  match e in lifeE X return X -> option lifeState with
  | Listen _ => fun r =>
      match ls, r with
      | None, Ok n => Some (MkLife (Some n) 0 udp true cancelled stopped tunnels)
      | None, Err _ => Some m
      | Some _, _ => None
      end
  | StartListener _ => fun _ =>
      match ls with
      | Some n => if running <? n then Some (MkLife ls (S running) udp idle cancelled stopped tunnels) else None
      | None => None
      end
  | ListenerResult => fun _ =>
      match running with S running => Some (MkLife ls running udp idle cancelled stopped tunnels) | O => None end
  | Select => fun r =>
      Some (match r with
            | Cancelled => MkLife ls running udp idle true stopped tunnels
            | ListenerEnded _ => MkLife ls (pred running) udp idle cancelled stopped tunnels
            | HTTP3Ended _ => m
            end)
  | ListenUDP => fun e => if udp then None else Some (MkLife ls running (bool_decide (e = None)) idle cancelled stopped tunnels)
  | CloseUDP => fun _ => if udp then Some (MkLife ls running false idle cancelled stopped tunnels) else None
  | Shutdown => fun e => if bool_decide (is_Some stopped) then None else Some (MkLife ls running udp idle cancelled (Some (bool_decide (e = None))) tunnels)
  | ActiveConns => fun n => Some (MkLife ls running udp idle cancelled stopped (negb (n =? 0)))
  | CloseActive => fun _ => Some (MkLife ls running udp idle cancelled stopped false)
  | CloseIdle => fun _ => if idle then Some (MkLife ls running udp false cancelled stopped tunnels) else None
  | CloseListeners => fun _ =>
      match ls with Some _ => Some (MkLife None running udp idle cancelled stopped tunnels) | None => None end
  | _ => fun _ => Some m
  end.

(** Nothing is left open, and a [Serve] that was told to stop has shut down
    the server first and left no tunnel open, unless the shut-down failed. *)
Definition takenDown (m : lifeState) (r : option (option lifeError)) : Prop :=
  match r with
  | None => True
  | Some e =>
      l_listeners m = None /\ l_udp m = false /\ l_idle m = false /\
      (l_cancelled m = true -> is_Some (l_stopped m)) /\
      (l_stopped m = Some true -> l_tunnels m = false) /\
      (l_stopped m = Some false -> exists cause, e = Some (LifeWrapped (str "shutdown proxy") cause))
  end.

(** ** Proofs *)

Section proofs.
Context (hasLogger hasUpgrader reusePort http3 : bool) (certWorkers : Z).

Ltac life_step := first [progress safe_step | progress cbn [lifeWatch safe]].

Lemma note_safe msg m (Q : lifeState -> unit -> Prop) : Q m tt -> safe lifeWatch (note hasLogger msg) m Q.
Proof. destruct m. intros HQ. unfold note, when. destruct hasLogger; [by intros []|done]. Qed.

Lemma repeatCall_safe n p (I : nat -> lifeState -> Prop) m (Q : lifeState -> unit -> Prop) :
  (forall k m, k < n -> I k m -> safe lifeWatch (p k) m (fun m _ => I (S k) m)) ->
  I 0 m -> (forall m, I n m -> Q m tt) -> safe lifeWatch (repeatCall n p) m Q.
Proof.
  revert Q. induction n as [|n IH]; intros Q Hp H0 HQ; cbn [repeatCall]; [by apply HQ|].
  apply safe_bind, IH; [by intros; apply Hp; [lia|]|done|].
  intros m' HI. apply (safe_mono _ _ _ _ _ (Hp n m' (Nat.lt_succ_diag_r n) HI)). intros m'' [] HI'. by apply HQ.
Qed.

(** Draining leaves no tunnel open. *)
Lemma drainHijacked_safe fuel timeout ls running udp idle c s tn (Q : lifeState -> option unit -> Prop) :
  (forall tn', Q (MkLife ls running udp idle c s tn') None) -> Q (MkLife ls running udp idle c s false) (Some tt) ->
  safe lifeWatch (drainHijacked hasLogger fuel timeout) (MkLife ls running udp idle c s tn) Q.
Proof.
  intros HN HS. unfold drainHijacked. apply safe_bind, note_safe. apply safe_bind. intros start. cbn [lifeWatch safe].
  apply (safe_cut _ (fun m r => match r with
      | Some true => m = MkLife ls running udp idle c s false
      | _ => exists tn', m = MkLife ls running udp idle c s tn' end)).
  - revert tn. induction fuel as [|fuel IH]; intros tn; [by eexists|]. cbn [iterate].
    apply safe_bind. unfold drainRound. apply safe_bind. intros now. cbn [lifeWatch safe].
    apply safe_if; intros _; [|cbn; by eexists]. apply safe_bind. intros count. cbn [lifeWatch safe].
    destruct (count =? 0); [apply safe_bind, note_safe; done|]. apply safe_bind. intros []. apply IH.
  - intros m [[]|] Hm; [subst; apply HS| |].
    + destruct Hm as [tn' ->]. apply safe_bind. intros []. cbn [lifeWatch safe]. by apply safe_bind, note_safe.
    + destruct Hm as [tn' ->]. apply HN.
Qed.

Lemma waitListeners_safe n : forall ls udp idle c s tn (Q : lifeState -> option lifeError -> Prop),
  (forall running e, Q (MkLife ls running udp idle c s tn) e) ->
  safe lifeWatch (waitListeners n) (MkLife ls n udp idle c s tn) Q.
Proof.
  induction n as [|n IH]; intros ls udp idle c s tn Q HQ; [apply HQ|]. cbn [waitListeners].
  apply safe_bind. intros e. cbn [lifeWatch safe]. destruct e as [[]|]; first [by apply IH | apply HQ].
Qed.

(** While it serves: [n] listeners run, the tunnels are as they are. *)
Definition serving (n : nat) (udp : bool) (m : lifeState) : Prop :=
  exists tn, m = MkLife (Some n) n udp true false None tn.

(** After the end of the wait. *)
Definition ended (n : nat) (udp : bool) (m : lifeState) (r : option (option lifeError)) : Prop :=
  l_listeners m = Some n /\ l_udp m = udp /\ l_idle m = true /\
  match r with
  | None => True
  | Some e =>
      (l_cancelled m = true -> is_Some (l_stopped m)) /\
      (l_stopped m = Some true -> l_tunnels m = false) /\
      (l_stopped m = Some false -> exists cause, e = Some (LifeWrapped (str "shutdown proxy") cause))
  end.

Lemma shutDown_safe fuel n udp tn :
  safe lifeWatch (shutDown hasLogger http3 fuel n) (MkLife (Some n) n udp true true None tn) (ended n udp).
Proof.
  unfold shutDown. apply safe_bind. intros [e|]; cbn [lifeWatch safe]; rewrite bool_decide_false by (by intros []).
  { split_and!; [done..|by eexists|done|by eexists]. }
  apply safe_bind, drainHijacked_safe; [by intros tn'; split_and!|].
  apply safe_bind, waitListeners_safe. intros running e.
  assert (Hend : forall e, ended n udp (MkLife (Some n) running udp true true (Some true) false) (Some e))
    by (intros e'; split_and!; [done..|by eexists|done|done]).
  destruct e as [e|]; [apply Hend|]. apply safe_bind. destruct http3; [intros [e|]; apply Hend|apply Hend].
Qed.

Lemma stopServing_safe fuel n udp tn :
  safe lifeWatch (stopServing hasLogger http3 fuel n) (MkLife (Some n) n udp true true None tn) (ended n udp).
Proof.
  unfold stopServing. apply safe_bind. pose proof (shutDown_safe fuel n udp tn) as Hrest.
  destruct http3; cbn [when]; [|exact Hrest].
  apply safe_bind. intros e. cbn [lifeWatch safe]. unfold when. destruct (bool_decide _); [by apply note_safe|exact Hrest].
Qed.

Lemma waitEnd_safe fuel n udp m : serving n udp m -> safe lifeWatch (waitEnd hasLogger http3 fuel n) m (ended n udp).
Proof.
  intros [tn ->]. unfold waitEnd. apply safe_bind. intros [e|]; [by split_and!|]. cbn [lifeWatch safe].
  apply safe_bind. intros [|e|e]; cbn [lifeWatch safe]; [apply stopServing_safe| |by split_and!].
  by destruct e as [[]|]; split_and!.
Qed.

Lemma serveHTTP3Listener_safe fuel n m :
  serving n false m -> safe lifeWatch (serveHTTP3Listener hasLogger http3 fuel n) m
    (fun m r => match r with None => l_listeners m = Some n /\ l_idle m = true | Some _ => ended n false m r end).
Proof.
  intros [tn ->]. unfold serveHTTP3Listener. apply safe_bind. intros [e|]; [by split_and!|]. cbn [lifeWatch safe].
  apply safe_bind. intros [e|]; cbn [lifeWatch safe]; [by split_and!|].
  unfold finally. apply safe_bind, safe_bind. intros []. cbn [lifeWatch safe].
  eapply safe_mono; [by apply waitEnd_safe; eexists|].
  intros [ls running udp idle c s tn'] [e|] (E1 & E2 & E3 & E4); cbn in E1, E2, E3; subst; [|done].
  apply safe_bind. intros []. done.
Qed.

Lemma Serve_safe fuel :
  safe lifeWatch (Serve hasLogger hasUpgrader reusePort http3 certWorkers fuel) life0 takenDown.
Proof.
  unfold Serve. apply (safe_cut _ (fun m _ => m = life0)); [by destruct hasUpgrader; [|intros ?]|].
  intros m [e|] ->; [by split_and!|]. apply safe_bind. intros [n|e]; cbn [lifeWatch safe life0]; [|by split_and!].
  unfold finally. apply safe_bind, safe_bind.
  apply (safe_cut _ (fun m _ => m = MkLife (Some n) 0 false true false None true)).
  { unfold startCertWorkers. destruct (certWorkers <=? 0)%Z; [done|]. apply safe_bind, note_safe.
    apply (repeatCall_safe _ _ (fun _ m => m = MkLife (Some n) 0 false true false None true)); [|done..].
    by intros k m _ -> []. }
  intros m [] ->. apply (safe_cut _ (fun m _ => m = MkLife (Some n) n false true false None true)).
  { apply (repeatCall_safe _ _ (fun k m => m = MkLife (Some n) k false true false None true)); [|done..].
    intros k m Hk -> []. cbn [lifeWatch]. by rewrite (proj2 (Nat.ltb_lt k n) Hk). }
  intros m [] ->. apply safe_bind, note_safe.
  apply (safe_mono _ _ (fun m r => match r with None => True | Some _ => ended n false m r end)).
  - pose proof (serveHTTP3Listener_safe fuel n) as Hs. pose proof (waitEnd_safe fuel n false) as Hw. destruct http3.
    + eapply safe_mono; [apply Hs; by eexists|]. by intros m [].
    + eapply safe_mono; [apply Hw; by eexists|]. by intros m [].
  - intros [ls running udp idle c s tn] [e|]; [|done]. intros (E1 & E2 & E3 & E4 & E5 & E6). cbn in E1, E2, E3. subst.
    apply safe_bind. intros []. cbn [lifeWatch safe]. apply safe_bind. intros []. by split_and!.
Qed.

End proofs.

(** ** Draining ends *)

(** Time passes: the clock does not go back, and a tick lasts as long as the
    ticker says.  A round makes three calls, the last of them the tick. *)
Definition ticking (o : oracle lifeE) : Prop :=
  (forall k, (o k Z Now <= o (S k) Z Now)%Z) /\ (forall k, (o k Z Now + tick <= o (3 + k)%nat Z Now)%Z).

(** The rounds of a drain of [timeout]. *)
Definition drainRounds (timeout : Z) : nat := S (Z.to_nat (timeout / tick)).

Section drain.
Context (hasLogger : bool) (o : oracle lifeE) (Ho : ticking o).

#[local] Opaque tick.

Lemma drainRound_run timeout start k :
  let r := run o k (drainRound hasLogger timeout start tt) in
  (exists b, r.2 = inr b) \/ (r.2 = inl tt /\ length r.1 = 3 /\ (o k Z Now - start < timeout)%Z).
Proof.
  unfold drainRound. cbn. destruct (Z.ltb_spec (o k Z Now - start) timeout) as [Hlt|]; [|left; by eexists].
  cbn. destruct (_ =? 0); [|by right]. left. unfold note, when. destruct hasLogger; by eexists.
Qed.

Lemma drain_ends timeout start fuel : forall k,
  (timeout - (o k Z Now - start) <= Z.of_nat fuel * tick)%Z ->
  is_Some (run o k (iterate (S fuel) (drainRound hasLogger timeout start) tt)).2.
Proof.
  induction fuel as [|fuel IH]; intros k Hk; cbn [iterate]; rewrite run_bind;
    pose proof (drainRound_run timeout start k) as Hr; destruct (run o k _) as [tr r]; cbn [fst snd] in Hr;
    destruct Hr as [[b ->]|(-> & Hlen & Hlt)].
  - by eexists.
  - lia.
  - by eexists.
  - rewrite Hlen. replace (k + 3) with (3 + k) by lia.
    destruct (IH (3 + k)) as [b Hb]; [pose proof (proj2 Ho k); lia|]. cbn [iterate] in Hb.
    destruct (run o (3 + k) _). cbn [snd] in *. subst. by eexists.
Qed.

Lemma drainHijacked_returns timeout fuel n :
  (0 <= timeout)%Z -> drainRounds timeout < fuel -> returns o n (drainHijacked hasLogger fuel timeout).
Proof.
  intros Ht Hf. unfold drainHijacked. apply returns_bind. intros [] k Hk.
  rewrite run_bind. cbn [run call length]. set (start := o k Z Now).
  assert (Hloop : is_Some (run o (k + 1) (iterate fuel (drainRound hasLogger timeout start) tt)).2).
  { destruct fuel as [|fuel]; [lia|]. apply drain_ends. replace (k + 1) with (S k) by lia.
    pose proof (proj1 Ho k) as Hmono. fold start in Hmono. unfold drainRounds in Hf.
    assert (tick_pos : (0 < tick)%Z) by done. pose proof (Z.mul_succ_div_gt timeout tick tick_pos).
    assert (Z.succ (timeout / tick) <= Z.of_nat fuel)%Z by (pose proof (Z.div_pos timeout tick Ht tick_pos); lia). nia. }
  match goal with |- context [run o (k + 1) ?p] => assert (Hp : is_Some (run o (k + 1) p).2) end.
  { apply run_cut; [exact Hloop|]. intros []; [apply returns_Some|]. do 2 (apply returns_bind; intros []). apply returns_Some. }
  clear Hloop. revert Hp. by destruct (run o (k + 1) _).
Qed.

End drain.

Section returns.
Context (hasLogger hasUpgrader reusePort http3 : bool) (certWorkers : Z) (o : oracle lifeE) (Ho : ticking o).

Lemma waitEnd_returns fuel n k : drainRounds drainTimeout < fuel -> returns o k (waitEnd hasLogger http3 fuel n).
Proof.
  intros Hf. unfold waitEnd. apply returns_bind. intros [e|]; [apply returns_Some|].
  apply returns_bind. intros [|[[]|]|e]; try apply returns_Some.
  unfold stopServing, shutDown. apply returns_bind. intros []. apply returns_bind. intros [e|]; [apply returns_Some|].
  apply returns_cut; [by apply drainHijacked_returns|]. intros []. apply returns_bind. intros [e|]; [apply returns_Some|].
  apply returns_bind. intros [e|]; apply returns_Some.
Qed.

Lemma Serve_returns fuel k :
  drainRounds drainTimeout < fuel -> returns o k (Serve hasLogger hasUpgrader reusePort http3 certWorkers fuel).
Proof.
  intros Hf. unfold Serve. apply returns_bind. intros [e|]; [apply returns_Some|].
  apply returns_bind. intros [n|e]; [|apply returns_Some]. do 2 apply returns_finally.
  do 3 (apply returns_bind; intros []). pose proof (waitEnd_returns fuel n k Hf) as Hw.
  destruct http3; [|exact Hw]. unfold serveHTTP3Listener. apply returns_bind. intros [e|]; [apply returns_Some|].
  apply returns_bind. intros [e|]; [apply returns_Some|]. apply returns_finally, returns_bind. by intros [].
Qed.

End returns.


(** A server with two listeners that is told to stop while a tunnel is open;
    the answers to the other calls do not matter. *)
Definition stop_oracle (shutdown : option lifeError) : oracle lifeE := fun k X e =>
  match e in lifeE X return X with
  | MakeUpgrader => None
  | Listen _ => Ok 2
  | Select => Cancelled
  | Shutdown => shutdown
  | Now => (Z.of_nat k * tick)%Z
  | ActiveConns => 1
  | ListenerResult => Some ErrServerClosed
  | ResolveUDP | ListenUDP | Ready | CloseHTTP3 | HTTP3Result => None
  | StartWorker | StartListener _ | StartHTTP3 | Tick | CloseActive | CloseListeners | CloseIdle | CloseUDP | LogLine _ => tt
  end.

Lemma stop_oracle_ticking shutdown : ticking (stop_oracle shutdown).
Proof. unfold ticking. cbn [stop_oracle]. unfold tick. split; intros k; lia. Qed.


(** Tunnels are not drained when the shut-down of the HTTP server fails, which
    it does when a request takes longer than its five seconds. *)
Lemma shutdown_skips_drain :
  let r := run (stop_oracle (Some (LifeFault (str "context deadline exceeded")))) 0 (Serve true true false false 4 400) in
  (exists m, accept lifeWatch life0 r.1 = Some m /\ l_tunnels m = true) /\
  Forall (fun ob => match o_call lifeE ob with ActiveConns | CloseActive => False | _ => True end) r.1.
Proof. vm_compute. split; [eexists; split; reflexivity|]. repeat constructor. Qed.
