(* ===== verification/Startup.v ===== *)
(** * The start of the program (main.go)

    [main] from the command line to the end of [Serve]: the configuration, the
    root certificate, the server with its rules and dialers, and the exits.  The
    upgrader, tracing, the administration server and [Serve] are calls; Lifecycle
    has [Serve], and Runtime the reloads that run beside it. *)

From S2P Require Import Prelude GoStrings GoRegexp GoNetip GoMime GoPath DomainTrie DomainRules FilterEngine BodyFilters Access Limiter LeafCache Ca Config Runtime Stealth Effects.

Inductive mainE : Type -> Type :=
| LogError (text : bytes) : mainE unit
| ExitProcess (code : Z) : mainE unit                      (* os.Exit *)
| PrintVersion : mainE unit
| NewUpgrader : mainE bool
| CloseUpgrader : mainE unit
| WatchUpgrade : mainE unit                                (* SIGUSR2 *)
| WatchSignals : mainE unit                                (* SIGINT, SIGTERM, the end of the upgrade *)
| StartAdmin (addr : bytes) (metrics : bool) : mainE unit
| LogInfo (text : bytes) : mainE unit
| StopSignals : mainE unit
| InitTracing (enabled : bool) (endpoint : bytes) : mainE bool
| ShutdownTracing : mainE unit
| Prewarm (hosts : list bytes) : mainE unit
| StartReloader : mainE unit
| ServeProxy (root : rootCA) (tls h2 : Dialer) : mainE (option bool)   (* nil, or an error: is it context.Canceled? *)
| CloseSinks : mainE unit.

(** How the process ends: [main] returns, or [os.Exit]. *)
Inductive exitStatus := Returned | Exited (code : Z).

Definition adminAddr (cfg : appConfig) : bytes :=
  if c_MetricsEnabled cfg && negb (bytes_eqb (c_MetricsListenAddr cfg) []) then c_MetricsListenAddr cfg
  else str "127.0.0.1:6060".

Section main.
Context `{UnicodeTables} `{ContentSniffer} `{Regexp} `{PrefixTable} `{Limiter.Weighted} `{Crypto} {rate : Type}.
Context (getenv : bytes -> bytes) (numCPU : Z) (toml_Unmarshal : bytes -> option tomlConfig).
Context (w : world) (d : disk) (en : entropy) (now : Z).

Definition exitWith (text : bytes) : prog mainE exitStatus :=
  call (LogError text) ;; call (ExitProcess 1) ;; Return (Exited 1).

(** A deferred call: it runs when the rest returns, not when it exits. *)
Definition deferred (rest : prog mainE exitStatus) (cleanup : prog mainE unit) : prog mainE exitStatus :=
  s ← rest; match s with Returned => cleanup ;; Return Returned | Exited _ => Return s end.

(** From the server on. *)
Definition runServer (cfg : appConfig) (ca : CertificateAuthority) : prog mainE exitStatus :=
  match (startServer (rate := rate) w cfg).2 with
  | Err _ => exitWith (str "load rules failed")
  | Ok ins =>
      call (Prewarm (c_MITMPrewarmHosts cfg)) ;;
      call StartReloader ;;
      err ← call (ServeProxy (rootOf ca) (upstreamDialer cfg ins false) (upstreamDialer cfg ins true));
      match err with
      | None | Some true => Return Returned
      | Some false => exitWith (str "proxy server stopped")
      end
  end.

Definition afterUpgrader (cfg : appConfig) : prog mainE exitStatus :=
  call WatchUpgrade ;;
  call (StartAdmin (adminAddr cfg) (c_MetricsEnabled cfg)) ;;
  match (LoadOrCreateCA d (c_CertDir cfg) en now).2 with
  | Err _ => exitWith (str "load root ca failed")
  | Ok ca =>
      call (LogInfo (str "root ca ready")) ;;
      call (LogInfo (str "config")) ;;
      when (c_DumpCredentialsCleartext cfg) (call (LogInfo (str "CRITICAL WARNING"))) ;;
      call WatchSignals ;;
      deferred (
        ok ← call (InitTracing (c_TracingEnabled cfg) (c_TracingEndpoint cfg));
        if negb ok then exitWith (str "initialize tracing failed")
        else deferred (runServer cfg ca) (call ShutdownTracing))
        (call StopSignals)
  end.

Definition main (args : list bytes) : prog mainE exitStatus :=
  deferred (
    match parseConfig getenv numCPU (w_fs w) toml_Unmarshal args with
    | Err _ => exitWith (str "config parse failed")
    | Ok cfg =>
        if c_ShowVersion cfg then call PrintVersion ;; Return Returned
        else
          ok ← call NewUpgrader;
          if negb ok then exitWith (str "initialize upgrader failed")
          else deferred (afterUpgrader cfg) (call CloseUpgrader)
    end) (call CloseSinks).

(** ** Lemmas *)

(** Everything the server needs is there. *)
Definition ready (args : list bytes) : bool :=
  match parseConfig getenv numCPU (w_fs w) toml_Unmarshal args with
  | Ok cfg => negb (c_ShowVersion cfg) && is_ok (LoadOrCreateCA d (c_CertDir cfg) en now).2 &&
              is_ok (startServer (rate := rate) w cfg).2
  | Err _ => false
  end.

(** What is open, and how far the process is. *)
Record startState := MkStart {
  sm_upgrader : bool;
  sm_signals : bool;
  sm_tracing : bool;
  sm_served : bool;
  sm_sinks : bool;      (* the log files are still to be closed *)
  sm_exited : bool;
}.

Definition startWatch (ok : bool) (m : startState) (X : Type) (e : mainE X) : X -> option startState :=
  let '(MkStart u sg tr sv sk ex) := m in
  match e in mainE X return X -> option startState with
  | NewUpgrader => fun x => if ex || u then None else Some (MkStart x sg tr sv sk ex)
  | CloseUpgrader => fun _ => if ex || negb u then None else Some (MkStart false sg tr sv sk ex)
  | WatchSignals => fun _ => if ex || sg then None else Some (MkStart u true tr sv sk ex)
  | StopSignals => fun _ => if ex || negb sg then None else Some (MkStart u false tr sv sk ex)
  | InitTracing _ _ => fun x => if ex || tr then None else Some (MkStart u sg x sv sk ex)
  | ShutdownTracing => fun _ => if ex || negb tr then None else Some (MkStart u sg false sv sk ex)
  | ServeProxy _ _ _ => fun _ => if ex || sv || negb (ok && u && sg && tr) then None else Some (MkStart u sg tr true sk ex)
  | CloseSinks => fun _ => if ex || negb sk then None else Some (MkStart u sg tr sv false ex)
  | ExitProcess code => fun _ => if ex then None else Some (MkStart u sg tr sv sk true)
  | LogError _ | PrintVersion | WatchUpgrade | StartAdmin _ _ | LogInfo _ | Prewarm _ | StartReloader => fun _ => if ex then None else Some m
  end.

(** The end of a part: it returned in the state [P], or the process exited
    with the log files open. *)
Definition endsIn (P : startState -> Prop) (m : startState) (s : exitStatus) : Prop :=
  match s with Returned => P m | Exited c => c = 1%Z /\ sm_exited m = true /\ sm_sinks m = true end.

Lemma exitWith_safe ok text m P :
  sm_exited m = false -> sm_sinks m = true -> safe (startWatch ok) (exitWith text) m (endsIn P).
Proof. destruct m; cbn. intros -> ->. by repeat (intros ?; cbn). Qed.

Lemma deferred_safe ok rest cleanup m (P Q : startState -> Prop) :
  safe (startWatch ok) rest m (endsIn P) -> (forall m, P m -> safe (startWatch ok) cleanup m (fun m _ => Q m)) ->
  safe (startWatch ok) (deferred rest cleanup) m (endsIn Q).
Proof.
  intros Hr Hc. unfold deferred. eapply safe_cut; [exact Hr|]. intros m' [|c] Hm; [|done].
  eapply safe_cut; [by apply Hc|]. done.
Qed.

Lemma runServer_safe cfg ca ok :
  (is_ok (startServer (rate := rate) w cfg).2 = true -> ok = true) ->
  safe (startWatch ok) (runServer cfg ca) (MkStart true true true false true false)
    (endsIn (fun m => m = MkStart true true true true true false)).
Proof.
  intros Hok. unfold runServer. destruct (startServer w cfg).2 as [ins|e]; [|by apply exitWith_safe].
  rewrite Hok by done. apply safe_call; intros ?. apply safe_call; intros ?. apply safe_call. intros [[|]|]; cbn [startWatch]; [done| |done].
  by apply exitWith_safe.
Qed.

Lemma afterUpgrader_safe cfg ok :
  (is_ok (LoadOrCreateCA d (c_CertDir cfg) en now).2 = true -> is_ok (startServer (rate := rate) w cfg).2 = true -> ok = true) ->
  safe (startWatch ok) (afterUpgrader cfg) (MkStart true false false false true false)
    (endsIn (fun m => m = MkStart true false false true true false)).
Proof.
  intros Hok. unfold afterUpgrader. apply safe_call; intros ?. apply safe_call; intros ?. cbn [startWatch].
  destruct (LoadOrCreateCA d (c_CertDir cfg) en now).2 as [ca|e]; [|by apply exitWith_safe].
  apply safe_call; intros ?. apply safe_call; intros ?. cbn [startWatch].
  eapply (safe_cut _ (fun m _ => m = MkStart true false false false true false)).
  { unfold when. by destruct (c_DumpCredentialsCleartext cfg); [intros ?|]. }
  intros m _ ->. apply safe_call; intros ?. cbn [startWatch orb].
  eapply (deferred_safe _ _ _ _ (fun m => m = MkStart true true false true true false)); [|by intros m ->].
  apply safe_call. intros [|]; cbn [startWatch orb negb]; [|by apply exitWith_safe].
  eapply deferred_safe; [by apply runServer_safe; auto|]. by intros m ->.
Qed.

Lemma main_safe args :
  safe (startWatch (ready args)) (main args) (MkStart false false false false true false)
    (endsIn (fun m => exists served, m = MkStart false false false served false false)).
Proof.
  unfold main. eapply (deferred_safe _ _ _ _ (fun m => exists served, m = MkStart false false false served true false));
    [|by intros m [sv ->] ?; eexists].
  pose proof (eq_refl (ready args)) as Hr. unfold ready at 2 in Hr.
  destruct (parseConfig _ _ _ _ _) as [cfg|e]; [|by apply exitWith_safe].
  destruct (c_ShowVersion cfg) eqn:Ev; [intros ?; by eexists|].
  apply safe_call. intros [|]; cbn [startWatch orb negb]; [|by apply exitWith_safe].
  eapply (deferred_safe _ _ _ _ (fun m => m = MkStart true false false true true false)); [|by intros m -> ?; eexists].
  apply afterUpgrader_safe. intros Hca Hsrv. rewrite Hr. by rewrite Hca, Hsrv.
Qed.

End main.

(** C12.  The start.  In every execution the proxy serves at most once, and
    only with a configuration that was accepted, a root certificate that was
    loaded or created, and the rules of the configuration in force, between
    the start and the end of the upgrader, of the signal handlers and of
    tracing.  When [main] returns, all of them and the log files are closed.
    Any other end is an exit with status 1, which is the last thing that
    happens, and leaves the log files to the system. *)
Theorem startup `{UnicodeTables} `{ContentSniffer} `{Regexp} `{PrefixTable} `{Limiter.Weighted} `{Crypto} {rate : Type}
    getenv numCPU toml_Unmarshal (w : world) (d : disk) (en : entropy) now args (o : oracle mainE) :
  let '(tr, s) := Effects.run o 0 (main (rate := rate) getenv numCPU toml_Unmarshal w d en now args) in
  let ok := ready (rate := rate) getenv numCPU toml_Unmarshal w d en now args in
  exists m, accept (startWatch ok) (MkStart false false false false true false) tr = Some m /\
    match s with
    | Returned => exists served, m = MkStart false false false served false false
    | Exited code => code = 1%Z /\ sm_exited m = true /\ sm_sinks m = true
    end.
Proof.
  pose proof (safe_run _ _ _ o _ 0 (main_safe (rate := rate) getenv numCPU toml_Unmarshal w d en now args)) as Hs.
  by destruct (Effects.run o 0 _) as [tr s].
Qed.
