(* ===== verification/EndToEnd.v ===== *)
(** * From a line of a file to the answer of the proxy

    The rule files, the policy they compile to, the reload that installs it
    and the handlers that ask it, put together: a domain on a ban list is not
    reached by any kind of request. *)

From S2P Require Import Prelude Effects DList Lru GoStrings GoConv GoJson GoRegexp GoUrl GoPath ListLoader GoNetip Dns GoMime DomainTrie DomainRules Http Access Schedule TimeBands UpstreamPool Limiter PolicyRules UrlRules Policy PolicyTheorems Rules Framing SemanticFilter FilterEngine Antivirus InspectReader MaskingFilter BodyFilters Config ContentFilter AuditScope Relay Exchange Dump Streaming WebSocket RelayLoop Upstream Server Quiet Mediation Returns Runtime.

Section refused.
Context `{UnicodeTables} `{ContentSniffer} `{Regexp} `{PrefixTable} `{Digests}.

(** The host a request is for, as the handler takes it from the request. *)
Definition askedHost (http3 : bool) (x : Exchange) : option bytes :=
  if http3 then Some (http3Host x)
  else if isConnect x then connectHostname (x_req x)
  else fst <$> plainHTTPDestination (x_req x).

(** The client is turned away: nothing but logs, metrics and one page with
    the status 403 or 429, which the state of the monitor records. *)
Definition turnedAway (answered : bool) (X : Type) (e : proxyE X) : X -> option bool :=
  match e in proxyE X return X -> option bool with
  | WriteHeader status => fun _ =>
      if negb answered && ((status =? 403)%Z || (status =? 429)%Z) then Some true else None
  | RateAllow _ _ _ => fun _ => Some answered
  | e => fun _ => if mute _ e then Some answered else None
  end.

Context (statusText : Z -> bytes) (rx : redactionRegexes) (s : Server).

Lemma turnedAway_mute b X (e : proxyE X) r : mute X e = true -> turnedAway b X e r = Some b.
Proof. by destruct e. Qed.

Lemma away_mute {A} (p : program A) b (Q : bool -> A -> Prop) :
  only mute p -> (forall a, Q b a) -> safe turnedAway p b Q.
Proof. apply safe_only, turnedAway_mute. Qed.

Lemma writeBlockPage_away status title detail (Q : bool -> unit -> Prop) :
  (status = 403 \/ status = 429)%Z -> Q true tt -> safe turnedAway (writeBlockPage statusText status title detail) false Q.
Proof.
  intros Hs HQ. unfold writeBlockPage. do 3 (apply safe_skip; [done|]; intros []).
  apply safe_bind. intros []. cbn [turnedAway]. destruct Hs as [-> | ->]; by intros [].
Qed.

Lemma refuse_away x d opts detail : safe turnedAway (refuse statusText s x d opts detail) false (fun b _ => b = true).
Proof.
  unfold refuse. apply safe_bind, away_mute; [apply ruleHit_mute|intros _].
  apply safe_bind, away_mute; [apply logExchangeBlocked_mute|intros _]. apply writeBlockPage_away; auto.
Qed.

Lemma returning_away {A} (p : program A) b (Q : bool -> Prop) :
  safe turnedAway p b (fun b _ => Q b) -> safe turnedAway (returning p) b (fun b r => Q b /\ is_Some r).
Proof. intros Hp. apply safe_bind. eapply safe_mono; [exact Hp|]. intros b' a Hb. split; [done|by eexists]. Qed.

Lemma admitClient_away addr (k : bytes -> program (option unit)) (Q : bool -> Prop) :
  Q true -> (forall profile, safe turnedAway (k profile) false (fun b r => Q b /\ is_Some r)) ->
  safe turnedAway (admitClient statusText s addr k) false (fun b r => Q b /\ is_Some r).
Proof.
  intros HQ Hk. unfold admitClient. destruct (ProfileForRemoteAddr _ _) as [profile allowed].
  destruct allowed; cbn [negb]; [|apply returning_away, writeBlockPage_away; auto].
  destruct (Allowed _ _ _); cbn [negb]; [|apply returning_away, writeBlockPage_away; auto].
  destruct (profileRateLimit _ _) as [[limit burst]|]; [|apply Hk].
  apply safe_bind. intros ok. cbn [turnedAway]. destruct ok; [apply Hk|]. apply returning_away.
  apply safe_bind. intros []. apply safe_bind, away_mute; [apply logLine_mute|intros _]. apply writeBlockPage_away; auto.
Qed.

(** A request whose host the policy refuses, however it came. *)
Lemma ServeHTTP_away fuel handshake http3 x host :
  askedHost http3 x = Some host -> host <> [] ->
  (forall req scheme, Blocked (EvaluateRequest (sv_policy s) host req scheme) = true) ->
  safe turnedAway (ServeHTTP statusText rx s fuel handshake http3 x) false (fun b r => b = true /\ is_Some r).
Proof.
  intros Hh Hne Hb. unfold ServeHTTP. apply safe_bind. intros []. unfold finally. apply safe_bind.
  eapply (safe_mono _ _ (fun b r => b = true /\ is_Some r));
    [|intros b [[]|] [-> Hr]; [apply safe_bind; by intros []|by destruct Hr]].
  apply safe_bind, away_mute; [unfold when; by destruct (sv_http3Enabled s)|intros _].
  apply (admitClient_away _ _ (fun b => b = true)); [done|]. intros profile. unfold askedHost in Hh.
  destruct http3; [|destruct (isConnect x) eqn:Ec; unfold isConnect in Ec; rewrite Ec; cbn [negb]].
  - injection Hh as Hh. unfold serveHTTP3, http3Host in *. rewrite Hh.
    unfold bytes_eqb. rewrite bool_decide_false by done. rewrite Hb. apply returning_away, refuse_away.
  - unfold serveConnect. rewrite Hh, Hb. apply returning_away, refuse_away.
  - unfold handlePlainHTTP. destruct (plainHTTPDestination _) as [[h a]|]; [|done]. injection Hh as ->. rewrite Hb.
    apply returning_away. apply safe_bind, away_mute; [apply ruleHit_mute|intros _].
    apply safe_bind, away_mute; [apply logExchangeBlocked_mute|intros _].
    apply safe_bind, away_mute; [apply only_when, session_mute|intros _]. apply writeBlockPage_away; auto.
Qed.

End refused.

(** C2. A ban takes effect.  When a configuration was loaded, at start-up or
    by a reload, and one of its rule files of banned domains has a line that
    covers a host, which no exception or grey entry of the files and no
    exception expression covers, then every request for that host, plain, by
    HTTP/3 or to open a tunnel, ends with one page, of status 403, or 429 for a
    client over its rate, and without any other call than those of logs,
    metrics and the rate limiter: nothing is resolved, dialled or sent. *)
Theorem ban_takes_effect `{UnicodeTables} `{ContentSniffer} `{Regexp} `{PrefixTable} `{Digests}
    `{Limiter.Weighted} {rate : Type} (w : world) cfg (rt rt' : runtime (rate := rate)) ins pc rc files path ln host :
  applyRuntimeConfig w cfg rt = (rt', Ok ins) ->
  loadRulePolicy (w_fs w) (w_spare w) (rulesOf cfg) = Ok (pc, rc) -> ruleFiles (w_fs w) (rulesOf cfg) = Ok files ->
  cfg_bounded (pc_Domains pc) ->
  path ∈ files -> ruleAction (Base path) = Domains Domains_Blocked -> entry_of (w_fs w) path ln ->
  normalizeRuleDomain (ln_Text ln) <> [] ->
  normalizedDomain host <> [] -> spec.covers (normalizeRuleDomain (ln_Text ln)) (normalizedDomain host) ->
  Forall (fun l => ~ spec.Match (files_values (w_fs w) l files) (normalizedDomain host))
    [Domains_LocalExceptions; Domains_LocalGrey; Domains_Exceptions; Domains_Grey] ->
  ~ regex_hits (cfg_AllowRegex (pc_Domains pc)) (normalizedDomain host) ->
  forall statusText rx logger certs upstream h2Upstream now fuel handshake http3 x (o : oracle proxyE),
  askedHost http3 x = Some host ->
  let r := Effects.run o 0 (ServeHTTP statusText rx (serverOf logger certs upstream h2Upstream now rt') fuel handshake http3 x) in
  accept turnedAway false r.1 = Some true /\ is_Some r.2.
Proof.
  intros Ha Hl Hf Hb Hp Hact He Hd Hn Hc Hno Hre statusText rx logger certs upstream h2Upstream now fuel handshake http3 x o Hh r.
  pose proof (applyRuntimeConfig_spec w cfg rt) as Hs. unfold ends in Hs. rewrite Ha in Hs. cbn in Hs.
  destruct Hs as [(pc' & rc' & p & Hl' & Hp' & Hpol & _)]. rewrite Hl in Hl'. injection Hl' as <- <-.
  assert (Hblock : forall req scheme, Blocked (EvaluateRequest (rt_policy rt') host req scheme) = true)
    by (intros req scheme; rewrite Hpol; by eapply rules_ban_enforced).
  assert (Hne : host <> []) by (by intros ->).
  destruct (safe_run _ _ _ o _ 0 (ServeHTTP_away statusText rx (serverOf logger certs upstream h2Upstream now rt')
    fuel handshake http3 x host Hh Hne Hblock)) as (m & Hm & -> & Hr). done.
Qed.

(** ** Example *)

#[local] Existing Instances sample_sniffer' sample_digests ascii_tables literal_regexp list_table counting.

(** The configuration and the rule files of the examples of those parts. *)
Definition loaded_config : appConfig := match sample_config with Ok cfg => cfg | Err _ => defaultConfig sample_env 4 end.

Definition sample_world : world :=
  MkWorld sample_rule_files (fun _ => 0) (fun _ => true) map_to_list.

Definition sample_start : runtime (rate := unit) * result applyError insecure := startServer sample_world loaded_config.

Definition banned_connect : Exchange :=
  MkExchange (MkRequest (str "CONNECT") None [] (str "WWW.bad.org:443") 0 [] false false) false None false
    (str "10.0.0.1:4000") true.

Definition sample_policy : PolicyConfig :=
  match loadRulePolicy (w_fs sample_world) (w_spare sample_world) (rulesOf loaded_config) with
  | Ok (pc, _) => pc
  | Err _ => policyOf (MkRules (fun _ => []) (fun _ => []) (fun _ => []) [] [] [] [])
  end.

Lemma ban_takes_effect_witness : exists rt' ins, sample_start = (rt', Ok ins) /\
  accept turnedAway false (Effects.run refusing_oracle 0 (ServeHTTP (fun _ => []) sample_redaction
    (serverOf true true true true (MkClock 0 0 0) rt') 1 0 false banned_connect)).1 = Some true.
Proof.
  destruct sample_start as [rt' [ins|e]] eqn:Es;
    [|exfalso; apply (f_equal snd) in Es; revert Es; apply is_ok_not_Err; vm_compute; reflexivity].
  exists rt', ins. split; [reflexivity|]. unfold sample_start, startServer in Es.
  match type of Es with applyRuntimeConfig _ _ ?r = _ => set (rt0 := r) in Es end.
  destruct (loadRulePolicy (w_fs sample_world) (w_spare sample_world) (rulesOf loaded_config)) as [[pc rc]|e] eqn:El;
    [|exfalso; revert El; apply is_ok_not_Err; vm_compute; reflexivity].
  assert (Hpc : pc = sample_policy) by (unfold sample_policy; rewrite El; reflexivity).
  apply (ban_takes_effect sample_world loaded_config rt0 rt' ins pc rc
    [str "/lists/bannedsitelist"; str "/lists/exceptionsitelist"] (str "/lists/bannedsitelist")
    (MkLine (str "/lists/bannedsitelist") 1 (str ".Bad.org.")) (str "WWW.bad.org"));
    [exact Es|exact El|vm_compute; reflexivity| |left|vm_compute; reflexivity| | | | | | |vm_compute; reflexivity].
  - rewrite Hpc. repeat constructor; vm_compute; discriminate.
  - apply (entry_here _ _ (str ".Bad.org.
ads.net # tracker") 0 (str ".Bad.org.")); vm_compute; reflexivity.
  - vm_compute. discriminate.
  - vm_compute. discriminate.
  - split; [vm_compute; discriminate|]. exists [str "www"]. vm_compute. reflexivity.
  - set (files := [str "/lists/bannedsitelist"; str "/lists/exceptionsitelist"]).
    assert (E1 : files_values sample_rule_files Domains_LocalExceptions files = []) by (vm_compute; reflexivity).
    assert (E2 : files_values sample_rule_files Domains_LocalGrey files = []) by (vm_compute; reflexivity).
    assert (E3 : files_values sample_rule_files Domains_Exceptions files = [str "ok.bad.org"]) by (vm_compute; reflexivity).
    assert (E4 : files_values sample_rule_files Domains_Grey files = []) by (vm_compute; reflexivity).
    rewrite !Forall_cons. cbn [w_fs sample_world]. rewrite E1, E2, E3, E4.
    unfold spec.Match. rewrite Exists_nil, Exists_cons, Exists_nil.
    split; [intros []|]. split; [intros []|]. split; [|split; [intros []|constructor]]. intros [[_ Hs]|[]].
    assert (Hf : bool_decide (normalizedDomainLabels (str "ok.bad.org") `suffix_of`
      normalizedDomainLabels (normalizedDomain (str "WWW.bad.org"))) = false) by (vm_compute; reflexivity).
    apply bool_decide_eq_false in Hf. exact (Hf Hs).
  - rewrite Hpc. assert (E : cfg_AllowRegex (pc_Domains sample_policy) = []) by (vm_compute; reflexivity).
    rewrite E. unfold regex_hits. rewrite Exists_nil. tauto.
Defined.
