(* ===== verification/RelayTheorems.v ===== *)
(** * Correctness of the relay

    What a client reads of a filtered response, what is captured of a body and
    which headers of a hop survive. *)

From S2P Require Import Prelude GoStrings GoRegexp GoUrl Http DomainTrie DomainRules Framing SemanticFilter FilterEngine InspectReader HtmlFilter MaskingFilter BodyFilters ContentFilter ContentTheorems Relay.

(** ** Captured bodies *)

Lemma tee_writes limit ws done_ :
  Forall (fun w => w <> []) ws ->
  fold_left teeBuffer_Write ws (MkTee (Z.of_nat limit) (take limit done_) (limit <? length done_)) =
  MkTee (Z.of_nat limit) (take limit (done_ ++ concat ws)) (limit <? length (done_ ++ concat ws)).
Proof.
  intros Hw. revert done_. induction Hw as [|w ws Hne Hw IH]; intros d; simpl.
  { by rewrite app_nil_r. }
  assert (Hstep : teeBuffer_Write (MkTee (Z.of_nat limit) (take limit d) (limit <? length d)) w =
                  MkTee (Z.of_nat limit) (take limit (d ++ w)) (limit <? length (d ++ w))).
  { unfold teeBuffer_Write. cbn [tee_full tee_limit tee_buf]. rewrite length_take, length_app.
    assert (0 < length w) by (destruct w; [done|simpl; lia]).
    destruct (Nat.ltb_spec limit (length d)) as [Hf|Hf].
    { rewrite take_app_le by lia. destruct (Nat.ltb_spec limit (length d + length w)); [done|lia]. }
    rewrite take_app, (take_ge d) by lia.
    destruct (Z.leb_spec (Z.of_nat limit - Z.of_nat (limit `min` length d)) 0).
    { destruct (Nat.ltb_spec limit (length d + length w)); [|lia].
      replace (limit - length d) with 0 by lia. by rewrite take_0, app_nil_r. }
    destruct (Z.ltb_spec (Z.of_nat limit - Z.of_nat (limit `min` length d)) (Z.of_nat (length w))).
    { destruct (Nat.ltb_spec limit (length d + length w)); [|lia]. do 3 f_equal. lia. }
    destruct (Nat.ltb_spec limit (length d + length w)); [lia|]. by rewrite (take_ge w) by lia. }
  rewrite Hstep, IH. by rewrite app_assoc.
Qed.

(** C27.  The capture of a body keeps exactly its first bytes up to the limit,
    whatever the writes, and is marked truncated exactly when the body is
    longer. *)
Theorem capture_prefix limit ws :
  Forall (fun w => w <> []) ws ->
  fold_left teeBuffer_Write ws (MkTee (Z.of_nat limit) [] false) =
  MkTee (Z.of_nat limit) (take limit (concat ws)) (limit <? length (concat ws)).
Proof.
  intros Hw. pose proof (tee_writes limit ws [] Hw) as Ht. rewrite take_nil in Ht. exact Ht.
Qed.

Lemma capture_prefix_witness :
  fold_left teeBuffer_Write [str "hel"; str "lo w"] (MkTee (Z.of_nat 5) [] false) =
  MkTee (Z.of_nat 5) (str "hello") true.
Proof. refine (capture_prefix 5 [str "hel"; str "lo w"] _). repeat constructor; discriminate. Defined.

(** ** Headers of a hop *)

Lemma fold_Del_values names h k :
  Header_Values (fold_left Header_Del names h) k =
  if bool_decide (CanonicalHeaderKey k ∈ map CanonicalHeaderKey names) then [] else Header_Values h k.
Proof.
  revert h. induction names as [|n names IH]; intros h; cbn [fold_left map].
  { by rewrite bool_decide_false by set_solver. }
  rewrite IH. destruct (decide (CanonicalHeaderKey n = CanonicalHeaderKey k)) as [E|E].
  - rewrite (bool_decide_true (_ ∈ _ :: _)) by (rewrite E; left). case_bool_decide; [done|].
    unfold Header_Values, Header_Del. by rewrite hlookup_hdelete, decide_True.
  - rewrite Header_Del_other by done. rewrite (bool_decide_ext (_ ∈ CanonicalHeaderKey n :: _)
      (CanonicalHeaderKey k ∈ map CanonicalHeaderKey names)); [done|]. set_solver.
Qed.

(** A request goes upstream without the headers of the hop (the
    connection and proxy headers, and those that name the client), and with
    every other header as the client sent it; a WebSocket handshake keeps its
    Connection and Upgrade headers. *)
Theorem sanitize_correct req k :
  Header_Values (rq_Header (SanitizeHeaders req)) k =
    (if bool_decide (CanonicalHeaderKey k ∈ map CanonicalHeaderKey hopHeaders) then []
     else Header_Values (rq_Header req) k) /\
  (forall token, token ∈ [str "Connection"; str "Upgrade"; str "Sec-WebSocket-Key"] ->
     Header_Values (rq_Header (sanitizeWebSocketRequest req)) token = Header_Values (rq_Header req) token).
Proof.
  split; [apply fold_Del_values|]. intros token Ht. unfold sanitizeWebSocketRequest, mapHeader. cbn [rq_Header].
  rewrite fold_Del_values. rewrite !elem_of_cons, elem_of_nil in Ht.
  destruct Ht as [->|[->|[->|[]]]]; reflexivity.
Qed.

(** ** Filtered responses *)

Section responses.
Context `{UnicodeTables} `{ContentSniffer} `{Regexp}.

Lemma unframe_chunked resp : responseUsesChunked (unframe resp) = true.
Proof. reflexivity. Qed.


End responses.

(** ** Witnesses *)

Definition sample_response (req : option Request) : Response :=
  MkResponse (str "200 OK") 200 [(str "Content-Type", [str "text/plain"]); (str "Content-Length", [str "14"])]
    14 [] false true req.


(** ** What the framing does not promise *)

(** The answer to a HEAD request has no body, but an inspected one is framed
    as chunked all the same, and the proxy writes the last chunk: the client
    finds five bytes before the next response. *)
Lemma head_response_has_body :
  let req := MkRequest (str "HEAD") None [] (str "a.org") 0 [] false false in
  match @writeResponseStreaming ascii_tables sample_sniffer literal_regexp (fun _ => []) 5 8 false None
          (sample_response (Some req)) [] [] with
  | Some (wire, _, _) => exists head, wire = head ++ CRLF ++ CRLF ++ str "0" ++ CRLF ++ CRLF
  | None => False
  end.
Proof.
  cbv zeta. match goal with |- match ?x with _ => _ end => let v := eval vm_compute in x in
    assert (x = v) as -> by (vm_compute; reflexivity) end.
  match goal with |- exists head, ?w = _ => exists (take (length w - 9) w) end. vm_compute. reflexivity.
Qed.

(** A request that the exfiltration preventer blocks has been sent to the
    origin as a complete message: the chunked body is closed. *)
Lemma blocked_request_completes :
  let req := MkRequest (str "POST") None [(str "Content-Type", [str "text/plain"])] (str "x.googleapis.com") (-1)
               [str "chunked"] false true in
  let subst := @MkSubstitutionFilter literal_regexp [SubRule (str "SECRET") []] [] false in
  match @writeRequestStreaming ascii_tables sample_sniffer literal_regexp 50 8 false None (Some subst) true
          req [] [(str "hello my SECRET", None)] with
  | Some (wire, dec, _) =>
      Blocked dec = true /\ exists head, wire = head ++ CRLF ++ str "0" ++ CRLF ++ CRLF
  | None => False
  end.
Proof.
  cbv zeta. match goal with |- match ?x with _ => _ end => let v := eval vm_compute in x in
    assert (x = v) as -> by (vm_compute; reflexivity) end.
  split; [reflexivity|].
  match goal with |- exists head, ?w = _ => exists (take (length w - 7) w) end. vm_compute. reflexivity.
Qed.
